(** * ATLAS: hierarchical adaptive chunker and hybrid retrieval engine

    A shallow embedding of the chunking and retrieval core of the
    repository ([adaptive_chunker.py], [universal_classifier.py],
    [deduplication_utils.py], [hybrid_retrieval.py], [retrieval_types.py]),
    of the embedding pipeline ([embedding_pipeline.py]) and of the query
    engine with its helpers ([query_engine.py],
    [section_context_detector.py], [llm_integration.py]), together with the
    properties stated for them.

    Conventions of the embedding.
    - A Python [str] is a list of characters, [str := list ascii]; a character
      is a code point in the range 0..255.  The alternatives of the source
      patterns that lie outside this range (en dash, em dash, bullet, rupee
      sign) can never match such a text and are left out of the character
      classes.
    - A Python [float] score is an IEEE 754 binary64 number ([spec_float]
      of the Standard Library): NaN, the infinities and the rounding of
      every product and sum are part of the embedding.  The similarity
      ratio of [difflib] and the threshold it is compared with are rational
      numbers ([Q]), and so are the numbers of an embedding vector, which
      the code passes on without computing on them.
    - [sorted] and [list.sort] compare keys with [<] only.  What they make
      of keys that are not totally ordered, when the list is not one run
      already, depends on the interpreter; it is a parameter [arrangement]
      of the functions that sort.
    - A Python [int] that may be negative (size budgets, page numbers) is [Z];
      lengths and positions are [nat].
    - [re] is embedded as a small backtracking matcher with Python's
      priorities (greedy repetition, ordered alternation, leftmost match);
      each compiled pattern of the source is a value of type [regex].
    - [difflib.SequenceMatcher(None, a, b).ratio()] is a parameter [ratio] of
      the deduplication functions.
    - The rerank loop writes the score and the tier of each result object
      in place.  The list it runs over comes from [_merge_results] and holds
      one object per chunk identity, so every object is written once and
      the loop is embedded as a map over the results; the same stage on
      objects, where the writes and the sort in place show, is
      [HybridRetrievalObjects], and it computes what the map computes.
    - The deduplication functions are embedded twice: on values, as
      functions from lists of results to lists of results, and on objects,
      as computations on a store of result objects and list objects, where
      what they write can be told from what they read.
    - The database and the embedding service are a record [Backend] of the
      answers they give; a call that can raise returns an [outcome].
    - The HTTP service behind the embedding pipeline is a function from the
      number of a call and the number of an attempt to its reply; the
      language model behind the query engine is a function to an
      [outcome]. *)

From Stdlib Require Import List ZArith QArith Ascii String Lia Lqa Permutation Sorted Bool.
From Stdlib Require Import SpecFloat.
From stdpp Require Import gmap.
Import ListNotations.

Set Default Proof Using "Type".
Local Open Scope nat_scope.

(* ===================================================================== *)
(** * Python strings *)
(* ===================================================================== *)

Module PyStr.

Definition str := list ascii.

(** A literal. *)
Definition lit (s : string) : str := list_ascii_of_string s.

Definition nl : ascii := ascii_of_nat 10.

Definition code (c : ascii) : nat := nat_of_ascii c.

Definition in_range (lo hi : nat) (c : ascii) : bool :=
  (lo <=? code c) && (code c <=? hi).

(** [str.isspace] on one character, which is also the class [\s] of [re]:
    U+0009..U+000D, U+001C..U+0020, U+0085, U+00A0. *)
Definition is_space (c : ascii) : bool :=
  in_range 9 13 c || in_range 28 32 c || (code c =? 133) || (code c =? 160).

(** The class [\d]: the only decimal digits below U+0100 are [0-9]. *)
Definition is_digit (c : ascii) : bool := in_range 48 57 c.

Definition is_upper_az (c : ascii) : bool := in_range 65 90 c.
Definition is_lower_az (c : ascii) : bool := in_range 97 122 c.
Definition is_alpha_az (c : ascii) : bool := is_upper_az c || is_lower_az c.

(** The class [\w]: characters for which [str.isalnum] holds, and [_]. *)
Definition is_word (c : ascii) : bool :=
  is_digit c || is_alpha_az c || (code c =? 95)
  || (code c =? 170) || (code c =? 178) || (code c =? 179) || (code c =? 181)
  || (code c =? 185) || (code c =? 186) || in_range 188 190 c
  || in_range 192 214 c || in_range 216 246 c || in_range 248 255 c.

(** [str.lower] on one character: [A-Z] and the upper-case letters
    U+00C0..U+00DE (the multiplication sign U+00D7 apart). *)
Definition lower_char (c : ascii) : ascii :=
  if is_upper_az c || (in_range 192 222 c && negb (code c =? 215))
  then ascii_of_nat (code c + 32) else c.

Definition lower (s : str) : str := map lower_char s.

Fixpoint lstrip (s : str) : str :=
  match s with
  | c :: s' => if is_space c then lstrip s' else s
  | [] => []
  end.

Definition rstrip (s : str) : str := rev (lstrip (rev s)).

Definition strip (s : str) : str := rstrip (lstrip s).

Definition ascii_eqb (a b : ascii) : bool := Ascii.eqb a b.

Fixpoint str_eqb (a b : str) : bool :=
  match a, b with
  | [], [] => true
  | x :: a', y :: b' => ascii_eqb x y && str_eqb a' b'
  | _, _ => false
  end.

Fixpoint starts_with (p s : str) : bool :=
  match p, s with
  | [], _ => true
  | x :: p', y :: s' => ascii_eqb x y && starts_with p' s'
  | _ :: _, [] => false
  end.

(** [needle in hay]. *)
Fixpoint contains (needle hay : str) : bool :=
  starts_with needle hay ||
  match hay with
  | [] => false
  | _ :: hay' => contains needle hay'
  end.

(** [s[a:b]] for non-negative [a] and [b]. *)
Definition slice (s : str) (a b : nat) : str := firstn (b - a) (skipn a s).

(** [s.replace(old, new)] for a non-empty [old]: occurrences are replaced
    from left to right, without overlap.  [skip] counts the characters of
    an occurrence that are still to be passed over. *)
Fixpoint replace_go (old new : str) (s : str) (skip : nat) : str :=
  match s with
  | [] => []
  | c :: s' =>
      match skip with
      | S k => replace_go old new s' k
      | O => if starts_with old s
             then new ++ replace_go old new s' (length old - 1)
             else c :: replace_go old new s' 0
      end
  end.

Definition replace (s old new : str) : str := replace_go old new s 0.

(** [in] on a list of strings. *)
Definition str_in (x : str) (l : list str) : bool := existsb (str_eqb x) l.

(** [l.index(x)]: position of the first element equal to [x]. *)
Fixpoint index_of (x : str) (l : list str) : option nat :=
  match l with
  | [] => None
  | y :: l' => if str_eqb y x then Some 0
               else match index_of x l' with Some i => Some (S i) | None => None end
  end.

(** [t] occurs in [s] as a contiguous run of characters. *)
Definition substring_of (t s : str) : Prop := exists a b, s = a ++ t ++ b.

End PyStr.

(* ===================================================================== *)
(** * The regular-expression engine *)
(* ===================================================================== *)

Module Re.
Import PyStr.

Inductive regex : Type :=
| Eps
| Cls (p : ascii -> bool)          (* one character of a class *)
| Seq (a b : regex)
| Alt (a b : regex)                (* [a|b], [a] tried first *)
| Star (a : regex)                 (* greedy [a*] *)
| Grp (n : nat) (a : regex)        (* capturing group number [n] *)
| Bol (multiline : bool)           (* [^] *)
| Eol (multiline : bool)           (* [$] *)
| Ahead (a : regex)                (* [(?=a)] *)
| Behind (p : ascii -> bool)       (* [(?<=[...])], one character *)
| WordB.                           (* [\b] *)

Definition Plus (a : regex) : regex := Seq a (Star a).
Definition Opt (a : regex) : regex := Alt a Eps.

Fixpoint Rep (n : nat) (a : regex) : regex :=
  match n with O => Eps | S n' => Seq a (Rep n' a) end.

Fixpoint Seqs (l : list regex) : regex :=
  match l with [] => Eps | [a] => a | a :: l' => Seq a (Seqs l') end.

Definition Chr (c : ascii) : regex := Cls (ascii_eqb c).

(** A literal character under [re.IGNORECASE]. *)
Definition ChrI (c : ascii) : regex :=
  Cls (fun x => ascii_eqb (lower_char x) (lower_char c)).

Definition Lit (s : string) : regex := Seqs (map Chr (lit s)).
Definition LitI (s : string) : regex := Seqs (map ChrI (lit s)).

Definition one_of (s : string) (c : ascii) : bool := existsb (ascii_eqb c) (lit s).

Definition Space : regex := Cls is_space.
Definition Digit : regex := Cls is_digit.
(** [.] without [re.DOTALL]. *)
Definition Dot : regex := Cls (fun c => negb (ascii_eqb c nl)).

(** The matcher walks a cursor over the text: the position, the character
    just before it, the characters still ahead and the groups captured so
    far. *)
Record cursor : Type := mkCursor {
  pos : nat;
  prev : option ascii;
  rest : str;
  caps : list (nat * (nat * nat))
}.

Definition start_cursor (s : str) : cursor := mkCursor 0 None s [].

Definition advance (c : cursor) : option cursor :=
  match rest c with
  | [] => None
  | x :: xs => Some (mkCursor (S (pos c)) (Some x) xs (caps c))
  end.

Definition set_cap (n : nat) (a b : nat) (c : cursor) : cursor :=
  mkCursor (pos c) (prev c) (rest c) ((n, (a, b)) :: caps c).

Definition at_bol (multiline : bool) (c : cursor) : bool :=
  match prev c with
  | None => true
  | Some x => multiline && ascii_eqb x nl
  end.

Definition at_eol (multiline : bool) (c : cursor) : bool :=
  match rest c with
  | [] => true
  | x :: xs => ascii_eqb x nl && (multiline || match xs with [] => true | _ => false end)
  end.

Definition word_before (c : cursor) : bool :=
  match prev c with Some x => is_word x | None => false end.
Definition word_after (c : cursor) : bool :=
  match rest c with x :: _ => is_word x | [] => false end.

(** [run r c k]: match [r] at [c], then continue with [k]; the first
    success in Python's order of preference is returned.  An iteration of
    [Star] that consumes nothing ends the repetition. *)
Fixpoint run (r : regex) (c : cursor) (k : cursor -> option cursor) {struct r}
  : option cursor :=
  match r with
  | Eps => k c
  | Cls p =>
      match rest c with
      | x :: xs => if p x then k (mkCursor (S (pos c)) (Some x) xs (caps c)) else None
      | [] => None
      end
  | Seq a b => run a c (fun c' => run b c' k)
  | Alt a b =>
      match run a c k with
      | Some res => Some res
      | None => run b c k
      end
  | Star a =>
      (fix loop (fuel : nat) (c : cursor) {struct fuel} : option cursor :=
         match fuel with
         | O => k c
         | S fuel' =>
             match run a c (fun c' => if pos c <? pos c' then loop fuel' c' else None) with
             | Some res => Some res
             | None => k c
             end
         end) (S (length (rest c))) c
  | Grp n a => run a c (fun c' => k (set_cap n (pos c) (pos c') c'))
  | Bol ml => if at_bol ml c then k c else None
  | Eol ml => if at_eol ml c then k c else None
  | Ahead a =>
      match run a c Some with
      | Some _ => k c
      | None => None
      end
  | Behind p =>
      match prev c with
      | Some x => if p x then k c else None
      | None => None
      end
  | WordB => if xorb (word_before c) (word_after c) then k c else None
  end.

(** A match object: [start()], [end()] and the captured groups. *)
Record rmatch : Type := mkMatch {
  m_start : nat;
  m_end : nat;
  m_caps : list (nat * (nat * nat))
}.

Definition match_at (r : regex) (c : cursor) : option rmatch :=
  match run r (mkCursor (pos c) (prev c) (rest c) []) Some with
  | Some c' => Some (mkMatch (pos c) (pos c') (caps c'))
  | None => None
  end.

(** Leftmost match at or after the cursor; [fuel] bounds the positions
    tried. *)
Fixpoint search_from (r : regex) (fuel : nat) (c : cursor) : option (rmatch * cursor) :=
  match match_at r c with
  | Some m => Some (m, c)
  | None =>
      match fuel with
      | O => None
      | S fuel' =>
          match advance c with
          | Some c' => search_from r fuel' c'
          | None => None
          end
      end
  end.

(** [pattern.search(s)] as a boolean. *)
Definition search (r : regex) (s : str) : bool :=
  match search_from r (length s) (start_cursor s) with
  | Some _ => true
  | None => false
  end.

Fixpoint advance_to (fuel : nat) (target : nat) (c : cursor) : cursor :=
  match fuel with
  | O => c
  | S fuel' =>
      if pos c <? target
      then match advance c with Some c' => advance_to fuel' target c' | None => c end
      else c
  end.

(** [pattern.finditer(s)]: the non-overlapping matches from left to right.
    The scan resumes at the end of a match, and one character after its
    start when the match is empty (every pattern of this development
    matches either never or always the empty string). *)
Fixpoint finditer_from (r : regex) (fuel : nat) (c : cursor) : list rmatch :=
  match fuel with
  | O => []
  | S fuel' =>
      match search_from r (length (rest c)) c with
      | None => []
      | Some (m, c0) =>
          m :: match advance c0 with
               | Some c1 =>
                   finditer_from r fuel' (advance_to (length (rest c1)) (m_end m) c1)
               | None => []
               end
      end
  end.

Definition finditer (r : regex) (s : str) : list rmatch :=
  finditer_from r (S (length s)) (start_cursor s).

(** [match.group(n)]; a group that did not take part yields [None]. *)
Definition group (s : str) (m : rmatch) (n : nat) : option str :=
  match find (fun e => fst e =? n) (m_caps m) with
  | Some (_, (a, b)) => Some (slice s a b)
  | None => None
  end.

Definition group_or_empty (s : str) (m : rmatch) (n : nat) : str :=
  match group s m n with Some g => g | None => [] end.

(** [re.split(pattern, s)] for a pattern without capturing groups: the
    pieces of [s] between consecutive matches. *)
Fixpoint split_at (s : str) (from : nat) (ms : list rmatch) : list str :=
  match ms with
  | [] => [slice s from (length s)]
  | m :: ms' => slice s from (m_start m) :: split_at s (m_end m) ms'
  end.

Definition split (r : regex) (s : str) : list str := split_at s 0 (finditer r s).

End Re.

(* ===================================================================== *)
(** * universal_classifier.py *)
(* ===================================================================== *)

Module UniversalClassifier.
Import PyStr.

Definition critical_keywords : list str :=
  map lit
    [ "fair value"%string;
      "investment propert"%string;
      "as at march 31"%string;
      "as at"%string;
      "carrying amount"%string;
      "note:"%string; "note "%string;
      "significant accounting"%string;
      "the group's investment"%string;
      "the company's investment"%string;
      "determined based on"%string;
      "fair values of the properties"%string;
      "properties are inr"%string ].

(** [is_critical_paragraph]: the lower-cased text contains one of the
    critical keywords. *)
Definition is_critical_paragraph (text : str) : bool :=
  let text_lower := lower text in
  existsb (fun keyword => contains keyword text_lower) critical_keywords.

End UniversalClassifier.

(* ===================================================================== *)
(** * adaptive_chunker.py: NoteParser *)
(* ===================================================================== *)

Module NoteParser.
Import PyStr Re.

(** [(?:^|\n)], the prefix shared by the line-anchored patterns. *)
Definition line_start : regex := Alt (Bol true) (Chr nl).

(** [[A-Za-z\s,&\(\)]]. *)
Definition title_char (c : ascii) : bool :=
  is_alpha_az c || is_space c || one_of ",&()" c.

(** [(?:^|\n)\s*NOTE\s+(\d+)\s*[-:]*\s*] and then, as group 2,
    [[A-Z][A-Za-z\s,&\(\)]*], under [re.IGNORECASE | re.MULTILINE]: with
    case ignored, [[A-Z]] is any letter. *)
Definition main_note_pattern : regex :=
  Seqs [ line_start; Star Space; LitI "NOTE"; Plus Space;
         Grp 1 (Plus Digit); Star Space; Star (Cls (one_of "-:")); Star Space;
         Grp 2 (Seq (Cls is_alpha_az) (Star (Cls title_char))) ].

(** [(?:^|\n)\s*(\d+)\.(\d+)\s+] and then, as group 3,
    [[A-Z][A-Za-z\s,&\(\)]*], under [re.MULTILINE]. *)
Definition sub_note_pattern : regex :=
  Seqs [ line_start; Star Space; Grp 1 (Plus Digit); Chr "."; Grp 2 (Plus Digit);
         Plus Space;
         Grp 3 (Seq (Cls is_upper_az) (Star (Cls title_char))) ].

(** [(?:^|\n)\s*\(([a-z])\)\s+] and then, as group 2,
    [[A-Z][A-Za-z\s,&\(\)]*], under [re.MULTILINE]. *)
Definition sub_section_pattern : regex :=
  Seqs [ line_start; Star Space; Chr "("; Grp 1 (Cls is_lower_az); Chr ")";
         Plus Space;
         Grp 2 (Seq (Cls is_upper_az) (Star (Cls title_char))) ].

Record NoteBoundary : Type := mkNoteBoundary {
  nb_note_number : str;
  nb_note_title : str;
  nb_start_pos : nat;
  nb_end_pos : option nat;      (* [None] until the end positions are set *)
  nb_match_start : nat
}.

Definition with_end_pos (b : NoteBoundary) (e : nat) : NoteBoundary :=
  mkNoteBoundary (nb_note_number b) (nb_note_title b) (nb_start_pos b) (Some e)
                 (nb_match_start b).

(** The second loop of [detect_note_boundaries] and of
    [parse_note_hierarchy]: entry [i] ends where entry [i + 1] starts, the
    last one at [total]. *)
Definition set_end_positions (bs : list NoteBoundary) (total : nat) : list NoteBoundary :=
  imap (fun i b =>
          if i <? length bs - 1
          then match bs !! (i + 1) with
               | Some b' => with_end_pos b (nb_start_pos b')
               | None => b
               end
          else with_end_pos b total) bs.

Definition boundary_of_match (text : str) (m : rmatch) : NoteBoundary :=
  let note_num := group_or_empty text m 1 in
  let note_title := strip (group_or_empty text m 2) in
  mkNoteBoundary (lit "Note " ++ note_num) note_title (m_start m) None (m_start m).

Definition detect_note_boundaries (text : str) : list NoteBoundary :=
  let boundaries := map (boundary_of_match text) (finditer main_note_pattern text) in
  set_end_positions boundaries (length text).

(** [bool(detect_note_boundaries(text))]: were any notes found? *)
Definition nonempty_boundaries (text : str) : bool :=
  match detect_note_boundaries text with [] => false | _ :: _ => true end.

Record SubSection : Type := mkSubSection {
  ss_sub_section : str;
  ss_title : str;
  ss_start_pos : nat;
  ss_match_start : nat
}.

Record NoteHierarchy : Type := mkNoteHierarchy {
  sub_notes : list NoteBoundary;    (* [nb_note_number] holds ['12.1'] *)
  sub_sections : list SubSection
}.

(** The entry appended for a match of [sub_note_pattern]. *)
Definition sub_note_of_match (note_text : str) (m : rmatch) : NoteBoundary :=
  let num1 := group_or_empty note_text m 1 in
  let num2 := group_or_empty note_text m 2 in
  let title := strip (group_or_empty note_text m 3) in
  mkNoteBoundary (num1 ++ lit "." ++ num2) title (m_start m) None (m_start m).

(** [num1 == main_num] for a match of [sub_note_pattern]. *)
Definition belongs_to (note_text main_num : str) (m : rmatch) : bool :=
  str_eqb (group_or_empty note_text m 1) main_num.

Definition sub_section_of_match (note_text : str) (m : rmatch) : SubSection :=
  let letter := group_or_empty note_text m 1 in
  let title := match group note_text m 2 with
               | Some g => if match g with [] => false | _ => true end then strip g else []
               | None => []
               end in
  mkSubSection (lit "(" ++ letter ++ lit ")") title (m_start m) (m_start m).

Definition parse_note_hierarchy (note_text note_number : str) : NoteHierarchy :=
  let main_num := replace note_number (lit "Note ") [] in
  let accepted :=
    List.filter (fun m => belongs_to note_text main_num m)
           (finditer sub_note_pattern note_text) in
  let subs := set_end_positions (map (sub_note_of_match note_text) accepted)
                                (length note_text) in
  let secs := map (sub_section_of_match note_text)
                  (finditer sub_section_pattern note_text) in
  mkNoteHierarchy subs secs.

Record ContentAnalysis : Type := mkContentAnalysis {
  ca_has_subjective : bool;
  ca_has_objective : bool;
  ca_content_types : list str
}.

(** [(?:^|\n)\s*\|.*\|] under [re.MULTILINE]. *)
Definition table_row_pattern : regex :=
  Seqs [ line_start; Star Space; Chr "|"; Star Dot; Chr "|" ].

(** [(?:INR|Rs\.)\s*[\d,]+(?:\.\d+)?(?:\s*(?:lakhs?|crores?|millions?|billions?))?]
    under [re.IGNORECASE]. *)
Definition currency_pattern : regex :=
  Seqs [ Alt (LitI "INR") (LitI "Rs.");
         Star Space;
         Plus (Cls (fun c => is_digit c || ascii_eqb c ","));
         Opt (Seq (Chr ".") (Plus Digit));
         Opt (Seq (Star Space)
                  (Alt (Seq (LitI "lakh") (Opt (ChrI "s")))
                  (Alt (Seq (LitI "crore") (Opt (ChrI "s")))
                  (Alt (Seq (LitI "million") (Opt (ChrI "s")))
                       (Seq (LitI "billion") (Opt (ChrI "s"))))))) ].

Definition word (r : regex) : regex := Seqs [WordB; r; WordB].

(** The eight explanatory-language patterns, each under [re.IGNORECASE]. *)
Definition subjective_keywords : list regex :=
  [ word (LitI "has been determined");
    word (LitI "based on");
    word (LitI "in accordance with");
    word (Seqs [ LitI "management"; Plus Space;
                 Alt (LitI "is of the view")
                     (Alt (LitI "believes") (LitI "considers")) ]);
    word (Seq (LitI "assumption") (Opt (ChrI "s")));
    word (Seq (LitI "estimate") (Opt (ChrI "s")));
    word (LitI "judgement");
    word (Seq (LitI "require") (Opt (ChrI "s"))) ].

Definition append_unless_in (x : str) (l : list str) : list str :=
  if str_in x l then l else l ++ [x].

(** [detect_content_types].  [len(text.split('\n\n')) > 1] holds exactly
    when the text contains two consecutive newlines. *)
Definition detect_content_types (text : str) : ContentAnalysis :=
  let r0 := mkContentAnalysis false false [] in
  let r1 := if search table_row_pattern text
            then mkContentAnalysis (ca_has_subjective r0) true
                                   (ca_content_types r0 ++ [lit "table"])
            else r0 in
  let r2 := if search currency_pattern text
            then mkContentAnalysis (ca_has_subjective r1) true
                                   (append_unless_in (lit "numerical") (ca_content_types r1))
            else r1 in
  let r3 := if existsb (fun keyword => search keyword text) subjective_keywords
            then mkContentAnalysis true (ca_has_objective r2)
                                   (append_unless_in (lit "paragraph") (ca_content_types r2))
            else r2 in
  if contains [nl; nl] text
  then mkContentAnalysis true (ca_has_objective r3)
                         (append_unless_in (lit "paragraph") (ca_content_types r3))
  else r3.

End NoteParser.

(* ===================================================================== *)
(** * adaptive_chunker.py: AdaptiveChunker *)
(* ===================================================================== *)

Module AdaptiveChunker.
Import PyStr Re NoteParser.

Inductive ChunkType : Type :=
| ct_table | ct_paragraph | ct_list | ct_heading | ct_note_header
| ct_note_complete | ct_note_section | ct_note_mixed | ct_note_table
| ct_note_paragraph.

Record Chunk : Type := mkChunk {
  text : str;
  chunk_type : ChunkType;
  page_numbers : list Z;
  char_count : nat;
  is_critical : bool;
  note_number : option str;
  sub_note : option str;
  sub_section : option str;
  sub_sub_section : option str;
  note_title : option str;
  content_types : option (list str);
  has_subjective : bool;
  has_objective : bool;
  hierarchy_level : nat;
  parent_note : option str;
  is_complete_note : bool
}.

(** [Chunk(text, chunk_type, page_numbers, char_count, is_critical)] with
    every optional field at its default. *)
Definition plain_chunk (t : str) (ty : ChunkType) (pages : list Z) (n : nat)
    (critical : bool) : Chunk :=
  mkChunk t ty pages n critical None None None None None None false false 0 None false.

Inductive ElementType : Type := et_table | et_list | et_heading | et_paragraph.

Record Element : Type := mkElement {
  e_type : ElementType;
  e_text : str;
  e_page_num : Z
}.

(** The chunker object: its three constructor arguments. *)
Record t : Type := mkChunker {
  max_chunk_size : Z;
  overlap : Z;
  enable_note_aware : bool
}.

Definition len (s : str) : Z := Z.of_nat (length s).

Definition nonempty {A : Type} (l : list A) : bool :=
  match l with [] => false | _ :: _ => true end.

(** [(?:^|\n)(?:\s*\|.*\|.*$|\s*[-+]+\s*$)] under [re.MULTILINE]. *)
Definition table_pattern : regex :=
  Seq line_start
      (Alt (Seqs [Star Space; Chr "|"; Star Dot; Chr "|"; Star Dot; Eol true])
           (Seqs [Star Space; Plus (Cls (one_of "-+")); Star Space; Eol true])).

(** [\d+\.] or one of the bullet characters [-] and [*]. *)
Definition list_marker : regex :=
  Alt (Seq (Plus Digit) (Chr ".")) (Cls (one_of "-*")).

(** [(?:^|\n)\s*(?:\d+\.|[\-\*])\s+] under [re.MULTILINE]. *)
Definition list_pattern : regex :=
  Seqs [line_start; Star Space; list_marker; Plus Space].

(** [^[A-Z\s]{10,}$|^NOTE\s+\d+] under [re.MULTILINE]. *)
Definition heading_pattern : regex :=
  let caps_or_space := Cls (fun c => is_upper_az c || is_space c) in
  Alt (Seqs [Bol true; Rep 10 caps_or_space; Star caps_or_space; Eol true])
      (Seqs [Bol true; Lit "NOTE"; Plus Space; Plus Digit]).

(** [\n\s*\n], the paragraph separator of [_extract_elements]. *)
Definition blank_line : regex := Seqs [Chr nl; Star Space; Chr nl].

(** [(?<=[.!?])\s+], the sentence separator of [_chunk_paragraph]. *)
Definition sentence_break : regex := Seq (Behind (one_of ".!?")) (Plus Space).

(** [(?=(?:^|\n)\s*(?:\d+\.|[\-\*])\s+)], compiled without flags: the
    place in front of a list marker, where [_chunk_list] splits. *)
Definition item_start : regex :=
  Ahead (Seqs [Alt (Bol false) (Chr nl); Star Space; list_marker; Plus Space]).

Definition _classify_element_type (self : t) (text : str) : ElementType :=
  let text_strip := strip text in
  if (len text_strip <? 100)%Z && search heading_pattern text_strip then et_heading
  else if search table_pattern text_strip then et_table
  else if search list_pattern text_strip then et_list
  else et_paragraph.

Definition _extract_elements (self : t) (text : str) (page_num : Z) : list Element :=
  let sections := split blank_line text in
  flat_map (fun section =>
              if nonempty (strip section)
              then [mkElement (_classify_element_type self section) (strip section) page_num]
              else [])
           sections.

(** ** Paragraph and list splitting *)

(** The chunk saved when the accumulated text is not blank. *)
Definition save_chunk (ty : ChunkType) (page_num : Z) (chunks : list Chunk)
    (current_chunk : str) : list Chunk :=
  if nonempty (strip current_chunk)
  then chunks ++ [plain_chunk (strip current_chunk) ty [page_num]
                              (length (strip current_chunk)) false]
  else chunks.

(** [sentences[sentences.index(sentence) - 1]] when the index is positive,
    the empty string otherwise. *)
Definition last_sentence_before (sentences : list str) (sentence : str) : str :=
  match index_of sentence sentences with
  | Some (S i) => nth i sentences []
  | _ => []
  end.

(** One turn of the loop over the sentences; the state is
    [(chunks, current_chunk, current_size)]. *)
Definition paragraph_step (self : t) (page_num : Z) (sentences : list str)
    (st : list Chunk * str * Z) (sentence : str) : list Chunk * str * Z :=
  let '(chunks, current_chunk, current_size) := st in
  let sentence_len := len sentence in
  if (current_size + sentence_len <=? max_chunk_size self)%Z
  then (chunks, current_chunk ++ sentence ++ lit " ", (current_size + sentence_len + 1)%Z)
  else
    let chunks := save_chunk ct_paragraph page_num chunks current_chunk in
    if nonempty chunks
    then
      let last_sentence := last_sentence_before sentences sentence in
      (chunks, last_sentence ++ lit " " ++ sentence ++ lit " ",
       (len last_sentence + sentence_len + 2)%Z)
    else (chunks, sentence ++ lit " ", (sentence_len + 1)%Z).

Definition _chunk_paragraph (self : t) (text : str) (page_num : Z) : list Chunk :=
  let sentences := split sentence_break text in
  let '(chunks, current_chunk, _) :=
    fold_left (paragraph_step self page_num sentences) sentences ([], [], 0%Z) in
  let chunks := save_chunk ct_paragraph page_num chunks current_chunk in
  if nonempty chunks then chunks
  else [plain_chunk text ct_paragraph [page_num] (length text) false].

Definition list_step (self : t) (page_num : Z)
    (st : list Chunk * str * Z) (item : str) : list Chunk * str * Z :=
  let '(chunks, current_chunk, current_size) := st in
  let item_len := len item in
  if (current_size + item_len <=? max_chunk_size self)%Z
  then (chunks, current_chunk ++ item ++ [nl], (current_size + item_len + 1)%Z)
  else
    let chunks := save_chunk ct_list page_num chunks current_chunk in
    (chunks, item ++ [nl], (item_len + 1)%Z).

Definition _chunk_list (self : t) (text : str) (page_num : Z) : list Chunk :=
  let items := split item_start text in
  let items := flat_map (fun item => if nonempty (strip item) then [strip item] else [])
                        items in
  let '(chunks, current_chunk, _) :=
    fold_left (list_step self page_num) items ([], [], 0%Z) in
  let chunks := save_chunk ct_list page_num chunks current_chunk in
  if nonempty chunks then chunks
  else [plain_chunk text ct_list [page_num] (length text) false].

(** ** Chunking one element *)

Definition _chunk_element (self : t) (element : Element) (page_num : Z) : list Chunk :=
  let element_type := e_type element in
  let text := e_text element in
  match element_type with
  | et_table => [plain_chunk text ct_table [page_num] (length text) true]
  | _ =>
    if match element_type with et_paragraph => true | _ => false end
       && UniversalClassifier.is_critical_paragraph text
    then [plain_chunk text ct_paragraph [page_num] (length text) true]
    else
      match element_type with
      | et_heading => [plain_chunk text ct_heading [page_num] (length text) true]
      | et_list =>
          if (len text <=? max_chunk_size self)%Z
          then [plain_chunk text ct_list [page_num] (length text) false]
          else _chunk_list self text page_num
      | _ =>
          if (len text <=? max_chunk_size self)%Z
          then [plain_chunk text ct_paragraph [page_num] (length text) false]
          else _chunk_paragraph self text page_num
      end
  end.

(** ** Note-aware chunking *)

(** [page_numbers[0] if page_numbers else 1]. *)
Definition first_page_or_1 (page_numbers : list Z) : Z :=
  match page_numbers with p :: _ => p | [] => 1%Z end.

(** The [note_section] chunk built for a sub-note or a sub-section. *)
Definition section_chunk (full_text : str) (page_numbers : list Z)
    (note_number : str) (sub_note : str) (sub_section : option str)
    (note_title : option str) (analysis : ContentAnalysis) (level : nat) : Chunk :=
  mkChunk full_text ct_note_section page_numbers (length full_text) true
          (Some note_number) (Some sub_note) sub_section None note_title
          (Some (ca_content_types analysis))
          (ca_has_subjective analysis) (ca_has_objective analysis)
          level (Some note_number) false.

(** The fields [_chunk_note_subsections] overwrites on a paragraph chunk. *)
Definition as_note_paragraph (note_number sub_note : str) (pc : Chunk) : Chunk :=
  mkChunk (text pc) ct_note_paragraph (page_numbers pc) (char_count pc) (is_critical pc)
          (Some note_number) (Some sub_note) (sub_section pc) (sub_sub_section pc)
          (note_title pc) (content_types pc) (has_subjective pc) (has_objective pc)
          2 (Some note_number) (is_complete_note pc).

(** [(sub_section, start_pos, end_pos)] for every match of
    [sub_section_pattern], the ends set as for note boundaries. *)
Definition sub_section_bounds (text : str) : list NoteBoundary :=
  set_end_positions
    (map (fun m => mkNoteBoundary (lit "(" ++ group_or_empty text m 1 ++ lit ")") []
                                  (m_start m) None (m_start m))
         (finditer sub_section_pattern text))
    (length text).

(** [s[b.start_pos : b.end_pos]]; an end position still [None] slices to
    the end of [s]. *)
Definition slice_of (s : str) (b : NoteBoundary) : str :=
  match nb_end_pos b with
  | Some e => slice s (nb_start_pos b) e
  | None => skipn (nb_start_pos b) s
  end.

Definition _chunk_note_subsections (self : t) (text parent_header note_number sub_note : str)
    (page_numbers : list Z) : list Chunk :=
  let sub_sections := sub_section_bounds text in
  if nonempty sub_sections
  then
    map (fun sub_sec_info =>
           let sub_sec_text := strip (slice_of text sub_sec_info) in
           let full_text := parent_header ++ sub_sec_text in
           section_chunk full_text page_numbers note_number sub_note
                         (Some (nb_note_number sub_sec_info)) None
                         (detect_content_types sub_sec_text) 2)
        sub_sections
  else
    let full_text := parent_header ++ text in
    if (len full_text >? max_chunk_size self * 2)%Z
    then map (as_note_paragraph note_number sub_note)
             (_chunk_paragraph self text (first_page_or_1 page_numbers))
    else [section_chunk full_text page_numbers note_number sub_note None None
                        (detect_content_types text) 1].

(** The [note_mixed] chunk saved by [_chunk_large_note_by_elements]. *)
Definition mixed_chunk (current_chunk_text : str) (page_numbers : list Z)
    (note_number note_title : str) : Chunk :=
  let analysis := detect_content_types current_chunk_text in
  mkChunk (strip current_chunk_text) ct_note_mixed page_numbers
          (length (strip current_chunk_text)) true
          (Some note_number) None None None (Some note_title)
          (Some (ca_content_types analysis))
          (ca_has_subjective analysis) (ca_has_objective analysis)
          0 (Some note_number) false.

(** One turn of the packing loop; the state is
    [(chunks, current_chunk_text, current_chunk_elements)]. *)
Definition pack_step (self : t) (note_header : str) (page_numbers : list Z)
    (note_number note_title : str)
    (st : list Chunk * str * list ElementType) (element : Element)
  : list Chunk * str * list ElementType :=
  let '(chunks, current_chunk_text, current_chunk_elements) := st in
  let element_text := e_text element in
  let element_type := e_type element in
  let '(chunks, current_chunk_text, current_chunk_elements) :=
    if (len current_chunk_text + len element_text >? max_chunk_size self)%Z
       && nonempty current_chunk_elements
    then (chunks ++ [mixed_chunk current_chunk_text page_numbers note_number note_title],
          note_header, [])
    else (chunks, current_chunk_text, current_chunk_elements) in
  (chunks, current_chunk_text ++ [nl; nl] ++ element_text,
   current_chunk_elements ++ [element_type]).

Definition _chunk_large_note_by_elements (self : t)
    (note_text note_header note_number note_title : str) (page_numbers : list Z)
  : list Chunk :=
  let elements := _extract_elements self note_text (first_page_or_1 page_numbers) in
  let '(chunks, current_chunk_text, _) :=
    fold_left (pack_step self note_header page_numbers note_number note_title)
              elements ([], note_header, []) in
  let chunks :=
    if negb (str_eqb (strip current_chunk_text) (strip note_header))
    then chunks ++ [mixed_chunk current_chunk_text page_numbers note_number note_title]
    else chunks in
  if nonempty chunks then chunks
  else [mkChunk (note_header ++ note_text) ct_note_complete page_numbers
                (length (note_header ++ note_text)) true
                (Some note_number) None None None (Some note_title) None
                false false 0 None false].

(** [f"{note_number} - {note_title}\n\n"]. *)
Definition make_note_header (note_number note_title : str) : str :=
  note_number ++ lit " - " ++ note_title ++ [nl; nl].

Definition _chunk_note (self : t) (note_text note_number note_title : str)
    (page_numbers : list Z) : list Chunk :=
  let note_text_clean := strip note_text in
  let note_len := length note_text_clean in
  let content_analysis := detect_content_types note_text_clean in
  if (Z.of_nat note_len <=? max_chunk_size self)%Z
  then [mkChunk note_text_clean ct_note_complete page_numbers note_len true
                (Some note_number) None None None (Some note_title)
                (Some (ca_content_types content_analysis))
                (ca_has_subjective content_analysis) (ca_has_objective content_analysis)
                0 None true]
  else
    let hierarchy := parse_note_hierarchy note_text_clean note_number in
    let note_header := make_note_header note_number note_title in
    if nonempty (sub_notes hierarchy)
    then
      flat_map (fun sub_note_info =>
                  let sub_note_text := strip (slice_of note_text_clean sub_note_info) in
                  let full_sub_note_text := note_header ++ sub_note_text in
                  let sub_content_analysis := detect_content_types sub_note_text in
                  if (len full_sub_note_text >? max_chunk_size self)%Z
                  then _chunk_note_subsections self sub_note_text note_header note_number
                                               (nb_note_number sub_note_info) page_numbers
                  else [section_chunk full_sub_note_text page_numbers note_number
                                      (nb_note_number sub_note_info) None (Some note_title)
                                      sub_content_analysis 1])
               (sub_notes hierarchy)
    else _chunk_large_note_by_elements self note_text_clean note_header note_number
                                       note_title page_numbers.

Record PageInfo : Type := mkPageInfo {
  pi_page_num : Z;
  pi_start_pos : nat;
  pi_end_pos : nat
}.

(** Step 1 of [_chunk_document_note_aware]: the pages joined with a blank
    line after each, and where each page lies in the result. *)
Fixpoint join_pages (pages : list (Z * str)) (full_text : str) (page_boundaries : list PageInfo)
  : str * list PageInfo :=
  match pages with
  | [] => (full_text, page_boundaries)
  | (page_num, page_text) :: pages' =>
      join_pages pages' (full_text ++ page_text ++ [nl; nl])
                 (page_boundaries ++
                  [mkPageInfo page_num (length full_text) (length full_text + length page_text)])
  end.

(** The pages a range [[start_pos, end_pos)] overlaps. *)
Definition pages_of_range (page_boundaries : list PageInfo) (start_pos end_pos : nat) : list Z :=
  flat_map (fun page_info =>
              if negb ((end_pos <=? pi_start_pos page_info)
                       || (pi_end_pos page_info <=? start_pos))
              then [pi_page_num page_info] else [])
           page_boundaries.

(** The end position of a boundary whose end has been set. *)
Definition end_of (b : NoteBoundary) : nat :=
  match nb_end_pos b with Some e => e | None => 0 end.

(** The original pathway: every page is cut into elements, every element
    chunked on its own. *)
Definition chunk_pages (self : t) (pages : list (Z * str)) : list Chunk :=
  flat_map (fun '(page_num, page_text) =>
              flat_map (fun element => _chunk_element self element page_num)
                       (_extract_elements self page_text page_num))
           pages.

(** The chunks of the notes of a document, one note after the other. *)
Definition note_chunks (self : t) (full_text : str) (page_boundaries : list PageInfo)
    (note_boundaries : list NoteBoundary) : list Chunk :=
  flat_map (fun note_info =>
              _chunk_note self (slice_of full_text note_info)
                          (nb_note_number note_info) (nb_note_title note_info)
                          (pages_of_range page_boundaries (nb_start_pos note_info)
                                          (end_of note_info)))
           note_boundaries.

(** [(gap_start, gap_end)] for every pair of neighbouring notes with
    something in between. *)
Fixpoint gaps_between (bs : list NoteBoundary) : list (nat * nat) :=
  match bs with
  | b :: ((b' :: _) as bs') =>
      (if end_of b <? nb_start_pos b' then [(end_of b, nb_start_pos b')] else [])
      ++ gaps_between bs'
  | _ => []
  end.

Definition non_note_ranges (full_text : str) (note_boundaries : list NoteBoundary)
  : list (nat * nat) :=
  (match note_boundaries with
   | b :: _ => if 0 <? nb_start_pos b then [(0, nb_start_pos b)] else []
   | [] => []
   end)
  ++ gaps_between note_boundaries
  ++ (match last note_boundaries with
      | Some b => if end_of b <? length full_text then [(end_of b, length full_text)] else []
      | None => []
      end).

Definition _chunk_document_note_aware (self : t) (pages : list (Z * str)) : list Chunk :=
  let '(full_text, page_boundaries) := join_pages pages [] [] in
  let note_boundaries := detect_note_boundaries full_text in
  if negb (nonempty note_boundaries)
  then chunk_pages self pages
  else
    note_chunks self full_text page_boundaries note_boundaries
    ++ flat_map (fun '(start_pos, end_pos) =>
                   let non_note_text := strip (slice full_text start_pos end_pos) in
                   if negb (nonempty non_note_text) then []
                   else
                     let section_pages := pages_of_range page_boundaries start_pos end_pos in
                     let section_pages :=
                       if nonempty section_pages then section_pages else [1%Z] in
                     let page := first_page_or_1 section_pages in
                     flat_map (fun element => _chunk_element self element page)
                              (_extract_elements self non_note_text page))
                (non_note_ranges full_text note_boundaries).

Definition chunk_document (self : t) (pages : list (Z * str)) : list Chunk :=
  if enable_note_aware self
  then _chunk_document_note_aware self pages
  else chunk_pages self pages.

End AdaptiveChunker.

(* ===================================================================== *)
(** * Python floats and sorting *)
(* ===================================================================== *)

Module PyFloat.

(** A Python [float] is an IEEE 754 binary64 number: a signed zero, a
    signed infinity, NaN, or a finite number [(-1)^s * m * 2^e]. *)
Definition float : Type := spec_float.

Definition prec : Z := 53.
Definition emax : Z := 1024.

Definition nan : float := S754_nan.

(** [math.isnan(x)]. *)
Definition is_nan (x : float) : bool :=
  match x with S754_nan => true | _ => false end.

(** [x < y] and [x <= y]: false as soon as one side is NaN. *)
Definition ltb (x y : float) : bool := SFltb x y.
Definition leb (x y : float) : bool := SFleb x y.

(** [x * y], [x + y] and [x / y], rounded to the nearest float, ties to
    even. *)
Definition mul (x y : float) : float := SFmul prec emax x y.
Definition add (x y : float) : float := SFadd prec emax x y.
Definition div (x y : float) : float := SFdiv prec emax x y.

(** The float of an integer, as in the product of an [int] and a [float].
    The integers converted here are lengths of lists, far below the size
    at which Python raises [OverflowError] instead. *)
Definition of_int (n : Z) : float := binary_normalize prec emax n 0 false.

(** The literal [1.0]. *)
Definition one : float := S754_finite false 4503599627370496 (-52).

(** The literal [0.2]: the float nearest to two tenths,
    [0x1.999999999999ap-3]. *)
Definition two_tenths : float := S754_finite false 7205759403792794 (-55).

(** The float that a decimal literal [n/d] denotes, for integers that are
    floats themselves: the quotient, rounded once. *)
Definition dec (n d : Z) : float := div (of_int n) (of_int d).

(** The rational number a finite float stands for. *)
Definition to_Q (x : float) : option Q :=
  match x with
  | S754_zero _ => Some 0%Q
  | S754_finite s m e =>
      let v := (inject_Z (Zpos m) * Qpower 2 e)%Q in
      Some (if s then (- v)%Q else v)
  | _ => None
  end.

End PyFloat.

Module PySorted.
Import PyFloat.

(** The keys of a list that is one run already: no key is smaller than
    the next one. *)
Fixpoint one_run (keys : list float) : bool :=
  match keys with
  | x :: (y :: _) as keys' => negb (ltb x y) && one_run keys'
  | _ => true
  end.

(** No key is NaN: the keys are totally ordered by [<]. *)
Definition comparable (keys : list float) : bool :=
  forallb (fun x => negb (is_nan x)) keys.

(** What [list.sort] makes of keys that are not totally ordered and not
    one run: it moves the elements to the positions of some permutation,
    which depends on the keys and on the merge strategy of the
    interpreter. *)
Definition Arrangement : Type :=
  forall keys : list float, {p : list nat | Permutation p (seq 0 (length keys))}.

(** The arrangement that leaves every element where it is. *)
Definition as_found : Arrangement :=
  fun keys => exist _ (seq 0 (length keys)) (Permutation_refl _).

Section Sorted.

Variable arrangement : Arrangement.

Context {A : Type}.
Variable key : A -> float.

(** [insert_desc x l] puts [x] in front of the first element whose key is
    not greater. *)
Fixpoint insert_desc (x : A) (l : list A) : list A :=
  match l with
  | [] => [x]
  | y :: l' => if ltb (key x) (key y) then y :: insert_desc x l' else x :: l
  end.

(** [sorted(l, key=key, reverse=True)]; [l.sort(key=key, reverse=True)]
    leaves the same list in [l].  The keys are compared with [<] only.  A
    list that is one run is left as it is, NaN keys or not, since every
    comparison with NaN is false.  Keys without NaN are totally ordered,
    and the sort is the stable descending sort: elements of equal key keep
    their order.  Otherwise the elements are moved as [arrangement]
    says. *)
Definition sorted_desc (l : list A) : list A :=
  let keys := map key l in
  if one_run keys then l
  else if comparable keys then fold_right insert_desc [] l
  else omap (fun i => l !! i) (proj1_sig (arrangement keys)).

End Sorted.

End PySorted.

(* ===================================================================== *)
(** * retrieval_types.py *)
(* ===================================================================== *)

Module RetrievalTypes.
Import PyStr PyFloat PySorted.

Inductive Tier : Type := vector | keyword | re_ranked.

Record RetrievalResult : Type := mkResult {
  chunk_id : str;
  chunk_text : str;
  chunk_type : str;
  section_types : list str;
  note_number : option str;
  page_numbers : list Z;
  score : float;
  retrieval_tier : Tier
}.

(** [sorted(results, key=lambda x: x.score, reverse=True)] and
    [results.sort(key=lambda x: x.score, reverse=True)]. *)
Definition sort_by_score_desc (arrangement : Arrangement) (rs : list RetrievalResult)
  : list RetrievalResult :=
  sorted_desc arrangement score rs.

End RetrievalTypes.

(* ===================================================================== *)
(** * deduplication_utils.py *)
(* ===================================================================== *)

Module Dedup.
Import PyStr PySorted RetrievalTypes.

Section WithRatio.

(** What [sorted] does with keys that are not totally ordered. *)
Variable arrangement : Arrangement.

(** [difflib.SequenceMatcher(None, a, b).ratio()]. *)
Variable ratio : str -> str -> Q.

(** The inner loop: is the text too similar to one already kept? *)
Definition is_duplicate (similarity_threshold : Q) (result : RetrievalResult)
    (seen_texts : list str) : bool :=
  existsb (fun seen_text =>
             Qle_bool similarity_threshold
                      (ratio (strip (lower (chunk_text result)))
                             (strip (lower seen_text))))
          seen_texts.

(** The outer loop over the sorted results, with its [break]. *)
Fixpoint dedup_loop (similarity_threshold : Q) (max_chunks : Z)
    (todo : list RetrievalResult)
    (deduplicated : list RetrievalResult) (seen_texts : list str)
  : list RetrievalResult :=
  match todo with
  | [] => deduplicated
  | result :: todo' =>
      if is_duplicate similarity_threshold result seen_texts
      then dedup_loop similarity_threshold max_chunks todo' deduplicated seen_texts
      else
        let deduplicated := deduplicated ++ [result] in
        let seen_texts := seen_texts ++ [chunk_text result] in
        if (Z.of_nat (length deduplicated) >=? max_chunks)%Z
        then deduplicated
        else dedup_loop similarity_threshold max_chunks todo' deduplicated seen_texts
  end.

Definition deduplicate_by_similarity (results : list RetrievalResult)
    (similarity_threshold : Q) (max_chunks : Z) : list RetrievalResult :=
  match results with
  | [] => []
  | _ => dedup_loop similarity_threshold max_chunks
                    (sort_by_score_desc arrangement results) [] []
  end.

(** The loop of [filter_by_page_diversity]; [page_counts] is the
    dictionary of the source. *)
Fixpoint diversity_loop (max_per_page : Z) (todo : list RetrievalResult)
    (page_counts : gmap Z Z) (filtered : list RetrievalResult)
  : list RetrievalResult :=
  match todo with
  | [] => filtered
  | result :: todo' =>
      match page_numbers result with
      | [] => diversity_loop max_per_page todo' page_counts (filtered ++ [result])
      | primary_page :: _ =>
          let page_counts :=
            match page_counts !! primary_page with
            | None => <[primary_page := 0%Z]> page_counts
            | Some _ => page_counts
            end in
          let count := default 0%Z (page_counts !! primary_page) in
          if (count <? max_per_page)%Z
          then diversity_loop max_per_page todo'
                              (<[primary_page := (count + 1)%Z]> page_counts)
                              (filtered ++ [result])
          else diversity_loop max_per_page todo' page_counts filtered
      end
  end.

Definition filter_by_page_diversity (results : list RetrievalResult) (max_per_page : Z)
  : list RetrievalResult :=
  match results with
  | [] => []
  | _ => diversity_loop max_per_page results ∅ []
  end.

(** [l[:n]] for an integer [n]: a negative [n] counts from the end. *)
Definition take_upto {A : Type} (l : list A) (n : Z) : list A :=
  if (0 <=? n)%Z then firstn (Z.to_nat n) l
  else firstn (length l - Z.to_nat (- n)) l.

Definition smart_deduplicate (results : list RetrievalResult)
    (similarity_threshold : Q) (max_chunks : Z) (max_per_page : Z)
  : list RetrievalResult :=
  match results with
  | [] => []
  | _ =>
      let unique_chunks :=
        deduplicate_by_similarity results similarity_threshold (max_chunks * 2) in
      let diverse_chunks := filter_by_page_diversity unique_chunks max_per_page in
      take_upto diverse_chunks max_chunks
  end.

End WithRatio.

End Dedup.

(* ===================================================================== *)
(** * Objects: results and lists of results *)
(* ===================================================================== *)

Module PyHeap.
Import PyStr RetrievalTypes.

(** The objects that the deduplication functions reach: the
    [RetrievalResult] objects, each with the values of its attributes, and
    the list objects, each with its items, which are references to
    results.  A reference is the identity of an object, a number, and the
    object is found at it. *)
Record heap : Type := mkHeap {
  results_of : list RetrievalResult;
  lists_of : list (list nat)
}.

(** A computation on the objects: its value and the objects afterwards;
    [None] when it follows a reference to nothing, which a Python program
    cannot hold. *)
Definition St (A : Type) : Type := heap -> option (A * heap).

Definition ret {A : Type} (a : A) : St A := fun h => Some (a, h).

Definition bind {A B : Type} (m : St A) (f : A -> St B) : St B :=
  fun h => match m h with
           | Some (a, h') => f a h'
           | None => None
           end.

(** A literal [[]], a slice, [sorted(...)]: a new list object. *)
Definition new_list (items : list nat) : St nat :=
  fun h => Some (length (lists_of h), mkHeap (results_of h) (lists_of h ++ [items])).

(** The items of a list, as a loop, a slice or [len] read them. *)
Definition items_of (l : nat) : St (list nat) :=
  fun h => match lists_of h !! l with
           | Some items => Some (items, h)
           | None => None
           end.

(** [l.append(x)]: the list object [l] is changed. *)
Definition append (l x : nat) : St unit :=
  fun h => match lists_of h !! l with
           | Some items => Some (tt, mkHeap (results_of h) (<[l := items ++ [x]]> (lists_of h)))
           | None => None
           end.

(** The attributes of a result, as [result.score] and the like read
    them. *)
Definition attributes (r : nat) : St RetrievalResult :=
  fun h => match results_of h !! r with
           | Some o => Some (o, h)
           | None => None
           end.

(** The attributes of the results of a list. *)
Fixpoint attributes_of (items : list nat) : St (list RetrievalResult) :=
  match items with
  | [] => ret []
  | r :: items' =>
      bind (attributes r) (fun o =>
      bind (attributes_of items') (fun os => ret (o :: os)))
  end.

End PyHeap.

(* ===================================================================== *)
(** * deduplication_utils.py, on objects *)
(* ===================================================================== *)

Module DedupObjects.
Import PyStr PySorted RetrievalTypes PyHeap.

Notation "'run' x <- m ; k" := (PyHeap.bind m (fun x => k))
  (at level 10, x name, m at level 100, k at level 200).

Section WithRatio.

Variable arrangement : Arrangement.

Variable ratio : str -> str -> Q.

(** [sorted(results, key=lambda x: x.score, reverse=True)]: the scores
    are read, and a new list holds the items in their new order. *)
Definition sorted_by_score (results : nat) : St nat :=
  run items <- items_of results;
  run objects <- attributes_of items;
  new_list (map fst (sorted_desc arrangement (fun io => score (snd io))
                                 (combine items objects))).

(** The loop of [deduplicate_by_similarity] over the sorted results;
    [seen_texts] holds strings only and is a value here. *)
Fixpoint dedup_loop (similarity_threshold : Q) (max_chunks : Z) (todo : list nat)
    (deduplicated : nat) (seen_texts : list str) : St unit :=
  match todo with
  | [] => ret tt
  | result :: todo' =>
      run o <- attributes result;
      if Dedup.is_duplicate ratio similarity_threshold o seen_texts
      then dedup_loop similarity_threshold max_chunks todo' deduplicated seen_texts
      else
        run _ <- append deduplicated result;
        run kept <- items_of deduplicated;
        if (Z.of_nat (length kept) >=? max_chunks)%Z
        then ret tt
        else dedup_loop similarity_threshold max_chunks todo' deduplicated
                        (seen_texts ++ [chunk_text o])
  end.

Definition deduplicate_by_similarity (results : nat) (similarity_threshold : Q)
    (max_chunks : Z) : St nat :=
  run items <- items_of results;
  match items with
  | [] => new_list []
  | _ =>
      run deduplicated <- new_list [];
      run sorted_results <- sorted_by_score results;
      run todo <- items_of sorted_results;
      run _ <- dedup_loop similarity_threshold max_chunks todo deduplicated [];
      ret deduplicated
  end.

(** The loop of [filter_by_page_diversity]; the dictionary [page_counts]
    holds integers only and is a value here. *)
Fixpoint diversity_loop (max_per_page : Z) (todo : list nat) (page_counts : gmap Z Z)
    (filtered : nat) : St unit :=
  match todo with
  | [] => ret tt
  | result :: todo' =>
      run o <- attributes result;
      match page_numbers o with
      | [] =>
          run _ <- append filtered result;
          diversity_loop max_per_page todo' page_counts filtered
      | primary_page :: _ =>
          let page_counts :=
            match page_counts !! primary_page with
            | None => <[primary_page := 0%Z]> page_counts
            | Some _ => page_counts
            end in
          let count := default 0%Z (page_counts !! primary_page) in
          if (count <? max_per_page)%Z
          then
            run _ <- append filtered result;
            diversity_loop max_per_page todo'
                           (<[primary_page := (count + 1)%Z]> page_counts) filtered
          else diversity_loop max_per_page todo' page_counts filtered
      end
  end.

Definition filter_by_page_diversity (results : nat) (max_per_page : Z) : St nat :=
  run items <- items_of results;
  match items with
  | [] => new_list []
  | _ =>
      run filtered <- new_list [];
      run _ <- diversity_loop max_per_page items ∅ filtered;
      ret filtered
  end.

Definition smart_deduplicate (results : nat) (similarity_threshold : Q)
    (max_chunks : Z) (max_per_page : Z) : St nat :=
  run items <- items_of results;
  match items with
  | [] => new_list []
  | _ =>
      run unique_chunks <-
        deduplicate_by_similarity results similarity_threshold (max_chunks * 2);
      run diverse_chunks <- filter_by_page_diversity unique_chunks max_per_page;
      run diverse_items <- items_of diverse_chunks;
      new_list (Dedup.take_upto diverse_items max_chunks)
  end.

End WithRatio.

End DedupObjects.

(* ===================================================================== *)
(** * hybrid_retrieval.py *)
(* ===================================================================== *)

Module HybridRetrieval.
Import PyStr PyFloat PySorted RetrievalTypes.

(** Exceptions the engine can meet. *)
Inductive PyExn : Type :=
| OperationalError | InterfaceError | AttributeError | OtherException (msg : str).

(** The outcome of a call that may raise. *)
Inductive outcome (A : Type) : Type :=
| Ok (a : A)
| Raise (e : PyExn).
Arguments Ok {A} a.
Arguments Raise {A} e.

Definition bind {A B : Type} (m : outcome A) (f : A -> outcome B) : outcome B :=
  match m with
  | Ok a => f a
  | Raise e => Raise e
  end.

Notation "'do' x <- m ; k" := (bind m (fun x => k))
  (at level 10, x name, m at level 100, k at level 200).

(** [try: m  except Exception: return handler]. *)
Definition try_except {A : Type} (m : outcome A) (handler : A) : outcome A :=
  match m with
  | Ok a => Ok a
  | Raise _ => Ok handler
  end.

(** [EmbeddingResult]: [success] with the embedding, or failure. *)
Record EmbeddingResult : Type := mkEmbedding {
  er_embedding : list Q;
  er_success : bool
}.

(** One row of [document_chunks_v2] as the cursor returns it; an array
    column may be NULL. *)
Record Row : Type := mkRow {
  row_chunk_id : str;
  row_chunk_text : str;
  row_chunk_type : str;
  row_section_types : option (list str);
  row_note_number : option str;
  row_page_numbers : option (list Z);
  row_score : float                (* column [similarity] or [rank] *)
}.

(** The parameters of one SQL query: a filter is part of it only when the
    corresponding argument is truthy. *)
Record SqlQuery : Type := mkSql {
  q_company_id : str;
  q_section_filters : option (list str);
  q_statement_type : option str;
  q_note_number : option str;
  q_limit : Z
}.

(** The collaborators of the engine: the embedding pipeline and the
    database connection with its vector and full-text indexes. *)
Record Backend : Type := mkBackend {
  embed_single : str -> EmbeddingResult;
  conn_closed : bool;                  (* [conn is None or conn.closed] *)
  connect : outcome unit;              (* [_connect] inside the [try] *)
  select_1 : outcome unit;             (* the test query [SELECT 1] *)
  reconnect : outcome unit;            (* [_connect] inside the handler *)
  vector_execute : list Q -> SqlQuery -> outcome (list Row);
  keyword_execute : str -> SqlQuery -> outcome (list Row)
}.

Definition truthy_list {A : Type} (o : option (list A)) : option (list A) :=
  match o with
  | Some (_ :: _) => o
  | _ => None
  end.

Definition truthy_str (o : option str) : option str :=
  match o with
  | Some (_ :: _) => o
  | _ => None
  end.

Definition sql_query (company_id : str) (top_k : Z) (section_filters : option (list str))
    (statement_type note_number : option str) : SqlQuery :=
  mkSql company_id (truthy_list section_filters) (truthy_str statement_type)
        (truthy_str note_number) top_k.

(** [x or []]. *)
Definition or_empty {A : Type} (o : option (list A)) : list A :=
  match o with Some l => l | None => [] end.

Definition result_of_row (tier : Tier) (row : Row) : RetrievalResult :=
  mkResult (row_chunk_id row) (row_chunk_text row) (row_chunk_type row)
           (or_empty (row_section_types row)) (row_note_number row)
           (or_empty (row_page_numbers row)) (row_score row) tier.

(** [_ensure_connection]: the three connection errors are caught and
    answered by connecting again; anything else leaves the method. *)
Definition _ensure_connection (be : Backend) : outcome unit :=
  let attempt := if conn_closed be then connect be else select_1 be in
  match attempt with
  | Ok u => Ok u
  | Raise OperationalError | Raise InterfaceError | Raise AttributeError => reconnect be
  | Raise e => Raise e
  end.

(** Tier 1.  A failed embedding gives no results; the query itself is
    executed outside any [try]. *)
Definition _vector_search (be : Backend) (query company_id : str) (top_k : Z)
    (section_filters : option (list str)) (statement_type note_number : option str)
  : outcome (list RetrievalResult) :=
  let embedding_result := embed_single be query in
  if negb (er_success embedding_result) then Ok []
  else
    do rows <- vector_execute be (er_embedding embedding_result)
                 (sql_query company_id top_k section_filters statement_type note_number);
    Ok (map (result_of_row vector) rows).

(** Tier 2.  The query is executed inside [try ... except Exception]. *)
Definition _keyword_search (be : Backend) (query company_id : str) (top_k : Z)
    (section_filters : option (list str)) (statement_type note_number : option str)
  : outcome (list RetrievalResult) :=
  try_except
    (do rows <- keyword_execute be query
                  (sql_query company_id top_k section_filters statement_type note_number);
     Ok (map (result_of_row keyword) rows))
    [].

(** One of the two loops of [_merge_results]. *)
Fixpoint merge_loop (results : list RetrievalResult)
    (seen_chunk_ids : list str) (merged : list RetrievalResult)
  : list str * list RetrievalResult :=
  match results with
  | [] => (seen_chunk_ids, merged)
  | result :: results' =>
      if negb (str_in (chunk_id result) seen_chunk_ids)
      then merge_loop results' (chunk_id result :: seen_chunk_ids) (merged ++ [result])
      else merge_loop results' seen_chunk_ids merged
  end.

Definition _merge_results (vector_results keyword_results : list RetrievalResult)
  : list RetrievalResult :=
  let '(seen_chunk_ids, merged) := merge_loop vector_results [] [] in
  snd (merge_loop keyword_results seen_chunk_ids merged).

(** The vocabulary of [_rerank_by_classification]: the section type
    hinted at when the lower-cased query contains one of the phrases. *)
Definition hint_vocabulary : list (list str * str) :=
  [ ([lit "fair value"], lit "fair_value");
    ([lit "investment propert"], lit "investment_property");
    ([lit "balance sheet"], lit "balance_sheet");
    ([lit "income statement"; lit "profit"], lit "income_statement");
    ([lit "cash flow"], lit "cash_flow");
    ([lit "note"], lit "notes");
    ([lit "borrowing"; lit "debt"], lit "borrowings");
    ([lit "equity"], lit "equity") ].

(** The hints derived from the query alone. *)
Definition query_hints (query : str) : list str :=
  let query_lower := lower query in
  flat_map (fun '(phrases, section_type) =>
              if existsb (fun phrase => contains phrase query_lower) phrases
              then [section_type] else [])
           hint_vocabulary.

(** [query_section_hints] as the loop over the results sees it: the hints
    of the query, extended by the section filters when there are any. *)
Definition query_section_hints (query : str) (section_filters : option (list str))
  : list str :=
  query_hints query ++ or_empty (truthy_list section_filters).

Definition section_match_count (hints : list str) (result : RetrievalResult) : nat :=
  length (List.filter (fun section_type => str_in section_type hints) (section_types result)).

(** [1.0 + (section_match_count * 0.2)]. *)
Definition boost (count : nat) : float :=
  PyFloat.add one (PyFloat.mul (of_int (Z.of_nat count)) two_tenths).

(** What the loop body does to one result. *)
Definition boost_result (hints : list str) (result : RetrievalResult) : RetrievalResult :=
  let count := section_match_count hints result in
  if 0 <? count
  then mkResult (chunk_id result) (chunk_text result) (chunk_type result)
                (section_types result) (note_number result) (page_numbers result)
                (PyFloat.mul (score result) (boost count)) re_ranked
  else result.

(** Tier 3: every result is boosted, then the list is sorted by score,
    highest first. *)
Definition _rerank_by_classification (arrangement : Arrangement)
    (results : list RetrievalResult) (query : str)
    (section_filters : option (list str)) : list RetrievalResult :=
  let hints := query_section_hints query section_filters in
  sort_by_score_desc arrangement (map (boost_result hints) results).

Section WithRatio.

Variable arrangement : Arrangement.

Variable ratio : str -> str -> Q.

Definition retrieve (be : Backend) (query company_id : str) (top_k : Z)
    (section_filters : option (list str)) (statement_type note_number : option str)
    (enable_deduplication : bool) (similarity_threshold : Q)
  : outcome (list RetrievalResult) :=
  do _ <- _ensure_connection be;
  do vector_results <- _vector_search be query company_id (top_k * 3)
                         section_filters statement_type note_number;
  do keyword_results <- _keyword_search be query company_id (top_k * 2)
                          section_filters statement_type note_number;
  let combined := _merge_results vector_results keyword_results in
  let reranked := _rerank_by_classification arrangement combined query section_filters in
  if enable_deduplication
  then Ok (Dedup.smart_deduplicate arrangement ratio reranked similarity_threshold top_k 2)
  else Ok (Dedup.take_upto reranked top_k).

End WithRatio.

End HybridRetrieval.

(* ===================================================================== *)
(** * hybrid_retrieval.py, the rerank stage on objects *)
(* ===================================================================== *)

Module HybridRetrievalObjects.
Import PyStr PyFloat PySorted RetrievalTypes PyHeap HybridRetrieval.

Notation "'run' x <- m ; k" := (PyHeap.bind m (fun x => k))
  (at level 10, x name, m at level 100, k at level 200).

(** [result.score = value]: the result object is changed. *)
Definition set_score (r : nat) (value : float) : St unit :=
  fun h => match results_of h !! r with
           | Some o =>
               Some (tt, mkHeap (<[r := mkResult (chunk_id o) (chunk_text o) (chunk_type o)
                                        (section_types o) (note_number o) (page_numbers o)
                                        value (retrieval_tier o)]> (results_of h))
                                (lists_of h))
           | None => None
           end.

(** [result.retrieval_tier = tier]. *)
Definition set_retrieval_tier (r : nat) (tier : Tier) : St unit :=
  fun h => match results_of h !! r with
           | Some o =>
               Some (tt, mkHeap (<[r := mkResult (chunk_id o) (chunk_text o) (chunk_type o)
                                        (section_types o) (note_number o) (page_numbers o)
                                        (score o) tier]> (results_of h))
                                (lists_of h))
           | None => None
           end.

(** The list object [l] gets new items, as when it is sorted in place. *)
Definition set_items (l : nat) (items : list nat) : St unit :=
  fun h => match lists_of h !! l with
           | Some _ => Some (tt, mkHeap (results_of h) (<[l := items]> (lists_of h)))
           | None => None
           end.

Section WithArrangement.

Variable arrangement : Arrangement.

(** The loop of [_rerank_by_classification] over the results. *)
Fixpoint rerank_loop (query_section_hints : list str) (todo : list nat) : St unit :=
  match todo with
  | [] => PyHeap.ret tt
  | result :: todo' =>
      run o <- attributes result;
      let section_match_count := section_match_count query_section_hints o in
      if 0 <? section_match_count
      then
        run _ <- set_score result (PyFloat.mul (score o) (boost section_match_count));
        run _ <- set_retrieval_tier result re_ranked;
        rerank_loop query_section_hints todo'
      else rerank_loop query_section_hints todo'
  end.

(** [results.sort(key=lambda x: x.score, reverse=True)]. *)
Definition sort_by_score (results : nat) : St unit :=
  run items <- items_of results;
  run objects <- attributes_of items;
  set_items results (map fst (sorted_desc arrangement (fun io => score (snd io))
                                          (combine items objects))).

(** [_rerank_by_classification]: the results are written, the list is
    sorted in place and returned. *)
Definition _rerank_by_classification (results : nat) (query : str)
    (section_filters : option (list str)) : St nat :=
  let hints := query_section_hints query section_filters in
  run items <- items_of results;
  run _ <- rerank_loop hints items;
  run _ <- sort_by_score results;
  PyHeap.ret results.

End WithArrangement.

End HybridRetrievalObjects.

(* ===================================================================== *)
(** * embedding_pipeline.py *)
(* ===================================================================== *)

Module EmbeddingPipeline.
Import PyStr HybridRetrieval.

(** What one [session.post] of [embed_single] comes back with: a response
    (its status code, its text and, read off its JSON body, the embedding
    or the message of the exception that reading it raises), a timeout, or
    any other exception with its message. *)
Inductive Reply : Type :=
| Response (status_code : Z) (text : str) (embedding : list Q + str)
| TimeoutRaised
| Raised (message : str).

(** The error strings of [EmbeddingResult.error], kept by their parts:
    [f"HTTP {status_code}: {text}"], ["Request timeout"], [str(e)] and
    ["Max retries exceeded"]. *)
Inductive ErrorText : Type :=
| HttpError (status_code : Z) (text : str)
| RequestTimeout
| ExceptionText (message : str)
| MaxRetriesExceeded.

Record EmbeddingResult : Type := mkEmbeddingResult {
  er_text : str;
  er_embedding : list Q;
  er_success : bool;
  er_error : option ErrorText
}.

(** The pipeline object: the two constructor arguments its methods read. *)
Record t : Type := mkPipeline {
  batch_size : Z;
  max_retries : Z
}.

(** What one attempt of the retry loop ends in: the embedding of a
    response with status 200, or the error the attempt would report. *)
Definition attempt_result (reply : Reply) : list Q + ErrorText :=
  match reply with
  | Response status_code text body =>
      if (status_code =? 200)%Z
      then match body with
           | inl embedding => inl embedding
           | inr message => inr (ExceptionText message)
           end
      else inr (HttpError status_code text)
  | TimeoutRaised => inr RequestTimeout
  | Raised message => inr (ExceptionText message)
  end.

(** The loop [for attempt in range(self.max_retries)]; [todo] counts the
    attempts the range still holds, [replies attempt] is what the service
    answers to attempt number [attempt]. *)
Fixpoint retry_loop (self : t) (replies : nat -> Reply) (text : str)
    (todo : nat) (attempt : nat) : EmbeddingResult :=
  match todo with
  | O => mkEmbeddingResult text [] false (Some MaxRetriesExceeded)
  | S todo' =>
      match attempt_result (replies attempt) with
      | inl embedding => mkEmbeddingResult text embedding true None
      | inr error_msg =>
          if (Z.of_nat attempt <? max_retries self - 1)%Z
          then retry_loop self replies text todo' (S attempt)
          else mkEmbeddingResult text [] false (Some error_msg)
      end
  end.

Definition embed_single (self : t) (replies : nat -> Reply) (text : str) : EmbeddingResult :=
  retry_loop self replies text (Z.to_nat (max_retries self)) 0.

(** [embed_batch]: one call of [embed_single] per text.  [service n] holds
    the replies to the call number [n] made on the session; [calls] is the
    number of calls made before. *)
Fixpoint embed_batch (self : t) (service : nat -> nat -> Reply) (calls : nat)
    (texts : list str) : list EmbeddingResult :=
  match texts with
  | [] => []
  | text :: texts' =>
      embed_single self (service calls) text :: embed_batch self service (S calls) texts'
  end.

(** A chunk dictionary: the two keys [embed_chunks] writes and the key it
    reads; the other keys are neither read nor written.  Every chunk is
    taken to have the key [chunk_text], and the chunks of a list to be
    different objects, so that a write to one does not show in another. *)
Record ChunkDict : Type := mkChunkDict {
  cd_chunk_id : str;
  cd_chunk_text : str;
  cd_embedding : option (list Q);
  cd_error : option (option ErrorText)
}.

(** [chunk['embedding'] = result.embedding]. *)
Definition set_embedding (chunk : ChunkDict) (embedding : list Q) : ChunkDict :=
  mkChunkDict (cd_chunk_id chunk) (cd_chunk_text chunk) (Some embedding) (cd_error chunk).

(** [chunk['error'] = result.error]. *)
Definition set_error (chunk : ChunkDict) (error : option ErrorText) : ChunkDict :=
  mkChunkDict (cd_chunk_id chunk) (cd_chunk_text chunk) (cd_embedding chunk) (Some error).

(** The loop over [zip(batch, results)]. *)
Fixpoint sort_out (pairs : list (ChunkDict * EmbeddingResult))
    (successful failed : list ChunkDict) : list ChunkDict * list ChunkDict :=
  match pairs with
  | [] => (successful, failed)
  | (chunk, result) :: pairs' =>
      if er_success result
      then sort_out pairs' (successful ++ [set_embedding chunk (er_embedding result)]) failed
      else sort_out pairs' successful (failed ++ [set_error chunk (er_error result)])
  end.

(** The loop [for i in range(0, len(chunks), batch_size)] for a positive
    [batch_size]; [todo] bounds the number of batches. *)
Fixpoint batch_loop (self : t) (service : nat -> nat -> Reply) (chunks : list ChunkDict)
    (step : nat) (todo : nat) (i : nat) (calls : nat)
    (successful failed : list ChunkDict) : list ChunkDict * list ChunkDict :=
  match todo with
  | O => (successful, failed)
  | S todo' =>
      if i <? length chunks
      then
        let batch := firstn step (skipn i chunks) in
        let texts := map cd_chunk_text batch in
        let results := embed_batch self service calls texts in
        let '(successful, failed) := sort_out (combine batch results) successful failed in
        batch_loop self service chunks step todo' (i + step) (calls + length texts)
                   successful failed
      else (successful, failed)
  end.

(** [embed_chunks].  A step of zero makes [range] raise [ValueError]; a
    negative step gives an empty range. *)
Definition embed_chunks (self : t) (service : nat -> nat -> Reply) (chunks : list ChunkDict)
  : outcome (list ChunkDict * list ChunkDict) :=
  if (batch_size self =? 0)%Z
  then Raise (OtherException (lit "range() arg 3 must not be zero"))
  else if (batch_size self <? 0)%Z then Ok ([], [])
  else Ok (batch_loop self service chunks (Z.to_nat (batch_size self)) (length chunks)
                      0 0 [] []).

End EmbeddingPipeline.

(* ===================================================================== *)
(** * universal_classifier.py: the confidence score *)
(* ===================================================================== *)

Module ClassifierConfidence.
Import PyStr.

(** [min(a, b)] on two numbers. *)
Definition min_q (a b : Q) : Q := if Qle_bool a b then a else b.

(** Truthiness of an [Optional[str]]. *)
Definition truthy (o : option str) : bool :=
  match o with Some (_ :: _) => true | _ => false end.

(** [_calculate_confidence]; [section_types] lists the elements of the
    set. *)
Definition _calculate_confidence (section_types : list str)
    (note_number statement_type : option str) (has_section_context : bool) : Q :=
  let confidence := (5 # 10)%Q in
  let confidence :=
    match section_types with
    | _ :: _ =>
        (confidence
         + min_q (inject_Z (Z.of_nat (length section_types)) * (1 # 10)) (3 # 10))%Q
    | [] => confidence
    end in
  let confidence := if truthy note_number then (confidence + (15 # 100))%Q else confidence in
  let confidence :=
    if truthy statement_type
    then if has_section_context then (confidence + (20 # 100))%Q
         else (confidence + (5 # 100))%Q
    else confidence in
  min_q confidence 1.

End ClassifierConfidence.

(* ===================================================================== *)
(** * section_context_detector.py: what a query says about sections *)
(* ===================================================================== *)

Module SectionContext.
Import PyStr Re.

(** [consolidat(?:ed|ion)]. *)
Definition consolidated_pattern : regex :=
  Seq (Lit "consolidat") (Alt (Lit "ed") (Lit "ion")).

(** [standalone|stand\s*alone|separate]. *)
Definition standalone_pattern : regex :=
  Alt (Lit "standalone")
      (Alt (Seqs [Lit "stand"; Star Space; Lit "alone"]) (Lit "separate")).

Definition extract_statement_type_from_query (query : str) : option str :=
  let query_lower := lower query in
  if search consolidated_pattern query_lower then Some (lit "consolidated")
  else if search standalone_pattern query_lower then Some (lit "standalone")
  else None.

(** [note] or [notes], white space, an optional [no] or [no.] with the
    white space after it, and then, as group 1, [\d+(?:\.\d+)?]; under
    [re.IGNORECASE]. *)
Definition note_query_pattern : regex :=
  Seqs [ Alt (LitI "note") (Seq (LitI "note") (Opt (ChrI "s")));
         Plus Space;
         Opt (Seqs [LitI "no"; Opt (Chr "."); Star Space]);
         Grp 1 (Seq (Plus Digit) (Opt (Seq (Chr ".") (Plus Digit)))) ].

(** [re.search(pattern, s)] as a match object. *)
Definition search_match (r : regex) (s : str) : option rmatch :=
  match search_from r (length s) (start_cursor s) with
  | Some (m, _) => Some m
  | None => None
  end.

Definition extract_note_number_from_query (query : str) : option str :=
  match search_match note_query_pattern query with
  | Some m => Some (lit "Note " ++ group_or_empty query m 1)
  | None => None
  end.

End SectionContext.

(* ===================================================================== *)
(** * query_engine.py and the helper of llm_integration.py it calls *)
(* ===================================================================== *)

Module QueryEngine.
Import PyStr PyFloat PySorted RetrievalTypes HybridRetrieval SectionContext.

Record LLMResponse : Type := mkLLMResponse {
  llm_answer : str;
  llm_success : bool;
  llm_model_used : str;
  llm_error : option str
}.

(** One dictionary of [format_chunks_for_llm]. *)
Record LlmChunk : Type := mkLlmChunk {
  lc_chunk_text : str;
  lc_page_numbers : list Z;
  lc_chunk_type : str;
  lc_section_types : list str;
  lc_note_number : option str
}.

Definition format_chunks_for_llm (retrieval_results : list RetrievalResult) : list LlmChunk :=
  map (fun result =>
         mkLlmChunk (chunk_text result) (page_numbers result) (chunk_type result)
                    (section_types result) (note_number result))
      retrieval_results.

(** The three values of [RetrievalResult.retrieval_tier]. *)
Definition tier_name (tier : Tier) : str :=
  match tier with
  | vector => lit "vector"
  | keyword => lit "keyword"
  | re_ranked => lit "re-ranked"
  end.

(** One dictionary of [_format_sources]. *)
Record Source : Type := mkSource {
  src_chunk_id : str;
  src_text : str;
  src_pages : list Z;
  src_sections : list str;
  src_note : option str;
  src_score : float;
  src_tier : str
}.

Definition _format_sources (retrieval_results : list RetrievalResult) : list Source :=
  map (fun result =>
         mkSource (chunk_id result) (chunk_text result) (page_numbers result)
                  (section_types result) (note_number result) (score result)
                  (tier_name (retrieval_tier result)))
      retrieval_results.

Record QueryResponse : Type := mkQueryResponse {
  qr_query : str;
  qr_answer : str;
  qr_sources : list Source;
  qr_retrieval_tier_used : str;
  qr_model_used : str;
  qr_success : bool;
  qr_error : option str
}.

Definition objective_keywords : list str :=
  map lit
    [ "what is"%string; "how much"%string; "fair value"%string; "amount"%string;
      "value"%string; "number"%string; "total"%string; "revenue"%string;
      "profit"%string; "depreciation rate"%string; "percentage"%string;
      "figure"%string; "balance"%string; "worth"%string; "cost"%string;
      "price"%string; "rate"%string ].

Definition subjective_keywords : list str :=
  map lit
    [ "why"%string; "how"%string; "explain"%string; "describe"%string;
      "policy"%string; "method"%string; "basis"%string; "determined"%string;
      "assumptions"%string; "approach"%string; "methodology"%string;
      "reason"%string; "rationale"%string; "criteria"%string; "process"%string ].

(** [sum(1 for kw in keywords if kw in query_lower)]. *)
Definition keyword_score (keywords : list str) (query_lower : str) : nat :=
  length (List.filter (fun kw => contains kw query_lower) keywords).

Definition _detect_query_type (query : str) : str :=
  let query_lower := lower query in
  let obj_score := keyword_score objective_keywords query_lower in
  let subj_score := keyword_score subjective_keywords query_lower in
  if subj_score <? obj_score then lit "objective"
  else if obj_score <? subj_score then lit "subjective"
  else lit "mixed".

Definition tier_eqb (a b : Tier) : bool :=
  match a, b with
  | vector, vector | keyword, keyword | re_ranked, re_ranked => true
  | _, _ => false
  end.

(** The elements of [set(r.retrieval_tier for r in retrieval_results)]. *)
Fixpoint tier_set (results : list RetrievalResult) : list Tier :=
  match results with
  | [] => []
  | r :: results' =>
      if existsb (tier_eqb (retrieval_tier r)) (tier_set results')
      then tier_set results'
      else retrieval_tier r :: tier_set results'
  end.

Section WithOracles.

Variable arrangement : Arrangement.

Variable ratio : str -> str -> Q.

(** [str(e)] of an exception. *)
Variable exn_str : PyExn -> str.

(** The system object: the retrieval engine's collaborators and the
    answer of [llm_system.extract_answer] to a query, its context chunks,
    the statement type and the query type. *)
Record System : Type := mkSystem {
  retrieval_engine : Backend;
  extract_answer : str -> list LlmChunk -> option str -> str -> outcome LLMResponse
}.

(** The body of the [try] of [query]. *)
Definition query_body (self : System) (query company_id : str) (top_k : Z)
    (section_filters : option (list str)) : outcome QueryResponse :=
  let statement_type := extract_statement_type_from_query query in
  let note_number := extract_note_number_from_query query in
  do retrieval_results <-
    retrieve arrangement ratio (retrieval_engine self) query company_id top_k
             section_filters statement_type note_number true (75 # 100);
  match retrieval_results with
  | [] =>
      Ok (mkQueryResponse query
            (lit "No relevant information found in the database. "
             ++ lit "Please check if the PDF has been ingested for this company.")
            [] (lit "none") (lit "none") false (Some (lit "No retrieval results")))
  | first :: _ =>
      let retrieval_tier_used :=
        if 1 <? length (tier_set retrieval_results) then lit "hybrid"
        else tier_name (retrieval_tier first) in
      let chunks_for_llm := format_chunks_for_llm retrieval_results in
      do llm_response <-
        extract_answer self query chunks_for_llm statement_type (_detect_query_type query);
      if negb (llm_success llm_response)
      then Ok (mkQueryResponse query
                 (lit "Failed to extract answer from retrieved context.")
                 (_format_sources retrieval_results) retrieval_tier_used
                 (llm_model_used llm_response) false (llm_error llm_response))
      else Ok (mkQueryResponse query (llm_answer llm_response)
                 (_format_sources retrieval_results) retrieval_tier_used
                 (llm_model_used llm_response) true None)
  end.

(** [query]: whatever the body raises is turned into an answer. *)
Definition query (self : System) (query company_id : str) (top_k : Z)
    (section_filters : option (list str)) : QueryResponse :=
  match query_body self query company_id top_k section_filters with
  | Ok response => response
  | Raise e =>
      mkQueryResponse query (lit "Error processing query: " ++ exn_str e) []
                      (lit "error") (lit "none") false (Some (exn_str e))
  end.

End WithOracles.

End QueryEngine.

(* ===================================================================== *)
(** * Vocabulary of the properties, and the inputs of the examples *)
(* ===================================================================== *)

Module ReSpec.
Import PyStr Re.

(** Every captured group lies between [lo] and [hi]. *)
Definition caps_within (lo hi : nat) (cs : list (nat * (nat * nat))) : Prop :=
  Forall (fun e => lo <= fst (snd e) /\ fst (snd e) <= snd (snd e) /\ snd (snd e) <= hi) cs.

(** The matcher can move from [c] to [c']: forward over a run of
    characters, capturing groups only inside that run. *)
Definition reaches (c c' : cursor) : Prop :=
  exists p new,
    rest c = p ++ rest c'
    /\ pos c' = pos c + length p
    /\ caps c' = new ++ caps c
    /\ caps_within (pos c) (pos c') new.

(** The cursor stands at position [pos c] of the text [s]. *)
Definition cursor_at (s : str) (c : cursor) : Prop :=
  rest c = skipn (pos c) s /\ pos c <= length s.

(** A match lies inside the text, and its groups inside the match. *)
Definition match_ok (s : str) (m : rmatch) : Prop :=
  m_start m <= m_end m /\ m_end m <= length s
  /\ caps_within (m_start m) (m_end m) (m_caps m).

End ReSpec.

Module NoteParserSpec.
Import PyStr Re NoteParser.

(** The claim of C4 as it is written: the boundaries cover the document
    from position 0 to its end. *)
Definition tiles_whole_document (text : str) (bs : list NoteBoundary) : Prop :=
  (exists b, head bs = Some b /\ nb_start_pos b = 0)
  /\ (forall i b b', bs !! i = Some b -> bs !! S i = Some b' ->
                      nb_end_pos b = Some (nb_start_pos b'))
  /\ (exists b, last bs = Some b /\ nb_end_pos b = Some (length text)).

(** A document with text in front of its first note header. *)
Definition intro_then_note : str := lit "Intro" ++ [nl] ++ lit "NOTE 1 - Cash".

(** A document with two notes after an introduction. *)
Definition two_notes : str :=
  lit "Intro" ++ [nl] ++ lit "NOTE 1 - Cash" ++ [nl; nl] ++ lit "1.1 Aaaa bbbb."
  ++ [nl] ++ lit "NOTE 2: Debt".

(** [e] is the entry recorded for the match [m]: it sits where the match
    starts and is labelled [<m>.<k>] with the two numbers of the match. *)
Definition records (note_text : str) (e : NoteBoundary) (m : rmatch) : Prop :=
  nb_match_start e = m_start m
  /\ nb_note_number e
     = group_or_empty note_text m 1 ++ lit "." ++ group_or_empty note_text m 2.

(** Note 12 with a stray marker [5.2] among its own sub-notes. *)
Definition note_12_text : str :=
  lit "NOTE 12 - X" ++ [nl] ++ lit "5.2 Other" ++ [nl] ++ lit "12.1 Fair Value"
  ++ [nl] ++ lit "12.2 Recon".

End NoteParserSpec.

Module ChunkerSpec.
Import PyStr Re NoteParser AdaptiveChunker.

(** A fair-value disclosure of 51 characters, far above a budget of 10. *)
Definition fair_value_paragraph : Element :=
  mkElement et_paragraph (lit "As at March 31, 2025 the fair value is INR 5 lakhs.") 196.

(** A sub-note that is one paragraph of three sentences and states a fair
    value, and a page that holds it under the header of its note. *)
Definition fair_value_sub_note : str :=
  lit "1.1 The fair value is 5. It was measured at cost. See the table.".

Definition fair_value_note_page : list (Z * str) :=
  [(3%Z, lit "NOTE 1 - Cash" ++ [nl; nl] ++ fair_value_sub_note)].

(** An ordinary paragraph of two sentences and 11 characters. *)
Definition two_sentences : Element := mkElement et_paragraph (lit "Aaaa. Bbbb.") 1.

(** Elements packed into one chunk: each after a blank line. *)
Definition blank_joined (es : list str) : str :=
  concat (map (fun e => [nl; nl] ++ e) es).

(** Sentences packed into one chunk: each followed by a space. *)
Definition space_joined (ss : list str) : str :=
  concat (map (fun s => s ++ lit " ") ss).

(** How the text of a chunk emitted for a note is made from the text [R]
    of the note's range and the note's context header [H]. *)
Inductive made_from_note (R H : str) (t : str) : Prop :=
| whole (Hsub : substring_of t R)
| headed (body : str) (Ht : t = H ++ body) (Hsub : substring_of body R)
| packed (es : list str) (Ht : t = strip (H ++ blank_joined es))
         (Hsub : Forall (fun e => substring_of e R) es)
| sentences (ss : list str) (Ht : t = strip (space_joined ss))
            (Hsub : Forall (fun s => substring_of s R) ss).

(** The loop invariant: the chunks saved so far are made of sentences, and
    so is the text being accumulated. *)
Definition paragraph_inv (R : str) (st : list Chunk * str * Z) : Prop :=
  let '(chunks, current_chunk, _) := st in
  Forall (fun c => exists ss, text c = strip (space_joined ss)
                              /\ Forall (fun s => substring_of s R) ss) chunks
  /\ exists ss, current_chunk = space_joined ss /\ Forall (fun s => substring_of s R) ss.

(** The invariant of the packing loop: the chunks saved so far are made
    from the note, and the text being packed is the header followed by
    elements of the note. *)
Definition pack_inv (R H number : str) (st : list Chunk * str * list ElementType) : Prop :=
  let '(chunks, current_chunk_text, _) := st in
  Forall (fun c => made_from_note R H (text c) /\ note_number c = Some number) chunks
  /\ exists es, current_chunk_text = H ++ blank_joined es
                /\ Forall (fun e => substring_of e R) es.

(** The number and the title of a note, out of which its context header
    is built, are read off the note's own range. *)
Definition header_from_range (range : str) (b : NoteBoundary) : Prop :=
  (exists digits, nb_note_number b = lit "Note " ++ digits /\ substring_of digits range)
  /\ substring_of (nb_note_title b) range.

(** The claim of C5 as it is written, for one chunker and one document. *)
Definition chunks_are_substrings (self : t) (pages : list (Z * str)) : Prop :=
  let full_text := fst (join_pages pages [] []) in
  forall c b e,
    In c (_chunk_document_note_aware self pages) ->
    In b (detect_note_boundaries full_text) ->
    note_number c = Some (nb_note_number b) ->
    nb_end_pos b = Some e ->
    substring_of (text c) (slice full_text (nb_start_pos b) e).

(** One page holding one note with one sub-note. *)
Definition note_1_page : list (Z * str) :=
  [(3%Z, lit "NOTE 1 - Cash" ++ [nl; nl] ++ lit "1.1 Aaaa bbbb cccc")].

(** The text of the chunk emitted for its sub-note. *)
Definition note_1_chunk_text : str :=
  lit "Note 1 - Cash" ++ [nl; nl] ++ lit "1.1 Aaaa bbbb cccc".

(** Two pages: an introduction and note 12 with two sub-notes on page 195,
    note 13 on page 196. *)
Definition two_note_pages : list (Z * str) :=
  [ (195%Z, lit "Annual report" ++ [nl; nl] ++ lit "NOTE 12 - INVESTMENT PROPERTY"
            ++ [nl; nl] ++ lit "12.1 Fair Value" ++ [nl] ++ lit "Valued at INR 5 lakhs."
            ++ [nl; nl] ++ lit "12.2 Reconciliation" ++ [nl] ++ lit "Opening balance 4.");
    (196%Z, lit "NOTE 13 - PPE" ++ [nl] ++ lit "Land.") ].

(** What the examples show of a chunk. *)
Definition summary (c : Chunk)
  : str * ChunkType * list Z * bool * option str * option str * nat :=
  (text c, chunk_type c, page_numbers c, is_critical c, note_number c, sub_note c,
   hierarchy_level c).

End ChunkerSpec.

Module PyFloatSpec.
Import PyFloat.

(** The place of a float that is not NaN in the order of [<]: its class,
    then, among the finite floats of one sign, exponent and mantissa. *)
Definition rank (x : float) : Z * Z * Z :=
  match x with
  | S754_infinity true => (-2, 0, 0)
  | S754_finite true m e => (-1, - e, Zneg m)
  | S754_zero _ => (0, 0, 0)
  | S754_nan => (0, 0, 0)
  | S754_finite false m e => (1, e, Zpos m)
  | S754_infinity false => (2, 0, 0)
  end%Z.

(** Comparison of ranks, component by component. *)
Definition lex (a b : Z * Z * Z) : comparison :=
  let '(a1, a2, a3) := a in
  let '(b1, b2, b3) := b in
  match (a1 ?= b1)%Z with
  | Eq => match (a2 ?= b2)%Z with Eq => (a3 ?= b3)%Z | c => c end
  | c => c
  end.

(** A finite float that is not zero. *)
Definition finite_nonzero (x : float) : bool :=
  match x with S754_finite _ _ _ => true | _ => false end.

(** [a] may stand in front of [b] in a list in descending order of key:
    [key b <= key a]. *)
Definition ge_key {A : Type} (key : A -> float) (a b : A) : Prop :=
  leb (key b) (key a) = true.

End PyFloatSpec.

Module DedupSpec.
Import PyStr PyFloat PySorted RetrievalTypes Dedup.

(** [a] may stand in front of [b] in a list ordered by descending score:
    [b.score <= a.score]. *)
Definition ge_score (a b : RetrievalResult) : Prop := leb (score b) (score a) = true.

(** No score of the list is NaN. *)
Definition no_nan (l : list RetrievalResult) : Prop :=
  Forall (fun r => is_nan (score r) = false) l.

Section WithRatio.

Variable ratio : str -> str -> Q.

(** No result of [l] is too similar to a text of [seen] or to the text of
    a result in front of it. *)
Fixpoint distinct_from (thr : Q) (seen : list str) (l : list RetrievalResult) : Prop :=
  match l with
  | [] => True
  | r :: l' =>
      is_duplicate ratio thr r seen = false
      /\ distinct_from thr (seen ++ [chunk_text r]) l'
  end.

End WithRatio.

(** The number of results of [l] whose primary page is [p]. *)
Definition page_count (p : Z) (l : list RetrievalResult) : nat :=
  length (List.filter (fun r => match page_numbers r with
                                | q :: _ => (q =? p)%Z
                                | [] => false
                                end) l).

(** [not result.page_numbers]. *)
Definition has_no_page (r : RetrievalResult) : bool :=
  match page_numbers r with [] => true | _ :: _ => false end.

(** May [r] still be kept after the results [kept]? *)
Definition admissible (max_per_page : Z) (kept : list RetrievalResult)
    (r : RetrievalResult) : bool :=
  match page_numbers r with
  | [] => true
  | p :: _ => (Z.of_nat (page_count p kept) <? max_per_page)%Z
  end.

(** The diversity pass without its dictionary: the counters are read off
    the results kept so far. *)
Fixpoint diverse (max_per_page : Z) (kept todo : list RetrievalResult)
  : list RetrievalResult :=
  match todo with
  | [] => []
  | r :: todo' =>
      if admissible max_per_page kept r
      then r :: diverse max_per_page (kept ++ [r]) todo'
      else diverse max_per_page kept todo'
  end.

(** A similarity function for the examples: equal texts are the same,
    different texts have nothing in common. *)
Definition same_text_ratio (a b : str) : Q := if str_eqb a b then 1 else 0.

Definition candidate (id text0 : string) (pages : list Z) (sc : float) : RetrievalResult :=
  mkResult (lit id) (lit text0) (lit "paragraph") [] None pages sc vector.

(** Six candidates: [a] repeats the text of [c], and four of them are on
    page 1. *)
Definition six_candidates : list RetrievalResult :=
  [ candidate "a" "x" [1%Z] (dec 5 10); candidate "b" "y" [1%Z] (dec 9 10);
    candidate "c" "x" [2%Z] (dec 7 10); candidate "d" "z" [1%Z] (dec 9 10);
    candidate "e" "w" [1%Z; 2%Z] (dec 1 10); candidate "f" "v" [] (dec 1 10) ].

(** Three candidates with the scores 0.3, NaN and 0.5, in this order; the
    second repeats the text of the first. *)
Definition nan_in_the_middle : list RetrievalResult :=
  [ candidate "a" "x" [1%Z] (dec 3 10); candidate "b" "x" [2%Z] nan;
    candidate "c" "y" [3%Z] (dec 5 10) ].

End DedupSpec.

Module ObjectsSpec.
Import PyStr PySorted RetrievalTypes PyHeap DedupSpec.

(** [r] is a reference to a result with the attributes [o]. *)
Definition refers (h : heap) (r : nat) (o : RetrievalResult) : Prop :=
  results_of h !! r = Some o.

(** The objects of [h] are in [h'] as they were: the results are the same
    and have the same attributes, and every list of [h] has the same
    items; [h'] may hold new lists. *)
Definition untouched (h h' : heap) : Prop :=
  results_of h' = results_of h
  /\ exists new_lists, lists_of h' = lists_of h ++ new_lists.

(** The six candidates as objects, and a list object that holds them. *)
Definition six_objects : heap := mkHeap six_candidates [[0; 1; 2; 3; 4; 5]].

(** The three candidates with a NaN score as objects, and a list object
    that holds them. *)
Definition nan_objects : heap := mkHeap nan_in_the_middle [[0; 1; 2]].

End ObjectsSpec.

Module RetrievalSpec.
Import PyStr PyFloat PySorted RetrievalTypes HybridRetrieval.

(** A result of section type [equity] found by the vector tier. *)
Definition equity_result : RetrievalResult :=
  mkResult (lit "c1") (lit "Share capital") (lit "paragraph") [lit "equity"] None [7%Z]
           one vector.

(** A result of three section types with the score 0.1, and a result
    without section types with the score 0.16. *)
Definition tenth_in_three_sections : RetrievalResult :=
  mkResult (lit "a") (lit "Borrowings") (lit "paragraph")
           [lit "equity"; lit "borrowings"; lit "cash_flow"] None [7%Z] (dec 1 10) vector.

Definition sixteen_hundredths : RetrievalResult :=
  mkResult (lit "b") (lit "Leases") (lit "paragraph") [] None [8%Z] (dec 16 100) vector.

(** Three results without section types, with the scores 0.3, NaN and
    0.5. *)
Definition nan_between : list RetrievalResult :=
  [ mkResult (lit "n1") (lit "Revenue") (lit "paragraph") [] None [1%Z] (dec 3 10) vector;
    mkResult (lit "n2") (lit "Leases") (lit "paragraph") [] None [2%Z] nan vector;
    mkResult (lit "n3") (lit "Taxes") (lit "paragraph") [] None [3%Z] (dec 5 10) vector ].

(** The results as the rerank stage sorts them: each with its score
    boosted. *)
Definition boosted (query : str) (section_filters : option (list str))
    (results : list RetrievalResult) : list RetrievalResult :=
  map (boost_result (query_section_hints query section_filters)) results.

(** What the two tiers find for a call of [retrieve], merged; nothing when
    a tier raises. *)
Definition found (be : Backend) (query company_id : str) (top_k : Z)
    (section_filters : option (list str)) (statement_type note_number : option str)
  : list RetrievalResult :=
  match _vector_search be query company_id (top_k * 3) section_filters statement_type
                       note_number,
        _keyword_search be query company_id (top_k * 2) section_filters statement_type
                        note_number with
  | Ok vector_results, Ok keyword_results => _merge_results vector_results keyword_results
  | _, _ => []
  end.

(** Three rows found by the full-text index. *)
Definition keyword_rows : list Row :=
  [ mkRow (lit "k1") (lit "Revenue was 5") (lit "paragraph") None None (Some [3%Z])
          (dec 3 10);
    mkRow (lit "k2") (lit "Revenue grew") (lit "paragraph") None None (Some [4%Z])
          (dec 2 10);
    mkRow (lit "k3") (lit "Other income") (lit "paragraph") None None (Some [5%Z])
          (dec 1 10) ].

(** Scenario D: the connection is alive, the query is embedded, the vector
    index throws on every call and the keyword index returns three rows. *)
Definition scenario_D : Backend :=
  mkBackend (fun _ => mkEmbedding [1%Q; 0%Q] true)
            false (Ok tt) (Ok tt) (Ok tt)
            (fun _ _ => Raise OperationalError)
            (fun _ _ => Ok keyword_rows).

(** The same collaborators with a failing embedding oracle instead. *)
Definition embedding_down : Backend :=
  mkBackend (fun _ => mkEmbedding [] false)
            false (Ok tt) (Ok tt) (Ok tt)
            (fun _ _ => Raise OperationalError)
            (fun _ _ => Ok keyword_rows).

(** No embedding and no keyword index. *)
Definition both_down : Backend :=
  mkBackend (fun _ => mkEmbedding [] false)
            false (Ok tt) (Ok tt) (Ok tt)
            (fun _ _ => Raise OperationalError)
            (fun _ _ => Raise OperationalError).

Section WithRatio.

Variable arrangement : Arrangement.

Variable ratio : str -> str -> Q.

(** What [retrieve] returns once both tiers have answered. *)
Definition finish (vector_results keyword_results : list RetrievalResult) (query : str)
    (top_k : Z) (section_filters : option (list str)) (enable_deduplication : bool)
    (similarity_threshold : Q) : list RetrievalResult :=
  let reranked := _rerank_by_classification arrangement
                    (_merge_results vector_results keyword_results) query section_filters in
  if enable_deduplication
  then Dedup.smart_deduplicate arrangement ratio reranked similarity_threshold top_k 2
  else Dedup.take_upto reranked top_k.

End WithRatio.

End RetrievalSpec.

(* ===================================================================== *)
(** * Vocabulary of the further properties *)
(* ===================================================================== *)

Module DocumentLayoutSpec.
Import PyStr Re NoteParser AdaptiveChunker.

(** The chunks [_chunk_document_note_aware] makes of the text in front of
    the first note, whose header starts at [first_start]. *)
Definition preamble_chunks (self : t) (full_text : str) (page_boundaries : list PageInfo)
    (first_start : nat) : list Chunk :=
  let non_note_text := strip (slice full_text 0 first_start) in
  let section_pages := pages_of_range page_boundaries 0 first_start in
  let page := first_page_or_1 (if nonempty section_pages then section_pages else [1%Z]) in
  flat_map (fun element => _chunk_element self element page)
           (_extract_elements self non_note_text page).

End DocumentLayoutSpec.

Module ChunkSchemaSpec.
Import PyStr NoteParser AdaptiveChunker.

(** The chunk types of the element pathway. *)
Definition is_plain_type (ty : ChunkType) : bool :=
  match ty with
  | ct_table | ct_paragraph | ct_list | ct_heading => true
  | _ => false
  end.

(** The chunk types the note pathway gives to the chunks of a note. *)
Definition is_note_type (ty : ChunkType) : bool :=
  match ty with
  | ct_note_complete | ct_note_section | ct_note_mixed | ct_note_paragraph => true
  | _ => false
  end.

(** A chunk made of the element text [element_text] on page [page_num]:
    only the five basic fields are set, the text is counted, and it is the
    whole element or not empty. *)
Definition element_chunk (element_text : str) (page_num : Z) (c : Chunk) : Prop :=
  exists t ty critical,
    c = plain_chunk t ty [page_num] (length t) critical
    /\ is_plain_type ty = true
    /\ (t = element_text \/ t <> [])
    /\ (critical = true -> t = element_text).

(** How the fields of a chunk hang together. *)
Definition schema (c : Chunk) : Prop :=
  char_count c = length (text c)
  /\ match note_number c with
     | None =>
         is_plain_type (chunk_type c) = true
         /\ (exists p, page_numbers c = [p])
         /\ sub_note c = None /\ sub_section c = None /\ note_title c = None
         /\ content_types c = None /\ parent_note c = None
         /\ hierarchy_level c = 0 /\ is_complete_note c = false
     | Some n =>
         is_note_type (chunk_type c) = true
         /\ (parent_note c = None \/ parent_note c = Some n)
         /\ (sub_note c <> None -> parent_note c = Some n /\ 1 <= hierarchy_level c)
         /\ (is_complete_note c = true ->
             chunk_type c = ct_note_complete /\ sub_note c = None /\ hierarchy_level c = 0)
     end.

(** A paragraph of three sentences, far above a budget of 12. *)
Definition three_sentences : Element :=
  mkElement et_paragraph (lit "Aaaa bbbb. Cccc dddd. Eeee ffff.") 4.

End ChunkSchemaSpec.

Module BudgetSpec.
Import PyStr Re NoteParser AdaptiveChunker.

(** The text of a chunk is within the size budget. *)
Definition fits (self : t) (c : Chunk) : Prop := (len (text c) <= max_chunk_size self)%Z.

(** The invariant of the two splitting loops: the counter is the length of
    the accumulated text, the accumulated text without its last separator
    is within the budget, and so are the chunks saved so far. *)
Definition budget_inv (self : t) (st : list Chunk * str * Z) : Prop :=
  let '(chunks, current_chunk, current_size) := st in
  current_size = len current_chunk
  /\ (current_chunk = []
      \/ exists x w, current_chunk = x ++ [w] /\ is_space w = true
                     /\ (len x <= max_chunk_size self)%Z)
  /\ Forall (fits self) chunks.

(** A list of three items. *)
Definition three_items : str :=
  lit "- aaaa" ++ [nl] ++ lit "- bbbb" ++ [nl] ++ lit "- cccc".

End BudgetSpec.

Module ContentSpec.
Import PyStr Re NoteParser.

(** The labels [detect_content_types] can give, in the order in which it
    gives them. *)
Definition content_labels : list str := [lit "table"; lit "numerical"; lit "paragraph"].

End ContentSpec.

Module DedupMoreSpec.
Import PyStr RetrievalTypes Dedup DedupSpec.

(** The text the similarity pass compares: [text.lower().strip()]. *)
Definition normalized (r : RetrievalResult) : str := strip (lower (chunk_text r)).

(** The results that are among the first [max_per_page] of their primary
    page, and the results without a page; [before] holds the results in
    front of [todo]. *)
Fixpoint first_per_page (max_per_page : Z) (before todo : list RetrievalResult)
  : list RetrievalResult :=
  match todo with
  | [] => []
  | r :: todo' =>
      (if admissible max_per_page before r then [r] else [])
      ++ first_per_page max_per_page (before ++ [r]) todo'
  end.

End DedupMoreSpec.

Module EmbeddingSpec.
Import PyStr HybridRetrieval EmbeddingPipeline.

(** A service that answers the first two attempts of every call with an
    error and the third with an embedding. *)
Definition third_time_lucky (attempt : nat) : Reply :=
  match attempt with
  | 0 => Response 503 (lit "busy") (inr (lit "unused"))
  | 1 => TimeoutRaised
  | _ => Response 200 (lit "ok") (inl [1%Q; 2%Q])
  end.

(** A service that always times out. *)
Definition always_timeout (attempt : nat) : Reply := TimeoutRaised.

(** A service that embeds every text but the one of call number 1. *)
Definition second_call_fails (call attempt : nat) : Reply :=
  match call with
  | 1 => Raised (lit "boom")
  | _ => Response 200 (lit "ok") (inl [inject_Z (Z.of_nat call)])
  end.

Definition three_chunks : list ChunkDict :=
  [ mkChunkDict (lit "c0") (lit "alpha") None None;
    mkChunkDict (lit "c1") (lit "beta") None None;
    mkChunkDict (lit "c2") (lit "gamma") None None ].

End EmbeddingSpec.

Module ReLangSpec.
Import PyStr Re ReSpec.

(** The texts a pattern can consume; an anchor or a look-around consumes
    the empty text. *)
Fixpoint lang (r : regex) (p : str) : Prop :=
  match r with
  | Eps => p = []
  | Cls q => exists x, p = [x] /\ q x = true
  | Seq a b => exists p1 p2, p = p1 ++ p2 /\ lang a p1 /\ lang b p2
  | Alt a b => lang a p \/ lang b p
  | Star a => exists ps, p = concat ps /\ Forall (lang a) ps
  | Grp _ a => lang a p
  | Bol _ | Eol _ | Ahead _ | Behind _ | WordB => p = []
  end.

(** Every text a group of the pattern can capture satisfies [G]. *)
Fixpoint groups_sound (G : nat -> str -> Prop) (r : regex) : Prop :=
  match r with
  | Grp n a => (forall p, lang a p -> G n p) /\ groups_sound G a
  | Seq a b | Alt a b => groups_sound G a /\ groups_sound G b
  | Star a | Ahead a => groups_sound G a
  | _ => True
  end.

(** Group [n] takes part in every match of the pattern. *)
Fixpoint mandatory (n : nat) (r : regex) : Prop :=
  match r with
  | Grp m a => m = n \/ mandatory n a
  | Seq a b => mandatory n a \/ mandatory n b
  | Alt a b => mandatory n a /\ mandatory n b
  | _ => False
  end.

(** The captured groups of a match in [s] satisfy [G]. *)
Definition caps_sound (G : nat -> str -> Prop) (s : str) (cs : list (nat * (nat * nat)))
  : Prop :=
  Forall (fun e => G (fst e) (slice s (fst (snd e)) (snd (snd e)))) cs.

(** The matcher moves from [c] to [c'] over a text of [L], capturing
    groups that satisfy [G], among them every group of [M]. *)
Definition moves (G : nat -> str -> Prop) (s : str) (L : str -> Prop) (M : nat -> Prop)
    (c c' : cursor) : Prop :=
  exists p new,
    rest c = p ++ rest c'
    /\ pos c' = pos c + length p
    /\ caps c' = new ++ caps c
    /\ L p
    /\ caps_sound G s new
    /\ (forall n, M n -> In n (map fst new)).

(** What a match of [r] in [s] is known to be: its text is one the
    pattern can consume, its groups satisfy [G], and the groups that take
    part in every match are there. *)
Definition match_sound (G : nat -> str -> Prop) (s : str) (r : regex) (m : rmatch) : Prop :=
  match_ok s m
  /\ lang r (slice s (m_start m) (m_end m))
  /\ caps_sound G s (m_caps m)
  /\ (forall n, mandatory n r -> In n (map fst (m_caps m))).

End ReLangSpec.

Module ReLiteralSpec.
Import PyStr Re.

(** The cursor behind the characters [l], when the text ahead starts with
    them. *)
Fixpoint consume (l : str) (c : cursor) : option cursor :=
  match l with
  | [] => Some c
  | x :: l' =>
      match rest c with
      | y :: ys =>
          if ascii_eqb x y then consume l' (mkCursor (S (pos c)) (Some y) ys (caps c))
          else None
      | [] => None
      end
  end.

(** The cursor [n] characters further on. *)
Fixpoint pass (n : nat) (c : cursor) : cursor :=
  match n with
  | O => c
  | S n' =>
      match rest c with
      | y :: ys => pass n' (mkCursor (S (pos c)) (Some y) ys (caps c))
      | [] => c
      end
  end.

(** The lower-cased query speaks of consolidated statements. *)
Definition mentions_consolidated (query_lower : str) : Prop :=
  substring_of (lit "consolidated") query_lower
  \/ substring_of (lit "consolidation") query_lower.

(** The lower-cased query speaks of standalone statements: it contains
    [stand] and [alone] with nothing but white space between them, or
    [separate]. *)
Definition mentions_standalone (query_lower : str) : Prop :=
  (exists w, forallb is_space w = true
             /\ substring_of (lit "stand" ++ w ++ lit "alone") query_lower)
  \/ substring_of (lit "separate") query_lower.

End ReLiteralSpec.

Module NoteFormatSpec.
Import PyStr Re NoteParser.

(** A non-empty run of decimal digits. *)
Definition digits (p : str) : Prop := p <> [] /\ forallb is_digit p = true.

(** A title as the patterns capture it: a letter, then letters, white
    space, commas, ampersands and parentheses. *)
Definition title_text (p : str) : Prop :=
  exists x q, p = x :: q /\ is_alpha_az x = true /\ forallb title_char q = true.

(** A title after [strip]: it starts with a letter and holds title
    characters only. *)
Definition clean_title (p : str) : Prop :=
  (exists x q, p = x :: q /\ is_alpha_az x = true) /\ forallb title_char p = true.

(** What the groups of [main_note_pattern] capture. *)
Definition main_note_groups (n : nat) (p : str) : Prop :=
  match n with
  | 1 => digits p
  | 2 => title_text p
  | _ => True
  end.

(** What the groups of [sub_note_pattern] capture. *)
Definition sub_note_groups (n : nat) (p : str) : Prop :=
  match n with
  | 1 | 2 => digits p
  | 3 => title_text p
  | _ => True
  end.

(** A note number as a query names it: [12] or [12.1]. *)
Definition number_or_sub_number (p : str) : Prop :=
  digits p \/ exists d1 d2, p = d1 ++ lit "." ++ d2 /\ digits d1 /\ digits d2.

(** What the group of [note_query_pattern] captures. *)
Definition note_query_groups (n : nat) (p : str) : Prop :=
  match n with
  | 1 => number_or_sub_number p
  | _ => True
  end.

End NoteFormatSpec.

Module QuerySpec.
Import PyStr PyFloat RetrievalTypes HybridRetrieval QueryEngine.

(** [a] may stand in front of [b] in a list of sources ordered by
    descending score. *)
Definition ge_source_score (a b : Source) : Prop := leb (src_score b) (src_score a) = true.

(** Two rows the vector index returns; only the first belongs to the
    section [equity]. *)
Definition vector_rows : list Row :=
  [ mkRow (lit "v1") (lit "Share capital") (lit "paragraph") (Some [lit "equity"]) None
          (Some [7%Z]) (dec 9 10);
    mkRow (lit "v2") (lit "Trade payables") (lit "paragraph") None None
          (Some [8%Z]) (dec 8 10) ].

(** A system whose vector index answers and whose keyword index finds
    nothing; the model always answers. *)
Definition vector_only : System :=
  mkSystem (mkBackend (fun _ => mkEmbedding [1%Q] true) false (Ok tt) (Ok tt) (Ok tt)
                      (fun _ _ => Ok vector_rows) (fun _ _ => Ok []))
           (fun _ _ _ _ => Ok (mkLLMResponse (lit "42") true (lit "phi4:14b") None)).

(** A system on the collaborators of scenario D. *)
Definition system_D : System :=
  mkSystem RetrievalSpec.scenario_D
           (fun _ _ _ _ => Ok (mkLLMResponse (lit "42") true (lit "phi4:14b") None)).

End QuerySpec.

Module InkSpec.
Import PyStr.

(** The text holds a character that is not white space. *)
Definition has_ink (p : str) : Prop := exists c, In c p /\ is_space c = false.

End InkSpec.

(* ===================================================================== *)
(** * Facts about strings and the matcher *)
(* ===================================================================== *)

Module PyStrFacts.
Import PyStr.

Lemma ascii_eqb_eq (a b : ascii) : ascii_eqb a b = true <-> a = b.
Proof. unfold ascii_eqb. apply Ascii.eqb_eq. Qed.

Lemma str_eqb_eq (a b : str) : str_eqb a b = true <-> a = b.
Proof.
  revert b. induction a as [|x a IH]; intros [|y b]; simpl; try easy.
  rewrite andb_true_iff, ascii_eqb_eq, IH. split.
  - intros [-> ->]. reflexivity.
  - intros [= -> ->]. auto.
Qed.

Lemma str_eqb_refl (a : str) : str_eqb a a = true.
Proof. apply str_eqb_eq. reflexivity. Qed.

Lemma str_in_In (x : str) (l : list str) : str_in x l = true <-> In x l.
Proof.
  unfold str_in. rewrite existsb_exists. split.
  - intros (y & Hy & Heq). apply str_eqb_eq in Heq. subst. exact Hy.
  - intros H. exists x. split; [exact H | apply str_eqb_refl].
Qed.

Lemma starts_with_app (p s : str) : starts_with p s = true <-> exists r, s = p ++ r.
Proof.
  revert s. induction p as [|x p IH]; intros s; simpl.
  - split; [intros _; exists s; reflexivity | reflexivity].
  - destruct s as [|y s].
    + split; [discriminate | intros (r & Hr); discriminate].
    + rewrite andb_true_iff, ascii_eqb_eq, IH. split.
      * intros (-> & r & ->). exists r. reflexivity.
      * intros (r & [= -> ->]). split; [reflexivity | exists r; reflexivity].
Qed.

(** [contains] decides [substring_of]. *)
Lemma contains_substring (t s : str) : contains t s = true <-> substring_of t s.
Proof.
  unfold substring_of. induction s as [|c s IH].
  - simpl. rewrite orb_false_r, starts_with_app. split.
    + intros (r & Hr). exists [], r. exact Hr.
    + intros (a & b & H). destruct a; [exists b; exact H | discriminate].
  - simpl. rewrite orb_true_iff, starts_with_app, IH. split.
    + intros [(r & Hr) | (a & b & H)].
      * exists [], r. exact Hr.
      * exists (c :: a), b. simpl. rewrite H. reflexivity.
    + intros (a & b & H). destruct a as [|c' a].
      * left. exists b. exact H.
      * right. injection H as _ H. exists a, b. exact H.
Qed.

Lemma substring_refl (s : str) : substring_of s s.
Proof. exists [], []. rewrite app_nil_r. reflexivity. Qed.

Lemma substring_nil (s : str) : substring_of [] s.
Proof. exists [], s. reflexivity. Qed.

Lemma substring_trans (a b c : str) :
  substring_of a b -> substring_of b c -> substring_of a c.
Proof.
  intros (p & q & ->) (p' & q' & ->). exists (p' ++ p), (q ++ q').
  rewrite <- !app_assoc. reflexivity.
Qed.

Lemma substring_skipn (n : nat) (s : str) : substring_of (skipn n s) s.
Proof.
  exists (firstn n s), []. rewrite app_nil_r. symmetry. apply firstn_skipn.
Qed.

Lemma substring_firstn (n : nat) (s : str) : substring_of (firstn n s) s.
Proof. exists [], (skipn n s). symmetry. apply firstn_skipn. Qed.

Lemma substring_slice (s : str) (a b : nat) : substring_of (slice s a b) s.
Proof.
  unfold slice. eapply substring_trans; [apply substring_firstn | apply substring_skipn].
Qed.

Lemma lstrip_suffix (s : str) : exists a, s = a ++ lstrip s.
Proof.
  induction s as [|c s (a & IH)]; simpl.
  - exists []. reflexivity.
  - destruct (is_space c).
    + exists (c :: a). simpl. rewrite <- IH. reflexivity.
    + exists []. reflexivity.
Qed.

Lemma rstrip_prefix (s : str) : exists b, s = rstrip s ++ b.
Proof.
  unfold rstrip. destruct (lstrip_suffix (rev s)) as (a & Ha).
  exists (rev a). rewrite <- rev_app_distr, <- Ha, rev_involutive. reflexivity.
Qed.

Lemma substring_strip (s : str) : substring_of (strip s) s.
Proof.
  unfold strip. destruct (lstrip_suffix s) as (a & Ha).
  destruct (rstrip_prefix (lstrip s)) as (b & Hb).
  exists a, b. rewrite <- Hb. exact Ha.
Qed.

(** Removing the prefix ["Note "] from ["Note " ++ n] gives [n] back when
    [n] is a run of digits. *)
Lemma replace_go_no_occurrence (old new s : str) :
  (forall a b, s <> a ++ old ++ b) -> replace_go old new s 0 = s.
Proof.
  induction s as [|c s IH]; intros Hno; simpl; [reflexivity|].
  destruct (starts_with old (c :: s)) eqn:E.
  - apply starts_with_app in E as (r & Hr). exfalso. apply (Hno [] r). exact Hr.
  - f_equal. apply IH. intros a b ->. apply (Hno (c :: a) b). reflexivity.
Qed.

Lemma digits_have_no_Note (n : str) :
  forallb is_digit n = true -> forall a b, n <> a ++ lit "Note " ++ b.
Proof.
  intros Hd a b ->. rewrite forallb_app in Hd. apply andb_true_iff in Hd as [_ Hd].
  simpl in Hd. discriminate.
Qed.

Lemma replace_go_skip (old new s1 s2 : str) :
  replace_go old new (s1 ++ s2) (length s1) = replace_go old new s2 0.
Proof. induction s1 as [|c s1 IH]; simpl; [reflexivity | exact IH]. Qed.

Lemma replace_Note_prefix (n : str) :
  forallb is_digit n = true -> replace (lit "Note " ++ n) (lit "Note ") [] = n.
Proof.
  intros Hd. unfold replace.
  change (lit "Note " ++ n) with ("N"%char :: (lit "ote " ++ n)).
  cbn [replace_go]. 
  assert (E : starts_with (lit "Note ") ("N"%char :: lit "ote " ++ n) = true).
  { apply starts_with_app. exists n. reflexivity. }
  rewrite E. cbn [app]. 
  change (length (lit "Note ") - 1) with (length (lit "ote ")).
  rewrite replace_go_skip. apply replace_go_no_occurrence.
  apply digits_have_no_Note. exact Hd.
Qed.

End PyStrFacts.

Module ReFacts.
Import PyStr Re ReSpec.

Lemma match_at_start (r : regex) (c : cursor) (m : rmatch) :
  match_at r c = Some m -> m_start m = pos c.
Proof.
  unfold match_at. destruct (run r _ Some); intros [= <-]; reflexivity.
Qed.

Lemma advance_pos (c c1 : cursor) : advance c = Some c1 -> pos c1 = S (pos c).
Proof.
  unfold advance. destruct (rest c); intros [= <-]; reflexivity.
Qed.

Lemma search_from_start (r : regex) (fuel : nat) (c : cursor) (m : rmatch) (c0 : cursor) :
  search_from r fuel c = Some (m, c0) -> m_start m = pos c0 /\ pos c <= pos c0.
Proof.
  revert c. induction fuel as [|fuel IH]; intros c; simpl.
  - destruct (match_at r c) eqn:E; [|discriminate].
    intros [= <- <-]. split; [eapply match_at_start; eauto | lia].
  - destruct (match_at r c) eqn:E.
    + intros [= <- <-]. split; [eapply match_at_start; eauto | lia].
    + destruct (advance c) as [c'|] eqn:A; [|discriminate].
      intros H. apply IH in H as [H1 H2]. apply advance_pos in A. split; [exact H1 | lia].
Qed.

Lemma advance_to_pos (fuel target : nat) (c : cursor) :
  pos c <= pos (advance_to fuel target c).
Proof.
  revert c. induction fuel as [|fuel IH]; intros c; simpl; [lia|].
  destruct (pos c <? target); [|lia].
  destruct (advance c) as [c'|] eqn:A; [|lia].
  apply advance_pos in A. specialize (IH c'). lia.
Qed.

(** The matches of [finditer] are met from left to right: their start
    positions increase strictly. *)
Lemma finditer_from_starts (r : regex) (fuel : nat) (c : cursor) :
  Forall (fun m => pos c <= m_start m) (finditer_from r fuel c)
  /\ StronglySorted (fun a b => m_start a < m_start b) (finditer_from r fuel c).
Proof.
  revert c. induction fuel as [|fuel IH]; intros c; simpl.
  - split; constructor.
  - destruct (search_from r (length (rest c)) c) as [[m c0]|] eqn:S; [|split; constructor].
    apply search_from_start in S as [S1 S2].
    destruct (advance c0) as [c1|] eqn:A.
    + apply advance_pos in A.
      destruct (IH (advance_to (length (rest c1)) (m_end m) c1)) as [F St].
      pose proof (advance_to_pos (length (rest c1)) (m_end m) c1) as Hp.
      split.
      * constructor; [lia|]. eapply Forall_impl; [exact F|]. simpl. intros; lia.
      * constructor; [exact St|]. eapply Forall_impl; [exact F|]. simpl. intros; lia.
    + split; repeat constructor. lia.
Qed.

Lemma finditer_starts_increasing (r : regex) (s : str) :
  StronglySorted (fun a b => m_start a < m_start b) (finditer r s).
Proof. apply finditer_from_starts. Qed.

(** Two matches of one scan that start at the same place are the same
    match. *)
Lemma sorted_starts_inj (ms : list rmatch) (m m' : rmatch) :
  StronglySorted (fun a b => m_start a < m_start b) ms ->
  In m ms -> In m' ms -> m_start m = m_start m' -> m = m'.
Proof.
  induction 1 as [|x ms St IH F]; simpl; [easy|].
  rewrite List.Forall_forall in F.
  intros [->|Hm] [->|Hm'] E; auto.
  - apply F in Hm'. lia.
  - apply F in Hm. lia.
Qed.

(** ** Where a match and its groups lie *)

Lemma caps_within_widen (lo hi lo' hi' : nat) (cs : list (nat * (nat * nat))) :
  lo' <= lo -> hi <= hi' -> caps_within lo hi cs -> caps_within lo' hi' cs.
Proof.
  intros Hlo Hhi H. unfold caps_within in *. eapply List.Forall_impl; [|exact H].
  intros e (H1 & H2 & H3). cbv beta. lia.
Qed.

Lemma reaches_refl (c : cursor) : reaches c c.
Proof.
  exists [], []. repeat split; simpl; [lia | constructor].
Qed.

Lemma reaches_trans (c1 c2 c3 : cursor) : reaches c1 c2 -> reaches c2 c3 -> reaches c1 c3.
Proof.
  intros (p & new & Hr & Hp & Hc & Hw) (p' & new' & Hr' & Hp' & Hc' & Hw').
  exists (p ++ p'), (new' ++ new). repeat split.
  - rewrite Hr, Hr', app_assoc. reflexivity.
  - rewrite Hp', Hp, length_app. lia.
  - rewrite Hc', Hc, app_assoc. reflexivity.
  - apply Forall_app. split.
    + eapply caps_within_widen; [| |exact Hw']; lia.
    + eapply caps_within_widen; [| |exact Hw]; lia.
Qed.

Lemma reaches_pos (c c' : cursor) : reaches c c' -> pos c <= pos c'.
Proof. intros (p & new & _ & Hp & _). lia. Qed.

(** The repetition loop of [Star], for any matcher [body] of the repeated
    expression that hands reachable cursors on. *)
Lemma star_loop_reaches (body : cursor -> (cursor -> option cursor) -> option cursor)
    (k : cursor -> option cursor) :
  (forall c k' res, body c k' = Some res -> exists c', reaches c c' /\ k' c' = Some res) ->
  forall (fuel : nat) (c res : cursor),
    (fix loop (fuel : nat) (c : cursor) {struct fuel} : option cursor :=
       match fuel with
       | O => k c
       | S fuel' =>
           match body c (fun c' => if pos c <? pos c' then loop fuel' c' else None) with
           | Some res => Some res
           | None => k c
           end
       end) fuel c = Some res ->
    exists c', reaches c c' /\ k c' = Some res.
Proof.
  intros Hbody. induction fuel as [|fuel IHf]; intros c res.
  - intros H. exists c. split; [apply reaches_refl | exact H].
  - match goal with
    | |- context [body c ?k'] => destruct (body c k') eqn:E
    end.
    + intros [= <-]. apply Hbody in E as (c1 & R1 & E).
      destruct (pos c <? pos c1); [|discriminate].
      apply IHf in E as (c2 & R2 & E).
      exists c2. split; [eapply reaches_trans; eauto | exact E].
    + intros H. exists c. split; [apply reaches_refl | exact H].
Qed.

(** A successful run hands a cursor the matcher can reach to its
    continuation, and the continuation succeeds on it. *)
Lemma run_reaches (r : regex) :
  forall (c : cursor) (k : cursor -> option cursor) (res : cursor),
    run r c k = Some res -> exists c', reaches c c' /\ k c' = Some res.
Proof.
  induction r as [ | p | a IHa b IHb | a IHa b IHb | a IHa | n a IHa | ml | ml | a IHa | p | ];
    intros c k res; cbn [run].
  - intros H. exists c. split; [apply reaches_refl | exact H].
  - destruct (rest c) as [|x xs] eqn:Hr; [discriminate|].
    destruct (p x); [|discriminate]. intros H.
    eexists. split; [|exact H].
    exists [x], []. cbn. repeat split; [exact Hr | lia | constructor].
  - intros H. apply IHa in H as (c1 & R1 & H). apply IHb in H as (c2 & R2 & H).
    exists c2. split; [eapply reaches_trans; eauto | exact H].
  - destruct (run a c k) eqn:E.
    + intros [= <-]. apply IHa in E. exact E.
    + apply IHb.
  - intros H. apply (star_loop_reaches (run a) k IHa (S (length (rest c))) c res). exact H.
  - intros H. apply IHa in H as (c1 & R1 & H).
    eexists. split; [|exact H].
    destruct R1 as (p & new & Hr & Hp & Hc & Hw).
    exists p, ((n, (pos c, pos c1)) :: new). cbn. repeat split; try assumption.
    + rewrite Hc. reflexivity.
    + constructor; [cbn; lia | exact Hw].
  - destruct (at_bol ml c); [|discriminate].
    intros H. exists c. split; [apply reaches_refl | exact H].
  - destruct (at_eol ml c); [|discriminate].
    intros H. exists c. split; [apply reaches_refl | exact H].
  - destruct (run a c Some); [|discriminate].
    intros H. exists c. split; [apply reaches_refl | exact H].
  - destruct (prev c) as [x|]; [|discriminate]. destruct (p x); [|discriminate].
    intros H. exists c. split; [apply reaches_refl | exact H].
  - destruct (xorb _ _); [|discriminate].
    intros H. exists c. split; [apply reaches_refl | exact H].
Qed.

Lemma cursor_at_length (s : str) (c : cursor) :
  cursor_at s c -> pos c + length (rest c) = length s.
Proof. intros [Hr Hp]. rewrite Hr, length_skipn. lia. Qed.

Lemma match_at_ok (r : regex) (s : str) (c : cursor) (m : rmatch) :
  cursor_at s c -> match_at r c = Some m -> match_ok s m /\ m_start m = pos c.
Proof.
  intros Hat. pose proof (cursor_at_length s c Hat) as Hlen. unfold match_at.
  destruct (run r _ Some) as [c'|] eqn:E; [|discriminate]. intros [= <-].
  apply run_reaches in E as (c1 & (p & new & Hr & Hp & Hc & Hw) & [= ->]).
  cbn in *. rewrite app_nil_r in Hc. unfold match_ok. cbn.
  assert (length (rest c) = length p + length (rest c')) by (rewrite Hr, length_app; lia).
  repeat split; try lia. rewrite Hc. exact Hw.
Qed.

Lemma advance_at (s : str) (c c1 : cursor) :
  cursor_at s c -> advance c = Some c1 -> cursor_at s c1.
Proof.
  intros [Hr Hp]. unfold advance. destruct (rest c) as [|x xs] eqn:E; [discriminate|].
  intros [= <-]. unfold cursor_at. cbn [pos rest].
  assert (Hlt : pos c < length s).
  { destruct (Nat.eq_dec (pos c) (length s)) as [Heq|]; [|lia].
    rewrite Heq, skipn_all in Hr. discriminate. }
  split; [|lia].
  replace (S (pos c)) with (1 + pos c) by lia. rewrite <- skipn_skipn, <- Hr. reflexivity.
Qed.

Lemma search_from_ok (r : regex) (s : str) (fuel : nat) (c : cursor) (m : rmatch) (c0 : cursor) :
  cursor_at s c -> search_from r fuel c = Some (m, c0) ->
  cursor_at s c0 /\ match_ok s m.
Proof.
  revert c. induction fuel as [|fuel IH]; intros c Hat; simpl.
  - destruct (match_at r c) eqn:E; [|discriminate].
    intros [= <- <-]. split; [exact Hat | eapply match_at_ok; eauto].
  - destruct (match_at r c) eqn:E.
    + intros [= <- <-]. split; [exact Hat | eapply match_at_ok; eauto].
    + destruct (advance c) as [c'|] eqn:A; [|discriminate].
      apply IH. eapply advance_at; eauto.
Qed.

Lemma advance_to_at (s : str) (fuel target : nat) (c : cursor) :
  cursor_at s c -> cursor_at s (advance_to fuel target c).
Proof.
  revert c. induction fuel as [|fuel IH]; intros c Hat; simpl; [exact Hat|].
  destruct (pos c <? target); [|exact Hat].
  destruct (advance c) as [c'|] eqn:A; [|exact Hat].
  apply IH. eapply advance_at; eauto.
Qed.

Lemma advance_to_reaches (fuel target : nat) (c : cursor) :
  target <= pos c + fuel -> target <= pos c + length (rest c) ->
  target <= pos (advance_to fuel target c).
Proof.
  revert c. induction fuel as [|fuel IH]; intros c Hf Hl; simpl; [lia|].
  destruct (pos c <? target) eqn:L; [|apply Nat.ltb_ge in L; lia].
  apply Nat.ltb_lt in L. unfold advance. destruct (rest c) as [|x xs] eqn:E.
  - simpl in Hl. lia.
  - apply IH; cbn; simpl in Hl; lia.
Qed.

(** The matches of [finditer] lie inside the text and do not overlap. *)
Lemma finditer_from_ok (r : regex) (s : str) (fuel : nat) (c : cursor) :
  cursor_at s c ->
  Forall (fun m => pos c <= m_start m /\ match_ok s m) (finditer_from r fuel c)
  /\ StronglySorted (fun a b => m_end a <= m_start b) (finditer_from r fuel c).
Proof.
  revert c. induction fuel as [|fuel IH]; intros c Hat; simpl.
  - split; constructor.
  - destruct (search_from r (length (rest c)) c) as [[m c0]|] eqn:S; [|split; constructor].
    pose proof (search_from_start _ _ _ _ _ S) as [S1 S2].
    apply (search_from_ok r s) in S as [Hat0 Hok]; [|exact Hat].
    destruct (advance c0) as [c1|] eqn:A.
    + pose proof (advance_at s c0 c1 Hat0 A) as Hat1.
      pose proof (advance_pos _ _ A) as Hp1.
      pose proof (cursor_at_length s c1 Hat1) as Hl1.
      destruct (IH (advance_to (length (rest c1)) (m_end m) c1)) as [F St].
      { apply advance_to_at, Hat1. }
      pose proof (advance_to_pos (length (rest c1)) (m_end m) c1) as Hge.
      assert (Hreach : m_end m <= pos (advance_to (length (rest c1)) (m_end m) c1)).
      { destruct Hok as (_ & Hend & _). apply advance_to_reaches; lia. }
      split.
      * constructor; [split; [lia | exact Hok]|].
        eapply List.Forall_impl; [|exact F]. cbv beta. intros m' [H1 H2]. split; [lia | exact H2].
      * constructor; [exact St|].
        eapply List.Forall_impl; [|exact F]. cbv beta. intros m' [H1 H2]. lia.
    + split.
      * constructor; [split; [lia | exact Hok] | constructor].
      * constructor; constructor.
Qed.

Lemma start_cursor_at (s : str) : cursor_at s (start_cursor s).
Proof. split; cbn; [reflexivity | lia]. Qed.

Lemma finditer_ok (r : regex) (s : str) :
  Forall (match_ok s) (finditer r s)
  /\ StronglySorted (fun a b => m_end a <= m_start b) (finditer r s).
Proof.
  destruct (finditer_from_ok r s (S (length s)) (start_cursor s) (start_cursor_at s))
    as [F St].
  split; [|exact St]. eapply List.Forall_impl; [|exact F]. cbv beta. intros m [_ H]. exact H.
Qed.

Lemma slice_within (s : str) (a b lo hi : nat) :
  lo <= a -> b <= hi -> substring_of (slice s a b) (slice s lo hi).
Proof.
  intros Hlo Hhi. destruct (Nat.le_gt_cases b a) as [Hba|Hab].
  - unfold slice at 1. replace (b - a) with 0 by lia. apply PyStrFacts.substring_nil.
  - assert (E : slice s a b = slice (slice s lo hi) (a - lo) (b - lo)).
    { unfold slice. rewrite skipn_firstn_comm, firstn_firstn, skipn_skipn.
      f_equal; [lia|]. f_equal. lia. }
    rewrite E. apply PyStrFacts.substring_slice.
Qed.

(** A group of a match is a substring of the text the match covers. *)
Lemma group_within (s : str) (m : rmatch) (n : nat) (lo hi : nat) :
  match_ok s m -> lo <= m_start m -> m_end m <= hi ->
  substring_of (group_or_empty s m n) (slice s lo hi).
Proof.
  intros (_ & _ & Hw) Hlo Hhi. unfold group_or_empty, group.
  destruct (find _ (m_caps m)) as [[k [a b]]|] eqn:F; [|apply PyStrFacts.substring_nil].
  apply find_some in F as [Hin _].
  unfold caps_within in Hw. rewrite List.Forall_forall in Hw.
  destruct (Hw _ Hin) as (H1 & H2 & H3). cbn in *.
  apply slice_within; lia.
Qed.

(** Every piece returned by [split] is a slice of the text. *)
Lemma split_at_substrings (s : str) (from : nat) (ms : list rmatch) :
  Forall (fun piece => substring_of piece s) (split_at s from ms).
Proof.
  revert from. induction ms as [|m ms IH]; intros from; simpl.
  - constructor; [apply PyStrFacts.substring_slice | constructor].
  - constructor; [apply PyStrFacts.substring_slice | apply IH].
Qed.

Lemma split_substrings (r : regex) (s : str) :
  Forall (fun piece => substring_of piece s) (split r s).
Proof. apply split_at_substrings. Qed.

End ReFacts.

(* ===================================================================== *)
(** * Note boundaries and sub-note hierarchy *)
(* ===================================================================== *)

Module NoteParserProps.
Import PyStr Re NoteParser ReSpec NoteParserSpec PyStrFacts ReFacts.

Lemma with_end_pos_fields (b : NoteBoundary) (e : nat) :
  nb_note_number (with_end_pos b e) = nb_note_number b
  /\ nb_note_title (with_end_pos b e) = nb_note_title b
  /\ nb_start_pos (with_end_pos b e) = nb_start_pos b
  /\ nb_match_start (with_end_pos b e) = nb_match_start b
  /\ nb_end_pos (with_end_pos b e) = Some e.
Proof. repeat split. Qed.

(** Entry [i] after the end positions are set: the entry built from the
    match, its end being the start of entry [i + 1] or [total]. *)
Lemma set_end_positions_lookup (raw : list NoteBoundary) (total i : nat) (b : NoteBoundary) :
  set_end_positions raw total !! i = Some b <->
  exists r, raw !! i = Some r
    /\ b = with_end_pos r (match raw !! (i + 1) with
                           | Some r' => nb_start_pos r'
                           | None => total
                           end).
Proof.
  unfold set_end_positions. rewrite list_lookup_imap.
  destruct (raw !! i) as [r|] eqn:Hi; simpl.
  - assert (Hlt : i < length raw) by (eapply lookup_lt_Some; eauto).
    destruct (i <? length raw - 1) eqn:L.
    + apply Nat.ltb_lt in L.
      destruct (lookup_lt_is_Some_2 raw (i + 1)) as [r' Hr']; [lia|].
      rewrite Hr'. split.
      * intros [= <-]. exists r. auto.
      * intros (r0 & [= <-] & ->). reflexivity.
    + apply Nat.ltb_ge in L.
      rewrite (lookup_ge_None_2 raw (i + 1)) by lia. split.
      * intros [= <-]. exists r. auto.
      * intros (r0 & [= <-] & ->). reflexivity.
  - split; [discriminate | intros (r & [=] & _)].
Qed.

Lemma set_end_positions_length (raw : list NoteBoundary) (total : nat) :
  length (set_end_positions raw total) = length raw.
Proof. unfold set_end_positions. apply length_imap. Qed.

Lemma set_end_positions_starts (raw : list NoteBoundary) (total : nat) :
  map nb_start_pos (set_end_positions raw total) = map nb_start_pos raw.
Proof.
  apply list_eq. intros i. change map with (@fmap list _) at 1 2. rewrite !list_lookup_fmap.
  destruct (set_end_positions raw total !! i) as [b|] eqn:E.
  - apply set_end_positions_lookup in E as (r & -> & ->). reflexivity.
  - destruct (raw !! i) as [r|] eqn:R; [|reflexivity].
    exfalso. apply lookup_ge_None_1 in E. rewrite set_end_positions_length in E.
    apply lookup_lt_Some in R. lia.
Qed.

Lemma set_end_positions_In (raw : list NoteBoundary) (total : nat) (b : NoteBoundary) :
  In b (set_end_positions raw total) -> exists r e, In r raw /\ b = with_end_pos r e.
Proof.
  rewrite <- list_elem_of_In, list_elem_of_lookup.
  intros (i & Hi). apply set_end_positions_lookup in Hi as (r & Hr & ->).
  exists r. eexists. split; [|reflexivity].
  apply list_elem_of_In, list_elem_of_lookup. eauto.
Qed.

Lemma set_end_positions_of (raw : list NoteBoundary) (total : nat) (r : NoteBoundary) :
  In r raw -> exists e, In (with_end_pos r e) (set_end_positions raw total).
Proof.
  intros Hr. apply list_elem_of_In, list_elem_of_lookup in Hr as (i & Hi).
  eexists. apply list_elem_of_In, list_elem_of_lookup. exists i.
  apply set_end_positions_lookup. exists r. split; [exact Hi | reflexivity].
Qed.

Lemma sorted_neighbours {A : Type} (R : A -> A -> Prop) (l : list A) (i : nat) (a b : A) :
  StronglySorted R l -> l !! i = Some a -> l !! S i = Some b -> R a b.
Proof.
  intros St. revert i. induction St as [|x l St IH F]; intros i; [easy|].
  destruct i as [|i]; simpl.
  - intros [= ->] Hb. rewrite List.Forall_forall in F. apply F.
    apply list_elem_of_In, list_elem_of_lookup. eauto.
  - apply IH.
Qed.

Lemma detect_starts (text : str) :
  map nb_start_pos (detect_note_boundaries text)
  = map m_start (finditer main_note_pattern text).
Proof.
  unfold detect_note_boundaries. rewrite set_end_positions_starts, map_map. reflexivity.
Qed.

(** C4, counterexample: on ["Intro\nNOTE 1 - Cash"] one boundary is
    detected and it starts at position 5, where the match of the header
    pattern starts, so the boundaries do not cover the document from 0. *)
Lemma boundary_tiling_counterexample :
  detect_note_boundaries intro_then_note
  = [mkNoteBoundary (lit "Note 1") (lit "Cash") 5 (Some 19) 5]
  /\ ~ tiles_whole_document intro_then_note (detect_note_boundaries intro_then_note).
Proof.
  assert (E : detect_note_boundaries intro_then_note
              = [mkNoteBoundary (lit "Note 1") (lit "Cash") 5 (Some 19) 5])
    by (vm_compute; reflexivity).
  split; [exact E|]. rewrite E. intros ((b & Hb & H0) & _).
  simpl in Hb. injection Hb as <-. simpl in H0. discriminate.
Qed.

(** C4, as amended: when main-note detection returns a non-empty list, the
    first boundary starts where the first match of the note-header pattern
    starts (not necessarily at 0), every boundary ends where the next one
    starts, the start positions increase strictly, and the last boundary
    ends at [len(text)]: the boundaries tile the document from the first
    note header to its end. *)
Theorem note_boundaries_tile_from_first_header (text : str) :
  nonempty_boundaries text = true ->
  let bs := detect_note_boundaries text in
  (exists b m, head bs = Some b
               /\ head (finditer main_note_pattern text) = Some m
               /\ nb_start_pos b = m_start m)
  /\ (forall i b b', bs !! i = Some b -> bs !! S i = Some b' ->
         nb_end_pos b = Some (nb_start_pos b') /\ nb_start_pos b < nb_start_pos b')
  /\ (exists b, last bs = Some b /\ nb_end_pos b = Some (length text)).
Proof.
  unfold nonempty_boundaries. intros Hne. cbv zeta.
  pose proof (detect_starts text) as Hs.
  set (bs := detect_note_boundaries text) in *.
  split; [|split].
  - destruct bs as [|b bs'] eqn:Eb; [discriminate|].
    destruct (finditer main_note_pattern text) as [|m ms]; [discriminate|].
    injection Hs as Hs _. exists b, m. auto.
  - intros i b b' Hi Hi'. split.
    + subst bs. unfold detect_note_boundaries in *.
      apply set_end_positions_lookup in Hi as (r & Hr & ->).
      apply set_end_positions_lookup in Hi' as (r' & Hr' & ->).
      replace (i + 1) with (S i) by lia. rewrite Hr'. reflexivity.
    + apply (sorted_neighbours lt (map nb_start_pos bs) i).
      * rewrite Hs. pose proof (finditer_starts_increasing main_note_pattern text) as St.
        clear -St. induction St as [|x l St IH F]; simpl; constructor; auto.
        rewrite List.Forall_forall in *. intros y Hy. apply in_map_iff in Hy as (z & <- & Hz).
        auto.
      * change map with (@fmap list _). rewrite list_lookup_fmap, Hi. reflexivity.
      * change map with (@fmap list _). rewrite list_lookup_fmap, Hi'. reflexivity.
  - destruct (last bs) as [b|] eqn:L.
    + exists b. split; [reflexivity|]. rewrite last_lookup in L.
      subst bs. unfold detect_note_boundaries in *.
      rewrite set_end_positions_length in L.
      apply set_end_positions_lookup in L as (r & Hr & ->).
      rewrite lookup_ge_None_2; [reflexivity|].
      apply lookup_lt_Some in Hr. lia.
    + apply last_None in L. rewrite L in Hne. discriminate.
Qed.

Lemma note_boundaries_tile_witness :
  nonempty_boundaries two_notes = true
  /\ (let bs := detect_note_boundaries two_notes in
      (exists b m, head bs = Some b
                   /\ head (finditer main_note_pattern two_notes) = Some m
                   /\ nb_start_pos b = m_start m)
      /\ (forall i b b', bs !! i = Some b -> bs !! S i = Some b' ->
             nb_end_pos b = Some (nb_start_pos b') /\ nb_start_pos b < nb_start_pos b')
      /\ (exists b, last bs = Some b /\ nb_end_pos b = Some (length two_notes))).
Proof.
  split; [vm_compute; reflexivity|].
  apply (note_boundaries_tile_from_first_header two_notes). vm_compute. reflexivity.
Defined.

(** A detected boundary starts with its match and ends after it. *)
Lemma detect_boundary_of_match (text : str) (b : NoteBoundary) :
  In b (detect_note_boundaries text) ->
  exists m e,
    In m (finditer main_note_pattern text)
    /\ match_ok text m
    /\ b = with_end_pos (boundary_of_match text m) e
    /\ m_end m <= e.
Proof.
  unfold detect_note_boundaries. intros Hb.
  apply list_elem_of_In, list_elem_of_lookup in Hb as (i & Hi).
  apply set_end_positions_lookup in Hi as (r & Hr & ->).
  change map with (@fmap list _) in Hr. rewrite list_lookup_fmap in Hr.
  destruct (finditer main_note_pattern text !! i) as [m|] eqn:Hm; [|discriminate].
  injection Hr as <-.
  destruct (finditer_ok main_note_pattern text) as [Hok Hsorted].
  assert (Hin : In m (finditer main_note_pattern text)).
  { apply list_elem_of_In, list_elem_of_lookup. eauto. }
  rewrite List.Forall_forall in Hok. specialize (Hok m Hin).
  exists m. eexists. split; [exact Hin|]. split; [exact Hok|]. split; [reflexivity|].
  change map with (@fmap list _). rewrite list_lookup_fmap.
  replace (i + 1) with (S i) by lia.
  destruct (finditer main_note_pattern text !! S i) as [m'|] eqn:Hm'; simpl.
  - apply (sorted_neighbours _ _ i m m' Hsorted Hm Hm').
  - destruct Hok as (_ & Hend & _). exact Hend.
Qed.

(** ** Sub-notes of a note *)

Lemma parse_sub_notes (note_text n : str) :
  forallb is_digit n = true ->
  sub_notes (parse_note_hierarchy note_text (lit "Note " ++ n))
  = set_end_positions
      (map (sub_note_of_match note_text)
           (List.filter (belongs_to note_text n) (finditer sub_note_pattern note_text)))
      (length note_text).
Proof.
  intros Hd. unfold parse_note_hierarchy. cbn [sub_notes].
  rewrite (replace_Note_prefix n Hd). reflexivity.
Qed.

(** C9: in the hierarchy parsed for main note [Note n], a match
    [<m>.<k>] of the sub-note pattern is recorded as a sub-note if and only
    if its main number [m] is [n] (the two digit strings are equal); a
    marker with another main number is never recorded. *)
Theorem sub_note_recorded_iff_main_number_matches (note_text n : str) (m : rmatch) :
  forallb is_digit n = true ->
  In m (finditer sub_note_pattern note_text) ->
  (exists e, In e (sub_notes (parse_note_hierarchy note_text (lit "Note " ++ n)))
             /\ records note_text e m)
  <-> group_or_empty note_text m 1 = n.
Proof.
  intros Hd Hm. rewrite (parse_sub_notes note_text n Hd). split.
  - intros (e & He & Hstart & _).
    apply set_end_positions_In in He as (r & e' & Hr & ->).
    apply in_map_iff in Hr as (m' & <- & Hm').
    apply filter_In in Hm' as [Hm' Hb].
    assert (m' = m) as ->.
    { eapply sorted_starts_inj; eauto using finditer_starts_increasing. }
    apply str_eqb_eq. exact Hb.
  - intros Hn.
    destruct (set_end_positions_of
                (map (sub_note_of_match note_text)
                     (List.filter (belongs_to note_text n)
                                  (finditer sub_note_pattern note_text)))
                (length note_text) (sub_note_of_match note_text m)) as (e & He).
    { apply in_map. apply filter_In. split; [exact Hm|].
      unfold belongs_to. apply str_eqb_eq. exact Hn. }
    eexists. split; [exact He|]. split; reflexivity.
Qed.

Example note_12_sub_notes :
  map (fun e => (nb_note_number e, nb_start_pos e, nb_end_pos e))
      (sub_notes (parse_note_hierarchy note_12_text (lit "Note 12")))
  = [(lit "12.1", 22, Some 38); (lit "12.2", 38, Some 48)].
Proof. vm_compute. reflexivity. Qed.

Lemma sub_note_recorded_witness :
  let m := mkMatch 22 38 [(3, (27, 38)); (2, (25, 26)); (1, (22, 24))] in
  forallb is_digit (lit "12") = true
  /\ In m (finditer sub_note_pattern note_12_text)
  /\ ((exists e, In e (sub_notes (parse_note_hierarchy note_12_text (lit "Note " ++ lit "12")))
                 /\ records note_12_text e m)
      <-> group_or_empty note_12_text m 1 = lit "12").
Proof.
  split; [reflexivity|]. split; [vm_compute; tauto|].
  apply (sub_note_recorded_iff_main_number_matches note_12_text (lit "12")).
  - reflexivity.
  - vm_compute. tauto.
Defined.

End NoteParserProps.

(* ===================================================================== *)
(** * The element strategies of the chunker *)
(* ===================================================================== *)

Module ChunkElementProps.
Import PyStr Re NoteParser AdaptiveChunker ChunkerSpec.

(** The strategy for critical paragraphs: a paragraph element the
    classifier calls critical is made one chunk; its text is the whole
    element, its length the element's length, and it is flagged critical,
    whatever [max_chunk_size] is. *)
Lemma critical_paragraph_kept_whole (self : t) (element : Element) (page_num : Z) :
  e_type element = et_paragraph ->
  UniversalClassifier.is_critical_paragraph (e_text element) = true ->
  exists c, _chunk_element self element page_num = [c]
            /\ text c = e_text element
            /\ char_count c = length (e_text element)
            /\ chunk_type c = ct_paragraph
            /\ is_critical c = true.
Proof.
  intros Hty Hcrit. unfold _chunk_element. rewrite Hty, Hcrit. cbn [andb].
  eexists. split; [reflexivity|]. repeat split.
Qed.

(** The original pathway, which is also taken when no note is detected,
    applies that strategy to every element of every page: a critical
    paragraph of a page is emitted whole. *)
Lemma original_pathway_keeps_critical_paragraphs (self : t) (pages : list (Z * str))
    (page_num : Z) (page_text : str) (element : Element) :
  In (page_num, page_text) pages ->
  In element (_extract_elements self page_text page_num) ->
  e_type element = et_paragraph ->
  UniversalClassifier.is_critical_paragraph (e_text element) = true ->
  exists c, In c (chunk_pages self pages)
            /\ _chunk_element self element page_num = [c]
            /\ text c = e_text element
            /\ is_critical c = true.
Proof.
  intros Hpage Hel Hty Hcrit.
  destruct (critical_paragraph_kept_whole self element page_num Hty Hcrit)
    as (c & Ec & Ht & _ & _ & Hc).
  exists c. split; [|auto]. unfold chunk_pages. apply in_flat_map.
  exists (page_num, page_text). split; [exact Hpage|]. apply in_flat_map.
  exists element. split; [exact Hel|]. rewrite Ec. left. reflexivity.
Qed.

(** C1, the code at the failing input: a page holds note 1, whose one
    sub-note is a paragraph that states a fair value and that the
    classifier calls critical.  With note-aware chunking switched off the
    paragraph is emitted whole and flagged critical.  With note-aware
    chunking, the default, and [max_chunk_size = 20] the sub-note is cut
    at its sentences by [_chunk_paragraph]: three chunks, none of them
    critical and none of them the paragraph; [is_critical_paragraph] is
    not consulted for the text of a note. *)
Theorem critical_paragraph_in_note_is_split :
  UniversalClassifier.is_critical_paragraph fair_value_sub_note = true
  /\ map summary (chunk_document (mkChunker 20 200 false) fair_value_note_page)
     = [ (lit "NOTE 1 - Cash", ct_heading, [3%Z], true, None, None, 0);
         (fair_value_sub_note, ct_paragraph, [3%Z], true, None, None, 0) ]
  /\ map summary (chunk_document (mkChunker 20 200 true) fair_value_note_page)
     = [ (lit "1.1 The fair value is 5.", ct_note_paragraph, [3%Z], false,
          Some (lit "Note 1"), Some (lit "1.1"), 2);
         (lit "1.1 The fair value is 5. It was measured at cost.", ct_note_paragraph,
          [3%Z], false, Some (lit "Note 1"), Some (lit "1.1"), 2);
         (lit "It was measured at cost. See the table.", ct_note_paragraph, [3%Z], false,
          Some (lit "Note 1"), Some (lit "1.1"), 2) ]
  /\ Forall (fun c => is_critical c = false /\ text c <> fair_value_sub_note)
            (chunk_document (mkChunker 20 200 true) fair_value_note_page).
Proof.
  split; [vm_compute; reflexivity|]. split; [vm_compute; reflexivity|].
  split; [vm_compute; reflexivity|].
  apply List.Forall_forall. intros c Hc. vm_compute in Hc.
  repeat (destruct Hc as [<-|Hc]; [split; [reflexivity | vm_compute; discriminate]|]).
  contradiction.
Qed.

Lemma critical_paragraph_witness :
  e_type fair_value_paragraph = et_paragraph
  /\ UniversalClassifier.is_critical_paragraph (e_text fair_value_paragraph) = true
  /\ exists c, _chunk_element (mkChunker 10 200 true) fair_value_paragraph 196 = [c]
               /\ text c = e_text fair_value_paragraph
               /\ char_count c = length (e_text fair_value_paragraph)
               /\ chunk_type c = ct_paragraph
               /\ is_critical c = true.
Proof.
  split; [reflexivity|]. split; [vm_compute; reflexivity|].
  apply (critical_paragraph_kept_whole (mkChunker 10 200 true) fair_value_paragraph 196).
  - reflexivity.
  - vm_compute. reflexivity.
Defined.

(** C3, the code at the failing input: with [max_chunk_size = 7] the
    paragraph ["Aaaa. Bbbb."] is not critical and is split at its sentence
    boundary; the second chunk starts with the overlap sentence and is 11
    characters long, above the budget, with [is_critical = False]. *)
Theorem overlap_chunk_exceeds_budget :
  UniversalClassifier.is_critical_paragraph (e_text two_sentences) = false
  /\ _chunk_element (mkChunker 7 200 true) two_sentences 1
     = [ plain_chunk (lit "Aaaa.") ct_paragraph [1%Z] 5 false;
         plain_chunk (lit "Aaaa. Bbbb.") ct_paragraph [1%Z] 11 false ]
  /\ exists c, In c (_chunk_element (mkChunker 7 200 true) two_sentences 1)
               /\ is_critical c = false
               /\ (len (text c) > max_chunk_size (mkChunker 7 200 true))%Z.
Proof.
  split; [vm_compute; reflexivity|].
  assert (E : _chunk_element (mkChunker 7 200 true) two_sentences 1
              = [ plain_chunk (lit "Aaaa.") ct_paragraph [1%Z] 5 false;
                  plain_chunk (lit "Aaaa. Bbbb.") ct_paragraph [1%Z] 11 false ])
    by (vm_compute; reflexivity).
  split; [exact E|]. rewrite E.
  exists (plain_chunk (lit "Aaaa. Bbbb.") ct_paragraph [1%Z] 11 false).
  split; [right; left; reflexivity|]. split; [reflexivity|]. vm_compute. reflexivity.
Qed.

(** The element is what [chunk_document] makes of a page holding that
    text, on either pathway. *)
Example overlap_chunk_from_document :
  chunk_document (mkChunker 7 200 true) [(1%Z, lit "Aaaa. Bbbb.")]
  = [ plain_chunk (lit "Aaaa.") ct_paragraph [1%Z] 5 false;
      plain_chunk (lit "Aaaa. Bbbb.") ct_paragraph [1%Z] 11 false ]
  /\ chunk_document (mkChunker 7 200 false) [(1%Z, lit "Aaaa. Bbbb.")]
     = [ plain_chunk (lit "Aaaa.") ct_paragraph [1%Z] 5 false;
         plain_chunk (lit "Aaaa. Bbbb.") ct_paragraph [1%Z] 11 false ].
Proof. split; vm_compute; reflexivity. Qed.

(** The same happens without any overlap: a sentence or a list item longer
    than the budget is emitted as it is. *)
Example long_sentence_exceeds_budget :
  _chunk_element (mkChunker 7 200 true) (mkElement et_paragraph (lit "Aaaa bbbb cccc") 1) 1
  = [plain_chunk (lit "Aaaa bbbb cccc") ct_paragraph [1%Z] 14 false].
Proof. vm_compute. reflexivity. Qed.

Example long_item_exceeds_budget :
  _chunk_element (mkChunker 5 200 true) (mkElement et_list (lit "- aaaaaaaaaa") 1) 1
  = [plain_chunk (lit "- aaaaaaaaaa") ct_list [1%Z] 12 false].
Proof. vm_compute. reflexivity. Qed.

End ChunkElementProps.

(* ===================================================================== *)
(** * Floats: the order of the floats that are not NaN *)
(* ===================================================================== *)

Module PyFloatFacts.
Import PyFloat PyFloatSpec.

Lemma compare_rank (x y : float) :
  is_nan x = false -> is_nan y = false -> SFcompare x y = Some (lex (rank x) (rank y)).
Proof.
  intros Hx Hy.
  destruct x as [sx|sx| |sx mx ex]; try discriminate Hx;
  destruct y as [sy|sy| |sy my ey]; try discriminate Hy;
    try (destruct sx); try (destruct sy); try reflexivity.
  cbn. rewrite Z.compare_opp, (Z.compare_antisym ex ey).
  destruct (ex ?= ey)%Z; reflexivity.
Qed.

Lemma compare_nan (x y : float) :
  SFcompare x y = None <-> is_nan x = true \/ is_nan y = true.
Proof.
  destruct x as [sx|sx| |sx mx ex], y as [sy|sy| |sy my ey]; cbn;
    try (destruct sx); try (destruct sy); cbn; intuition discriminate.
Qed.

Lemma lex_spec (a b : Z * Z * Z) :
  let '(a1, a2, a3) := a in
  let '(b1, b2, b3) := b in
  match lex a b with
  | Lt => (a1 < b1 \/ (a1 = b1 /\ (a2 < b2 \/ (a2 = b2 /\ a3 < b3))))%Z
  | Eq => a = b
  | Gt => (b1 < a1 \/ (a1 = b1 /\ (b2 < a2 \/ (a2 = b2 /\ b3 < a3))))%Z
  end.
Proof.
  destruct a as [[a1 a2] a3], b as [[b1 b2] b3]. unfold lex.
  destruct (Z.compare_spec a1 b1); [|lia|lia].
  destruct (Z.compare_spec a2 b2); [|lia|lia].
  destruct (Z.compare_spec a3 b3); [congruence|lia|lia].
Qed.

Lemma float_le_not_nan (x y : float) : leb x y = true -> is_nan x = false /\ is_nan y = false.
Proof.
  unfold leb, SFleb. destruct (SFcompare x y) eqn:E; [|discriminate]. intros _.
  destruct (is_nan x) eqn:Hx, (is_nan y) eqn:Hy; try (split; reflexivity);
    assert (SFcompare x y = None) by (apply compare_nan; auto); congruence.
Qed.

Lemma float_lt_not_nan (x y : float) : ltb x y = true -> is_nan x = false /\ is_nan y = false.
Proof.
  unfold ltb, SFltb. destruct (SFcompare x y) eqn:E; [|discriminate]. intros _.
  destruct (is_nan x) eqn:Hx, (is_nan y) eqn:Hy; try (split; reflexivity);
    assert (SFcompare x y = None) by (apply compare_nan; auto); congruence.
Qed.

(** Among floats that are not NaN, [<=] is the negation of [>]. *)
Lemma float_not_lt_le (x y : float) :
  is_nan x = false -> is_nan y = false -> ltb x y = false -> leb y x = true.
Proof.
  intros Hx Hy. unfold ltb, leb, SFltb, SFleb.
  rewrite (compare_rank x y Hx Hy), (compare_rank y x Hy Hx).
  pose proof (lex_spec (rank x) (rank y)) as H1.
  pose proof (lex_spec (rank y) (rank x)) as H2.
  destruct (rank x) as [[a1 a2] a3], (rank y) as [[b1 b2] b3].
  destruct (lex (a1, a2, a3) (b1, b2, b3)), (lex (b1, b2, b3) (a1, a2, a3));
    try reflexivity; try discriminate; intros _; try (injection H1 as -> -> ->); lia.
Qed.

Lemma float_le_not_lt (x y : float) : leb y x = true -> ltb x y = false.
Proof.
  intros H. destruct (float_le_not_nan y x H) as [Hy Hx]. revert H.
  unfold ltb, leb, SFltb, SFleb.
  rewrite (compare_rank x y Hx Hy), (compare_rank y x Hy Hx).
  pose proof (lex_spec (rank x) (rank y)) as H1.
  pose proof (lex_spec (rank y) (rank x)) as H2.
  destruct (rank x) as [[a1 a2] a3], (rank y) as [[b1 b2] b3].
  destruct (lex (a1, a2, a3) (b1, b2, b3)), (lex (b1, b2, b3) (a1, a2, a3));
    try reflexivity; try discriminate; intros _; try (injection H2 as -> -> ->); lia.
Qed.

Lemma float_le_trans (x y z : float) : leb x y = true -> leb y z = true -> leb x z = true.
Proof.
  intros H1 H2. destruct (float_le_not_nan x y H1) as [Hx Hy].
  destruct (float_le_not_nan y z H2) as [_ Hz].
  revert H1 H2. unfold leb, SFleb.
  rewrite (compare_rank x y Hx Hy), (compare_rank y z Hy Hz), (compare_rank x z Hx Hz).
  pose proof (lex_spec (rank x) (rank y)) as L1.
  pose proof (lex_spec (rank y) (rank z)) as L2.
  pose proof (lex_spec (rank x) (rank z)) as L3.
  destruct (rank x) as [[a1 a2] a3], (rank y) as [[b1 b2] b3], (rank z) as [[c1 c2] c3].
  destruct (lex (a1, a2, a3) (b1, b2, b3)), (lex (b1, b2, b3) (c1, c2, c3)),
    (lex (a1, a2, a3) (c1, c2, c3));
    try reflexivity; try discriminate; intros _ _;
    try (injection L1 as -> -> ->); try (injection L2 as -> -> ->); lia.
Qed.

Lemma float_lt_le (x y : float) : ltb x y = true -> leb x y = true.
Proof. unfold ltb, leb, SFltb, SFleb. destruct (SFcompare x y) as [[]|]; congruence. Qed.


(** ** Rounding *)

Lemma shr_1_nonneg (mrs : shr_record) : (0 <= shr_m mrs)%Z -> (0 <= shr_m (shr_1 mrs))%Z.
Proof.
  destruct mrs as [m r s]. cbn [shr_m]. intros H.
  destruct m as [|p|p]; [cbn; lia | | lia].
  destruct p; cbn; lia.
Qed.

Lemma iter_pos_keeps {A : Type} (P : A -> Prop) (f : A -> A) :
  (forall x, P x -> P (f x)) -> forall (p : positive) (x : A), P x -> P (SpecFloat.iter_pos f p x).
Proof. intros Hf. induction p as [p IH|p IH|]; intros x Hx; cbn; auto. Qed.

Lemma shr_nonneg (mrs : shr_record) (e n : Z) :
  (0 <= shr_m mrs)%Z -> (0 <= shr_m (fst (shr mrs e n)))%Z.
Proof.
  intros H. unfold shr. destruct n; cbn [fst]; try exact H.
  apply (iter_pos_keeps (fun mrs => (0 <= shr_m mrs)%Z)); [apply shr_1_nonneg | exact H].
Qed.

Lemma shr_fexp_nonneg (m e : Z) (l : location) :
  (0 <= m)%Z -> (0 <= shr_m (fst (shr_fexp prec emax m e l)))%Z.
Proof.
  intros H. unfold shr_fexp. apply shr_nonneg.
  destruct l as [|[]]; exact H.
Qed.

Lemma round_nearest_even_nonneg (m : Z) (l : location) :
  (0 <= m)%Z -> (0 <= round_nearest_even m l)%Z.
Proof.
  intros H. unfold round_nearest_even. destruct l as [|[]]; try lia.
  destruct (Z.even m); lia.
Qed.

(** Rounding a mantissa that is not negative never gives NaN. *)
Lemma binary_round_aux_not_nan (sx : bool) (mx ex : Z) (lx : location) :
  (0 <= mx)%Z -> is_nan (binary_round_aux prec emax sx mx ex lx) = false.
Proof.
  intros H. unfold binary_round_aux.
  pose proof (shr_fexp_nonneg mx ex lx H) as H1.
  destruct (shr_fexp prec emax mx ex lx) as [mrs' e']. cbn [fst] in H1.
  pose proof (shr_fexp_nonneg (round_nearest_even (shr_m mrs') (loc_of_shr_record mrs')) e'
                loc_Exact (round_nearest_even_nonneg _ _ H1)) as H2.
  destruct (shr_fexp prec emax _ e' loc_Exact) as [mrs'' e'']. cbn [fst] in H2.
  destruct (shr_m mrs'') as [|p|p]; [reflexivity | | lia].
  destruct (e'' <=? emax - prec)%Z; reflexivity.
Qed.

(** The product with a finite float other than zero is NaN only for
    NaN. *)
Lemma mul_finite_nan (x b : float) :
  finite_nonzero b = true -> is_nan (PyFloat.mul x b) = is_nan x.
Proof.
  destruct b as [| | |sb mb eb]; try discriminate. intros _.
  destruct x as [sx|sx| |sx mx ex]; try reflexivity.
  unfold PyFloat.mul. cbn [SFmul is_nan]. apply binary_round_aux_not_nan. lia.
Qed.

End PyFloatFacts.

(* ===================================================================== *)
(** * Sorting by a float key *)
(* ===================================================================== *)

Module PySortedFacts.
Import PyFloat PyFloatSpec PyFloatFacts PySorted.

Lemma omap_lookup_seq {A : Type} (l : list A) :
  omap (fun i => l !! i) (seq 0 (length l)) = l.
Proof.
  induction l as [|x l IH] using rev_ind; [reflexivity|].
  rewrite length_app. simpl. rewrite Nat.add_1_r, seq_S, list.omap_app. simpl.
  rewrite list_lookup_middle by reflexivity. simpl.
  f_equal. rewrite <- IH at 2. apply list_omap_ext.
  apply Forall2_same_length_lookup_2; [reflexivity|].
  intros i a b Ha Hb. assert (a = b) as <- by congruence.
  apply lookup_seq in Ha as [-> Hlt]. simpl.
  rewrite lookup_app_l by exact Hlt. reflexivity.
Qed.

Section Facts.

Variable arrangement : Arrangement.
Context {A : Type}.
Variable key : A -> float.

Lemma insert_desc_perm (x : A) (l : list A) : Permutation (insert_desc key x l) (x :: l).
Proof.
  induction l as [|y l IH]; simpl; [reflexivity|].
  destruct (ltb (key x) (key y)); [|reflexivity].
  etransitivity; [apply perm_skip; exact IH | apply perm_swap].
Qed.

Lemma sorted_perm (l : list A) : Permutation (sorted_desc arrangement key l) l.
Proof.
  unfold sorted_desc. destruct (one_run _); [reflexivity|].
  destruct (comparable _).
  - induction l as [|x l IH]; simpl; [reflexivity|].
    etransitivity; [apply insert_desc_perm | apply perm_skip; exact IH].
  - destruct (arrangement (map key l)) as [p Hp]. simpl.
    rewrite length_map in Hp. rewrite Hp. rewrite omap_lookup_seq. reflexivity.
Qed.

Lemma comparable_Forall (l : list A) :
  comparable (map key l) = true <-> Forall (fun x => is_nan (key x) = false) l.
Proof.
  unfold comparable. rewrite forallb_forall, List.Forall_forall. split.
  - intros H x Hx. apply negb_true_iff, H, in_map, Hx.
  - intros H k Hk. apply in_map_iff in Hk as (x & <- & Hx). apply negb_true_iff, H, Hx.
Qed.

Lemma insert_desc_sorted (x : A) (l : list A) :
  is_nan (key x) = false -> Forall (fun y => is_nan (key y) = false) l ->
  StronglySorted (ge_key key) l -> StronglySorted (ge_key key) (insert_desc key x l).
Proof.
  intros Hx Hl St. induction St as [|y l St IH F]; simpl.
  - repeat constructor.
  - inversion Hl as [|? ? Hy Hl']; subst.
    destruct (ltb (key x) (key y)) eqn:E.
    + constructor; [apply IH, Hl'|].
      eapply Permutation_Forall; [symmetry; apply insert_desc_perm|].
      constructor; [|exact F]. unfold ge_key. apply float_lt_le, E.
    + constructor; [constructor; assumption|].
      constructor; [apply float_not_lt_le; assumption|].
      eapply List.Forall_impl; [|exact F]. unfold ge_key. intros z Hz.
      eapply float_le_trans; [exact Hz|]. apply float_not_lt_le; assumption.
Qed.

Lemma fold_insert_sorted (l : list A) :
  Forall (fun y => is_nan (key y) = false) l ->
  StronglySorted (ge_key key) (fold_right (insert_desc key) [] l).
Proof.
  induction 1 as [|x l Hx Hl IH]; simpl; [constructor|].
  apply insert_desc_sorted; [exact Hx | | exact IH].
  eapply Permutation_Forall; [|exact Hl]. symmetry.
  clear. induction l as [|y l IH]; simpl; [reflexivity|].
  etransitivity; [apply insert_desc_perm | apply perm_skip; exact IH].
Qed.

(** A list that is one run and has no NaN key is in descending order. *)
Lemma one_run_sorted (l : list A) :
  Forall (fun y => is_nan (key y) = false) l ->
  one_run (map key l) = true -> StronglySorted (ge_key key) l.
Proof.
  induction 1 as [|x l Hx Hl IH]; [constructor|].
  destruct l as [|y l]; [repeat constructor|].
  change (one_run (map key (x :: y :: l)))
    with (negb (ltb (key x) (key y)) && one_run (map key (y :: l))).
  intros H. apply andb_true_iff in H as [Hxy Hrun].
  apply negb_true_iff in Hxy. specialize (IH Hrun).
  inversion Hl as [|? ? Hy _]; subst.
  assert (Gxy : ge_key key x y) by (apply float_not_lt_le; assumption).
  constructor; [exact IH|]. constructor; [exact Gxy|].
  inversion IH as [|? ? _ F]; subst.
  eapply List.Forall_impl; [|exact F]. unfold ge_key in *. intros z Hz.
  eapply float_le_trans; eassumption.
Qed.

(** A list in descending order is one run. *)
Lemma sorted_one_run (l : list A) :
  StronglySorted (ge_key key) l -> one_run (map key l) = true.
Proof.
  induction 1 as [|x l St IH F]; [reflexivity|].
  destruct l as [|y l]; [reflexivity|].
  change (one_run (map key (x :: y :: l)))
    with (negb (ltb (key x) (key y)) && one_run (map key (y :: l))).
  rewrite IH, andb_true_r.
  inversion F as [|? ? Hy _]; subst. apply negb_true_iff, float_le_not_lt, Hy.
Qed.

(** Without NaN the result is in descending order. *)
Lemma sorted_sorted (l : list A) :
  Forall (fun y => is_nan (key y) = false) l ->
  StronglySorted (ge_key key) (sorted_desc arrangement key l).
Proof.
  intros Hl. unfold sorted_desc. destruct (one_run _) eqn:R.
  - apply one_run_sorted; assumption.
  - rewrite (proj2 (comparable_Forall l) Hl). apply fold_insert_sorted, Hl.
Qed.

(** The sort leaves a list in descending order as it is. *)
Lemma sorted_fixed (l : list A) :
  StronglySorted (ge_key key) l -> sorted_desc arrangement key l = l.
Proof. intros St. unfold sorted_desc. rewrite (sorted_one_run l St). reflexivity. Qed.


End Facts.

Section Map.

Variable arrangement : Arrangement.
Context {A B : Type}.
Variable f : A -> B.
Variable key : B -> float.

Lemma insert_desc_map (x : A) (l : list A) :
  insert_desc key (f x) (map f l) = map f (insert_desc (fun a => key (f a)) x l).
Proof.
  induction l as [|y l IH]; [reflexivity|]. cbn [map insert_desc].
  destruct (ltb (key (f x)) (key (f y))); [|reflexivity].
  cbn [map]. f_equal. exact IH.
Qed.

(** Sorting commutes with a map that keeps the keys. *)
Lemma sorted_desc_map (l : list A) :
  sorted_desc arrangement key (map f l)
  = map f (sorted_desc arrangement (fun a => key (f a)) l).
Proof.
  unfold sorted_desc. rewrite map_map.
  destruct (one_run _); [reflexivity|]. destruct (comparable _).
  - induction l as [|x l IH]; [reflexivity|]. cbn [map fold_right].
    rewrite IH. apply insert_desc_map.
  - destruct (arrangement _) as [p Hp]. cbn [proj1_sig]. clear Hp.
    induction p as [|i p IH]; [reflexivity|]. cbn [omap list_omap].
    change (list_omap ?g ?l) with (omap g l). rewrite IH.
    change (map f l !! i) with ((f <$> l) !! i). rewrite list_lookup_fmap.
    destruct (l !! i); reflexivity.
Qed.

End Map.

End PySortedFacts.

(* ===================================================================== *)
(** * Sorting by score *)
(* ===================================================================== *)

Module SortProps.
Import PyStr PyFloat PySorted RetrievalTypes PyFloatSpec DedupSpec PyFloatFacts PySortedFacts.

Section WithArrangement.

Variable arrangement : Arrangement.

Lemma sort_perm (rs : list RetrievalResult) :
  Permutation (sort_by_score_desc arrangement rs) rs.
Proof. apply sorted_perm. Qed.

(** Without NaN the sort puts the results in descending order of score. *)
Lemma sort_sorted (rs : list RetrievalResult) :
  no_nan rs -> StronglySorted ge_score (sort_by_score_desc arrangement rs).
Proof. apply sorted_sorted. Qed.

(** Sorting is stable: a list already in descending order is left as it is. *)
Lemma sort_fixed (l : list RetrievalResult) :
  StronglySorted ge_score l -> sort_by_score_desc arrangement l = l.
Proof. apply sorted_fixed. Qed.

End WithArrangement.

Lemma sorted_sublist {A : Type} (R : A -> A -> Prop) (l1 l2 : list A) :
  sublist l1 l2 -> StronglySorted R l2 -> StronglySorted R l1.
Proof.
  induction 1 as [|x l1 l2 Hs IH|x l1 l2 Hs IH]; intros St.
  - constructor.
  - inversion St as [|? ? St' F]; subst. constructor; [auto|].
    rewrite List.Forall_forall in *. intros y Hy. apply F.
    apply list_elem_of_In. eapply elem_of_sublist; [|exact Hs]. apply list_elem_of_In, Hy.
  - inversion St; subst. auto.
Qed.

Lemma no_nan_perm (l1 l2 : list RetrievalResult) :
  Permutation l1 l2 -> no_nan l1 -> no_nan l2.
Proof. intros P H. eapply Permutation_Forall; eassumption. Qed.

Lemma no_nan_sublist (l1 l2 : list RetrievalResult) :
  sublist l1 l2 -> no_nan l2 -> no_nan l1.
Proof.
  unfold no_nan. rewrite !List.Forall_forall. intros Hs H x Hx. apply H.
  apply list_elem_of_In. eapply elem_of_sublist; [|exact Hs]. apply list_elem_of_In, Hx.
Qed.

End SortProps.

(* ===================================================================== *)
(** * The diversity deduplicator *)
(* ===================================================================== *)

Module DedupProps.
Import PyStr PyFloat PySorted RetrievalTypes Dedup DedupSpec SortProps.

(** ** Slicing *)

Lemma take_upto_prefix {A : Type} (l : list A) (n : Z) :
  exists k, take_upto l n = firstn k l.
Proof. unfold take_upto. destruct (0 <=? n)%Z; eauto. Qed.

Lemma take_upto_all {A : Type} (l : list A) (n : Z) :
  (Z.of_nat (length l) <= n)%Z -> take_upto l n = l.
Proof.
  intros H. unfold take_upto. destruct (0 <=? n)%Z eqn:E.
  - apply firstn_all2. lia.
  - apply Z.leb_gt in E. lia.
Qed.

(** The slice is empty, or the bound is positive and respected. *)
Lemma take_upto_cases {A : Type} (l : list A) (n : Z) :
  length l <= 1 \/ (0 <= n)%Z ->
  take_upto l n = [] \/ ((1 <= n)%Z /\ (Z.of_nat (length (take_upto l n)) <= n)%Z).
Proof.
  intros H. unfold take_upto. destruct (0 <=? n)%Z eqn:E.
  - apply Z.leb_le in E. destruct (Z.eq_dec n 0%Z) as [->|Hn].
    + left. reflexivity.
    + right. split; [lia|]. rewrite length_firstn. lia.
  - apply Z.leb_gt in E. left. destruct H as [H|H]; [|lia].
    replace (length l - Z.to_nat (- n)) with 0 by lia. reflexivity.
Qed.

Section WithRatio.

Variable arrangement : Arrangement.

Variable ratio : str -> str -> Q.

(** ** The similarity pass *)

Lemma is_duplicate_mono (thr : Q) (r : RetrievalResult) (seen1 seen2 : list str) :
  incl seen1 seen2 ->
  is_duplicate ratio thr r seen2 = false -> is_duplicate ratio thr r seen1 = false.
Proof.
  intros Hincl H2. destruct (is_duplicate ratio thr r seen1) eqn:H1; [|reflexivity].
  unfold is_duplicate in *. apply existsb_exists in H1 as (x & Hx & Hr).
  assert (existsb (fun seen_text =>
                     Qle_bool thr (ratio (strip (lower (chunk_text r)))
                                         (strip (lower seen_text)))) seen2 = true) as E.
  { apply existsb_exists. exists x. split; [apply Hincl, Hx | exact Hr]. }
  congruence.
Qed.

Lemma distinct_sublist (thr : Q) (l1 l2 : list RetrievalResult) :
  sublist l1 l2 ->
  forall seen1 seen2, incl seen1 seen2 ->
  distinct_from ratio thr seen2 l2 -> distinct_from ratio thr seen1 l1.
Proof.
  induction 1 as [|x l1 l2 Hs IH|x l1 l2 Hs IH]; intros seen1 seen2 Hincl; simpl.
  - trivial.
  - intros [Hx Hrest]. split.
    + eapply is_duplicate_mono; eauto.
    + eapply IH; [|exact Hrest]. apply incl_app.
      * apply incl_appl. exact Hincl.
      * apply incl_appr. apply incl_refl.
  - intros [_ Hrest]. eapply IH; [|exact Hrest]. apply incl_appl. exact Hincl.
Qed.

(** What the loop returns: what it had, then some of the results still to
    do, in their order and pairwise distinct. *)
Lemma dedup_loop_kept (thr : Q) (max_chunks : Z) (todo ded : list RetrievalResult)
    (seen : list str) :
  exists kept, dedup_loop ratio thr max_chunks todo ded seen = ded ++ kept
               /\ sublist kept todo
               /\ distinct_from ratio thr seen kept.
Proof.
  revert ded seen. induction todo as [|r todo IH]; intros ded seen; simpl.
  - exists []. rewrite app_nil_r. repeat split. constructor.
  - destruct (is_duplicate ratio thr r seen) eqn:D.
    + destruct (IH ded seen) as (kept & E & S & Di).
      exists kept. repeat split; [exact E | apply sublist_cons, S | exact Di].
    + destruct (Z.of_nat (length (ded ++ [r])) >=? max_chunks)%Z.
      * exists [r]. repeat split; [apply sublist_skip, sublist_nil_l | exact D].
      * destruct (IH (ded ++ [r]) (seen ++ [chunk_text r])) as (kept & E & S & Di).
        exists (r :: kept). rewrite E, <- app_assoc. repeat split.
        -- apply sublist_skip, S.
        -- exact D.
        -- exact Di.
Qed.

(** On pairwise distinct results that fit under the bound the loop keeps
    everything. *)
Lemma dedup_loop_keeps_all (thr : Q) (max_chunks : Z) (todo ded : list RetrievalResult)
    (seen : list str) :
  distinct_from ratio thr seen todo ->
  (Z.of_nat (length ded + length todo) <= max_chunks)%Z ->
  dedup_loop ratio thr max_chunks todo ded seen = ded ++ todo.
Proof.
  revert ded seen. induction todo as [|r todo IH]; intros ded seen; simpl.
  - intros _ _. rewrite app_nil_r. reflexivity.
  - intros [D Di] Hlen. rewrite D.
    destruct (Z.of_nat (length (ded ++ [r])) >=? max_chunks)%Z eqn:G.
    + rewrite length_app in G. simpl in G. apply Z.geb_le in G.
      destruct todo; [reflexivity | simpl in Hlen; lia].
    + rewrite IH; [rewrite <- app_assoc; reflexivity | exact Di |].
      rewrite length_app. simpl. lia.
Qed.

(** The loop stops at the bound; it always takes the first result it can. *)
Lemma dedup_loop_length (thr : Q) (max_chunks : Z) (todo ded : list RetrievalResult)
    (seen : list str) :
  (Z.of_nat (length ded) < Z.max 1 max_chunks)%Z ->
  (Z.of_nat (length (dedup_loop ratio thr max_chunks todo ded seen))
   <= Z.max 1 max_chunks)%Z.
Proof.
  revert ded seen. induction todo as [|r todo IH]; intros ded seen Hlen; simpl.
  - lia.
  - destruct (is_duplicate ratio thr r seen); [apply IH, Hlen|].
    destruct (Z.of_nat (length (ded ++ [r])) >=? max_chunks)%Z eqn:G.
    + rewrite length_app. simpl. lia.
    + apply IH. rewrite Z.geb_leb in G. apply Z.leb_gt in G. rewrite length_app in *.
      simpl in *. lia.
Qed.

(** ** The page-diversity pass *)

Lemma page_count_app (p : Z) (l1 l2 : list RetrievalResult) :
  page_count p (l1 ++ l2) = page_count p l1 + page_count p l2.
Proof. unfold page_count. rewrite List.filter_app, length_app. reflexivity. Qed.

Lemma page_count_one (p : Z) (r : RetrievalResult) :
  page_count p [r] = match page_numbers r with
                     | q :: _ => if (q =? p)%Z then 1 else 0
                     | [] => 0
                     end.
Proof.
  unfold page_count. simpl. destruct (page_numbers r) as [|q ?]; [reflexivity|].
  destruct (q =? p)%Z; reflexivity.
Qed.

(** The dictionary of the loop holds, for every page, the number of
    results kept from it. *)
Lemma diversity_loop_diverse (max_per_page : Z) (todo : list RetrievalResult)
    (page_counts : gmap Z Z) (filtered : list RetrievalResult) :
  (forall p, default 0%Z (page_counts !! p) = Z.of_nat (page_count p filtered)) ->
  diversity_loop max_per_page todo page_counts filtered
  = filtered ++ diverse max_per_page filtered todo.
Proof.
  revert page_counts filtered.
  induction todo as [|r todo IH]; intros pc filtered Hinv; simpl.
  - rewrite app_nil_r. reflexivity.
  - unfold admissible. destruct (page_numbers r) as [|p ps] eqn:Hp.
    + rewrite IH; [rewrite <- app_assoc; reflexivity|].
      intros q. rewrite page_count_app, page_count_one, Hp, Hinv. lia.
    + set (pc' := match pc !! p with Some _ => pc | None => <[p:=0%Z]> pc end).
      assert (Hpc' : forall q, default 0%Z (pc' !! q) = default 0%Z (pc !! q)).
      { intros q. subst pc'. destruct (pc !! p) eqn:E; [reflexivity|].
        destruct (decide (p = q)) as [->|Hne].
        - rewrite lookup_insert_eq, E. reflexivity.
        - rewrite lookup_insert_ne by exact Hne. reflexivity. }
      rewrite Hpc', Hinv.
      destruct (Z.of_nat (page_count p filtered) <? max_per_page)%Z.
      * rewrite IH; [rewrite <- app_assoc; reflexivity|].
        intros q. rewrite page_count_app, page_count_one, Hp.
        destruct (decide (p = q)) as [->|Hne].
        -- rewrite lookup_insert_eq, Z.eqb_refl. simpl. lia.
        -- rewrite lookup_insert_ne by exact Hne. rewrite Hpc', Hinv.
           destruct (Z.eqb_spec p q); [contradiction | lia].
      * apply IH. intros q. rewrite Hpc'. apply Hinv.
Qed.

Lemma filter_by_page_diversity_diverse (results : list RetrievalResult) (max_per_page : Z) :
  filter_by_page_diversity results max_per_page = diverse max_per_page [] results.
Proof.
  unfold filter_by_page_diversity. destruct results as [|r rs]; [reflexivity|].
  rewrite diversity_loop_diverse; [reflexivity|].
  intros p. rewrite lookup_empty. reflexivity.
Qed.

Lemma diverse_sublist (max_per_page : Z) (kept todo : list RetrievalResult) :
  sublist (diverse max_per_page kept todo) todo.
Proof.
  revert kept. induction todo as [|r todo IH]; intros kept; simpl; [constructor|].
  destruct (admissible max_per_page kept r).
  - apply sublist_skip, IH.
  - apply sublist_cons, IH.
Qed.

Lemma diverse_cap (max_per_page : Z) (kept todo : list RetrievalResult) (p : Z) :
  (Z.of_nat (page_count p (kept ++ diverse max_per_page kept todo))
   <= Z.max (Z.of_nat (page_count p kept)) max_per_page)%Z.
Proof.
  revert kept. induction todo as [|r todo IH]; intros kept; simpl.
  - rewrite app_nil_r. lia.
  - destruct (admissible max_per_page kept r) eqn:Ad; [|apply IH].
    specialize (IH (kept ++ [r])). rewrite <- app_assoc in IH. simpl in IH.
    etransitivity; [exact IH|].
    rewrite page_count_app, page_count_one. unfold admissible in Ad.
    destruct (page_numbers r) as [|q ?]; [lia|].
    destruct (q =? p)%Z eqn:E; [|lia].
    apply Z.eqb_eq in E. subst q. apply Z.ltb_lt in Ad. lia.
Qed.

Lemma diverse_keeps_unpaged (max_per_page : Z) (kept todo : list RetrievalResult) :
  List.filter has_no_page (diverse max_per_page kept todo) = List.filter has_no_page todo.
Proof.
  revert kept. induction todo as [|r todo IH]; intros kept; simpl; [reflexivity|].
  unfold admissible, has_no_page at 2. destruct (page_numbers r) as [|q ?] eqn:Hp.
  - simpl. unfold has_no_page at 1. rewrite Hp. f_equal. apply IH.
  - destruct (_ <? _)%Z; [|apply IH].
    simpl. unfold has_no_page at 1. rewrite Hp. apply IH.
Qed.

(** The pass leaves every prefix of its own output as it is. *)
Lemma diverse_prefix_fixed (max_per_page : Z) (kept todo : list RetrievalResult) (k : nat) :
  diverse max_per_page kept (firstn k (diverse max_per_page kept todo))
  = firstn k (diverse max_per_page kept todo).
Proof.
  revert kept k. induction todo as [|r todo IH]; intros kept k; simpl.
  - rewrite firstn_nil. reflexivity.
  - destruct (admissible max_per_page kept r) eqn:Ad; [|apply IH].
    destruct k as [|k]; simpl; [reflexivity|]. rewrite Ad, IH. reflexivity.
Qed.

Lemma page_count_sublist (p : Z) (l1 l2 : list RetrievalResult) :
  sublist l1 l2 -> page_count p l1 <= page_count p l2.
Proof.
  induction 1 as [|x l1 l2 Hs IH|x l1 l2 Hs IH]; [lia| |].
  - change (x :: l1) with ([x] ++ l1). change (x :: l2) with ([x] ++ l2).
    rewrite !page_count_app. lia.
  - change (x :: l2) with ([x] ++ l2). rewrite page_count_app. lia.
Qed.

(** ** The three stages together *)

Lemma deduplicate_by_similarity_kept (rs : list RetrievalResult) (thr : Q) (max_chunks : Z) :
  sublist (deduplicate_by_similarity arrangement ratio rs thr max_chunks)
          (sort_by_score_desc arrangement rs)
  /\ distinct_from ratio thr [] (deduplicate_by_similarity arrangement ratio rs thr max_chunks)
  /\ (Z.of_nat (length (deduplicate_by_similarity arrangement ratio rs thr max_chunks))
      <= Z.max 1 max_chunks)%Z.
Proof.
  unfold deduplicate_by_similarity. destruct rs as [|r rs].
  - repeat split; [constructor | simpl; lia].
  - destruct (dedup_loop_kept thr max_chunks (sort_by_score_desc arrangement (r :: rs)) [] [])
      as (kept & E & S & D).
    pose proof (dedup_loop_length thr max_chunks (sort_by_score_desc arrangement (r :: rs))
                  [] []) as L.
    rewrite E in *. simpl in *. repeat split; [exact S | exact D | apply L; lia].
Qed.

(** A list in descending order of pairwise distinct results, short enough,
    passes the similarity pass unchanged. *)
Lemma deduplicate_by_similarity_fixed (l : list RetrievalResult) (thr : Q) (max_chunks : Z) :
  StronglySorted ge_score l -> distinct_from ratio thr [] l ->
  (Z.of_nat (length l) <= max_chunks)%Z ->
  deduplicate_by_similarity arrangement ratio l thr max_chunks = l.
Proof.
  intros St D L. unfold deduplicate_by_similarity. destruct l as [|r l]; [reflexivity|].
  rewrite (sort_fixed arrangement _ St). apply (dedup_loop_keeps_all thr max_chunks (r :: l) [] []).
  - exact D.
  - exact L.
Qed.

Lemma smart_deduplicate_unfold (rs : list RetrievalResult) (thr : Q)
    (max_chunks max_per_page : Z) :
  smart_deduplicate arrangement ratio rs thr max_chunks max_per_page
  = take_upto (diverse max_per_page []
                       (deduplicate_by_similarity arrangement ratio rs thr (max_chunks * 2)))
              max_chunks.
Proof.
  unfold smart_deduplicate. rewrite filter_by_page_diversity_diverse.
  destruct rs; [|reflexivity].
  simpl. unfold take_upto. destruct (0 <=? max_chunks)%Z; rewrite firstn_nil; reflexivity.
Qed.

Lemma smart_deduplicate_sublist (rs : list RetrievalResult) (thr : Q)
    (max_chunks max_per_page : Z) :
  sublist (smart_deduplicate arrangement ratio rs thr max_chunks max_per_page)
          (sort_by_score_desc arrangement rs).
Proof.
  rewrite smart_deduplicate_unfold.
  destruct (take_upto_prefix
              (diverse max_per_page []
                       (deduplicate_by_similarity arrangement ratio rs thr (max_chunks * 2)))
              max_chunks) as (k & ->).
  etransitivity; [apply sublist_take|].
  etransitivity; [apply diverse_sublist|].
  apply deduplicate_by_similarity_kept.
Qed.

(** The output of [smart_deduplicate] is a subsequence of the input as
    [sorted] arranges it, which is a permutation of the input: every
    output element is an input element and none occurs more often than in
    the input.  When no score is NaN, the output is in non-increasing
    order of score. *)
Lemma smart_deduplicate_selection (rs : list RetrievalResult) (thr : Q)
    (max_chunks max_per_page : Z) :
  sublist (smart_deduplicate arrangement ratio rs thr max_chunks max_per_page)
          (sort_by_score_desc arrangement rs)
  /\ Permutation (sort_by_score_desc arrangement rs) rs
  /\ smart_deduplicate arrangement ratio rs thr max_chunks max_per_page ⊆+ rs
  /\ incl (smart_deduplicate arrangement ratio rs thr max_chunks max_per_page) rs
  /\ (no_nan rs ->
      StronglySorted ge_score
        (smart_deduplicate arrangement ratio rs thr max_chunks max_per_page)).
Proof.
  pose proof (smart_deduplicate_sublist rs thr max_chunks max_per_page) as S.
  pose proof (sort_perm arrangement rs) as P.
  assert (M : smart_deduplicate arrangement ratio rs thr max_chunks max_per_page ⊆+ rs).
  { apply submseteq_sublist_l. eauto. }
  split; [exact S|]. split; [exact P|]. split; [exact M|]. split.
  - intros x Hx. apply list_elem_of_In. eapply elem_of_submseteq; [|exact M].
    apply list_elem_of_In, Hx.
  - intros Hn. eapply sorted_sublist; [exact S | apply sort_sorted, Hn].
Qed.

(** C7: in the output of the deduplication stage, and already in the
    output of the diversity pass, a primary page is the first page of at
    most [max_per_page] results (of none when [max_per_page] is not
    positive); the results without page numbers all pass the diversity
    pass, in their order. *)
Theorem page_diversity_cap (rs : list RetrievalResult) (thr : Q)
    (max_chunks max_per_page : Z) (p : Z) :
  (Z.of_nat (page_count p (smart_deduplicate arrangement ratio rs thr max_chunks max_per_page))
   <= Z.max 0 max_per_page)%Z
  /\ (Z.of_nat (page_count p (filter_by_page_diversity rs max_per_page))
      <= Z.max 0 max_per_page)%Z
  /\ List.filter has_no_page (filter_by_page_diversity rs max_per_page)
     = List.filter has_no_page rs.
Proof.
  split; [|split].
  - rewrite smart_deduplicate_unfold.
    destruct (take_upto_prefix
                (diverse max_per_page []
                         (deduplicate_by_similarity arrangement ratio rs thr (max_chunks * 2)))
                max_chunks) as (k & ->).
    pose proof (page_count_sublist p _ _
                  (sublist_take (diverse max_per_page []
                     (deduplicate_by_similarity arrangement ratio rs thr (max_chunks * 2)))
                     k)) as H1.
    pose proof (diverse_cap max_per_page []
                  (deduplicate_by_similarity arrangement ratio rs thr (max_chunks * 2)) p) as H2.
    simpl in H2. change (page_count p []) with 0 in H2. lia.
  - rewrite filter_by_page_diversity_diverse.
    pose proof (diverse_cap max_per_page [] rs p) as H2. simpl in H2.
    change (page_count p []) with 0 in H2. exact H2.
  - rewrite filter_by_page_diversity_diverse. apply diverse_keeps_unpaged.
Qed.

(** A second pass over an output that is in descending order of score
    changes nothing. *)
Lemma smart_deduplicate_again (rs : list RetrievalResult) (thr : Q)
    (max_chunks max_per_page : Z) :
  StronglySorted ge_score (sort_by_score_desc arrangement rs) ->
  smart_deduplicate arrangement ratio
    (smart_deduplicate arrangement ratio rs thr max_chunks max_per_page)
    thr max_chunks max_per_page
  = smart_deduplicate arrangement ratio rs thr max_chunks max_per_page.
Proof.
  intros Sorted.
  pose proof (smart_deduplicate_sublist rs thr max_chunks max_per_page) as Ssort.
  rewrite (smart_deduplicate_unfold rs) in *.
  set (U := deduplicate_by_similarity arrangement ratio rs thr (max_chunks * 2)) in *.
  set (D := diverse max_per_page [] U) in *.
  destruct (deduplicate_by_similarity_kept rs thr (max_chunks * 2)) as (SU & DU & LU).
  fold U in SU, DU, LU.
  assert (SD : sublist D U) by apply diverse_sublist.
  destruct (take_upto_prefix D max_chunks) as (k & Ek).
  destruct (take_upto_cases D max_chunks) as [Empty | [Hpos Hlen]].
  { destruct (Z.le_gt_cases 0 max_chunks) as [?|Hneg]; [right; assumption | left].
    apply sublist_length in SD. lia. }
  - rewrite Empty. reflexivity.
  - rewrite smart_deduplicate_unfold.
    assert (Sout : sublist (take_upto D max_chunks) D).
    { rewrite Ek. apply sublist_take. }
    rewrite deduplicate_by_similarity_fixed.
    + rewrite Ek. unfold D at 1. rewrite diverse_prefix_fixed. fold D. rewrite <- Ek.
      apply take_upto_all. exact Hlen.
    + eapply sorted_sublist; [exact Ssort | exact Sorted].
    + eapply distinct_sublist; [|apply incl_refl | exact DU].
      etransitivity; eassumption.
    + lia.
Qed.

(** C6, as amended: for a result list in which no score is NaN,
    deduplicating the output of [smart_deduplicate] again, with the same
    threshold and the same bounds, returns that output: the same results
    in the same order. *)
Theorem smart_deduplicate_idempotent (rs : list RetrievalResult) (thr : Q)
    (max_chunks max_per_page : Z) :
  no_nan rs ->
  smart_deduplicate arrangement ratio
    (smart_deduplicate arrangement ratio rs thr max_chunks max_per_page)
    thr max_chunks max_per_page
  = smart_deduplicate arrangement ratio rs thr max_chunks max_per_page.
Proof. intros Hn. apply smart_deduplicate_again, sort_sorted, Hn. Qed.

End WithRatio.

Lemma smart_deduplicate_idempotent_witness :
  no_nan six_candidates
  /\ smart_deduplicate as_found same_text_ratio
       (smart_deduplicate as_found same_text_ratio six_candidates (75 # 100) 5 2)
       (75 # 100) 5 2
     = smart_deduplicate as_found same_text_ratio six_candidates (75 # 100) 5 2.
Proof.
  assert (Hn : no_nan six_candidates) by (repeat constructor).
  split; [exact Hn|].
  apply (smart_deduplicate_idempotent as_found same_text_ratio six_candidates (75 # 100) 5 2 Hn).
Defined.

(** C6, counterexample: three results with the scores 0.3, NaN and 0.5.
    No score is smaller than the next one, so [sorted] leaves the list as
    it is; the result with the NaN score repeats the text of the first and
    is dropped.  The second pass sees 0.3 in front of 0.5 and puts the
    results in the other order. *)
Lemma idempotence_counterexample :
  let once := smart_deduplicate as_found same_text_ratio nan_in_the_middle (75 # 100) 5 2 in
  let twice := smart_deduplicate as_found same_text_ratio once (75 # 100) 5 2 in
  map chunk_id once = [lit "a"; lit "c"]
  /\ map chunk_id twice = [lit "c"; lit "a"]
  /\ twice <> once.
Proof.
  cbv zeta. split; [vm_compute; reflexivity|]. split; [vm_compute; reflexivity|].
  vm_compute. discriminate.
Qed.

(** The stages on six candidates: sorted by score ([b] stays in front of
    [d]), [a] dropped as a duplicate of [c], [e] dropped as the third
    result of page 1, [f] kept without a page. *)
Example six_candidates_deduplicated :
  map chunk_id (smart_deduplicate as_found same_text_ratio six_candidates (75 # 100) 5 2)
  = [lit "b"; lit "d"; lit "c"; lit "f"].
Proof. vm_compute. reflexivity. Qed.

Example six_candidates_truncated :
  map chunk_id (smart_deduplicate as_found same_text_ratio six_candidates (75 # 100) 3 2)
  = [lit "b"; lit "d"; lit "c"]
  /\ smart_deduplicate as_found same_text_ratio six_candidates (75 # 100) (-1) 2 = [].
Proof. split; vm_compute; reflexivity. Qed.

End DedupProps.

(* ===================================================================== *)
(** * The deduplicator on objects: what it reads and what it writes *)
(* ===================================================================== *)

Module DedupObjectsProps.
Import PyStr PyFloat PySorted RetrievalTypes PyHeap DedupSpec ObjectsSpec.
Import PySortedFacts SortProps DedupProps.

Lemma untouched_refl (h : heap) : untouched h h.
Proof. split; [reflexivity|]. exists []. rewrite app_nil_r. reflexivity. Qed.

Lemma bind_run {A B : Type} (m : St A) (f : A -> St B) (h h' : heap) (a : A) :
  m h = Some (a, h') -> bind m f h = f a h'.
Proof. intros E. unfold bind. rewrite E. reflexivity. Qed.

Lemma attributes_of_refers (h : heap) (items : list nat) (objects : list RetrievalResult) :
  Forall2 (refers h) items objects -> attributes_of items h = Some (objects, h).
Proof.
  induction 1 as [|r o items objects Hr _ IH]; [reflexivity|].
  cbn [attributes_of]. unfold bind, attributes. rewrite Hr, IH. reflexivity.
Qed.

Lemma refers_combine (h : heap) (items : list nat) (objects : list RetrievalResult) :
  Forall2 (refers h) items objects ->
  Forall (fun io => refers h (fst io) (snd io)) (combine items objects)
  /\ map fst (combine items objects) = items
  /\ map snd (combine items objects) = objects.
Proof.
  induction 1 as [|r o items objects Hr _ (IH1 & IH2 & IH3)]; [repeat split; constructor|].
  cbn. rewrite IH2, IH3. repeat split. constructor; assumption.
Qed.

Lemma refers_pairs (h : heap) (pairs : list (nat * RetrievalResult)) :
  Forall (fun io => refers h (fst io) (snd io)) pairs ->
  Forall2 (refers h) (map fst pairs) (map snd pairs).
Proof. induction 1; cbn; constructor; assumption. Qed.

Section WithRatio.

Variable arrangement : Arrangement.

Variable ratio : str -> str -> Q.

(** [sorted] makes a new list of the same references, in the order in
    which the sort puts the results they refer to. *)
Lemma sorted_by_score_refines (h : heap) (results : nat) (items : list nat)
    (objects : list RetrievalResult) :
  lists_of h !! results = Some items ->
  Forall2 (refers h) items objects ->
  exists sorted_items,
    DedupObjects.sorted_by_score arrangement results h
    = Some (length (lists_of h), mkHeap (results_of h) (lists_of h ++ [sorted_items]))
    /\ Forall2 (refers h) sorted_items (sort_by_score_desc arrangement objects)
    /\ Permutation sorted_items items.
Proof.
  intros Hl Hr. destruct (refers_combine h items objects Hr) as (Hc & Hfst & Hsnd).
  set (pairs := sorted_desc arrangement (fun io : nat * RetrievalResult => score (snd io))
                            (combine items objects)).
  assert (Hp : Permutation pairs (combine items objects)) by apply sorted_perm.
  exists (map fst pairs). split; [|split].
  - unfold DedupObjects.sorted_by_score, bind, items_of. rewrite Hl.
    rewrite (attributes_of_refers h items objects Hr). reflexivity.
  - unfold sort_by_score_desc. rewrite <- Hsnd at 1.
    rewrite (sorted_desc_map arrangement snd score). apply refers_pairs.
    eapply Permutation_Forall; [symmetry; exact Hp | exact Hc].
  - etransitivity; [apply Permutation_map, Hp | rewrite Hfst; reflexivity].
Qed.

(** The loop of the similarity pass appends to the list [deduplicated]
    and to no other object; the references it appends refer to the
    results that the loop on values keeps. *)
Lemma dedup_loop_refines (thr : Q) (max_chunks : Z) (h : heap) (deduplicated : nat)
    (todo : list nat) (todo_objects : list RetrievalResult) :
  Forall2 (refers h) todo todo_objects ->
  forall (lists : list (list nat)) (items : list nat) (objects : list RetrievalResult)
         (seen_texts : list str),
    lists !! deduplicated = Some items ->
    Forall2 (refers h) items objects ->
    exists kept,
      DedupObjects.dedup_loop ratio thr max_chunks todo deduplicated seen_texts
                              (mkHeap (results_of h) lists)
      = Some (tt, mkHeap (results_of h) (<[deduplicated := items ++ kept]> lists))
      /\ Forall2 (refers h) (items ++ kept)
                 (Dedup.dedup_loop ratio thr max_chunks todo_objects objects seen_texts)
      /\ sublist kept todo.
Proof.
  induction 1 as [|r o todo todo_objects Hr _ IH]; intros lists items objects seen Hl Hi.
  - exists []. rewrite app_nil_r. rewrite (list_insert_id _ _ _ Hl).
    split; [reflexivity|]. split; [exact Hi | constructor].
  - cbn [DedupObjects.dedup_loop Dedup.dedup_loop]. unfold bind at 1. unfold attributes.
    cbn [results_of]. rewrite Hr.
    destruct (Dedup.is_duplicate ratio thr o seen).
    + destruct (IH lists items objects seen Hl Hi) as (kept & E & F & S).
      exists kept. split; [exact E|]. split; [exact F | apply sublist_cons, S].
    + pose proof (lookup_lt_Some _ _ _ Hl) as Hlt.
      unfold bind at 1. unfold append at 1. cbn [lists_of results_of]. rewrite Hl.
      unfold bind at 1. unfold items_of at 1. cbn [lists_of].
      rewrite (list_lookup_insert_eq _ _ _ Hlt).
      assert (Hi' : Forall2 (refers h) (items ++ [r]) (objects ++ [o])).
      { apply Forall2_app; [exact Hi | repeat constructor; exact Hr]. }
      rewrite (Forall2_length _ _ _ Hi').
      destruct (Z.of_nat (length (objects ++ [o])) >=? max_chunks)%Z.
      * exists [r]. split; [reflexivity|]. split; [exact Hi'|].
        apply sublist_skip, sublist_nil_l.
      * destruct (IH (<[deduplicated := items ++ [r]]> lists) (items ++ [r]) (objects ++ [o])
                     (seen ++ [chunk_text o])) as (kept & E & F & S).
        { apply list_lookup_insert_eq, Hlt. }
        { exact Hi'. }
        exists (r :: kept). rewrite E, list_insert_insert_eq, <- app_assoc.
        split; [reflexivity|]. split; [|apply sublist_skip, S].
        rewrite <- app_assoc in F. exact F.
Qed.

Lemma deduplicate_by_similarity_refines (thr : Q) (max_chunks : Z) (h : heap)
    (results : nat) (items : list nat) (objects : list RetrievalResult) :
  lists_of h !! results = Some items ->
  Forall2 (refers h) items objects ->
  exists out_items sorted_items new_lists,
    DedupObjects.deduplicate_by_similarity arrangement ratio results thr max_chunks h
    = Some (length (lists_of h),
            mkHeap (results_of h) (lists_of h ++ out_items :: new_lists))
    /\ Forall2 (refers h) out_items
                 (Dedup.deduplicate_by_similarity arrangement ratio objects thr max_chunks)
    /\ sublist out_items sorted_items
    /\ Permutation sorted_items items
    /\ Forall2 (refers h) sorted_items (sort_by_score_desc arrangement objects).
Proof.
  intros Hl Hr. destruct h as [res lists]. cbn [lists_of results_of] in *.
  unfold DedupObjects.deduplicate_by_similarity.
  rewrite (bind_run _ _ _ (mkHeap res lists) items)
    by (unfold items_of; cbn [lists_of]; rewrite Hl; reflexivity).
  destruct Hr as [|r o items objects Hro Hr].
  { exists [], [], []. split; [reflexivity|]. repeat split; constructor. }
  assert (Hr' : Forall2 (refers (mkHeap res lists)) (r :: items) (o :: objects))
    by (constructor; assumption).
  pose proof (lookup_lt_Some _ _ _ Hl) as Hlt.
  rewrite (bind_run _ _ _ (mkHeap res (lists ++ [[]])) (length lists)) by reflexivity.
  destruct (sorted_by_score_refines (mkHeap res (lists ++ [[]])) results (r :: items)
              (o :: objects)) as (sorted_items & Es & Fs & Ps).
  { cbn [lists_of]. rewrite lookup_app_l by exact Hlt. exact Hl. }
  { exact Hr'. }
  cbn [lists_of results_of] in Es.
  rewrite (bind_run _ _ _ _ _ Es).
  assert (Hsorted : ((lists ++ [[]]) ++ [sorted_items]) !! length (lists ++ [[]])
                    = Some sorted_items)
    by (apply list_lookup_middle; reflexivity).
  rewrite (bind_run _ _ _ (mkHeap res ((lists ++ [[]]) ++ [sorted_items])) sorted_items)
    by (unfold items_of; cbn [lists_of]; rewrite Hsorted; reflexivity).
  destruct (dedup_loop_refines thr max_chunks (mkHeap res lists) (length lists) sorted_items
              (sort_by_score_desc arrangement (o :: objects)) Fs
              ((lists ++ [[]]) ++ [sorted_items]) [] [] []) as (kept & El & Fl & Sl).
  { rewrite <- app_assoc. apply list_lookup_middle. reflexivity. }
  { constructor. }
  cbn [results_of app] in El, Fl.
  rewrite (bind_run _ _ _ _ _ El).
  exists kept, sorted_items, [sorted_items].
  split; [|split; [exact Fl | split; [exact Sl | split; [exact Ps | exact Fs]]]].
  unfold ret. do 3 f_equal. rewrite <- app_assoc. cbn [app].
  replace (length lists) with (length lists + 0) by lia.
  rewrite insert_app_r. reflexivity.
Qed.

(** The loop of the diversity pass appends to the list [filtered] and to
    no other object. *)
Lemma diversity_loop_refines (max_per_page : Z) (h : heap) (filtered : nat)
    (todo : list nat) (todo_objects : list RetrievalResult) :
  Forall2 (refers h) todo todo_objects ->
  forall (lists : list (list nat)) (items : list nat) (objects : list RetrievalResult)
         (page_counts : gmap Z Z),
    lists !! filtered = Some items ->
    Forall2 (refers h) items objects ->
    exists kept,
      DedupObjects.diversity_loop max_per_page todo page_counts filtered
                                  (mkHeap (results_of h) lists)
      = Some (tt, mkHeap (results_of h) (<[filtered := items ++ kept]> lists))
      /\ Forall2 (refers h) (items ++ kept)
                 (Dedup.diversity_loop max_per_page todo_objects page_counts objects)
      /\ sublist kept todo.
Proof.
  induction 1 as [|r o todo todo_objects Hr _ IH]; intros lists items objects pc Hl Hi.
  - exists []. rewrite app_nil_r. rewrite (list_insert_id _ _ _ Hl).
    split; [reflexivity|]. split; [exact Hi | constructor].
  - pose proof (lookup_lt_Some _ _ _ Hl) as Hlt.
    assert (Hi' : Forall2 (refers h) (items ++ [r]) (objects ++ [o])).
    { apply Forall2_app; [exact Hi | repeat constructor; exact Hr]. }
    assert (Happend : append filtered r (mkHeap (results_of h) lists)
                      = Some (tt, mkHeap (results_of h) (<[filtered := items ++ [r]]> lists))).
    { unfold append. cbn [lists_of results_of]. rewrite Hl. reflexivity. }
    assert (Step : forall pc',
      exists kept,
        DedupObjects.diversity_loop max_per_page todo pc' filtered
          (mkHeap (results_of h) (<[filtered := items ++ [r]]> lists))
        = Some (tt, mkHeap (results_of h) (<[filtered := items ++ r :: kept]> lists))
        /\ Forall2 (refers h) (items ++ r :: kept)
                   (Dedup.diversity_loop max_per_page todo_objects pc' (objects ++ [o]))
        /\ sublist (r :: kept) (r :: todo)).
    { intros pc'.
      destruct (IH (<[filtered := items ++ [r]]> lists) (items ++ [r]) (objects ++ [o]) pc')
        as (kept & E & F & S).
      { apply list_lookup_insert_eq, Hlt. }
      { exact Hi'. }
      exists kept. rewrite E, list_insert_insert_eq, <- app_assoc.
      split; [reflexivity|]. split; [|apply sublist_skip, S].
      rewrite <- app_assoc in F. exact F. }
    cbn [DedupObjects.diversity_loop Dedup.diversity_loop].
    rewrite (bind_run _ _ _ (mkHeap (results_of h) lists) o)
      by (unfold attributes; cbn [results_of]; rewrite Hr; reflexivity).
    destruct (page_numbers o) as [|primary_page ?].
    + rewrite (bind_run _ _ _ _ _ Happend).
      destruct (Step pc) as (kept & E & F & S). exists (r :: kept). auto.
    + cbv zeta.
      destruct (default 0%Z (_ !! primary_page) <? max_per_page)%Z.
      * rewrite (bind_run _ _ _ _ _ Happend).
        match goal with
        | |- context [DedupObjects.diversity_loop _ _ ?pc' _ _] =>
            destruct (Step pc') as (kept & E & F & S)
        end.
        exists (r :: kept). auto.
      * match goal with
        | |- context [DedupObjects.diversity_loop _ _ ?pc' _ _] =>
            destruct (IH lists items objects pc' Hl Hi) as (kept & E & F & S)
        end.
        exists kept. split; [exact E|]. split; [exact F | apply sublist_cons, S].
Qed.

Lemma filter_by_page_diversity_refines (max_per_page : Z) (h : heap)
    (results : nat) (items : list nat) (objects : list RetrievalResult) :
  lists_of h !! results = Some items ->
  Forall2 (refers h) items objects ->
  exists out_items,
    DedupObjects.filter_by_page_diversity results max_per_page h
    = Some (length (lists_of h), mkHeap (results_of h) (lists_of h ++ [out_items]))
    /\ Forall2 (refers h) out_items (Dedup.filter_by_page_diversity objects max_per_page)
    /\ sublist out_items items.
Proof.
  intros Hl Hr. destruct h as [res lists]. cbn [lists_of results_of] in *.
  unfold DedupObjects.filter_by_page_diversity.
  rewrite (bind_run _ _ _ (mkHeap res lists) items)
    by (unfold items_of; cbn [lists_of]; rewrite Hl; reflexivity).
  destruct Hr as [|r o items objects Hro Hr].
  { exists []. split; [reflexivity|]. split; constructor. }
  assert (Hr' : Forall2 (refers (mkHeap res lists)) (r :: items) (o :: objects))
    by (constructor; assumption).
  rewrite (bind_run _ _ _ (mkHeap res (lists ++ [[]])) (length lists)) by reflexivity.
  destruct (diversity_loop_refines max_per_page (mkHeap res lists) (length lists)
              (r :: items) (o :: objects) Hr' (lists ++ [[]]) [] [] ∅)
    as (kept & El & Fl & Sl).
  { apply list_lookup_middle. reflexivity. }
  { constructor. }
  cbn [results_of app] in El, Fl.
  rewrite (bind_run _ _ _ _ _ El).
  exists kept. split; [|split; [exact Fl | exact Sl]].
  unfold ret. do 3 f_equal.
  replace (length lists) with (length lists + 0) by lia.
  rewrite insert_app_r. reflexivity.
Qed.

Lemma take_upto_refers (h : heap) (items : list nat) (objects : list RetrievalResult)
    (n : Z) :
  Forall2 (refers h) items objects ->
  Forall2 (refers h) (Dedup.take_upto items n) (Dedup.take_upto objects n).
Proof.
  intros H. unfold Dedup.take_upto. rewrite (Forall2_length _ _ _ H).
  destruct (0 <=? n)%Z; apply Forall2_take, H.
Qed.

(** [smart_deduplicate] on objects: it makes new lists, changes no object
    it was given, and returns a new list; the references in that list
    refer to the results that [smart_deduplicate] on values returns, and
    each of them is taken from the list it was given. *)
Lemma smart_deduplicate_refines (thr : Q) (max_chunks max_per_page : Z) (h : heap)
    (results : nat) (items : list nat) (objects : list RetrievalResult) :
  lists_of h !! results = Some items ->
  Forall2 (refers h) items objects ->
  exists out out_items sorted_items new_lists,
    DedupObjects.smart_deduplicate arrangement ratio results thr max_chunks max_per_page h
    = Some (out, mkHeap (results_of h) (lists_of h ++ new_lists))
    /\ length (lists_of h) <= out
    /\ (lists_of h ++ new_lists) !! out = Some out_items
    /\ Forall2 (refers h) out_items
                 (Dedup.smart_deduplicate arrangement ratio objects thr max_chunks
                                          max_per_page)
    /\ sublist out_items sorted_items
    /\ Permutation sorted_items items
    /\ Forall2 (refers h) sorted_items (sort_by_score_desc arrangement objects).
Proof.
  intros Hl Hr. unfold DedupObjects.smart_deduplicate.
  rewrite (bind_run _ _ _ h items) by (unfold items_of; rewrite Hl; reflexivity).
  destruct Hr as [|r o items objects Hro Hr].
  { exists (length (lists_of h)), [], [], [[]].
    split; [reflexivity|]. split; [lia|].
    split; [apply list_lookup_middle; reflexivity|]. repeat split; constructor. }
  assert (Hr' : Forall2 (refers h) (r :: items) (o :: objects)) by (constructor; assumption).
  destruct (deduplicate_by_similarity_refines thr (max_chunks * 2) h results (r :: items)
              (o :: objects) Hl Hr') as (unique & sorted_items & new1 & E1 & F1 & S1 & P1 & Fs).
  rewrite (bind_run _ _ _ _ _ E1).
  destruct (filter_by_page_diversity_refines max_per_page
              (mkHeap (results_of h) (lists_of h ++ unique :: new1))
              (length (lists_of h)) unique
              (Dedup.deduplicate_by_similarity arrangement ratio (o :: objects) thr
                                               (max_chunks * 2)))
    as (diverse & E2 & F2 & S2).
  { cbn [lists_of]. apply list_lookup_middle. reflexivity. }
  { exact F1. }
  cbn [lists_of results_of] in E2.
  rewrite (bind_run _ _ _ _ _ E2).
  rewrite (bind_run _ _ _ (mkHeap (results_of h) ((lists_of h ++ unique :: new1) ++ [diverse]))
             diverse)
    by (unfold items_of; cbn [lists_of];
        rewrite (list_lookup_middle _ [] diverse _ eq_refl); reflexivity).
  exists (length ((lists_of h ++ unique :: new1) ++ [diverse])),
         (Dedup.take_upto diverse max_chunks), sorted_items,
         (unique :: new1 ++ [diverse; Dedup.take_upto diverse max_chunks]).
  split; [|split; [|split; [|split; [|split; [|split; [exact P1 | exact Fs]]]]]].
  - unfold new_list. cbn [lists_of results_of]. do 3 f_equal.
    rewrite <- !app_assoc. reflexivity.
  - rewrite !length_app. lia.
  - replace (lists_of h ++ unique :: new1 ++ [diverse; Dedup.take_upto diverse max_chunks])
      with (((lists_of h ++ unique :: new1) ++ [diverse])
            ++ [Dedup.take_upto diverse max_chunks])
      by (rewrite <- !app_assoc; reflexivity).
    apply list_lookup_middle. reflexivity.
  - apply take_upto_refers. exact F2.
  - destruct (take_upto_prefix diverse max_chunks) as (k & ->).
    etransitivity; [apply sublist_take|]. etransitivity; [exact S2 | exact S1].
Qed.

(** C10, as amended: [smart_deduplicate] is given a list object whose
    items refer to results.  It returns a new list object.  The items of
    that list are a subsequence of the items of the given list as
    [sorted] arranges them, which is a permutation of them by the scores
    of the results they refer to: every item is a reference taken from the
    given list, and none is taken more often than it occurs there.  The
    results they refer to are what [smart_deduplicate] on values returns
    for the given results; when no score is NaN they are in non-increasing
    order of score.  Afterwards every result object has the attributes it
    had, no result object has been made, and every list that existed has
    the items it had: the function reads its input and writes only to
    lists of its own. *)
Theorem smart_deduplicate_subsequence (h : heap) (results : nat) (items : list nat)
    (objects : list RetrievalResult) (thr : Q) (max_chunks max_per_page : Z) :
  lists_of h !! results = Some items ->
  Forall2 (refers h) items objects ->
  exists out out_items sorted_items h',
    DedupObjects.smart_deduplicate arrangement ratio results thr max_chunks max_per_page h
    = Some (out, h')
    /\ untouched h h'
    /\ lists_of h !! out = None
    /\ lists_of h' !! out = Some out_items
    /\ sublist out_items sorted_items
    /\ Permutation sorted_items items
    /\ Forall2 (refers h) sorted_items (sort_by_score_desc arrangement objects)
    /\ out_items ⊆+ items
    /\ Forall2 (refers h') out_items
                 (Dedup.smart_deduplicate arrangement ratio objects thr max_chunks
                                          max_per_page)
    /\ (no_nan objects ->
        StronglySorted ge_score
          (Dedup.smart_deduplicate arrangement ratio objects thr max_chunks max_per_page)).
Proof.
  intros Hl Hr.
  destruct (smart_deduplicate_refines thr max_chunks max_per_page h results items objects
              Hl Hr)
    as (out & out_items & sorted_items & new_lists & E & Hout & Hlook & F & S & P & Fs).
  destruct (smart_deduplicate_selection arrangement ratio objects thr max_chunks max_per_page)
    as (_ & _ & _ & _ & Ssorted).
  exists out, out_items, sorted_items, (mkHeap (results_of h) (lists_of h ++ new_lists)).
  split; [exact E|]. split; [split; [reflexivity | exists new_lists; reflexivity]|].
  split; [apply lookup_ge_None_2, Hout|]. split; [exact Hlook|]. split; [exact S|].
  split; [exact P|]. split; [exact Fs|].
  split; [rewrite <- P; apply sublist_submseteq, S|]. split; [exact F | exact Ssorted].
Qed.

(** A function that appended to the list it is given would change it. *)
Example append_is_a_write :
  exists h', append 0 0 six_objects = Some (tt, h')
             /\ lists_of h' !! 0 = Some [0; 1; 2; 3; 4; 5; 0]
             /\ ~ untouched six_objects h'.
Proof.
  eexists. split; [reflexivity|]. split; [reflexivity|].
  intros (_ & new_lists & H). cbn in H. injection H as H _. discriminate H.
Qed.

End WithRatio.

Lemma smart_deduplicate_subsequence_witness :
  lists_of six_objects !! 0 = Some [0; 1; 2; 3; 4; 5]
  /\ Forall2 (refers six_objects) [0; 1; 2; 3; 4; 5] six_candidates
  /\ exists out out_items h',
       DedupObjects.smart_deduplicate as_found same_text_ratio 0 (75 # 100) 5 2 six_objects
       = Some (out, h')
       /\ untouched six_objects h'
       /\ lists_of six_objects !! out = None
       /\ lists_of h' !! out = Some out_items
       /\ out_items ⊆+ [0; 1; 2; 3; 4; 5].
Proof.
  assert (Hl : lists_of six_objects !! 0 = Some [0; 1; 2; 3; 4; 5]) by reflexivity.
  assert (Hr : Forall2 (refers six_objects) [0; 1; 2; 3; 4; 5] six_candidates)
    by (repeat constructor).
  split; [exact Hl|]. split; [exact Hr|].
  destruct (smart_deduplicate_subsequence as_found same_text_ratio six_objects 0
              [0; 1; 2; 3; 4; 5] six_candidates (75 # 100) 5 2 Hl Hr)
    as (out & out_items & sorted_items & h' & E & U & N & L & _ & _ & _ & S & _).
  exists out, out_items, h'. auto.
Defined.

(** C10, counterexample: three results with the scores 0.3, NaN and 0.5,
    in this order; the second repeats the text of the first.  [sorted]
    leaves them in this order, the second is dropped as a duplicate, and
    the list that is returned holds the first and the third: the score
    0.3 in front of the score 0.5. *)
Lemma subsequence_counterexample :
  exists h',
    DedupObjects.smart_deduplicate as_found same_text_ratio 0 (75 # 100) 5 2 nan_objects
    = Some (4, h')
    /\ lists_of h' !! 4 = Some [0; 2]
    /\ map score (Dedup.smart_deduplicate as_found same_text_ratio nan_in_the_middle
                                          (75 # 100) 5 2)
       = [dec 3 10; dec 5 10]
    /\ ltb (dec 3 10) (dec 5 10) = true
    /\ leb (dec 5 10) (dec 3 10) = false.
Proof.
  eexists. split; [vm_compute; reflexivity|]. split; [reflexivity|].
  split; [vm_compute; reflexivity|]. split; vm_compute; reflexivity.
Qed.

End DedupObjectsProps.

(* ===================================================================== *)
(** * The retrieval engine *)
(* ===================================================================== *)

Module RetrievalProps.
Import PyStr PyFloat PySorted RetrievalTypes HybridRetrieval PyFloatSpec DedupSpec.
Import RetrievalSpec PyFloatFacts SortProps PyStrFacts.

(** ** Merging *)

Lemma merge_loop_ids (results : list RetrievalResult) (seen : list str)
    (merged : list RetrievalResult) :
  NoDup (map chunk_id merged) ->
  (forall x, In x (map chunk_id merged) -> In x seen) ->
  NoDup (map chunk_id (snd (merge_loop results seen merged)))
  /\ (forall x, In x (map chunk_id (snd (merge_loop results seen merged)))
                -> In x (fst (merge_loop results seen merged))).
Proof.
  revert seen merged. induction results as [|r results IH]; intros seen merged Hnd Hseen.
  - simpl. auto.
  - simpl. destruct (str_in (chunk_id r) seen) eqn:E; simpl.
    + apply IH; assumption.
    + apply IH.
      * rewrite map_app. simpl. apply NoDup_app. repeat split.
        -- exact Hnd.
        -- intros x Hx Hx'. apply list_elem_of_In in Hx, Hx'. destruct Hx' as [<-|[]].
           apply Hseen, str_in_In in Hx. congruence.
        -- repeat constructor. intros H. apply list_elem_of_In in H. destruct H.
      * intros x Hx. rewrite map_app in Hx. apply in_app_or in Hx as [Hx|[<-|[]]].
        -- right. apply Hseen, Hx.
        -- left. reflexivity.
Qed.

(** The merged list holds one result per chunk identity: the objects the
    rerank loop mutates are pairwise different, so each is boosted once. *)
Lemma merge_results_distinct (vector_results keyword_results : list RetrievalResult) :
  NoDup (map chunk_id (_merge_results vector_results keyword_results)).
Proof.
  unfold _merge_results.
  destruct (merge_loop_ids vector_results [] []) as [H1 H2]; [constructor | intros x [] |].
  destruct (merge_loop vector_results [] []) as [seen merged]. simpl in *.
  apply merge_loop_ids; assumption.
Qed.

(** ** Re-ranking *)

(** C8, counterexample.  The query ["revenue"] yields no hint, so for the
    hint set derived from the query the match count of a result of section
    type [equity] is 0; with the section filter [equity] the rerank stage
    nevertheless multiplies its score 1.0 by the boost, to 1.2, and
    relabels it.  The factor is a float: for one match it is the float
    nearest to 1.2, not 12/10; and the float 0.1 boosted for three matches
    is greater than the float 0.16, although 0.1 * (1 + 0.2 * 3) is 0.16,
    so that the result passes one of score 0.16 that stood in front of it.
    Three results with the scores 0.3, NaN and 0.5 are left in this
    order, which is not descending. *)
Lemma rerank_counterexample :
  (section_match_count (query_hints (lit "revenue")) equity_result = 0
   /\ _rerank_by_classification as_found [equity_result] (lit "revenue") (Some [lit "equity"])
      = [ mkResult (lit "c1") (lit "Share capital") (lit "paragraph") [lit "equity"] None
                   [7%Z] (dec 12 10) re_ranked ]
   /\ ltb (score equity_result) (dec 12 10) = true)
  /\ (to_Q (boost 1) = Some (5404319552844595 # 4503599627370496)
      /\ ~ (5404319552844595 # 4503599627370496 == 1 + (2 # 10) * 1)%Q
      /\ ((1 # 10) * (1 + (2 # 10) * 3) == 16 # 100)%Q
      /\ ltb (dec 16 100) (PyFloat.mul (dec 1 10) (boost 3)) = true
      /\ map chunk_id (_rerank_by_classification as_found
                         [sixteen_hundredths; tenth_in_three_sections]
                         (lit "equity, debt and cash flow") None)
         = [lit "a"; lit "b"])
  /\ (_rerank_by_classification as_found nan_between (lit "revenue") None = nan_between
      /\ map score nan_between = [dec 3 10; nan; dec 5 10]
      /\ ltb (dec 3 10) (dec 5 10) = true).
Proof.
  split; [|split].
  - split; [vm_compute; reflexivity|]. split; vm_compute; reflexivity.
  - split; [vm_compute; reflexivity|]. split; [vm_compute; discriminate|].
    split; [vm_compute; reflexivity|]. split; vm_compute; reflexivity.
  - split; [vm_compute; reflexivity|]. split; vm_compute; reflexivity.
Qed.

Lemma boost_result_fields (hints : list str) (r : RetrievalResult) :
  chunk_id (boost_result hints r) = chunk_id r
  /\ chunk_text (boost_result hints r) = chunk_text r
  /\ chunk_type (boost_result hints r) = chunk_type r
  /\ section_types (boost_result hints r) = section_types r
  /\ note_number (boost_result hints r) = note_number r
  /\ page_numbers (boost_result hints r) = page_numbers r.
Proof. unfold boost_result. destruct (0 <? _); repeat split. Qed.

Lemma boost_result_score (hints : list str) (r : RetrievalResult) :
  (section_match_count hints r = 0 -> score (boost_result hints r) = score r)
  /\ (1 <= section_match_count hints r ->
      score (boost_result hints r)
      = PyFloat.mul (score r) (boost (section_match_count hints r))).
Proof.
  unfold boost_result. destruct (section_match_count hints r) as [|n] eqn:E; simpl; split;
    intros; try reflexivity; lia.
Qed.

Lemma boost_result_tier (hints : list str) (r : RetrievalResult) :
  (1 <= section_match_count hints r -> retrieval_tier (boost_result hints r) = re_ranked)
  /\ (section_match_count hints r = 0 ->
      retrieval_tier (boost_result hints r) = retrieval_tier r).
Proof.
  unfold boost_result. destruct (section_match_count hints r) as [|n]; simpl; split;
    intros; try reflexivity; lia.
Qed.

(** The boost is a finite float for every match count a result can have
    in practice. *)
Lemma boost_finite_upto :
  forallb (fun count => finite_nonzero (boost count)) (seq 1 4096) = true.
Proof. vm_compute. reflexivity. Qed.

(** The boost makes no NaN: the boosted score of a result with at most
    4096 section types is NaN only when its score was. *)
Lemma boost_result_nan (hints : list str) (r : RetrievalResult) :
  length (section_types r) <= 4096 ->
  is_nan (score (boost_result hints r)) = is_nan (score r).
Proof.
  intros Hlen. unfold boost_result.
  destruct (0 <? section_match_count hints r) eqn:E; [|reflexivity].
  apply Nat.ltb_lt in E. cbn [score]. apply mul_finite_nan.
  pose proof boost_finite_upto as H. rewrite forallb_forall in H. apply H.
  apply in_seq. unfold section_match_count in *.
  pose proof (List.filter_length_le (fun section_type => str_in section_type hints)
                (section_types r)). lia.
Qed.

(** So the scores are comparable after the boost when they were before. *)
Lemma boosted_no_nan (query : str) (section_filters : option (list str))
    (rs : list RetrievalResult) :
  Forall (fun r => length (section_types r) <= 4096) rs ->
  no_nan rs -> no_nan (boosted query section_filters rs).
Proof.
  unfold no_nan, boosted. rewrite List.Forall_map. intros Hlen Hn.
  induction Hn as [|r rs Hr _ IH]; [constructor|].
  inversion Hlen; subst. constructor; [|auto].
  rewrite boost_result_nan; assumption.
Qed.

(** C8, as amended: the hint set is the hints derived from the query
    extended by the section filters when filters are given.  For a merged
    list, the rerank stage returns the boosted results, in descending
    order of score when no boosted score is NaN.  A result with
    [matchCount >= 1] section types in that hint set has its score
    multiplied by the float [1.0 + matchCount * 0.2], each operation
    rounded to the nearest float, and its tier becomes [re-ranked]; a
    result with [matchCount = 0] keeps its score and its tier.  The other
    fields are unchanged. *)
Theorem rerank_boosts_and_sorts (arrangement : Arrangement)
    (vector_results keyword_results : list RetrievalResult)
    (query : str) (section_filters : option (list str)) :
  let combined := _merge_results vector_results keyword_results in
  let hints := query_hints query ++ or_empty (truthy_list section_filters) in
  let reranked := _rerank_by_classification arrangement combined query section_filters in
  Permutation reranked (map (boost_result hints) combined)
  /\ (no_nan (map (boost_result hints) combined) -> StronglySorted ge_score reranked)
  /\ Forall (fun r =>
       let count := length (List.filter (fun section_type => str_in section_type hints)
                                        (section_types r)) in
       (1 <= count ->
        score (boost_result hints r)
        = PyFloat.mul (score r)
                      (PyFloat.add one (PyFloat.mul (of_int (Z.of_nat count)) two_tenths))
        /\ retrieval_tier (boost_result hints r) = re_ranked)
       /\ (count = 0 ->
           score (boost_result hints r) = score r
           /\ retrieval_tier (boost_result hints r) = retrieval_tier r)
       /\ chunk_id (boost_result hints r) = chunk_id r
       /\ chunk_text (boost_result hints r) = chunk_text r
       /\ section_types (boost_result hints r) = section_types r
       /\ page_numbers (boost_result hints r) = page_numbers r) combined.
Proof.
  cbv zeta. unfold _rerank_by_classification, query_section_hints.
  split; [apply sort_perm|]. split; [apply sort_sorted|].
  apply List.Forall_forall. intros r _.
  pose proof (boost_result_fields (query_hints query ++ or_empty (truthy_list section_filters)) r)
    as (F1 & F2 & _ & F4 & _ & F6).
  pose proof (boost_result_tier (query_hints query ++ or_empty (truthy_list section_filters)) r)
    as (T1 & T2).
  pose proof (boost_result_score (query_hints query ++ or_empty (truthy_list section_filters)) r)
    as (S0 & S1).
  unfold section_match_count in *.
  split; [intros H; split; [apply S1, H | apply T1, H]|].
  split; [intros H; split; [apply S0, H | apply T2, H]|].
  repeat split; assumption.
Qed.

Lemma rerank_witness :
  let combined := _merge_results [equity_result; sixteen_hundredths] [] in
  let hints := query_hints (lit "Equity and debt") ++ or_empty (truthy_list None) in
  let reranked := _rerank_by_classification as_found combined (lit "Equity and debt") None in
  no_nan (map (boost_result hints) combined)
  /\ reranked = [ mkResult (lit "c1") (lit "Share capital") (lit "paragraph") [lit "equity"]
                           None [7%Z] (dec 12 10) re_ranked;
                  sixteen_hundredths ]
  /\ Permutation reranked (map (boost_result hints) combined)
  /\ StronglySorted ge_score reranked.
Proof.
  cbv zeta.
  assert (Hn : no_nan (map (boost_result (query_hints (lit "Equity and debt")
                                           ++ or_empty (truthy_list None)))
                           (_merge_results [equity_result; sixteen_hundredths] [])))
    by (vm_compute; repeat constructor).
  split; [exact Hn|]. split; [vm_compute; reflexivity|].
  pose proof (rerank_boosts_and_sorts as_found [equity_result; sixteen_hundredths] []
                (lit "Equity and debt") None) as (P & S & _).
  split; [exact P | exact (S Hn)].
Defined.

(** ** Failure of a tier *)

Section WithRatio.

Variable arrangement : Arrangement.

Variable ratio : str -> str -> Q.

(** A failing embedding oracle degrades retrieval to the keyword tier. *)
Lemma embedding_failure_degrades (be : Backend) (query company_id : str) (top_k : Z)
    (section_filters : option (list str)) (statement_type note_number : option str)
    (dedup : bool) (thr : Q) (rows : list Row) :
  _ensure_connection be = Ok tt ->
  er_success (embed_single be query) = false ->
  keyword_execute be query
    (sql_query company_id (top_k * 2) section_filters statement_type note_number) = Ok rows ->
  retrieve arrangement ratio be query company_id top_k section_filters statement_type
           note_number dedup thr
  = Ok (finish arrangement ratio [] (map (result_of_row keyword) rows) query top_k
               section_filters dedup thr).
Proof.
  intros Hc He Hk. unfold retrieve, _vector_search, _keyword_search, finish.
  rewrite Hc, He, Hk. simpl. destruct dedup; reflexivity.
Qed.

(** A failing keyword index degrades retrieval to the vector tier. *)
Lemma keyword_failure_degrades (be : Backend) (query company_id : str) (top_k : Z)
    (section_filters : option (list str)) (statement_type note_number : option str)
    (dedup : bool) (thr : Q) (rows : list Row) (e : PyExn) :
  _ensure_connection be = Ok tt ->
  er_success (embed_single be query) = true ->
  vector_execute be (er_embedding (embed_single be query))
    (sql_query company_id (top_k * 3) section_filters statement_type note_number) = Ok rows ->
  keyword_execute be query
    (sql_query company_id (top_k * 2) section_filters statement_type note_number) = Raise e ->
  retrieve arrangement ratio be query company_id top_k section_filters statement_type
           note_number dedup thr
  = Ok (finish arrangement ratio (map (result_of_row vector) rows) [] query top_k
               section_filters dedup thr).
Proof.
  intros Hc He Hv Hk. unfold retrieve, _vector_search, _keyword_search, finish.
  rewrite Hc, He, Hv, Hk. simpl. destruct dedup; reflexivity.
Qed.

(** A failing vector index is not caught: the exception leaves
    [retrieve], whatever the keyword index would have returned. *)
Lemma vector_failure_propagates (be : Backend) (query company_id : str) (top_k : Z)
    (section_filters : option (list str)) (statement_type note_number : option str)
    (dedup : bool) (thr : Q) (e : PyExn) :
  _ensure_connection be = Ok tt ->
  er_success (embed_single be query) = true ->
  vector_execute be (er_embedding (embed_single be query))
    (sql_query company_id (top_k * 3) section_filters statement_type note_number) = Raise e ->
  retrieve arrangement ratio be query company_id top_k section_filters statement_type
           note_number dedup thr
  = Raise e.
Proof.
  intros Hc He Hv. unfold retrieve, _vector_search. rewrite Hc, He, Hv. reflexivity.
Qed.

End WithRatio.

(** C2, the code at the failing input: in scenario D [retrieve] raises the
    exception of the vector index instead of returning the three keyword
    results; called on its own, the keyword tier does return them. *)
Theorem vector_index_failure_is_raised :
  retrieve as_found (fun _ _ => 0%Q) scenario_D (lit "revenue") (lit "acme") 5 None None None
           true (75 # 100)
  = Raise OperationalError
  /\ _keyword_search scenario_D (lit "revenue") (lit "acme") 10 None None None
     = Ok (map (result_of_row keyword) keyword_rows).
Proof. split; reflexivity. Qed.

(** With the embedding oracle down the three keyword results are returned,
    tagged [keyword]; with both tiers down the result is the empty list. *)
Example embedding_down_returns_keyword_results :
  retrieve as_found (fun _ _ => 0%Q) embedding_down (lit "revenue") (lit "acme") 5 None None None
           true (75 # 100)
  = Ok (map (result_of_row keyword) keyword_rows).
Proof. vm_compute. reflexivity. Qed.

Example both_down_returns_nothing :
  retrieve as_found (fun _ _ => 0%Q) both_down (lit "revenue") (lit "acme") 5 None None None
           true (75 # 100)
  = Ok [].
Proof. vm_compute. reflexivity. Qed.

End RetrievalProps.

(* ===================================================================== *)
(** * The rerank stage on objects *)
(* ===================================================================== *)

Module HybridRetrievalObjectsProps.
Import PyStr PyFloat PySorted RetrievalTypes PyHeap HybridRetrieval DedupSpec ObjectsSpec.
Import RetrievalSpec PySortedFacts SortProps DedupObjectsProps.

(** The body of the loop writes the result it is at, and nothing else. *)
Lemma rerank_body {A : Type} (hints : list str) (h : heap) (r : nat) (o : RetrievalResult)
    (rest : St A) :
  refers h r o ->
  0 < section_match_count hints o ->
  PyHeap.bind (HybridRetrievalObjects.set_score r
                 (PyFloat.mul (score o) (boost (section_match_count hints o))))
    (fun _ => PyHeap.bind (HybridRetrievalObjects.set_retrieval_tier r re_ranked) (fun _ => rest)) h
  = rest (mkHeap (<[r := boost_result hints o]> (results_of h)) (lists_of h)).
Proof.
  intros Hr Hc. pose proof (lookup_lt_Some _ _ _ Hr) as Hlt.
  unfold PyHeap.bind, HybridRetrievalObjects.set_score. unfold refers in Hr. rewrite Hr.
  unfold HybridRetrievalObjects.set_retrieval_tier. cbn [results_of lists_of].
  rewrite list_lookup_insert_eq by exact Hlt. cbn [chunk_id chunk_text chunk_type
    section_types note_number page_numbers score retrieval_tier].
  rewrite list_insert_insert_eq. unfold boost_result.
  destruct (Nat.ltb_spec 0 (section_match_count hints o)); [reflexivity | lia].
Qed.

Lemma boost_result_unmatched (hints : list str) (o : RetrievalResult) :
  (0 <? section_match_count hints o) = false -> boost_result hints o = o.
Proof. intros E. unfold boost_result. rewrite E. reflexivity. Qed.

(** The loop on objects writes to each result of the list what the loop
    on values computes for it, when no result is in the list twice; it
    writes to no other result and to no list. *)
Lemma rerank_loop_refines (hints : list str) (todo : list nat) :
  forall (h : heap) (objects : list RetrievalResult),
    NoDup todo ->
    Forall2 (refers h) todo objects ->
    exists results',
      HybridRetrievalObjects.rerank_loop hints todo h = Some (tt, mkHeap results' (lists_of h))
      /\ Forall2 (refers (mkHeap results' (lists_of h))) todo (map (boost_result hints) objects)
      /\ (forall r, r ∉ todo -> results' !! r = results_of h !! r).
Proof.
  induction todo as [|r todo IH]; intros h objects Hnd Hf.
  - apply Forall2_nil_inv_l in Hf as ->. exists (results_of h). destruct h.
    split; [reflexivity|]. split; [constructor | reflexivity].
  - apply Forall2_cons_inv_l in Hf as (o & objects' & Hr & Hf & ->).
    apply NoDup_cons in Hnd as [Hnotin Hnd].
    set (h1 := mkHeap (<[r := boost_result hints o]> (results_of h)) (lists_of h)).
    assert (Hr1 : refers h1 r (boost_result hints o)).
    { unfold refers, h1. cbn [results_of]. apply list_lookup_insert_eq.
      exact (lookup_lt_Some _ _ _ Hr). }
    assert (Hf1 : Forall2 (refers h1) todo objects').
    { clear IH Hnd. induction Hf as [|r' o' todo objects' Hr' _ IHf]; constructor.
      - unfold refers, h1. cbn [results_of].
        rewrite list_lookup_insert_ne; [exact Hr'|]. intros ->. apply Hnotin. left.
      - apply IHf. intros Hin. apply Hnotin. right. exact Hin. }
    destruct (IH h1 objects' Hnd Hf1) as (results' & E & F & U).
    exists results'. split; [|split].
    + cbn [HybridRetrievalObjects.rerank_loop]. unfold PyHeap.bind at 1. unfold attributes.
      unfold refers in Hr. rewrite Hr.
      destruct (0 <? section_match_count hints o) eqn:Ec.
      * apply Nat.ltb_lt in Ec.
        rewrite (rerank_body hints h r o _ Hr Ec). exact E.
      * replace h with h1; [exact E|]. unfold h1.
        rewrite (boost_result_unmatched hints o Ec), (list_insert_id _ _ _ Hr).
        destruct h; reflexivity.
    + cbn [map]. constructor; [|exact F].
      unfold refers. cbn [results_of]. rewrite (U r Hnotin). exact Hr1.
    + intros r' Hr'. apply not_elem_of_cons in Hr' as [Hne Hr'].
      rewrite (U r' Hr'). unfold h1. cbn [results_of].
      apply list_lookup_insert_ne. congruence.
Qed.

Section WithArrangement.

Variable arrangement : Arrangement.

(** [_rerank_by_classification] on objects: it returns the list it was
    given; afterwards that list holds the same references in the order of
    the sort, the results they refer to have the attributes that the
    function on values computes, and no other list and no other result
    has changed.  The results of the list are to be distinct objects. *)
Lemma rerank_refines (h : heap) (results : nat) (items : list nat)
    (objects : list RetrievalResult) (query : str) (section_filters : option (list str)) :
  lists_of h !! results = Some items ->
  NoDup items ->
  Forall2 (refers h) items objects ->
  exists results' items',
    HybridRetrievalObjects._rerank_by_classification arrangement results query section_filters h
    = Some (results, mkHeap results' (<[results := items']> (lists_of h)))
    /\ Permutation items' items
    /\ Forall2 (refers (mkHeap results' (<[results := items']> (lists_of h)))) items'
               (HybridRetrieval._rerank_by_classification arrangement objects query
                                                          section_filters)
    /\ (forall r, r ∉ items -> results' !! r = results_of h !! r).
Proof.
  intros Hl Hnd Hf.
  set (hints := query_section_hints query section_filters).
  destruct (rerank_loop_refines hints items h objects Hnd Hf) as (results' & E & F & U).
  destruct (refers_combine _ items _ F) as (Hc & Hfst & Hsnd).
  set (pairs := sorted_desc arrangement (fun io : nat * RetrievalResult => score (snd io))
                            (combine items (map (boost_result hints) objects))).
  assert (Hp : Permutation pairs (combine items (map (boost_result hints) objects)))
    by apply sorted_perm.
  exists results', (map fst pairs). split; [|split; [|split]].
  - unfold HybridRetrievalObjects._rerank_by_classification. fold hints.
    unfold PyHeap.bind at 1. unfold items_of at 1. rewrite Hl.
    rewrite (bind_run _ _ _ _ _ E).
    unfold HybridRetrievalObjects.sort_by_score, PyHeap.bind, items_of. cbn [lists_of]. rewrite Hl.
    rewrite (attributes_of_refers _ items _ F).
    unfold HybridRetrievalObjects.set_items. cbn [lists_of results_of]. rewrite Hl. reflexivity.
  - etransitivity; [apply Permutation_map, Hp | rewrite Hfst; reflexivity].
  - unfold HybridRetrieval._rerank_by_classification, sort_by_score_desc. fold hints.
    rewrite <- Hsnd at 1. rewrite (sorted_desc_map arrangement snd score).
    apply refers_pairs. eapply Permutation_Forall; [symmetry; exact Hp|].
    eapply Forall_impl; [exact Hc|]. intros io Hio. exact Hio.
  - exact U.
Qed.

End WithArrangement.

(** A list that holds one result twice: the loop boosts it once for each
    place, which the function on values, given the attributes twice,
    does not show. *)
Example rerank_result_held_twice :
  let h := mkHeap [sixteen_hundredths; tenth_in_three_sections] [[1; 1]] in
  exists h',
    HybridRetrievalObjects._rerank_by_classification
      as_found 0 (lit "equity, debt and cash flow") None h
    = Some (0, h')
    /\ lists_of h' = [[1; 1]]
    /\ option_map score (results_of h' !! 1)
       = Some (PyFloat.mul (PyFloat.mul (dec 1 10) (boost 3)) (boost 3))
    /\ map score (HybridRetrieval._rerank_by_classification as_found
                    [tenth_in_three_sections; tenth_in_three_sections]
                    (lit "equity, debt and cash flow") None)
       = [PyFloat.mul (dec 1 10) (boost 3); PyFloat.mul (dec 1 10) (boost 3)].
Proof. eexists. repeat split; vm_compute; reflexivity. Qed.

End HybridRetrievalObjectsProps.

(* ===================================================================== *)
(** * Chunks of a note *)
(* ===================================================================== *)

Module NoteChunkProps.
Import PyStr Re NoteParser AdaptiveChunker ReSpec NoteParserSpec ChunkerSpec PyStrFacts ReFacts
       NoteParserProps.

Lemma blank_joined_snoc (es : list str) (e : str) :
  blank_joined (es ++ [e]) = blank_joined es ++ [nl; nl] ++ e.
Proof.
  unfold blank_joined. rewrite map_app, concat_app. simpl. rewrite app_nil_r. reflexivity.
Qed.

Lemma space_joined_snoc (ss : list str) (s : str) :
  space_joined (ss ++ [s]) = space_joined ss ++ s ++ lit " ".
Proof.
  unfold space_joined. rewrite map_app, concat_app. simpl. rewrite app_nil_r. reflexivity.
Qed.

Lemma made_from_note_mono (R R' H t : str) :
  substring_of R R' -> made_from_note R H t -> made_from_note R' H t.
Proof.
  intros HR [Hs | body Ht Hs | es Ht Hs | ss Ht Hs].
  - apply whole. eapply substring_trans; eauto.
  - apply (headed R' H t body Ht). eapply substring_trans; eauto.
  - apply (packed R' H t es Ht). eapply List.Forall_impl; [|exact Hs].
    intros e He. cbv beta in *. eapply substring_trans; eauto.
  - apply (sentences R' H t ss Ht). eapply List.Forall_impl; [|exact Hs].
    intros e He. cbv beta in *. eapply substring_trans; eauto.
Qed.

Lemma substring_slice_of (s : str) (b : NoteBoundary) : substring_of (slice_of s b) s.
Proof.
  unfold slice_of. destruct (nb_end_pos b); [apply substring_slice | apply substring_skipn].
Qed.

(** ** Sentence splitting *)

Section Paragraph.

Variables (self : t) (page_num : Z) (R : str).

Lemma save_chunk_sentences (ty : ChunkType) (chunks : list Chunk) (ss : list str) :
  Forall (fun c => exists ss, text c = strip (space_joined ss)
                              /\ Forall (fun s => substring_of s R) ss) chunks ->
  Forall (fun s => substring_of s R) ss ->
  Forall (fun c => exists ss, text c = strip (space_joined ss)
                              /\ Forall (fun s => substring_of s R) ss)
         (save_chunk ty page_num chunks (space_joined ss)).
Proof.
  intros Hc Hs. unfold save_chunk. destruct (nonempty _); [|exact Hc].
  apply Forall_app. split; [exact Hc|]. constructor; [|constructor].
  exists ss. split; [reflexivity | exact Hs].
Qed.

Lemma last_sentence_substring (all : list str) (sentence : str) :
  Forall (fun s => substring_of s R) all ->
  substring_of (last_sentence_before all sentence) R.
Proof.
  intros Hall. unfold last_sentence_before.
  destruct (index_of sentence all) as [[|i]|]; try apply substring_nil.
  destruct (nth_in_or_default i all []) as [Hin | ->]; [|apply substring_nil].
  rewrite List.Forall_forall in Hall. apply Hall, Hin.
Qed.

Lemma paragraph_step_inv (all : list str) (st : list Chunk * str * Z) (sentence : str) :
  Forall (fun s => substring_of s R) all ->
  substring_of sentence R ->
  paragraph_inv R st -> paragraph_inv R (paragraph_step self page_num all st sentence).
Proof.
  intros Hall Hs. destruct st as [[chunks cur] size]. intros (Hc & ss & -> & Hss).
  unfold paragraph_step.
  destruct (size + len sentence <=? max_chunk_size self)%Z.
  - split; [exact Hc|]. exists (ss ++ [sentence]). split.
    + rewrite space_joined_snoc. reflexivity.
    + apply Forall_app. split; [exact Hss | constructor; [exact Hs | constructor]].
  - pose proof (save_chunk_sentences ct_paragraph chunks ss Hc Hss) as Hc'.
    destruct (nonempty (save_chunk ct_paragraph page_num chunks (space_joined ss))).
    + split; [exact Hc'|]. exists [last_sentence_before all sentence; sentence]. split.
      * unfold space_joined. simpl. rewrite app_nil_r, <- !app_assoc. reflexivity.
      * constructor; [apply last_sentence_substring, Hall|].
        constructor; [exact Hs | constructor].
    + split; [exact Hc'|]. exists [sentence]. split.
      * unfold space_joined. simpl. rewrite app_nil_r. reflexivity.
      * constructor; [exact Hs | constructor].
Qed.

Lemma paragraph_fold_inv (all todo : list str) (st : list Chunk * str * Z) :
  Forall (fun s => substring_of s R) all ->
  Forall (fun s => substring_of s R) todo ->
  paragraph_inv R st ->
  paragraph_inv R (fold_left (paragraph_step self page_num all) todo st).
Proof.
  intros Hall Htodo. revert st. induction Htodo as [|s todo Hs _ IH]; intros st Hinv.
  - exact Hinv.
  - simpl. apply IH. apply paragraph_step_inv; assumption.
Qed.

(** Every chunk of [_chunk_paragraph] is made of sentences of the text, or
    is the text itself. *)
Lemma chunk_paragraph_made (text0 H : str) :
  substring_of text0 R ->
  Forall (fun c => made_from_note R H (text c)) (_chunk_paragraph self text0 page_num).
Proof.
  intros Hsub. unfold _chunk_paragraph.
  assert (Hall : Forall (fun s => substring_of s R) (split sentence_break text0)).
  { eapply List.Forall_impl; [|apply split_substrings].
    intros s Hs. cbv beta in *. eapply substring_trans; eauto. }
  pose proof (paragraph_fold_inv (split sentence_break text0) (split sentence_break text0)
                ([], [], 0%Z) Hall Hall) as Hinv.
  destruct (fold_left _ _ _) as [[chunks cur] size].
  destruct Hinv as (Hc & ss & -> & Hss).
  { split; [constructor|]. exists []. split; [reflexivity | constructor]. }
  pose proof (save_chunk_sentences ct_paragraph chunks ss Hc Hss) as Hc'.
  destruct (nonempty (save_chunk ct_paragraph page_num chunks (space_joined ss))).
  - eapply List.Forall_impl; [|exact Hc']. intros c (ss' & Ht & Hs'). eapply sentences; eauto.
  - constructor; [|constructor]. apply whole. exact Hsub.
Qed.

End Paragraph.

(** ** Element packing *)

Lemma extract_elements_substrings (self : t) (text0 : str) (page_num : Z) :
  Forall (fun el => substring_of (e_text el) text0) (_extract_elements self text0 page_num).
Proof.
  unfold _extract_elements.
  pose proof (split_substrings blank_line text0) as Hall.
  induction Hall as [|section sections Hs _ IH]; simpl; [constructor|].
  destruct (nonempty (strip section)); simpl; [|exact IH].
  constructor; [|exact IH]. simpl.
  eapply substring_trans; [apply substring_strip | exact Hs].
Qed.

Section Packing.

Variables (self : t) (R H : str) (page_numbers0 : list Z) (number title : str).

Lemma mixed_chunk_made (es : list str) :
  Forall (fun e => substring_of e R) es ->
  made_from_note R H (text (mixed_chunk (H ++ blank_joined es) page_numbers0 number title))
  /\ note_number (mixed_chunk (H ++ blank_joined es) page_numbers0 number title)
     = Some number.
Proof. intros Hes. split; [|reflexivity]. simpl. eapply packed; eauto. Qed.

Lemma pack_step_inv (st : list Chunk * str * list ElementType) (element : Element) :
  substring_of (e_text element) R ->
  pack_inv R H number st -> pack_inv R H number (pack_step self H page_numbers0 number title st element).
Proof.
  intros He. destruct st as [[chunks cur] els]. intros (Hc & es & -> & Hes).
  unfold pack_step.
  destruct ((len (H ++ blank_joined es) + len (e_text element) >? max_chunk_size self)%Z
            && nonempty els).
  - split.
    + apply Forall_app. split; [exact Hc|]. constructor; [|constructor].
      apply mixed_chunk_made, Hes.
    + exists [e_text element]. split.
      * unfold blank_joined. simpl. rewrite app_nil_r. reflexivity.
      * constructor; [exact He | constructor].
  - split; [exact Hc|]. exists (es ++ [e_text element]). split.
    + rewrite blank_joined_snoc, <- app_assoc. reflexivity.
    + apply Forall_app. split; [exact Hes | constructor; [exact He | constructor]].
Qed.

Lemma pack_fold_inv (elements : list Element) (st : list Chunk * str * list ElementType) :
  Forall (fun el => substring_of (e_text el) R) elements ->
  pack_inv R H number st ->
  pack_inv R H number (fold_left (pack_step self H page_numbers0 number title) elements st).
Proof.
  intros Hel. revert st. induction Hel as [|el elements He _ IH]; intros st Hinv.
  - exact Hinv.
  - simpl. apply IH. apply pack_step_inv; assumption.
Qed.

Lemma chunk_large_note_made (note_text : str) :
  substring_of note_text R ->
  Forall (fun c => made_from_note R H (text c) /\ note_number c = Some number)
         (_chunk_large_note_by_elements self note_text H number title page_numbers0).
Proof.
  intros Hsub. unfold _chunk_large_note_by_elements.
  assert (Hel : Forall (fun el => substring_of (e_text el) R)
                       (_extract_elements self note_text (first_page_or_1 page_numbers0))).
  { eapply List.Forall_impl; [|apply extract_elements_substrings].
    intros el He. cbv beta in *. eapply substring_trans; eauto. }
  pose proof (pack_fold_inv _ ([], H, []) Hel) as Hinv.
  destruct (fold_left _ _ _) as [[chunks cur] els].
  destruct Hinv as (Hc & es & -> & Hes).
  { split; [constructor|]. exists []. split; [|constructor].
    unfold blank_joined. simpl. rewrite app_nil_r. reflexivity. }
  assert (Hc' : Forall (fun c => made_from_note R H (text c) /\ note_number c = Some number)
                  (if negb (str_eqb (strip (H ++ blank_joined es)) (strip H))
                   then chunks ++ [mixed_chunk (H ++ blank_joined es) page_numbers0 number title]
                   else chunks)).
  { destruct (negb _); [|exact Hc]. apply Forall_app. split; [exact Hc|].
    constructor; [|constructor]. apply mixed_chunk_made, Hes. }
  destruct (nonempty _); [exact Hc'|].
  constructor; [|constructor]. split; [|reflexivity].
  simpl. eapply headed; eauto.
Qed.

(** ** Sub-sections and sub-notes *)

Lemma chunk_note_subsections_made (text0 sub : str) :
  substring_of text0 R ->
  Forall (fun c => made_from_note R H (text c) /\ note_number c = Some number)
         (_chunk_note_subsections self text0 H number sub page_numbers0).
Proof.
  intros Hsub. unfold _chunk_note_subsections.
  destruct (nonempty (sub_section_bounds text0)).
  - apply List.Forall_forall. intros c Hc. apply in_map_iff in Hc as (b & <- & _).
    split; [|reflexivity]. simpl. eapply headed; [reflexivity|].
    eapply substring_trans; [apply substring_strip|].
    eapply substring_trans; [apply substring_slice_of | exact Hsub].
  - destruct (len (H ++ text0) >? max_chunk_size self * 2)%Z.
    + apply List.Forall_forall. intros c Hc. apply in_map_iff in Hc as (pc & <- & Hpc).
      split; [|reflexivity]. simpl.
      pose proof (chunk_paragraph_made self (first_page_or_1 page_numbers0) R text0 H Hsub)
        as Hall.
      rewrite List.Forall_forall in Hall. apply Hall, Hpc.
    + constructor; [|constructor]. split; [|reflexivity]. simpl. eapply headed; eauto.
Qed.

End Packing.

(** Every chunk [_chunk_note] emits carries the note's number, and its text
    is made from the note's text and the note's context header. *)
Lemma chunk_note_made (self : t) (note_text number title : str) (page_numbers0 : list Z) :
  Forall (fun c => made_from_note note_text (make_note_header number title) (text c)
                   /\ note_number c = Some number)
         (_chunk_note self note_text number title page_numbers0).
Proof.
  unfold _chunk_note.
  assert (Hclean : substring_of (strip note_text) note_text) by apply substring_strip.
  destruct (Z.of_nat (length (strip note_text)) <=? max_chunk_size self)%Z.
  - constructor; [|constructor]. split; [|reflexivity]. simpl. apply whole, Hclean.
  - destruct (nonempty (sub_notes (parse_note_hierarchy (strip note_text) number))).
    + apply List.Forall_forall. intros c Hc. apply in_flat_map in Hc as (b & _ & Hc).
      assert (Hb : substring_of (strip (slice_of (strip note_text) b)) note_text).
      { eapply substring_trans; [apply substring_strip|].
        eapply substring_trans; [apply substring_slice_of | exact Hclean]. }
      destruct (len (make_note_header number title ++ strip (slice_of (strip note_text) b))
                >? max_chunk_size self)%Z.
      * pose proof (chunk_note_subsections_made self note_text
                      (make_note_header number title) page_numbers0 number
                      (strip (slice_of (strip note_text) b)) (nb_note_number b) Hb) as Hall.
        rewrite List.Forall_forall in Hall. apply Hall, Hc.
      * destruct Hc as [<-|[]]. split; [|reflexivity]. simpl. eapply headed; eauto.
    + apply chunk_large_note_made. exact Hclean.
Qed.

(** ** Chunks outside the notes carry no note number *)

Lemma save_chunk_untagged (ty : ChunkType) (page_num : Z) (chunks : list Chunk) (cur : str) :
  Forall (fun c => note_number c = None) chunks ->
  Forall (fun c => note_number c = None) (save_chunk ty page_num chunks cur).
Proof.
  intros Hc. unfold save_chunk. destruct (nonempty _); [|exact Hc].
  apply Forall_app. split; [exact Hc | repeat constructor].
Qed.

Lemma paragraph_fold_untagged (self : t) (page_num : Z) (all todo : list str)
    (st : list Chunk * str * Z) :
  Forall (fun c => note_number c = None) (fst (fst st)) ->
  Forall (fun c => note_number c = None)
         (fst (fst (fold_left (paragraph_step self page_num all) todo st))).
Proof.
  revert st. induction todo as [|s todo IH]; intros [[chunks cur] size] Hc; [exact Hc|].
  simpl. apply IH. unfold paragraph_step.
  destruct (_ <=? _)%Z; [exact Hc|].
  destruct (nonempty _); simpl; apply save_chunk_untagged, Hc.
Qed.

Lemma list_fold_untagged (self : t) (page_num : Z) (todo : list str)
    (st : list Chunk * str * Z) :
  Forall (fun c => note_number c = None) (fst (fst st)) ->
  Forall (fun c => note_number c = None)
         (fst (fst (fold_left (list_step self page_num) todo st))).
Proof.
  revert st. induction todo as [|s todo IH]; intros [[chunks cur] size] Hc; [exact Hc|].
  simpl. apply IH. unfold list_step.
  destruct (_ <=? _)%Z; [exact Hc|]. simpl. apply save_chunk_untagged, Hc.
Qed.

Lemma chunk_paragraph_untagged (self : t) (text0 : str) (page_num : Z) :
  Forall (fun c => note_number c = None) (_chunk_paragraph self text0 page_num).
Proof.
  unfold _chunk_paragraph.
  pose proof (paragraph_fold_untagged self page_num (split sentence_break text0)
                (split sentence_break text0) ([], [], 0%Z)) as Hf.
  destruct (fold_left _ _ _) as [[chunks cur] size]. simpl in Hf.
  specialize (Hf (List.Forall_nil _)).
  pose proof (save_chunk_untagged ct_paragraph page_num chunks cur Hf) as Hf'.
  destruct (nonempty _); [exact Hf' | repeat constructor].
Qed.

Lemma chunk_list_untagged (self : t) (text0 : str) (page_num : Z) :
  Forall (fun c => note_number c = None) (_chunk_list self text0 page_num).
Proof.
  unfold _chunk_list.
  match goal with
  | |- context [fold_left ?f ?items ?st] =>
      pose proof (list_fold_untagged self page_num items st) as Hf;
      destruct (fold_left f items st) as [[chunks cur] size]
  end.
  simpl in Hf. specialize (Hf (List.Forall_nil _)).
  pose proof (save_chunk_untagged ct_list page_num chunks cur Hf) as Hf'.
  destruct (nonempty _); [exact Hf' | repeat constructor].
Qed.

Lemma chunk_element_untagged (self : t) (element : Element) (page_num : Z) :
  Forall (fun c => note_number c = None) (_chunk_element self element page_num).
Proof.
  unfold _chunk_element.
  destruct (e_type element); simpl;
    repeat match goal with
           | |- context [if ?b then _ else _] => destruct b
           end;
    try (repeat constructor; fail);
    try apply chunk_list_untagged; apply chunk_paragraph_untagged.
Qed.

Lemma flat_map_Forall {A B : Type} (P : B -> Prop) (f : A -> list B) (l : list A) :
  (forall a, In a l -> Forall P (f a)) -> Forall P (flat_map f l).
Proof.
  intros Hf. apply List.Forall_forall. intros b Hb.
  apply in_flat_map in Hb as (a & Ha & Hb).
  specialize (Hf a Ha). rewrite List.Forall_forall in Hf. apply Hf, Hb.
Qed.

Lemma chunk_pages_untagged (self : t) (pages : list (Z * str)) :
  Forall (fun c => note_number c = None) (chunk_pages self pages).
Proof.
  unfold chunk_pages. apply flat_map_Forall. intros [page_num page_text] _.
  apply flat_map_Forall. intros el _. apply chunk_element_untagged.
Qed.

(** ** The note-aware pathway *)

Lemma detect_ends_set (text0 : str) (b : NoteBoundary) :
  In b (detect_note_boundaries text0) -> exists e, nb_end_pos b = Some e.
Proof.
  intros Hb. apply set_end_positions_In in Hb as (r & e & _ & ->). exists e. reflexivity.
Qed.

Lemma note_chunks_made (self : t) (full_text : str) (page_boundaries : list PageInfo)
    (bs : list NoteBoundary) (c : Chunk) :
  In c (note_chunks self full_text page_boundaries bs) ->
  exists b, In b bs
            /\ note_number c = Some (nb_note_number b)
            /\ made_from_note (slice_of full_text b)
                              (make_note_header (nb_note_number b) (nb_note_title b))
                              (text c).
Proof.
  unfold note_chunks. intros Hc. apply in_flat_map in Hc as (b & Hb & Hc).
  exists b. split; [exact Hb|].
  pose proof (chunk_note_made self (slice_of full_text b) (nb_note_number b)
                (nb_note_title b)
                (pages_of_range page_boundaries (nb_start_pos b) (end_of b))) as Hall.
  rewrite List.Forall_forall in Hall. destruct (Hall c Hc) as [Hm Hn]. auto.
Qed.

(** The note-aware pathway on two pages: the sub-notes of note 12 carry
    its context header, the short note 13 is one chunk, and the text in
    front of the first note is chunked last, by the element strategies. *)
Example two_note_document :
  map summary (chunk_document (mkChunker 60 200 true) two_note_pages)
  = [ (lit "Note 12 - INVESTMENT PROPERTY" ++ [nl; nl] ++ lit "12.1 Fair Value" ++ [nl]
         ++ lit "Valued at INR 5 lakhs.",
       ct_note_section, [195%Z], true, Some (lit "Note 12"), Some (lit "12.1"), 1);
      (lit "Note 12 - INVESTMENT PROPERTY" ++ [nl; nl] ++ lit "12.2 Reconciliation" ++ [nl]
         ++ lit "Opening balance 4.",
       ct_note_section, [195%Z], true, Some (lit "Note 12"), Some (lit "12.2"), 1);
      (lit "NOTE 13 - PPE" ++ [nl] ++ lit "Land.",
       ct_note_complete, [196%Z], true, Some (lit "Note 13"), None, 0);
      (lit "Annual report", ct_paragraph, [195%Z], false, None, None, 0) ].
Proof. vm_compute. reflexivity. Qed.

(** The header of a note is made of a number and a title that occur in
    the note's own range. *)
Lemma header_from_own_range (text0 : str) (b : NoteBoundary) (e : nat) :
  In b (detect_note_boundaries text0) -> nb_end_pos b = Some e ->
  header_from_range (slice text0 (nb_start_pos b) e) b.
Proof.
  intros Hb He. apply detect_boundary_of_match in Hb as (m & e' & _ & Hok & -> & Hle).
  cbn in He. injection He as ->. cbn. split.
  - exists (group_or_empty text0 m 1). split; [reflexivity|].
    apply group_within; [exact Hok | lia | exact Hle].
  - eapply substring_trans; [apply substring_strip|].
    apply group_within; [exact Hok | lia | exact Hle].
Qed.

(** C5, counterexample: with [max_chunk_size = 20] the note of
    [note_1_page] is too long for one chunk; its sub-note is emitted with
    the context header ["Note 1 - Cash\n\n"] in front, and that text does
    not occur in the note's range, which starts with ["NOTE 1 - Cash"]. *)
Lemma note_chunk_substring_counterexample :
  let self := mkChunker 20 200 true in
  let full_text := fst (join_pages note_1_page [] []) in
  detect_note_boundaries full_text = [mkNoteBoundary (lit "Note 1") (lit "Cash") 0 (Some 35) 0]
  /\ map (fun c => (text c, note_number c)) (_chunk_document_note_aware self note_1_page)
     = [(note_1_chunk_text, Some (lit "Note 1"))]
  /\ ~ substring_of note_1_chunk_text (slice full_text 0 35)
  /\ ~ chunks_are_substrings self note_1_page.
Proof.
  cbv zeta.
  assert (E1 : detect_note_boundaries (fst (join_pages note_1_page [] []))
               = [mkNoteBoundary (lit "Note 1") (lit "Cash") 0 (Some 35) 0])
    by (vm_compute; reflexivity).
  assert (E2 : map (fun c => (text c, note_number c))
                   (_chunk_document_note_aware (mkChunker 20 200 true) note_1_page)
               = [(note_1_chunk_text, Some (lit "Note 1"))])
    by (vm_compute; reflexivity).
  assert (E3 : ~ substring_of note_1_chunk_text
                              (slice (fst (join_pages note_1_page [] [])) 0 35)).
  { intros Hs. apply contains_substring in Hs. vm_compute in Hs. discriminate. }
  split; [exact E1|]. split; [exact E2|]. split; [exact E3|].
  intros Hclaim. apply E3.
  replace note_1_chunk_text
    with (text (nth 0 (_chunk_document_note_aware (mkChunker 20 200 true) note_1_page)
                    (plain_chunk [] ct_paragraph [] 0 false)))
    by (vm_compute; reflexivity).
  apply (Hclaim _ (mkNoteBoundary (lit "Note 1") (lit "Cash") 0 (Some 35) 0) 35).
  - vm_compute. left. reflexivity.
  - rewrite E1. left. reflexivity.
  - vm_compute. reflexivity.
  - reflexivity.
Qed.

(** C5, as amended: a chunk of the note-aware chunker tagged with the
    number of note A comes from a detected boundary of A, and its text is
    made only from the text of A's range [[A.start, A.end)] and A's own
    context header [<noteNumber> - <noteTitle>] followed by a blank line,
    whose number and title are themselves read off A's range: the text is
    a substring of the range ([note_complete] chunks of a small
    note), or the header followed by a substring of the range (sub-note
    and sub-section chunks), or the header followed by elements of the
    range joined by blank lines ([note_mixed] chunks), or sentences of the
    range joined by single spaces ([note_paragraph] chunks), the last two
    with surrounding whitespace removed.  No text of another note's range
    enters it; the text itself need not be a substring of the range. *)
Theorem note_chunk_made_from_own_note (self : t) (pages : list (Z * str))
    (c : Chunk) (A : str) :
  In c (_chunk_document_note_aware self pages) ->
  note_number c = Some A ->
  let full_text := fst (join_pages pages [] []) in
  exists b e,
    In b (detect_note_boundaries full_text)
    /\ nb_note_number b = A
    /\ nb_end_pos b = Some e
    /\ header_from_range (slice full_text (nb_start_pos b) e) b
    /\ made_from_note (slice full_text (nb_start_pos b) e)
                      (make_note_header A (nb_note_title b)) (text c).
Proof.
  intros Hc HA. cbv zeta. unfold _chunk_document_note_aware in Hc.
  destruct (join_pages pages [] []) as [full_text page_boundaries]. cbn [fst].
  destruct (negb (nonempty (detect_note_boundaries full_text))).
  - pose proof (chunk_pages_untagged self pages) as Hu.
    rewrite List.Forall_forall in Hu. rewrite (Hu c Hc) in HA. discriminate.
  - apply in_app_or in Hc as [Hc|Hc].
    + apply note_chunks_made in Hc as (b & Hb & Hn & Hm).
      destruct (detect_ends_set full_text b Hb) as (e & He).
      rewrite HA in Hn. injection Hn as ->.
      exists b, e. split; [exact Hb|]. split; [reflexivity|]. split; [exact He|].
      split; [apply header_from_own_range; assumption|].
      unfold slice_of in Hm. rewrite He in Hm. exact Hm.
    + exfalso. apply in_flat_map in Hc as ([start_pos end_pos] & _ & Hc).
      destruct (negb (nonempty (strip (slice full_text start_pos end_pos)))); [destruct Hc|].
      apply in_flat_map in Hc as (el & _ & Hc).
      assert (Hn : note_number c = None).
      { eapply (proj1 (List.Forall_forall (fun c => note_number c = None) _));
          [apply chunk_element_untagged | exact Hc]. }
      rewrite Hn in HA. discriminate.
Qed.

Lemma note_chunk_made_witness :
  let self := mkChunker 20 200 true in
  let c := nth 0 (_chunk_document_note_aware self note_1_page)
               (plain_chunk [] ct_paragraph [] 0 false) in
  let full_text := fst (join_pages note_1_page [] []) in
  In c (_chunk_document_note_aware self note_1_page)
  /\ note_number c = Some (lit "Note 1")
  /\ exists b e,
       In b (detect_note_boundaries full_text)
       /\ nb_note_number b = lit "Note 1"
       /\ nb_end_pos b = Some e
       /\ header_from_range (slice full_text (nb_start_pos b) e) b
       /\ made_from_note (slice full_text (nb_start_pos b) e)
                         (make_note_header (lit "Note 1") (nb_note_title b)) (text c).
Proof.
  cbv zeta. split; [vm_compute; left; reflexivity|]. split; [vm_compute; reflexivity|].
  apply (note_chunk_made_from_own_note (mkChunker 20 200 true) note_1_page).
  - vm_compute. left. reflexivity.
  - vm_compute. reflexivity.
Defined.

End NoteChunkProps.

(* ===================================================================== *)
(** * The layout of a document: pages, note ranges and what lies outside *)
(* ===================================================================== *)

Module DocumentLayoutProps.
Import PyStr Re NoteParser AdaptiveChunker ReSpec NoteParserSpec ChunkerSpec DocumentLayoutSpec.
Import PyStrFacts ReFacts NoteParserProps NoteChunkProps.

Lemma slice_app_mid (a t b : str) : slice (a ++ t ++ b) (length a) (length a + length t) = t.
Proof.
  unfold slice. rewrite drop_app_length.
  replace (length a + length t - length a) with (length t) by lia.
  apply take_app_length.
Qed.

Lemma slice_join (s : str) (a b c : nat) :
  a <= b -> b <= c -> slice s a b ++ slice s b c = slice s a c.
Proof.
  intros Hab Hbc. unfold slice.
  replace (skipn b s) with (skipn (b - a) (skipn a s)).
  2:{ rewrite drop_drop. f_equal. lia. }
  rewrite take_take_drop. f_equal. lia.
Qed.

Lemma join_pages_grows (pages : list (Z * str)) (full_text : str) (bounds : list PageInfo) :
  exists tail infos,
    join_pages pages full_text bounds = (full_text ++ tail, bounds ++ infos)
    /\ length infos = length pages.
Proof.
  revert full_text bounds.
  induction pages as [|[page_num page_text] pages IH]; intros full_text bounds; simpl.
  - exists [], []. rewrite !app_nil_r. split; reflexivity.
  - destruct (IH (full_text ++ page_text ++ [nl; nl])
                 (bounds ++ [mkPageInfo page_num (length full_text)
                                        (length full_text + length page_text)]))
      as (tail & infos & E & L).
    exists (page_text ++ [nl; nl] ++ tail),
           (mkPageInfo page_num (length full_text) (length full_text + length page_text)
            :: infos).
    rewrite E. split.
    + f_equal; rewrite <- ?app_assoc; reflexivity.
    + simpl. lia.
Qed.

Lemma join_pages_lookup (pages : list (Z * str)) :
  forall (full_text : str) (bounds : list PageInfo) (i : nat) (page_num : Z) (page_text : str),
    pages !! i = Some (page_num, page_text) ->
    exists info,
      snd (join_pages pages full_text bounds) !! (length bounds + i) = Some info
      /\ pi_page_num info = page_num
      /\ slice (fst (join_pages pages full_text bounds))
               (pi_start_pos info) (pi_end_pos info) = page_text
      /\ slice (fst (join_pages pages full_text bounds))
               (pi_end_pos info) (pi_end_pos info + 2) = [nl; nl].
Proof.
  induction pages as [|[pn pt] pages IH]; intros full_text bounds i page_num page_text Hi.
  - discriminate.
  - destruct i as [|i]; simpl in Hi.
    + injection Hi as -> ->. simpl.
      destruct (join_pages_grows pages (full_text ++ page_text ++ [nl; nl])
                  (bounds ++ [mkPageInfo page_num (length full_text)
                                         (length full_text + length page_text)]))
        as (tail & infos & E & _).
      rewrite E. cbn [fst snd].
      exists (mkPageInfo page_num (length full_text) (length full_text + length page_text)).
      cbn [pi_page_num pi_start_pos pi_end_pos].
      split; [|split; [reflexivity|split]].
      * rewrite Nat.add_0_r, <- app_assoc.
        rewrite lookup_app_r by lia. rewrite Nat.sub_diag. reflexivity.
      * rewrite <- !app_assoc. apply slice_app_mid.
      * replace ((full_text ++ page_text ++ [nl; nl]) ++ tail)
          with ((full_text ++ page_text) ++ [nl; nl] ++ tail)
          by (rewrite <- !app_assoc; reflexivity).
        rewrite <- length_app.
        apply (slice_app_mid (full_text ++ page_text) [nl; nl] tail).
    + simpl.
      destruct (IH (full_text ++ pt ++ [nl; nl])
                   (bounds ++ [mkPageInfo pn (length full_text) (length full_text + length pt)])
                   i page_num page_text Hi) as (info & Hl & Hrest).
      exists info. split; [|exact Hrest].
      rewrite length_app in Hl. simpl in Hl.
      replace (length bounds + S i) with (length bounds + 1 + i) by lia. exact Hl.
Qed.

(** X1 (adaptive_chunker.py, [_chunk_document_note_aware], step 1): the
    page boundaries recorded while the pages are joined lead back to the
    pages.  There is one boundary per page, in page order; the characters of
    the joined text between the start and the end of a boundary are the text
    of its page, and the two characters after the end are the blank line
    that separates it from the next page. *)
Theorem page_boundaries_recover_pages (pages : list (Z * str)) (i : nat)
    (page_num : Z) (page_text : str) :
  pages !! i = Some (page_num, page_text) ->
  let full_text := fst (join_pages pages [] []) in
  let page_boundaries := snd (join_pages pages [] []) in
  length page_boundaries = length pages
  /\ exists info,
       page_boundaries !! i = Some info
       /\ pi_page_num info = page_num
       /\ slice full_text (pi_start_pos info) (pi_end_pos info) = page_text
       /\ slice full_text (pi_end_pos info) (pi_end_pos info + 2) = [nl; nl].
Proof.
  intros Hi. cbv zeta. split.
  - destruct (join_pages_grows pages [] []) as (tail & infos & E & L).
    rewrite E. exact L.
  - apply (join_pages_lookup pages [] [] i page_num page_text Hi).
Qed.

Lemma page_boundaries_recover_pages_witness :
  two_note_pages !! 1 = Some (196%Z, lit "NOTE 13 - PPE" ++ [nl] ++ lit "Land.")
  /\ (let full_text := fst (join_pages two_note_pages [] []) in
      let page_boundaries := snd (join_pages two_note_pages [] []) in
      length page_boundaries = length two_note_pages
      /\ exists info,
           page_boundaries !! 1 = Some info
           /\ pi_page_num info = 196%Z
           /\ slice full_text (pi_start_pos info) (pi_end_pos info)
              = lit "NOTE 13 - PPE" ++ [nl] ++ lit "Land."
           /\ slice full_text (pi_end_pos info) (pi_end_pos info + 2) = [nl; nl]).
Proof.
  split; [reflexivity|].
  apply (page_boundaries_recover_pages two_note_pages 1 196%Z
           (lit "NOTE 13 - PPE" ++ [nl] ++ lit "Land.")).
  reflexivity.
Defined.

End DocumentLayoutProps.

(* ===================================================================== *)
(** * Note ranges: what they cover and what they leave *)
(* ===================================================================== *)

Module NoteRangeProps.
Import PyStr Re NoteParser AdaptiveChunker ReSpec NoteParserSpec ChunkerSpec DocumentLayoutSpec.
Import PyStrFacts ReFacts NoteParserProps NoteChunkProps DocumentLayoutProps.

Lemma set_end_positions_one (r : NoteBoundary) (total : nat) :
  set_end_positions [r] total = [with_end_pos r total].
Proof. reflexivity. Qed.

Lemma set_end_positions_two (r r' : NoteBoundary) (rs : list NoteBoundary) (total : nat) :
  set_end_positions (r :: r' :: rs) total
  = with_end_pos r (nb_start_pos r') :: set_end_positions (r' :: rs) total.
Proof.
  unfold set_end_positions. rewrite (imap_cons _ r (r' :: rs)). f_equal.
  apply imap_ext. intros i b _. unfold compose.
  replace (length (r :: r' :: rs) - 1) with (S (length (r' :: rs) - 1)) by (simpl; lia).
  replace (S i <? S (length (r' :: rs) - 1)) with (i <? length (r' :: rs) - 1)
    by (destruct (Nat.ltb_spec i (length (r' :: rs) - 1));
        destruct (Nat.ltb_spec (S i) (S (length (r' :: rs) - 1))); (reflexivity || lia)).
  replace (S i + 1) with (S (i + 1)) by lia. reflexivity.
Qed.

Lemma set_end_positions_head (r : NoteBoundary) (rs : list NoteBoundary) (total : nat) :
  exists e rest, set_end_positions (r :: rs) total = with_end_pos r e :: rest.
Proof.
  destruct rs as [|r' rs].
  - exists total, []. reflexivity.
  - exists (nb_start_pos r'), (set_end_positions (r' :: rs) total).
    apply set_end_positions_two.
Qed.

Lemma gaps_between_two (b b' : NoteBoundary) (bs : list NoteBoundary) :
  gaps_between (b :: b' :: bs)
  = (if end_of b <? nb_start_pos b' then [(end_of b, nb_start_pos b')] else [])
    ++ gaps_between (b' :: bs).
Proof. reflexivity. Qed.

Lemma gaps_between_none (raw : list NoteBoundary) (total : nat) :
  gaps_between (set_end_positions raw total) = [].
Proof.
  induction raw as [|r raw IH]; [reflexivity|].
  destruct raw as [|r' rs]; [reflexivity|].
  rewrite set_end_positions_two.
  destruct (set_end_positions_head r' rs total) as (e & rest & E).
  rewrite E in *. rewrite gaps_between_two, IH.
  unfold end_of. cbn [with_end_pos nb_end_pos nb_start_pos].
  rewrite Nat.ltb_irrefl. reflexivity.
Qed.

Lemma last_end_is_total (raw : list NoteBoundary) (total : nat) (b : NoteBoundary) :
  last (set_end_positions raw total) = Some b -> nb_end_pos b = Some total.
Proof.
  induction raw as [|r raw IH]; [discriminate|].
  destruct raw as [|r' rs].
  - simpl. intros [= <-]. reflexivity.
  - rewrite set_end_positions_two.
    destruct (set_end_positions_head r' rs total) as (e & rest & E).
    rewrite E in *. intros H. apply IH. exact H.
Qed.

Lemma non_note_ranges_of_set_end (full_text : str) (raw : list NoteBoundary) :
  non_note_ranges full_text (set_end_positions raw (length full_text))
  = match raw with
    | r :: _ => if 0 <? nb_start_pos r then [(0, nb_start_pos r)] else []
    | [] => []
    end.
Proof.
  unfold non_note_ranges. rewrite gaps_between_none.
  destruct (last (set_end_positions raw (length full_text))) as [b|] eqn:El.
  - apply last_end_is_total in El. unfold end_of. rewrite El, Nat.ltb_irrefl.
    rewrite app_nil_r.
    destruct raw as [|r rs]; [reflexivity|].
    destruct (set_end_positions_head r rs (length full_text)) as (e & rest & E).
    rewrite E. reflexivity.
  - destruct raw as [|r rs]; [reflexivity|].
    destruct (set_end_positions_head r rs (length full_text)) as (e & rest & E).
    rewrite E in El. apply last_None in El. discriminate.
Qed.

Lemma detected_ranges_leave_preamble (full_text : str) :
  non_note_ranges full_text (detect_note_boundaries full_text)
  = match detect_note_boundaries full_text with
    | b :: _ => if 0 <? nb_start_pos b then [(0, nb_start_pos b)] else []
    | [] => []
    end
  /\ gaps_between (detect_note_boundaries full_text) = [].
Proof.
  split; [|apply gaps_between_none].
  unfold detect_note_boundaries. cbv zeta.
  rewrite non_note_ranges_of_set_end.
  destruct (map (boundary_of_match full_text) (finditer main_note_pattern full_text))
    as [|r rs]; [reflexivity|].
  destruct (set_end_positions_head r rs (length full_text)) as (e & rest & E).
  rewrite E. reflexivity.
Qed.

(** X2 (adaptive_chunker.py, [_chunk_document_note_aware], step 4): with
    the boundaries that [detect_note_boundaries] returns, the search for
    text outside the notes finds at most one range, the text in front of the
    first note header.  The loop over the gaps between notes and the test
    for text after the last note never find anything, because every note
    ends where the next one starts and the last one ends with the
    document. *)
Theorem only_the_preamble_is_outside_the_notes (full_text : str) :
  non_note_ranges full_text (detect_note_boundaries full_text)
  = match detect_note_boundaries full_text with
    | b :: _ => if 0 <? nb_start_pos b then [(0, nb_start_pos b)] else []
    | [] => []
    end
  /\ gaps_between (detect_note_boundaries full_text) = [].
Proof. apply detected_ranges_leave_preamble. Qed.

Lemma slices_cover (text0 : str) (total : nat) (raw : list NoteBoundary) :
  StronglySorted lt (map nb_start_pos raw) ->
  Forall (fun r => nb_start_pos r <= total) raw ->
  concat (map (slice_of text0) (set_end_positions raw total))
  = match raw with
    | r :: _ => slice text0 (nb_start_pos r) total
    | [] => []
    end.
Proof.
  induction raw as [|r raw IH]; intros Hs Hle; [reflexivity|].
  destruct raw as [|r' rs].
  - simpl. rewrite app_nil_r. reflexivity.
  - rewrite set_end_positions_two. cbn [map concat].
    inversion Hs as [|? ? Hs' Hlt]; subst. inversion Hle as [|? ? Hr Hle']; subst.
    rewrite IH by assumption.
    unfold slice_of at 1. cbn [with_end_pos nb_end_pos nb_start_pos].
    inversion Hlt as [|? ? Hlt1 _]; subst.
    inversion Hle' as [|? ? Hr' _]; subst.
    apply slice_join; lia.
Qed.

Lemma sorted_map_starts (ms : list rmatch) :
  StronglySorted (fun a b => m_start a < m_start b) ms ->
  StronglySorted lt (map m_start ms).
Proof.
  induction 1 as [|m ms Hs IH Hall]; simpl; constructor; [exact IH|].
  rewrite List.Forall_map. exact Hall.
Qed.

(** X3 (adaptive_chunker.py, [NoteParser.detect_note_boundaries] and the
    slices [full_text[start_pos:end_pos]] of [_chunk_document_note_aware]):
    nothing of a document is lost or doubled when it is cut at the note
    headers.  The text in front of the first header followed by the ranges
    of the notes, in order, is the document. *)
Theorem preamble_and_notes_make_the_document (text0 : str) (b : NoteBoundary) :
  head (detect_note_boundaries text0) = Some b ->
  text0 = slice text0 0 (nb_start_pos b)
          ++ concat (map (slice_of text0) (detect_note_boundaries text0)).
Proof.
  intros Hb.
  assert (Hstarts : map nb_start_pos (map (boundary_of_match text0)
                                          (finditer main_note_pattern text0))
                    = map m_start (finditer main_note_pattern text0)).
  { rewrite map_map. reflexivity. }
  unfold detect_note_boundaries in *. cbv zeta in *.
  rewrite slices_cover.
  - destruct (map (boundary_of_match text0) (finditer main_note_pattern text0))
      as [|r rs] eqn:Eraw; [discriminate|].
    destruct (set_end_positions_head r rs (length text0)) as (e & rest & E).
    rewrite E in Hb. injection Hb as <-. cbn [with_end_pos nb_start_pos].
    assert (Hr : nb_start_pos r <= length text0).
    { destruct (finditer main_note_pattern text0) as [|m ms] eqn:Em; [discriminate|].
      injection Eraw as <- _. cbn.
      pose proof (proj1 (finditer_ok main_note_pattern text0)) as Hok.
      rewrite Em in Hok. inversion Hok as [|? ? Hm _]; subst.
      destruct Hm as (? & ? & _). lia. }
    rewrite slice_join by lia.
    unfold slice. rewrite Nat.sub_0_r. cbn [skipn]. symmetry. apply firstn_all.
  - rewrite Hstarts. apply sorted_map_starts. apply finditer_starts_increasing.
  - rewrite List.Forall_map.
    eapply List.Forall_impl; [|exact (proj1 (finditer_ok main_note_pattern text0))].
    intros m (? & ? & _). cbn. lia.
Qed.

Lemma preamble_and_notes_make_the_document_witness :
  head (detect_note_boundaries two_notes)
  = Some (mkNoteBoundary (lit "Note 1") (lit "Cash") 5 (Some 35) 5)
  /\ two_notes = slice two_notes 0 5
                 ++ concat (map (slice_of two_notes) (detect_note_boundaries two_notes)).
Proof.
  split; [vm_compute; reflexivity|].
  apply (preamble_and_notes_make_the_document two_notes
           (mkNoteBoundary (lit "Note 1") (lit "Cash") 5 (Some 35) 5)).
  vm_compute. reflexivity.
Defined.

Lemma note_chunks_tagged (self : t) (full_text : str) (page_boundaries : list PageInfo)
    (bs : list NoteBoundary) :
  Forall (fun c => exists b, In b bs /\ note_number c = Some (nb_note_number b))
         (note_chunks self full_text page_boundaries bs).
Proof.
  apply List.Forall_forall. intros c Hc.
  destruct (note_chunks_made self full_text page_boundaries bs c Hc) as (b & Hb & Hn & _).
  exists b. split; assumption.
Qed.

(** X4 (adaptive_chunker.py, [_chunk_document_note_aware]): when the
    document has notes, its chunks are not in document order.  The chunks
    of the notes come first, each tagged with the number of a detected note;
    the chunks made of the text in front of the first note follow them,
    untagged, and there are no others. *)
Theorem note_chunks_precede_preamble_chunks (self : t) (pages : list (Z * str)) :
  let full_text := fst (join_pages pages [] []) in
  let page_boundaries := snd (join_pages pages [] []) in
  let note_boundaries := detect_note_boundaries full_text in
  nonempty_boundaries full_text = true ->
  exists b tagged untagged,
    head note_boundaries = Some b
    /\ _chunk_document_note_aware self pages = tagged ++ untagged
    /\ tagged = note_chunks self full_text page_boundaries note_boundaries
    /\ Forall (fun c => exists b', In b' note_boundaries
                                   /\ note_number c = Some (nb_note_number b')) tagged
    /\ (untagged = [] \/ untagged = preamble_chunks self full_text page_boundaries
                                                    (nb_start_pos b))
    /\ Forall (fun c => note_number c = None) untagged.
Proof.
  cbv zeta. intros Hne.
  unfold _chunk_document_note_aware.
  destruct (join_pages pages [] []) as [full_text page_boundaries]. cbn [fst snd] in *.
  unfold nonempty_boundaries in Hne.
  destruct (detected_ranges_leave_preamble full_text) as [Hranges _].
  destruct (detect_note_boundaries full_text) as [|b bs] eqn:Eb; [discriminate|].
  cbn [nonempty negb]. rewrite Hranges.
  exists b, (note_chunks self full_text page_boundaries (b :: bs)).
  destruct (0 <? nb_start_pos b).
  - cbn [flat_map]. rewrite app_nil_r.
    destruct (nonempty (strip (slice full_text 0 (nb_start_pos b)))) eqn:En; cbn [negb].
    + eexists. split; [reflexivity|]. split; [reflexivity|]. split; [reflexivity|].
      split; [apply note_chunks_tagged|]. split; [right; reflexivity|].
      apply flat_map_Forall. intros el _. apply chunk_element_untagged.
    + exists []. split; [reflexivity|]. split; [reflexivity|]. split; [reflexivity|].
      split; [apply note_chunks_tagged|]. split; [left; reflexivity|]. constructor.
  - exists []. cbn [flat_map]. split; [reflexivity|]. split; [reflexivity|].
    split; [reflexivity|]. split; [apply note_chunks_tagged|].
    split; [left; reflexivity|]. constructor.
Qed.

Lemma note_chunks_precede_preamble_chunks_witness :
  nonempty_boundaries (fst (join_pages two_note_pages [] [])) = true
  /\ exists b tagged untagged,
       head (detect_note_boundaries (fst (join_pages two_note_pages [] []))) = Some b
       /\ _chunk_document_note_aware (mkChunker 60 200 true) two_note_pages
          = tagged ++ untagged
       /\ tagged = note_chunks (mkChunker 60 200 true) (fst (join_pages two_note_pages [] []))
                               (snd (join_pages two_note_pages [] []))
                               (detect_note_boundaries (fst (join_pages two_note_pages [] [])))
       /\ Forall (fun c => exists b',
                    In b' (detect_note_boundaries (fst (join_pages two_note_pages [] [])))
                    /\ note_number c = Some (nb_note_number b')) tagged
       /\ (untagged = []
           \/ untagged = preamble_chunks (mkChunker 60 200 true)
                           (fst (join_pages two_note_pages [] []))
                           (snd (join_pages two_note_pages [] [])) (nb_start_pos b))
       /\ Forall (fun c => note_number c = None) untagged.
Proof.
  split; [vm_compute; reflexivity|].
  apply (note_chunks_precede_preamble_chunks (mkChunker 60 200 true) two_note_pages).
  vm_compute. reflexivity.
Defined.

End NoteRangeProps.

(* ===================================================================== *)
(** * The shape of the chunks *)
(* ===================================================================== *)

Module ChunkSchemaProps.
Import PyStr Re NoteParser AdaptiveChunker ReSpec NoteParserSpec ChunkerSpec.
Import DocumentLayoutSpec ChunkSchemaSpec.
Import PyStrFacts ReFacts NoteParserProps NoteChunkProps DocumentLayoutProps NoteRangeProps.

Lemma nonempty_true {A : Type} (l : list A) : nonempty l = true <-> l <> [].
Proof. destruct l; simpl; split; congruence. Qed.

Section ElementChunks.

Variables (self : t) (page_num : Z) (element_text : str).

Lemma save_chunk_element (ty : ChunkType) (chunks : list Chunk) (cur : str) :
  is_plain_type ty = true ->
  Forall (element_chunk element_text page_num) chunks ->
  Forall (element_chunk element_text page_num) (save_chunk ty page_num chunks cur).
Proof.
  intros Hty Hc. unfold save_chunk.
  destruct (nonempty (strip cur)) eqn:En; [|exact Hc].
  apply Forall_app. split; [exact Hc|]. constructor; [|constructor].
  exists (strip cur), ty, false. split; [reflexivity|]. split; [exact Hty|].
  split; [right; apply nonempty_true, En | discriminate].
Qed.

Lemma paragraph_fold_element (all todo : list str) (st : list Chunk * str * Z) :
  Forall (element_chunk element_text page_num) (fst (fst st)) ->
  Forall (element_chunk element_text page_num)
         (fst (fst (fold_left (paragraph_step self page_num all) todo st))).
Proof.
  revert st. induction todo as [|s todo IH]; intros [[chunks cur] size] Hc; [exact Hc|].
  simpl. apply IH. unfold paragraph_step.
  destruct (_ <=? _)%Z; [exact Hc|].
  destruct (nonempty _); simpl; apply save_chunk_element; (reflexivity || exact Hc).
Qed.

Lemma list_fold_element (todo : list str) (st : list Chunk * str * Z) :
  Forall (element_chunk element_text page_num) (fst (fst st)) ->
  Forall (element_chunk element_text page_num)
         (fst (fst (fold_left (list_step self page_num) todo st))).
Proof.
  revert st. induction todo as [|s todo IH]; intros [[chunks cur] size] Hc; [exact Hc|].
  simpl. apply IH. unfold list_step.
  destruct (_ <=? _)%Z; [exact Hc|]. simpl. apply save_chunk_element; (reflexivity || exact Hc).
Qed.

Lemma chunk_paragraph_element :
  _chunk_paragraph self element_text page_num <> []
  /\ Forall (element_chunk element_text page_num) (_chunk_paragraph self element_text page_num).
Proof.
  unfold _chunk_paragraph.
  pose proof (paragraph_fold_element (split sentence_break element_text)
                (split sentence_break element_text) ([], [], 0%Z)) as Hf.
  destruct (fold_left _ _ _) as [[chunks cur] size]. simpl in Hf.
  specialize (Hf (List.Forall_nil _)).
  pose proof (save_chunk_element ct_paragraph chunks cur eq_refl Hf) as Hf'.
  destruct (nonempty _) eqn:En.
  - split; [apply nonempty_true, En | exact Hf'].
  - split; [discriminate|]. constructor; [|constructor].
    exists element_text, ct_paragraph, false.
    split; [reflexivity|]. split; [reflexivity|]. split; [left; reflexivity | discriminate].
Qed.

Lemma chunk_list_element :
  _chunk_list self element_text page_num <> []
  /\ Forall (element_chunk element_text page_num) (_chunk_list self element_text page_num).
Proof.
  unfold _chunk_list.
  match goal with
  | |- context [fold_left ?f ?items ?st] =>
      pose proof (list_fold_element items st) as Hf;
      destruct (fold_left f items st) as [[chunks cur] size]
  end.
  simpl in Hf. specialize (Hf (List.Forall_nil _)).
  pose proof (save_chunk_element ct_list chunks cur eq_refl Hf) as Hf'.
  destruct (nonempty _) eqn:En.
  - split; [apply nonempty_true, En | exact Hf'].
  - split; [discriminate|]. constructor; [|constructor].
    exists element_text, ct_list, false.
    split; [reflexivity|]. split; [reflexivity|]. split; [left; reflexivity | discriminate].
Qed.

End ElementChunks.

Lemma chunk_element_plain (self : t) (element : Element) (page_num : Z) :
  _chunk_element self element page_num <> []
  /\ Forall (element_chunk (e_text element) page_num) (_chunk_element self element page_num).
Proof.
  assert (Hone : forall ty critical,
             is_plain_type ty = true ->
             [plain_chunk (e_text element) ty [page_num] (length (e_text element)) critical]
             <> []
             /\ Forall (element_chunk (e_text element) page_num)
                  [plain_chunk (e_text element) ty [page_num] (length (e_text element))
                               critical]).
  { intros ty critical Hty. split; [discriminate|]. constructor; [|constructor].
    exists (e_text element), ty, critical.
    split; [reflexivity|]. split; [exact Hty|]. split; [left; reflexivity | reflexivity]. }
  unfold _chunk_element.
  destruct (e_type element); cbn [andb];
    repeat match goal with
           | |- context [if ?b then _ else _] => destruct b
           end;
    try (apply Hone; reflexivity);
    try apply chunk_list_element; apply chunk_paragraph_element.
Qed.

(** X5 (adaptive_chunker.py, [_chunk_element] with [_chunk_paragraph] and
    [_chunk_list]): an element always gives at least one chunk.  Every chunk
    is built from the five basic fields alone, lies on the one page it was
    asked for and counts its own text; its text is the whole element or,
    when the element was split, not empty, and a chunk flagged critical is
    always the whole element. *)
Theorem element_chunks_are_plain (self : t) (element : Element) (page_num : Z) :
  _chunk_element self element page_num <> []
  /\ Forall (element_chunk (e_text element) page_num) (_chunk_element self element page_num).
Proof. apply chunk_element_plain. Qed.

Lemma element_chunk_schema (element_text : str) (page_num : Z) (c : Chunk) :
  element_chunk element_text page_num c -> schema c /\ note_number c = None.
Proof.
  intros (t0 & ty & critical & -> & Hty & _). split; [|reflexivity].
  split; [reflexivity|]. cbn. split; [exact Hty|]. split; [exists page_num; reflexivity|].
  repeat split.
Qed.

Lemma extract_elements_nonempty (self : t) (text0 : str) (page_num : Z) :
  Forall (fun el => e_text el <> [] /\ e_page_num el = page_num)
         (_extract_elements self text0 page_num).
Proof.
  unfold _extract_elements. apply flat_map_Forall. intros section _.
  destruct (nonempty (strip section)) eqn:En; [|constructor].
  constructor; [|constructor]. split; [apply nonempty_true, En | reflexivity].
Qed.

Lemma elements_chunked_plain (self : t) (text0 : str) (page element_page : Z) :
  Forall (fun c => schema c /\ note_number c = None /\ text c <> []
                   /\ page_numbers c = [page])
         (flat_map (fun element => _chunk_element self element page)
                   (_extract_elements self text0 element_page)).
Proof.
  apply flat_map_Forall. intros el Hel.
  pose proof (extract_elements_nonempty self text0 element_page) as Hne.
  rewrite List.Forall_forall in Hne. destruct (Hne el Hel) as [Hne' _].
  eapply List.Forall_impl; [|apply (chunk_element_plain self el page)].
  intros c Hc. destruct (element_chunk_schema _ _ _ Hc) as [Hs Hn].
  destruct Hc as (t0 & ty & critical & -> & _ & Ht & _).
  split; [exact Hs|]. split; [exact Hn|]. split; [|reflexivity].
  cbn. destruct Ht as [->|Ht]; assumption.
Qed.

Section NoteChunks.

Variables (self : t) (number : str).

Lemma section_chunk_schema (full_text : str) (pages : list Z) (sub : str)
    (sub_sec title : option str) (analysis : ContentAnalysis) (level : nat) :
  1 <= level ->
  schema (section_chunk full_text pages number sub sub_sec title analysis level)
  /\ note_number (section_chunk full_text pages number sub sub_sec title analysis level)
     = Some number.
Proof.
  intros Hl. split; [|reflexivity]. split; [reflexivity|]. cbn.
  split; [reflexivity|]. split; [right; reflexivity|].
  split; [intros _; split; [reflexivity | exact Hl] | discriminate].
Qed.

Lemma mixed_chunk_schema (cur : str) (pages : list Z) (title : str) :
  schema (mixed_chunk cur pages number title)
  /\ note_number (mixed_chunk cur pages number title) = Some number.
Proof.
  split; [|reflexivity]. split; [reflexivity|]. cbn.
  split; [reflexivity|]. split; [right; reflexivity|].
  split; [intros H; contradiction H; reflexivity | discriminate].
Qed.

Lemma as_note_paragraph_schema (element_text : str) (page_num : Z) (sub : str) (pc : Chunk) :
  element_chunk element_text page_num pc ->
  schema (as_note_paragraph number sub pc)
  /\ note_number (as_note_paragraph number sub pc) = Some number.
Proof.
  intros (t0 & ty & critical & -> & _). split; [|reflexivity].
  split; [reflexivity|]. cbn.
  split; [reflexivity|]. split; [right; reflexivity|].
  split; [intros _; split; [reflexivity | lia] | discriminate].
Qed.

Lemma pack_fold_schema (header title : str) (pages : list Z) (elements : list Element)
    (st : list Chunk * str * list ElementType) :
  Forall (fun c => schema c /\ note_number c = Some number) (fst (fst st)) ->
  Forall (fun c => schema c /\ note_number c = Some number)
         (fst (fst (fold_left (pack_step self header pages number title) elements st))).
Proof.
  revert st. induction elements as [|el elements IH]; intros [[chunks cur] els] Hc;
    [exact Hc|].
  simpl. apply IH. unfold pack_step.
  destruct (_ && _); cbn [fst]; [|exact Hc].
  apply Forall_app. split; [exact Hc|]. constructor; [|constructor].
  apply mixed_chunk_schema.
Qed.

Lemma chunk_large_note_schema (note_text header title : str) (pages : list Z) :
  _chunk_large_note_by_elements self note_text header number title pages <> []
  /\ Forall (fun c => schema c /\ note_number c = Some number)
            (_chunk_large_note_by_elements self note_text header number title pages).
Proof.
  unfold _chunk_large_note_by_elements.
  match goal with
  | |- context [fold_left ?f ?items ?st] =>
      pose proof (pack_fold_schema header title pages items st) as Hf;
      destruct (fold_left f items st) as [[chunks cur] els]
  end.
  cbn [fst] in Hf. specialize (Hf (List.Forall_nil _)).
  assert (Hc' : Forall (fun c => schema c /\ note_number c = Some number)
                  (if negb (str_eqb (strip cur) (strip header))
                   then chunks ++ [mixed_chunk cur pages number title]
                   else chunks)).
  { destruct (negb _); [|exact Hf]. apply Forall_app. split; [exact Hf|].
    constructor; [|constructor]. apply mixed_chunk_schema. }
  destruct (nonempty _) eqn:En.
  - split; [apply nonempty_true, En | exact Hc'].
  - split; [discriminate|]. constructor; [|constructor].
    split; [|reflexivity]. split; [reflexivity|]. cbn.
    split; [reflexivity|]. split; [left; reflexivity|].
    split; [intros H; contradiction H; reflexivity | discriminate].
Qed.

Lemma chunk_note_subsections_schema (text0 header sub : str) (pages : list Z) :
  _chunk_note_subsections self text0 header number sub pages <> []
  /\ Forall (fun c => schema c /\ note_number c = Some number)
            (_chunk_note_subsections self text0 header number sub pages).
Proof.
  unfold _chunk_note_subsections.
  destruct (sub_section_bounds text0) as [|b bs] eqn:Eb; cbn [nonempty].
  - destruct (len (header ++ text0) >? max_chunk_size self * 2)%Z.
    + destruct (chunk_paragraph_element self (first_page_or_1 pages) text0) as [Hne Hall].
      split.
      * destruct (_chunk_paragraph self text0 (first_page_or_1 pages));
          [contradiction Hne; reflexivity | discriminate].
      * apply List.Forall_forall. intros c Hc. apply in_map_iff in Hc as (pc & <- & Hpc).
        rewrite List.Forall_forall in Hall.
        eapply as_note_paragraph_schema. apply Hall, Hpc.
    + split; [discriminate|]. constructor; [|constructor].
      apply section_chunk_schema. lia.
  - split; [discriminate|].
    apply List.Forall_forall. intros c Hc. apply in_map_iff in Hc as (b' & <- & _).
    apply section_chunk_schema. lia.
Qed.

Lemma chunk_note_schema (note_text title : str) (pages : list Z) :
  _chunk_note self note_text number title pages <> []
  /\ Forall (fun c => schema c /\ note_number c = Some number)
            (_chunk_note self note_text number title pages).
Proof.
  unfold _chunk_note.
  destruct (Z.of_nat (length (strip note_text)) <=? max_chunk_size self)%Z.
  - split; [discriminate|]. constructor; [|constructor].
    split; [|reflexivity]. split; [reflexivity|]. cbn.
    split; [reflexivity|]. split; [left; reflexivity|].
    split; [intros H; contradiction H; reflexivity|].
    intros _. repeat split.
  - destruct (sub_notes (parse_note_hierarchy (strip note_text) number)) as [|b bs] eqn:Es;
      cbn [nonempty].
    + apply chunk_large_note_schema.
    + assert (Hone : forall b0,
                 (if (len (make_note_header number title
                           ++ strip (slice_of (strip note_text) b0))
                      >? max_chunk_size self)%Z
                  then _chunk_note_subsections self (strip (slice_of (strip note_text) b0))
                         (make_note_header number title) number (nb_note_number b0) pages
                  else [section_chunk
                          (make_note_header number title
                           ++ strip (slice_of (strip note_text) b0))
                          pages number (nb_note_number b0) None (Some title)
                          (detect_content_types (strip (slice_of (strip note_text) b0))) 1])
                 <> []
                 /\ Forall (fun c => schema c /\ note_number c = Some number)
                      (if (len (make_note_header number title
                                ++ strip (slice_of (strip note_text) b0))
                           >? max_chunk_size self)%Z
                       then _chunk_note_subsections self
                              (strip (slice_of (strip note_text) b0))
                              (make_note_header number title) number (nb_note_number b0)
                              pages
                       else [section_chunk
                               (make_note_header number title
                                ++ strip (slice_of (strip note_text) b0))
                               pages number (nb_note_number b0) None (Some title)
                               (detect_content_types (strip (slice_of (strip note_text) b0)))
                               1])).
      { intros b0. destruct (_ >? _)%Z.
        - apply chunk_note_subsections_schema.
        - split; [discriminate|]. constructor; [|constructor].
          apply section_chunk_schema. lia. }
      split.
      * cbn [flat_map]. intros Happ. apply app_eq_nil in Happ as [Happ _].
        exact (proj1 (Hone b) Happ).
      * apply flat_map_Forall. intros b0 _. apply Hone.
Qed.

End NoteChunks.

Lemma chunk_pages_schema (self : t) (pages : list (Z * str)) :
  Forall (fun c => schema c /\ note_number c = None /\ text c <> [])
         (chunk_pages self pages).
Proof.
  unfold chunk_pages. apply flat_map_Forall. intros [page_num page_text] _.
  eapply List.Forall_impl; [|apply (elements_chunked_plain self page_text page_num page_num)].
  intros c (Hs & Hn & Ht & _). auto.
Qed.

Lemma note_aware_schema (self : t) (pages : list (Z * str)) :
  Forall (fun c => schema c /\ (note_number c = None -> text c <> []))
         (_chunk_document_note_aware self pages).
Proof.
  unfold _chunk_document_note_aware.
  destruct (join_pages pages [] []) as [full_text page_boundaries].
  destruct (negb (nonempty (detect_note_boundaries full_text))).
  - eapply List.Forall_impl; [|apply chunk_pages_schema].
    intros c (Hs & _ & Ht). auto.
  - apply Forall_app. split.
    + unfold note_chunks. apply flat_map_Forall. intros b _.
      eapply List.Forall_impl; [|apply chunk_note_schema].
      intros c [Hs Hn]. split; [exact Hs|]. rewrite Hn. discriminate.
    + apply flat_map_Forall. intros [start_pos end_pos] _.
      destruct (negb _); [constructor|].
      eapply List.Forall_impl; [|apply elements_chunked_plain].
      intros c (Hs & _ & Ht & _). auto.
Qed.

(** X6 (adaptive_chunker.py, [chunk_document] and everything below it):
    the fields of every chunk of a document agree with each other.  The
    character count is the length of the text.  A chunk without a note
    number has one of the four element types, exactly one page and no note
    field set.  A chunk with a note number has one of the types
    [note_complete], [note_section], [note_mixed] and [note_paragraph] (the
    types [note_header] and [note_table] never occur); its parent note,
    when set, is its own note number, it is set whenever the chunk belongs
    to a sub-note, and only a [note_complete] chunk at level 0 claims to
    hold a complete note. *)
Theorem chunk_fields_agree (self : t) (pages : list (Z * str)) :
  Forall schema (chunk_document self pages).
Proof.
  unfold chunk_document. destruct (enable_note_aware self).
  - eapply List.Forall_impl; [|apply note_aware_schema]. intros c [Hs _]. exact Hs.
  - eapply List.Forall_impl; [|apply chunk_pages_schema].
    intros c (Hs & _ & Ht). exact Hs.
Qed.

Lemma note_chunks_nonempty (self : t) (full_text : str) (page_boundaries : list PageInfo)
    (bs : list NoteBoundary) (b : NoteBoundary) :
  In b bs ->
  exists c, In c (note_chunks self full_text page_boundaries bs)
            /\ note_number c = Some (nb_note_number b).
Proof.
  intros Hb.
  destruct (chunk_note_schema self (nb_note_number b) (slice_of full_text b)
              (nb_note_title b)
              (pages_of_range page_boundaries (nb_start_pos b) (end_of b))) as [Hne Hall].
  destruct (_chunk_note self (slice_of full_text b) (nb_note_number b) (nb_note_title b)
              (pages_of_range page_boundaries (nb_start_pos b) (end_of b)))
    as [|c cs] eqn:Ec; [contradiction Hne; reflexivity|].
  exists c. split.
  - unfold note_chunks. apply in_flat_map. exists b. split; [exact Hb|].
    rewrite Ec. left. reflexivity.
  - inversion Hall as [|? ? [_ Hn] _]; subst. exact Hn.
Qed.

(** X7 (adaptive_chunker.py, [_chunk_document_note_aware] and
    [_chunk_note]): no detected note is dropped.  For every boundary that
    [detect_note_boundaries] finds in the joined text, the chunks of the
    document hold at least one chunk tagged with the number of that note. *)
Theorem every_note_has_a_chunk (self : t) (pages : list (Z * str)) (b : NoteBoundary) :
  In b (detect_note_boundaries (fst (join_pages pages [] []))) ->
  exists c, In c (_chunk_document_note_aware self pages)
            /\ note_number c = Some (nb_note_number b).
Proof.
  intros Hb. unfold _chunk_document_note_aware.
  destruct (join_pages pages [] []) as [full_text page_boundaries]. cbn [fst] in Hb.
  destruct (detect_note_boundaries full_text) as [|b0 bs] eqn:Eb; [contradiction|].
  cbn [nonempty negb].
  destruct (note_chunks_nonempty self full_text page_boundaries (b0 :: bs) b Hb)
    as (c & Hc & Hn).
  exists c. split; [|exact Hn]. apply in_or_app. left. exact Hc.
Qed.

Lemma every_note_has_a_chunk_witness :
  let b := mkNoteBoundary (lit "Note 13") (lit "PPE" ++ [nl] ++ lit "Land") 124 (Some 147) 124 in
  In b (detect_note_boundaries (fst (join_pages two_note_pages [] [])))
  /\ exists c, In c (_chunk_document_note_aware (mkChunker 60 200 true) two_note_pages)
               /\ note_number c = Some (nb_note_number b).
Proof.
  cbv zeta. split; [vm_compute; auto|].
  apply (every_note_has_a_chunk (mkChunker 60 200 true) two_note_pages).
  vm_compute. auto.
Defined.

End ChunkSchemaProps.

(* ===================================================================== *)
(** * When the chunks of a paragraph or a list keep to the size budget *)
(* ===================================================================== *)

Module BudgetProps.
Import PyStr Re NoteParser AdaptiveChunker ReSpec ChunkerSpec ChunkSchemaSpec BudgetSpec.
Import PyStrFacts ReFacts NoteChunkProps ChunkSchemaProps.

Lemma lstrip_length (s : str) : length (lstrip s) <= length s.
Proof.
  induction s as [|c s IH]; simpl; [lia|]. destruct (is_space c); simpl; lia.
Qed.

Lemma rstrip_length (s : str) : length (rstrip s) <= length s.
Proof.
  unfold rstrip. rewrite length_rev.
  pose proof (lstrip_length (rev s)) as H. rewrite length_rev in H. exact H.
Qed.

Lemma lstrip_snoc (x : str) (w : ascii) :
  is_space w = true ->
  lstrip (x ++ [w]) = [] \/ exists y, lstrip (x ++ [w]) = y ++ [w] /\ length y <= length x.
Proof.
  intros Hw. induction x as [|c x IH]; simpl.
  - rewrite Hw. left. reflexivity.
  - destruct (is_space c).
    + destruct IH as [IH|(y & E & L)]; [left; exact IH|].
      right. exists y. split; [exact E | lia].
    + right. exists (c :: x). split; [reflexivity | simpl; lia].
Qed.

Lemma strip_snoc_length (x : str) (w : ascii) :
  is_space w = true -> length (strip (x ++ [w])) <= length x.
Proof.
  intros Hw. unfold strip.
  destruct (lstrip_snoc x w Hw) as [E|(y & E & L)]; rewrite E.
  - simpl. lia.
  - unfold rstrip. rewrite rev_app_distr. simpl. rewrite Hw.
    pose proof (rstrip_length y) as H. unfold rstrip in H. lia.
Qed.

Lemma lstrip_keeps (s : str) (c : ascii) :
  In c s -> is_space c = false -> In c (lstrip s).
Proof.
  intros Hin Hc. induction s as [|d s IH]; [contradiction|].
  simpl. destruct (is_space d) eqn:Ed.
  - destruct Hin as [->|Hin]; [congruence | apply IH, Hin].
  - exact Hin.
Qed.

Lemma strip_keeps (s : str) (c : ascii) :
  In c s -> is_space c = false -> In c (strip s).
Proof.
  intros Hin Hc. unfold strip, rstrip. rewrite <- in_rev.
  apply lstrip_keeps; [|exact Hc]. rewrite <- in_rev.
  apply lstrip_keeps; assumption.
Qed.

Lemma lstrip_head (s : str) (c : ascii) (r : str) :
  lstrip s = c :: r -> is_space c = false.
Proof.
  induction s as [|d s IH]; simpl; [discriminate|].
  destruct (is_space d) eqn:Ed; [exact IH|]. intros [= <- _]. exact Ed.
Qed.

Lemma strip_nonempty_has_char (s : str) :
  strip s <> [] -> exists c, In c (strip s) /\ is_space c = false.
Proof.
  unfold strip, rstrip. intros Hne.
  destruct (lstrip (rev (lstrip s))) as [|c r] eqn:E; [contradiction Hne; reflexivity|].
  exists c. split; [|apply (lstrip_head _ _ _ E)].
  rewrite <- in_rev. left. reflexivity.
Qed.

Section Budget.

Variables (self : t) (page_num : Z).

Lemma save_chunk_fits (ty : ChunkType) (chunks : list Chunk) (cur : str) :
  (cur = [] \/ exists x w, cur = x ++ [w] /\ is_space w = true
                           /\ (len x <= max_chunk_size self)%Z) ->
  Forall (fits self) chunks ->
  Forall (fits self) (save_chunk ty page_num chunks cur).
Proof.
  intros Hcur Hc. unfold save_chunk. destruct (nonempty (strip cur)) eqn:En; [|exact Hc].
  apply Forall_app. split; [exact Hc|]. constructor; [|constructor].
  unfold fits. cbn [text plain_chunk].
  destruct Hcur as [->|(x & w & -> & Hw & Hx)]; [discriminate|].
  pose proof (strip_snoc_length x w Hw). unfold len in *. lia.
Qed.

Lemma list_step_budget (st : list Chunk * str * Z) (item : str) :
  (len item <= max_chunk_size self)%Z ->
  budget_inv self st -> budget_inv self (list_step self page_num st item).
Proof.
  destruct st as [[chunks cur] size]. intros Hitem (Hsize & Hcur & Hc).
  unfold list_step. destruct (Z.leb_spec (size + len item) (max_chunk_size self)).
  - split; [|split; [|exact Hc]].
    + unfold len in *. rewrite !length_app. simpl. lia.
    + right. exists (cur ++ item), nl. split; [rewrite <- app_assoc; reflexivity|].
      split; [reflexivity|]. unfold len in *. rewrite length_app. lia.
  - split; [|split].
    + unfold len. rewrite length_app. simpl. lia.
    + right. exists item, nl. split; [reflexivity|]. split; [reflexivity | exact Hitem].
    + apply save_chunk_fits; assumption.
Qed.

Lemma list_fold_budget (items : list str) (st : list Chunk * str * Z) :
  Forall (fun item => (len item <= max_chunk_size self)%Z) items ->
  budget_inv self st -> budget_inv self (fold_left (list_step self page_num) items st).
Proof.
  revert st. induction items as [|item items IH]; intros st Hitems Hst; [exact Hst|].
  inversion Hitems; subst. simpl. apply IH; [assumption|].
  apply list_step_budget; assumption.
Qed.

Lemma list_fold_last (items : list str) (st : list Chunk * str * Z) :
  items <> [] ->
  Forall (fun item => strip item <> []) items ->
  strip (snd (fst (fold_left (list_step self page_num) items st))) <> [].
Proof.
  revert st. induction items as [|item items IH]; intros st Hne Hitems; [contradiction|].
  inversion Hitems as [|? ? Hitem Hrest]; subst. simpl.
  destruct items as [|item' items].
  - simpl. destruct st as [[chunks cur] size].
    destruct (strip_nonempty_has_char item Hitem) as (c & Hc & Hsp).
    assert (Hin : In c item).
    { destruct (substring_strip item) as (a & b & E). rewrite E.
      apply in_or_app. right. apply in_or_app. left. exact Hc. }
    unfold list_step. destruct (_ <=? _)%Z; cbn [fst snd]; intros E;
      (eapply in_nil; rewrite <- E; apply strip_keeps; [|exact Hsp]);
      repeat (apply in_or_app; (left; exact Hin) || right); apply in_or_app; left; exact Hin.
  - apply IH; [discriminate | exact Hrest].
Qed.

Lemma paragraph_step_budget (sentences : list str) (st : list Chunk * str * Z)
    (sentence : str) :
  (len (last_sentence_before sentences sentence) + len sentence + 1
   <= max_chunk_size self)%Z ->
  budget_inv self st -> budget_inv self (paragraph_step self page_num sentences st sentence).
Proof.
  destruct st as [[chunks cur] size]. intros Hs (Hsize & Hcur & Hc).
  assert (Hl : (0 <= len (last_sentence_before sentences sentence))%Z)
    by (unfold len; lia).
  unfold paragraph_step.
  destruct (Z.leb_spec (size + len sentence) (max_chunk_size self)).
  - split; [|split; [|exact Hc]].
    + unfold len in *. rewrite !length_app. simpl. lia.
    + right. exists (cur ++ sentence), " "%char.
      split; [rewrite <- app_assoc; reflexivity|].
      split; [reflexivity|]. unfold len in *. rewrite length_app. lia.
  - pose proof (save_chunk_fits ct_paragraph chunks cur Hcur Hc) as Hsaved.
    destruct (nonempty (save_chunk ct_paragraph page_num chunks cur)).
    + split; [|split; [|exact Hsaved]].
      * unfold len. repeat (rewrite length_app; simpl). lia.
      * right. exists (last_sentence_before sentences sentence ++ lit " " ++ sentence),
                      " "%char.
        split; [rewrite <- !app_assoc; reflexivity|]. split; [reflexivity|].
        unfold len in *. rewrite !length_app. simpl. lia.
    + split; [|split; [|exact Hsaved]].
      * unfold len. rewrite length_app. simpl. lia.
      * right. exists sentence, " "%char. split; [reflexivity|]. split; [reflexivity|]. lia.
Qed.

Lemma paragraph_fold_budget (sentences todo : list str) (st : list Chunk * str * Z) :
  Forall (fun s => (len (last_sentence_before sentences s) + len s + 1
                    <= max_chunk_size self)%Z) todo ->
  budget_inv self st ->
  budget_inv self (fold_left (paragraph_step self page_num sentences) todo st).
Proof.
  revert st. induction todo as [|s todo IH]; intros st Htodo Hst; [exact Hst|].
  inversion Htodo; subst. simpl. apply IH; [assumption|].
  apply paragraph_step_budget; assumption.
Qed.

End Budget.

(** X8 (adaptive_chunker.py, [_chunk_paragraph]): the chunks of a split
    paragraph keep to the size budget whenever every sentence fits into it
    together with the sentence that the overlap would put in front of it
    and the space between the two.  The only other outcome is the fallback:
    one chunk holding the whole paragraph. *)
Theorem paragraph_chunks_fit (self : t) (text0 : str) (page_num : Z) :
  Forall (fun s => (len (last_sentence_before (split sentence_break text0) s) + len s + 1
                    <= max_chunk_size self)%Z)
         (split sentence_break text0) ->
  _chunk_paragraph self text0 page_num
  = [plain_chunk text0 ct_paragraph [page_num] (length text0) false]
  \/ Forall (fits self) (_chunk_paragraph self text0 page_num).
Proof.
  intros H. unfold _chunk_paragraph.
  pose proof (paragraph_fold_budget self page_num (split sentence_break text0)
                (split sentence_break text0) ([], [], 0%Z) H) as Hinv.
  destruct (fold_left _ _ _) as [[chunks cur] size].
  destruct Hinv as (_ & Hcur & Hc).
  { split; [reflexivity|]. split; [left; reflexivity | constructor]. }
  pose proof (save_chunk_fits self page_num ct_paragraph chunks cur Hcur Hc) as Hsaved.
  destruct (nonempty _); [right; exact Hsaved | left; reflexivity].
Qed.

Lemma paragraph_chunks_fit_witness :
  Forall (fun s => (len (last_sentence_before
                           (split sentence_break (e_text three_sentences)) s)
                    + len s + 1 <= max_chunk_size (mkChunker 21 200 true))%Z)
         (split sentence_break (e_text three_sentences))
  /\ (_chunk_paragraph (mkChunker 21 200 true) (e_text three_sentences) 4
      = [plain_chunk (e_text three_sentences) ct_paragraph [4%Z]
                     (length (e_text three_sentences)) false]
      \/ Forall (fits (mkChunker 21 200 true))
                (_chunk_paragraph (mkChunker 21 200 true) (e_text three_sentences) 4)).
Proof.
  assert (H : Forall (fun s => (len (last_sentence_before
                                      (split sentence_break (e_text three_sentences)) s)
                                + len s + 1 <= max_chunk_size (mkChunker 21 200 true))%Z)
                     (split sentence_break (e_text three_sentences))).
  { apply List.Forall_forall. intros piece Hp. vm_compute in Hp.
    repeat (destruct Hp as [<-|Hp]; [vm_compute; discriminate|]). contradiction. }
  split; [exact H|].
  apply (paragraph_chunks_fit (mkChunker 21 200 true) (e_text three_sentences) 4 H).
Defined.

Example three_sentences_chunked :
  map text (_chunk_paragraph (mkChunker 21 200 true) (e_text three_sentences) 4)
  = [lit "Aaaa bbbb. Cccc dddd."; lit "Cccc dddd. Eeee ffff."].
Proof. vm_compute. reflexivity. Qed.

(** X9 (adaptive_chunker.py, [_chunk_list]): the chunks of a split list
    keep to the size budget whenever every item does.  The fallback, one
    chunk holding the whole text, is taken only when the text has no item
    at all, that is when every piece between two list markers is blank. *)
Theorem list_chunks_fit (self : t) (text0 : str) (page_num : Z) :
  Forall (fun piece => (len (strip piece) <= max_chunk_size self)%Z)
         (split item_start text0) ->
  (Forall (fun piece => strip piece = []) (split item_start text0)
   /\ _chunk_list self text0 page_num
      = [plain_chunk text0 ct_list [page_num] (length text0) false])
  \/ (_chunk_list self text0 page_num <> []
      /\ Forall (fits self) (_chunk_list self text0 page_num)).
Proof.
  intros H. unfold _chunk_list.
  set (items := flat_map (fun item => if nonempty (strip item) then [strip item] else [])
                         (split item_start text0)).
  assert (Hitems : Forall (fun item => (len item <= max_chunk_size self)%Z) items).
  { apply flat_map_Forall. intros piece Hp.
    rewrite List.Forall_forall in H. specialize (H piece Hp).
    destruct (nonempty _); repeat constructor. exact H. }
  assert (Hstripped : Forall (fun item => strip item <> []) items).
  { apply flat_map_Forall. intros piece _.
    destruct (nonempty (strip piece)) eqn:En; [|constructor].
    constructor; [|constructor]. apply nonempty_true in En.
    destruct (strip_nonempty_has_char _ En) as (c & Hc & Hsp).
    intros E. eapply in_nil. rewrite <- E. apply strip_keeps; eassumption. }
  pose proof (list_fold_budget self page_num items ([], [], 0%Z) Hitems) as Hinv.
  pose proof (list_fold_last self page_num items ([], [], 0%Z)) as Hlast.
  destruct (fold_left _ _ _) as [[chunks cur] size]. cbn [fst snd] in Hlast.
  destruct Hinv as (_ & Hcur & Hc).
  { split; [reflexivity|]. split; [left; reflexivity | constructor]. }
  pose proof (save_chunk_fits self page_num ct_list chunks cur Hcur Hc) as Hsaved.
  destruct items as [|item items'] eqn:Ei.
  - destruct (nonempty _) eqn:En.
    + right. split; [apply nonempty_true, En | exact Hsaved].
    + left. split; [|reflexivity].
      apply List.Forall_forall. intros piece Hp.
      destruct (strip piece) as [|c r] eqn:Es; [reflexivity|].
      assert (Hin : In (strip piece) items).
      { unfold items. apply in_flat_map. exists piece. split; [exact Hp|].
        rewrite Es. left. reflexivity. }
      rewrite Ei in Hin. contradiction.
  - right. specialize (Hlast ltac:(discriminate) Hstripped).
    assert (Hne : save_chunk ct_list page_num chunks cur <> []).
    { unfold save_chunk. destruct (strip cur) eqn:Es; [contradiction Hlast; reflexivity|].
      cbn [nonempty]. intros E. apply app_eq_nil in E as [_ E]. discriminate. }
    destruct (save_chunk ct_list page_num chunks cur) eqn:Esave;
      [contradiction Hne; reflexivity|].
    cbn [nonempty]. split; [discriminate | exact Hsaved].
Qed.

Lemma list_chunks_fit_witness :
  Forall (fun piece => (len (strip piece) <= max_chunk_size (mkChunker 13 200 true))%Z)
         (split item_start three_items)
  /\ ((Forall (fun piece => strip piece = []) (split item_start three_items)
       /\ _chunk_list (mkChunker 13 200 true) three_items 2
          = [plain_chunk three_items ct_list [2%Z] (length three_items) false])
      \/ (_chunk_list (mkChunker 13 200 true) three_items 2 <> []
          /\ Forall (fits (mkChunker 13 200 true))
                    (_chunk_list (mkChunker 13 200 true) three_items 2))).
Proof.
  assert (H : Forall (fun piece => (len (strip piece)
                                    <= max_chunk_size (mkChunker 13 200 true))%Z)
                     (split item_start three_items)).
  { apply List.Forall_forall. intros piece Hp. vm_compute in Hp.
    repeat (destruct Hp as [<-|Hp]; [vm_compute; discriminate|]). contradiction. }
  split; [exact H|].
  apply (list_chunks_fit (mkChunker 13 200 true) three_items 2 H).
Defined.

Example three_items_chunked :
  map text (_chunk_list (mkChunker 13 200 true) three_items 2)
  = [lit "- aaaa" ++ [nl] ++ lit "- bbbb"; lit "- cccc"].
Proof. vm_compute. reflexivity. Qed.

End BudgetProps.

(* ===================================================================== *)
(** * Content labels and critical paragraphs *)
(* ===================================================================== *)

Module ContentProps.
Import PyStr Re NoteParser AdaptiveChunker ContentSpec.
Import PyStrFacts.

(** X10 (adaptive_chunker.py, [NoteParser.detect_content_types]): the
    labels and the two flags of a content analysis agree.  The labels are
    taken from [table], [numerical], [paragraph], in this order and without
    repeats; the text counts as objective exactly when it is labelled
    [table] or [numerical], and as subjective exactly when it is labelled
    [paragraph]. *)
Theorem content_labels_match_flags (text0 : str) :
  let analysis := detect_content_types text0 in
  sublist (ca_content_types analysis) content_labels
  /\ (ca_has_objective analysis = true
      <-> In (lit "table") (ca_content_types analysis)
          \/ In (lit "numerical") (ca_content_types analysis))
  /\ (ca_has_subjective analysis = true
      <-> In (lit "paragraph") (ca_content_types analysis)).
Proof.
  cbv zeta. unfold detect_content_types.
  destruct (search table_row_pattern text0), (search currency_pattern text0),
           (existsb (fun keyword => search keyword text0) subjective_keywords),
           (contains [nl; nl] text0);
    vm_compute;
    (split; [repeat (first [apply sublist_nil | apply sublist_skip | apply sublist_cons])|]);
    (split; split; try discriminate; try reflexivity; intuition (try discriminate; eauto)).
Qed.

Lemma lower_app (a b : str) : lower (a ++ b) = lower a ++ lower b.
Proof. apply map_app. Qed.

Lemma substring_lower (a b : str) : substring_of a b -> substring_of (lower a) (lower b).
Proof.
  intros (x & y & ->). exists (lower x), (lower y). rewrite !lower_app. reflexivity.
Qed.

(** X11 (universal_classifier.py, [is_critical_paragraph]): being critical
    is passed on to every text that contains a critical one. *)
Theorem critical_text_stays_critical (part whole : str) :
  substring_of part whole ->
  UniversalClassifier.is_critical_paragraph part = true ->
  UniversalClassifier.is_critical_paragraph whole = true.
Proof.
  intros Hsub Hpart.
  unfold UniversalClassifier.is_critical_paragraph in *.
  apply existsb_exists in Hpart as (keyword & Hk & Hc).
  apply existsb_exists. exists keyword. split; [exact Hk|].
  apply contains_substring. apply contains_substring in Hc.
  eapply substring_trans; [exact Hc|]. apply substring_lower, Hsub.
Qed.

Lemma critical_text_stays_critical_witness :
  substring_of (lit "Fair Value") (lit "The Fair Value of land")
  /\ UniversalClassifier.is_critical_paragraph (lit "Fair Value") = true
  /\ UniversalClassifier.is_critical_paragraph (lit "The Fair Value of land") = true.
Proof.
  assert (Hsub : substring_of (lit "Fair Value") (lit "The Fair Value of land")).
  { exists (lit "The "), (lit " of land"). reflexivity. }
  split; [exact Hsub|]. split; [reflexivity|].
  apply (critical_text_stays_critical (lit "Fair Value") (lit "The Fair Value of land") Hsub).
  reflexivity.
Defined.

End ContentProps.

(* ===================================================================== *)
(** * More on deduplication *)
(* ===================================================================== *)

Module DedupMoreProps.
Import PyStr PyFloat PySorted RetrievalTypes Dedup DedupSpec DedupMoreSpec SortProps DedupProps.

Section WithRatio.

Variable arrangement : Arrangement.

Variable ratio : str -> str -> Q.







Lemma is_duplicate_true (thr : Q) (r : RetrievalResult) (ded : list RetrievalResult) :
  is_duplicate ratio thr r (map chunk_text ded) = true ->
  exists k, In k ded /\ (thr <= ratio (normalized r) (normalized k))%Q.
Proof.
  unfold is_duplicate. intros H. apply existsb_exists in H as (t0 & Ht & Hle).
  apply in_map_iff in Ht as (k & <- & Hk). exists k. split; [exact Hk|].
  apply Qle_bool_iff. exact Hle.
Qed.

Lemma dedup_loop_complete (thr : Q) (max_chunks : Z) (todo : list RetrievalResult) :
  forall (ded : list RetrievalResult),
    (Z.of_nat (length ded + length todo) <= max_chunks)%Z ->
    forall r, In r todo ->
      In r (dedup_loop ratio thr max_chunks todo ded (map chunk_text ded))
      \/ exists k, In k (dedup_loop ratio thr max_chunks todo ded (map chunk_text ded))
                   /\ (thr <= ratio (normalized r) (normalized k))%Q.
Proof.
  induction todo as [|r0 todo IH]; intros ded Hlen r Hr; [contradiction|].
  simpl in Hlen. cbn [dedup_loop].
  destruct (is_duplicate ratio thr r0 (map chunk_text ded)) eqn:D.
  - destruct Hr as [<-|Hr].
    + right. apply is_duplicate_true in D as (k & Hk & Hle). exists k. split; [|exact Hle].
      destruct (dedup_loop_kept ratio thr max_chunks todo ded (map chunk_text ded))
        as (kept & -> & _).
      apply in_or_app. left. exact Hk.
    + apply IH; [lia | exact Hr].
  - destruct (Z.of_nat (length (ded ++ [r0])) >=? max_chunks)%Z eqn:G.
    + rewrite length_app in G. simpl in G. apply Z.geb_le in G.
      destruct todo as [|r1 todo]; [|simpl in Hlen; lia].
      destruct Hr as [<-|[]]. left. apply in_or_app. right. left. reflexivity.
    + replace (map chunk_text ded ++ [chunk_text r0]) with (map chunk_text (ded ++ [r0]))
        by (rewrite map_app; reflexivity).
      destruct Hr as [<-|Hr].
      * left.
        destruct (dedup_loop_kept ratio thr max_chunks todo (ded ++ [r0])
                    (map chunk_text (ded ++ [r0]))) as (kept & -> & _).
        apply in_or_app. left. apply in_or_app. right. left. reflexivity.
      * apply IH; [rewrite length_app; simpl; lia | exact Hr].
Qed.

(** X13 (deduplication_utils.py, [deduplicate_by_similarity]): nothing is
    dropped without a reason.  When the bound is not smaller than the
    number of results, every result is either returned or similar to a
    result that is returned. *)
Theorem dropped_result_resembles_a_kept_one (rs : list RetrievalResult) (thr : Q)
    (max_chunks : Z) (r : RetrievalResult) :
  (Z.of_nat (length rs) <= max_chunks)%Z ->
  In r rs ->
  In r (deduplicate_by_similarity arrangement ratio rs thr max_chunks)
  \/ exists k, In k (deduplicate_by_similarity arrangement ratio rs thr max_chunks)
               /\ (thr <= ratio (normalized r) (normalized k))%Q.
Proof.
  intros Hlen Hr. unfold deduplicate_by_similarity.
  destruct rs as [|r0 rs]; [contradiction|].
  apply (dedup_loop_complete thr max_chunks (sort_by_score_desc arrangement (r0 :: rs)) []).
  - simpl length at 1. rewrite (Permutation_length (sort_perm arrangement (r0 :: rs))). exact Hlen.
  - apply (Permutation_in _ (Permutation_sym (sort_perm arrangement (r0 :: rs)))). exact Hr.
Qed.

End WithRatio.


Lemma dropped_result_resembles_a_kept_one_witness :
  let r := candidate "a" "x" [1%Z] (dec 5 10) in
  (Z.of_nat (length six_candidates) <= 6)%Z
  /\ In r six_candidates
  /\ (In r (deduplicate_by_similarity as_found same_text_ratio six_candidates (75 # 100) 6)
      \/ exists k, In k (deduplicate_by_similarity as_found same_text_ratio six_candidates
                                                    (75 # 100) 6)
                   /\ (75 # 100 <= same_text_ratio (normalized r) (normalized k))%Q).
Proof.
  cbv zeta. split; [vm_compute; discriminate|]. split; [left; reflexivity|].
  apply (dropped_result_resembles_a_kept_one as_found same_text_ratio six_candidates (75 # 100) 6).
  - vm_compute. discriminate.
  - left. reflexivity.
Defined.

(** ** The page-diversity pass *)

Lemma admissible_by_count (m : Z) (kept before : list RetrievalResult) (r : RetrievalResult) :
  (forall p, Z.of_nat (page_count p kept)
             = Z.min (Z.of_nat (page_count p before)) (Z.max 0 m)) ->
  admissible m kept r = admissible m before r.
Proof.
  intros H. unfold admissible. destruct (page_numbers r) as [|p ps]; [reflexivity|].
  rewrite (H p).
  destruct (Z.ltb_spec (Z.min (Z.of_nat (page_count p before)) (Z.max 0 m)) m);
    destruct (Z.ltb_spec (Z.of_nat (page_count p before)) m); (reflexivity || lia).
Qed.

Lemma diverse_first_per_page (m : Z) (todo : list RetrievalResult) :
  forall kept before,
    (forall p, Z.of_nat (page_count p kept)
               = Z.min (Z.of_nat (page_count p before)) (Z.max 0 m)) ->
    diverse m kept todo = first_per_page m before todo.
Proof.
  induction todo as [|r todo IH]; intros kept before H; [reflexivity|].
  cbn [diverse first_per_page]. rewrite (admissible_by_count m kept before r H).
  unfold admissible at 1 2.
  destruct (page_numbers r) as [|q qs] eqn:Eq.
  - cbn [app]. f_equal. apply IH. intros p.
    rewrite !page_count_app, !page_count_one, Eq, !Nat.add_0_r. apply H.
  - destruct (Z.ltb_spec (Z.of_nat (page_count q before)) m) as [Hlt|Hge].
    + cbn [app]. f_equal. apply IH. intros p.
      rewrite !page_count_app, !page_count_one, Eq.
      destruct (Z.eqb_spec q p) as [->|Hne].
      * specialize (H p). lia.
      * rewrite !Nat.add_0_r. apply H.
    + cbn [app]. apply IH. intros p.
      rewrite page_count_app, page_count_one, Eq.
      destruct (Z.eqb_spec q p) as [->|Hne].
      * specialize (H p). lia.
      * rewrite Nat.add_0_r. apply H.
Qed.

(** X14 (deduplication_utils.py, [filter_by_page_diversity]): which
    results the page-diversity pass keeps.  A result without pages is kept;
    a result with pages is kept exactly when fewer than [max_per_page] of
    the results in front of it have the same primary page.  The pass thus
    returns, in their order, the first [max_per_page] results of every
    primary page. *)
Theorem page_diversity_keeps_first_of_each_page (rs : list RetrievalResult)
    (max_per_page : Z) :
  filter_by_page_diversity rs max_per_page = first_per_page max_per_page [] rs.
Proof.
  rewrite filter_by_page_diversity_diverse.
  apply diverse_first_per_page. intros p.
  change (page_count p []) with 0. lia.
Qed.

Section WithRatioAgain.

Variable arrangement : Arrangement.

Variable ratio : str -> str -> Q.

Lemma smart_deduplicate_length (rs : list RetrievalResult) (thr : Q)
    (max_chunks max_per_page : Z) :
  (Z.of_nat (length (smart_deduplicate arrangement ratio rs thr max_chunks max_per_page))
   <= Z.max 0 max_chunks)%Z.
Proof.
  rewrite smart_deduplicate_unfold.
  set (D := diverse max_per_page []
                    (deduplicate_by_similarity arrangement ratio rs thr (max_chunks * 2))).
  assert (HD : length D <= 1 \/ (0 <= max_chunks)%Z).
  { destruct (Z.le_gt_cases 0 max_chunks) as [H|H]; [right; exact H|]. left.
    destruct (deduplicate_by_similarity_kept arrangement ratio rs thr (max_chunks * 2))
      as (_ & _ & Hl).
    pose proof (sublist_length _ _ (diverse_sublist max_per_page []
                  (deduplicate_by_similarity arrangement ratio rs thr (max_chunks * 2)))) as Hs.
    fold D in Hs. lia. }
  destruct (take_upto_cases D max_chunks HD) as [-> | [Hpos Hlen]]; simpl; lia.
Qed.

(** X15 (deduplication_utils.py, [smart_deduplicate]): the number of
    results is at most [max_chunks]; for a bound of zero or less nothing is
    returned. *)
Theorem smart_deduplicate_respects_bound (rs : list RetrievalResult) (thr : Q)
    (max_chunks max_per_page : Z) :
  (Z.of_nat (length (smart_deduplicate arrangement ratio rs thr max_chunks max_per_page))
   <= Z.max 0 max_chunks)%Z.
Proof. apply smart_deduplicate_length. Qed.

End WithRatioAgain.

End DedupMoreProps.

(* ===================================================================== *)
(** * More on hybrid retrieval *)
(* ===================================================================== *)

Module RetrievalMoreProps.
Import PyStr PyFloat PySorted RetrievalTypes Dedup HybridRetrieval DedupSpec RetrievalSpec.
Import PyStrFacts SortProps DedupProps RetrievalProps DedupMoreProps.

Lemma sublist_map {A B : Type} (f : A -> B) (l1 l2 : list A) :
  sublist l1 l2 -> sublist (map f l1) (map f l2).
Proof. induction 1; simpl; constructor; assumption. Qed.

Lemma sublist_In {A : Type} (l1 l2 : list A) (x : A) : sublist l1 l2 -> In x l1 -> In x l2.
Proof.
  intros Hs Hx. apply list_elem_of_In. eapply elem_of_sublist; [|exact Hs].
  apply list_elem_of_In. exact Hx.
Qed.

(** What one merge loop does: it appends some of the results, in their
    order, none of them seen before, and every result is seen afterwards. *)
Lemma merge_loop_kept (results : list RetrievalResult) :
  forall (seen : list str) (merged : list RetrievalResult),
  exists kept,
    merge_loop results seen merged = (rev (map chunk_id kept) ++ seen, merged ++ kept)
    /\ sublist kept results
    /\ (forall r, In r kept -> ~ In (chunk_id r) seen)
    /\ (forall r, In r results ->
                  In (chunk_id r) seen \/ In (chunk_id r) (map chunk_id kept)).
Proof.
  induction results as [|r results IH]; intros seen merged.
  - exists []. simpl. rewrite app_nil_r. repeat split; [constructor | contradiction..].
  - cbn [merge_loop]. destruct (str_in (chunk_id r) seen) eqn:E; cbn [negb].
    + destruct (IH seen merged) as (kept & Em & Hs & Hnew & Hall).
      exists kept. split; [exact Em|]. split; [apply sublist_cons, Hs|].
      split; [exact Hnew|].
      intros r' [<-|Hr']; [left; apply str_in_In, E | apply Hall, Hr'].
    + destruct (IH (chunk_id r :: seen) (merged ++ [r])) as (kept & Em & Hs & Hnew & Hall).
      exists (r :: kept). split; [|split; [apply sublist_skip, Hs|split]].
      * rewrite Em. cbn [map rev]. rewrite <- !app_assoc. reflexivity.
      * intros r' [<-|Hr'].
        -- intros Hin. apply str_in_In in Hin. congruence.
        -- intros Hin. apply (Hnew r' Hr'). right. exact Hin.
      * intros r' [<-|Hr']; [right; left; reflexivity|].
        destruct (Hall r' Hr') as [[<-|H]|H].
        -- right. left. reflexivity.
        -- left. exact H.
        -- right. right. exact H.
Qed.

(** X16 (hybrid_retrieval.py, [_merge_results]): the merged list holds
    every chunk once and prefers the vector tier.  Its chunk identities are
    pairwise different and are exactly those of the two inputs; its results
    stand in the order of the vector results followed by the keyword
    results; and a keyword result is only taken when no vector result has
    its chunk identity. *)
Theorem merge_keeps_first_of_each_chunk (vector_results keyword_results
    : list RetrievalResult) :
  let merged := _merge_results vector_results keyword_results in
  NoDup (map chunk_id merged)
  /\ sublist merged (vector_results ++ keyword_results)
  /\ (forall id, In id (map chunk_id merged)
                 <-> In id (map chunk_id (vector_results ++ keyword_results)))
  /\ (forall r, In r merged ->
                In r vector_results
                \/ (In r keyword_results
                    /\ ~ In (chunk_id r) (map chunk_id vector_results))).
Proof.
  cbv zeta. split; [apply merge_results_distinct|].
  unfold _merge_results.
  destruct (merge_loop_kept vector_results [] []) as (kv & Ev & Hsv & _ & Hallv).
  rewrite Ev.
  destruct (merge_loop_kept keyword_results (rev (map chunk_id kv) ++ []) ([] ++ kv))
    as (kk & Ek & Hsk & Hnewk & Hallk).
  rewrite Ek. cbn [snd app].
  assert (Hseen : forall id, In id (rev (map chunk_id kv) ++ []) <-> In id (map chunk_id kv)).
  { intros id. rewrite app_nil_r. symmetry. apply in_rev. }
  split; [apply sublist_app; assumption|]. split.
  - intros id. rewrite !map_app, !in_app_iff. split.
    + intros [H|H]; apply in_map_iff in H as (r & <- & Hr).
      * left. apply in_map. eapply sublist_In; eassumption.
      * right. apply in_map. eapply sublist_In; eassumption.
    + intros [H|H]; apply in_map_iff in H as (r & <- & Hr).
      * destruct (Hallv r Hr) as [[]|H]. left. exact H.
      * destruct (Hallk r Hr) as [H|H]; [left; apply Hseen, H | right; exact H].
  - intros r Hr. apply in_app_or in Hr as [Hr|Hr].
    + left. eapply sublist_In; eassumption.
    + right. split; [eapply sublist_In; eassumption|].
      intros Hin. apply (Hnewk r Hr). apply Hseen.
      apply in_map_iff in Hin as (r' & Eid & Hr').
      destruct (Hallv r' Hr') as [[]|H]. rewrite <- Eid. exact H.
Qed.

Section WithRatio.

Variable arrangement : Arrangement.

Variable ratio : str -> str -> Q.

(** X17 (hybrid_retrieval.py, [retrieve] with [_ensure_connection],
    [_vector_search] and [_keyword_search]): the only exceptions that leave
    [retrieve] are those of the connection check and of the vector query.
    A failed embedding and a failing keyword index never make it raise. *)
Theorem retrieve_raises_only_for_connection_or_vector_index
    (be : Backend) (query company_id : str) (top_k : Z)
    (section_filters : option (list str)) (statement_type note_number : option str)
    (dedup : bool) (thr : Q) (e : PyExn) :
  retrieve arrangement ratio be query company_id top_k section_filters statement_type note_number
           dedup thr = Raise e
  <-> (_ensure_connection be = Raise e
       \/ (_ensure_connection be = Ok tt
           /\ er_success (embed_single be query) = true
           /\ vector_execute be (er_embedding (embed_single be query))
                (sql_query company_id (top_k * 3) section_filters statement_type
                           note_number) = Raise e)).
Proof.
  unfold retrieve, _vector_search, _keyword_search, try_except.
  destruct (_ensure_connection be) as [[]|e0]; cbn [bind].
  - destruct (er_success (embed_single be query)); cbn [negb bind].
    + destruct (vector_execute be _ _) as [rows|e1]; cbn [bind].
      * destruct (keyword_execute be _ _); cbn [bind]; destruct dedup;
          (split; [discriminate | intros [H|(_ & _ & H)]; discriminate]).
      * split; [intros [= ->]; right; auto|].
        intros [H|(_ & _ & H)]; [discriminate | injection H as ->; reflexivity].
    + destruct (keyword_execute be _ _); cbn [bind]; destruct dedup;
        (split; [discriminate | intros [H|(_ & H & _)]; discriminate]).
  - split; [intros [= ->]; left; reflexivity|].
    intros [H|(H & _)]; [injection H as ->; reflexivity | discriminate].
Qed.

Lemma rerank_ids (results : list RetrievalResult) (query : str)
    (section_filters : option (list str)) :
  Permutation (map chunk_id (_rerank_by_classification arrangement results query section_filters))
              (map chunk_id results).
Proof.
  unfold _rerank_by_classification.
  etransitivity; [apply Permutation_map, sort_perm|].
  rewrite map_map. erewrite map_ext; [reflexivity|].
  intros r. apply boost_result_fields.
Qed.

Lemma finish_submseteq (vector_results keyword_results : list RetrievalResult) (query : str)
    (top_k : Z) (section_filters : option (list str)) (dedup : bool) (thr : Q) :
  finish arrangement ratio vector_results keyword_results query top_k section_filters dedup thr
  ⊆+ _rerank_by_classification arrangement (_merge_results vector_results keyword_results)
                               query section_filters.
Proof.
  unfold finish.
  set (reranked := _rerank_by_classification arrangement _ _ _).
  destruct dedup.
  - apply smart_deduplicate_selection.
  - destruct (take_upto_prefix reranked top_k) as (k & ->).
    apply sublist_submseteq, sublist_take.
Qed.

(** When no boosted score is NaN, the rerank stage leaves the results in
    descending order, the sort of the similarity pass changes nothing and
    what [retrieve] returns is in descending order. *)
Lemma finish_sorted (vector_results keyword_results : list RetrievalResult) (query : str)
    (top_k : Z) (section_filters : option (list str)) (dedup : bool) (thr : Q) :
  no_nan (boosted query section_filters (_merge_results vector_results keyword_results)) ->
  StronglySorted ge_score
    (finish arrangement ratio vector_results keyword_results query top_k section_filters
            dedup thr).
Proof.
  intros Hn. unfold finish.
  set (reranked := _rerank_by_classification arrangement _ _ _).
  assert (Hsorted : StronglySorted ge_score reranked) by (apply sort_sorted, Hn).
  assert (Hnr : no_nan reranked).
  { eapply no_nan_perm; [symmetry; apply sort_perm | exact Hn]. }
  destruct dedup.
  - apply smart_deduplicate_selection, Hnr.
  - destruct (take_upto_prefix reranked top_k) as (k & ->).
    eapply sorted_sublist; [apply sublist_take | exact Hsorted].
Qed.

Lemma retrieve_finish (be : Backend) (query company_id : str) (top_k : Z)
    (section_filters : option (list str)) (statement_type note_number : option str)
    (dedup : bool) (thr : Q) (out : list RetrievalResult) :
  retrieve arrangement ratio be query company_id top_k section_filters statement_type
           note_number dedup thr = Ok out ->
  exists vector_results keyword_results,
    _vector_search be query company_id (top_k * 3) section_filters statement_type
                   note_number = Ok vector_results
    /\ _keyword_search be query company_id (top_k * 2) section_filters statement_type
                       note_number = Ok keyword_results
    /\ out = finish arrangement ratio vector_results keyword_results query top_k
                    section_filters dedup thr.
Proof.
  unfold retrieve, finish.
  destruct (_ensure_connection be) as [u|]; cbn [bind]; [|discriminate].
  destruct (_vector_search be _ _ _ _ _ _) as [vs|]; cbn [bind]; [|discriminate].
  destruct (_keyword_search be _ _ _ _ _ _) as [ks|]; cbn [bind]; [|discriminate].
  intros H. exists vs, ks. split; [reflexivity|]. split; [reflexivity|].
  destruct dedup; injection H as <-; reflexivity.
Qed.

Lemma submseteq_NoDup {A : Type} (l1 l2 : list A) : l1 ⊆+ l2 -> NoDup l2 -> NoDup l1.
Proof.
  intros H Hnd. apply submseteq_sublist_l in H as (l & Hs & Hp).
  eapply sublist_NoDup; [|exact Hs]. rewrite Hp. exact Hnd.
Qed.

Lemma retrieve_ranked
    (be : Backend) (query company_id : str) (top_k : Z)
    (section_filters : option (list str)) (statement_type note_number : option str)
    (dedup : bool) (thr : Q) (out : list RetrievalResult) :
  retrieve arrangement ratio be query company_id top_k section_filters statement_type
           note_number dedup thr = Ok out ->
  (no_nan (boosted query section_filters
                   (found be query company_id top_k section_filters statement_type
                          note_number)) ->
   StronglySorted ge_score out)
  /\ NoDup (map chunk_id out)
  /\ ((0 <= top_k)%Z -> (Z.of_nat (length out) <= top_k)%Z)
  /\ (dedup = true ->
      (Z.of_nat (length out) <= Z.max 0 top_k)%Z
      /\ forall p, page_count p out <= 2).
Proof.
  intros H. apply retrieve_finish in H as (vs & ks & Ev & Ek & ->).
  unfold found. rewrite Ev, Ek.
  pose proof (finish_submseteq vs ks query top_k section_filters dedup thr) as Hsub.
  split; [|split; [|split]].
  - apply finish_sorted.
  - eapply submseteq_NoDup; [apply fmap_submseteq, Hsub|].
    change (NoDup (map chunk_id (_rerank_by_classification arrangement (_merge_results vs ks)
                                   query section_filters))).
    rewrite rerank_ids. apply merge_results_distinct.
  - intros Hk. unfold finish. destruct dedup.
    + pose proof (smart_deduplicate_length arrangement ratio
                    (_rerank_by_classification arrangement (_merge_results vs ks) query
                                               section_filters)
                    thr top_k 2). lia.
    + unfold take_upto. destruct (Z.leb_spec 0 top_k); [|lia].
      rewrite length_firstn. lia.
  - intros ->. unfold finish. split.
    + apply smart_deduplicate_length.
    + intros p. rewrite smart_deduplicate_unfold.
      match goal with
      | |- context [take_upto ?D top_k] =>
          destruct (take_upto_prefix D top_k) as (k & ->);
          pose proof (page_count_sublist p _ _ (sublist_take D k)) as H1
      end.
      match type of H1 with
      | _ <= page_count p (diverse ?m [] ?l) =>
          pose proof (diverse_cap m [] l p) as H2
      end.
      simpl in H2. change (page_count p []) with 0 in H2. lia.
Qed.

(** X18 (hybrid_retrieval.py, [retrieve]): what a caller can rely on when
    [retrieve] returns.  No chunk occurs twice.  For a non-negative [top_k]
    there are at most [top_k] results.  With deduplication switched on
    there are never more than [top_k] results, and at most two of them
    share a primary page.  When none of the scores that the two tiers
    found is NaN after the boost of the rerank stage, the results are
    ordered by descending score. *)
Theorem retrieve_returns_ranked_distinct_chunks
    (be : Backend) (query company_id : str) (top_k : Z)
    (section_filters : option (list str)) (statement_type note_number : option str)
    (dedup : bool) (thr : Q) (out : list RetrievalResult) :
  retrieve arrangement ratio be query company_id top_k section_filters statement_type
           note_number dedup thr = Ok out ->
  (no_nan (boosted query section_filters
                   (found be query company_id top_k section_filters statement_type
                          note_number)) ->
   StronglySorted ge_score out)
  /\ NoDup (map chunk_id out)
  /\ ((0 <= top_k)%Z -> (Z.of_nat (length out) <= top_k)%Z)
  /\ (dedup = true ->
      (Z.of_nat (length out) <= Z.max 0 top_k)%Z
      /\ forall p, page_count p out <= 2).
Proof. apply retrieve_ranked. Qed.

End WithRatio.

Lemma retrieve_returns_ranked_distinct_chunks_witness :
  retrieve as_found (fun _ _ => 0%Q) embedding_down (lit "revenue") (lit "acme") 5 None None
           None true (75 # 100)
  = Ok (map (result_of_row keyword) keyword_rows)
  /\ no_nan (boosted (lit "revenue") None
                     (found embedding_down (lit "revenue") (lit "acme") 5 None None None))
  /\ StronglySorted ge_score (map (result_of_row keyword) keyword_rows)
  /\ NoDup (map chunk_id (map (result_of_row keyword) keyword_rows)).
Proof.
  assert (Hn : no_nan (boosted (lit "revenue") None
                         (found embedding_down (lit "revenue") (lit "acme") 5 None None None)))
    by (vm_compute; repeat constructor).
  split; [vm_compute; reflexivity|]. split; [exact Hn|].
  destruct (retrieve_returns_ranked_distinct_chunks as_found (fun _ _ => 0%Q) embedding_down
              (lit "revenue") (lit "acme") 5 None None None true (75 # 100)
              (map (result_of_row keyword) keyword_rows)) as (Hs & Hd & _).
  - vm_compute. reflexivity.
  - split; [exact (Hs Hn) | exact Hd].
Defined.

End RetrievalMoreProps.

(* ===================================================================== *)
(** * The embedding pipeline *)
(* ===================================================================== *)

Module EmbeddingProps.
Import PyStr HybridRetrieval EmbeddingPipeline EmbeddingSpec.

Lemma retry_loop_first_success (self : t) (replies : nat -> Reply) (text0 : str)
    (embedding : list Q) :
  forall (gap todo attempt : nat),
    gap < todo ->
    (Z.of_nat (attempt + todo) <= max_retries self)%Z ->
    attempt_result (replies (attempt + gap)) = inl embedding ->
    (forall j, attempt <= j < attempt + gap -> exists err, attempt_result (replies j) = inr err) ->
    retry_loop self replies text0 todo attempt
    = mkEmbeddingResult text0 embedding true None.
Proof.
  induction gap as [|gap IH]; intros todo attempt Hgap Hmax Hok Hfail.
  - destruct todo as [|todo]; [lia|]. cbn [retry_loop].
    rewrite Nat.add_0_r in Hok. rewrite Hok. reflexivity.
  - destruct todo as [|todo]; [lia|]. cbn [retry_loop].
    destruct (Hfail attempt ltac:(lia)) as (err & ->).
    destruct (Z.ltb_spec (Z.of_nat attempt) (max_retries self - 1)); [|lia].
    apply IH.
    + lia.
    + lia.
    + replace (S attempt + gap) with (attempt + S gap) by lia. exact Hok.
    + intros j Hj. apply Hfail. lia.
Qed.

(** X19 (embedding_pipeline.py, [embed_single]): the retry loop returns
    the embedding of the first attempt that succeeds.  When attempt number
    [n], with [n] below [max_retries], is answered with status 200 and a
    readable embedding, and every attempt before it fails, the result is
    successful, carries that embedding and the text, and has no error. *)
Theorem embed_single_returns_first_success (self : t) (replies : nat -> Reply)
    (text0 : str) (n : nat) (embedding : list Q) :
  (Z.of_nat n < max_retries self)%Z ->
  attempt_result (replies n) = inl embedding ->
  (forall j, j < n -> exists err, attempt_result (replies j) = inr err) ->
  embed_single self replies text0 = mkEmbeddingResult text0 embedding true None.
Proof.
  intros Hn Hok Hfail. unfold embed_single.
  apply (retry_loop_first_success self replies text0 embedding n).
  - lia.
  - lia.
  - exact Hok.
  - intros j Hj. apply Hfail. lia.
Qed.

Lemma embed_single_returns_first_success_witness :
  (Z.of_nat 2 < max_retries (mkPipeline 32 3))%Z
  /\ attempt_result (third_time_lucky 2) = inl [1%Q; 2%Q]
  /\ (forall j, j < 2 -> exists err, attempt_result (third_time_lucky j) = inr err)
  /\ embed_single (mkPipeline 32 3) third_time_lucky (lit "text")
     = mkEmbeddingResult (lit "text") [1%Q; 2%Q] true None.
Proof.
  assert (Hfail : forall j, j < 2 -> exists err, attempt_result (third_time_lucky j) = inr err).
  { intros [|[|j]] Hj; [eexists; reflexivity | eexists; reflexivity | lia]. }
  split; [reflexivity|]. split; [reflexivity|]. split; [exact Hfail|].
  apply (embed_single_returns_first_success (mkPipeline 32 3) third_time_lucky (lit "text")
           2 [1%Q; 2%Q]); [reflexivity | reflexivity | exact Hfail].
Defined.

Lemma retry_loop_exhausted (self : t) (replies : nat -> Reply) (text0 : str) :
  forall (todo attempt : nat),
    0 < todo ->
    Z.of_nat (attempt + todo) = max_retries self ->
    (forall j, attempt <= j < attempt + todo ->
               exists err, attempt_result (replies j) = inr err) ->
    exists err,
      attempt_result (replies (attempt + todo - 1)) = inr err
      /\ retry_loop self replies text0 todo attempt
         = mkEmbeddingResult text0 [] false (Some err).
Proof.
  induction todo as [|todo IH]; intros attempt Htodo Hmax Hfail; [lia|].
  cbn [retry_loop]. destruct (Hfail attempt ltac:(lia)) as (err & Herr). rewrite Herr.
  destruct (Z.ltb_spec (Z.of_nat attempt) (max_retries self - 1)) as [Hlt|Hge].
  - destruct (IH (S attempt)) as (err' & Herr' & E).
    + lia.
    + lia.
    + intros j Hj. apply Hfail. lia.
    + exists err'. split; [|exact E].
      replace (attempt + S todo - 1) with (S attempt + todo - 1) by lia. exact Herr'.
  - exists err. split; [|reflexivity].
    replace (attempt + S todo - 1) with attempt by lia. exact Herr.
Qed.

(** X20 (embedding_pipeline.py, [embed_single]): what the retry loop
    reports when no attempt succeeds.  The result is a failure without
    embedding.  With a positive [max_retries] its error is that of the last
    attempt, number [max_retries - 1]; the errors of the earlier attempts
    are lost.  With [max_retries] zero or less no attempt is made and the
    error is the text about exceeded retries. *)
Theorem embed_single_reports_last_error (self : t) (replies : nat -> Reply) (text0 : str) :
  (forall j, (Z.of_nat j < max_retries self)%Z ->
             exists err, attempt_result (replies j) = inr err) ->
  exists err,
    embed_single self replies text0 = mkEmbeddingResult text0 [] false (Some err)
    /\ (((max_retries self <= 0)%Z /\ err = MaxRetriesExceeded)
        \/ ((0 < max_retries self)%Z
            /\ attempt_result (replies (Z.to_nat (max_retries self - 1))) = inr err)).
Proof.
  intros Hfail. unfold embed_single.
  destruct (Z.to_nat (max_retries self)) as [|m] eqn:Em.
  - exists MaxRetriesExceeded. split; [reflexivity|]. left. split; [lia | reflexivity].
  - destruct (retry_loop_exhausted self replies text0 (S m) 0) as (err & Herr & E).
    + lia.
    + lia.
    + intros j Hj. apply Hfail. lia.
    + exists err. split; [exact E|]. right. split; [lia|].
      replace (Z.to_nat (max_retries self - 1)) with (0 + S m - 1) by lia. exact Herr.
Qed.

Lemma embed_single_reports_last_error_witness :
  (forall j, (Z.of_nat j < max_retries (mkPipeline 32 3))%Z ->
             exists err, attempt_result (always_timeout j) = inr err)
  /\ exists err,
       embed_single (mkPipeline 32 3) always_timeout (lit "text")
       = mkEmbeddingResult (lit "text") [] false (Some err)
       /\ (((max_retries (mkPipeline 32 3) <= 0)%Z /\ err = MaxRetriesExceeded)
           \/ ((0 < max_retries (mkPipeline 32 3))%Z
               /\ attempt_result (always_timeout (Z.to_nat (max_retries (mkPipeline 32 3) - 1)))
                  = inr err)).
Proof.
  assert (Hfail : forall j, (Z.of_nat j < max_retries (mkPipeline 32 3))%Z ->
                            exists err, attempt_result (always_timeout j) = inr err).
  { intros j _. eexists. reflexivity. }
  split; [exact Hfail|].
  apply (embed_single_reports_last_error (mkPipeline 32 3) always_timeout (lit "text") Hfail).
Defined.

(** ** Batches *)

Lemma embed_batch_length (self : t) (service : nat -> nat -> Reply) (texts : list str) :
  forall calls, length (embed_batch self service calls texts) = length texts.
Proof. induction texts as [|x texts IH]; intros calls; simpl; [|rewrite IH]; reflexivity. Qed.

Lemma embed_batch_app (self : t) (service : nat -> nat -> Reply) (texts1 texts2 : list str) :
  forall calls,
    embed_batch self service calls (texts1 ++ texts2)
    = embed_batch self service calls texts1
      ++ embed_batch self service (calls + length texts1) texts2.
Proof.
  induction texts1 as [|x texts1 IH]; intros calls; simpl.
  - rewrite Nat.add_0_r. reflexivity.
  - rewrite IH. replace (calls + S (length texts1)) with (S calls + length texts1) by lia.
    reflexivity.
Qed.

Lemma combine_app_same {A B : Type} (a1 a2 : list A) (b1 b2 : list B) :
  length a1 = length b1 ->
  combine (a1 ++ a2) (b1 ++ b2) = combine a1 b1 ++ combine a2 b2.
Proof.
  revert b1. induction a1 as [|x a1 IH]; intros [|y b1] H; simpl in *;
    [reflexivity | discriminate | discriminate |].
  rewrite IH by lia. reflexivity.
Qed.

Lemma sort_out_app (pairs1 pairs2 : list (ChunkDict * EmbeddingResult)) :
  forall successful failed,
    sort_out (pairs1 ++ pairs2) successful failed
    = sort_out pairs2 (fst (sort_out pairs1 successful failed))
                      (snd (sort_out pairs1 successful failed)).
Proof.
  induction pairs1 as [|[chunk result] pairs1 IH]; intros successful failed; simpl;
    [reflexivity|].
  destruct (er_success result); apply IH.
Qed.

Lemma batch_loop_all (self : t) (service : nat -> nat -> Reply) (chunks : list ChunkDict)
    (step : nat) :
  0 < step ->
  forall (todo i calls : nat) (successful failed : list ChunkDict),
    length chunks - i <= todo ->
    (i < length chunks -> calls = i) ->
    batch_loop self service chunks step todo i calls successful failed
    = sort_out (combine (skipn i chunks)
                        (embed_batch self service i (map cd_chunk_text (skipn i chunks))))
               successful failed.
Proof.
  intros Hstep. induction todo as [|todo IH]; intros i calls successful failed Hfuel Hcalls.
  - cbn [batch_loop]. rewrite skipn_all2 by lia. reflexivity.
  - cbn [batch_loop]. destruct (Nat.ltb_spec i (length chunks)) as [Hi|Hi].
    + rewrite (Hcalls Hi).
      set (rest := skipn i chunks).
      assert (Hrest : rest = firstn step rest ++ skipn step rest)
        by (symmetry; apply firstn_skipn).
      assert (Hnext : skipn (i + step) chunks = skipn step rest)
        by (unfold rest; rewrite drop_drop; reflexivity).
      rewrite Hrest at 3 4. rewrite map_app, embed_batch_app.
      rewrite combine_app_same by (rewrite embed_batch_length, length_map; reflexivity).
      rewrite sort_out_app.
      destruct (sort_out (combine (firstn step rest)
                                  (embed_batch self service i
                                               (map cd_chunk_text (firstn step rest))))
                         successful failed) as [successful' failed'] eqn:Es.
      cbn [fst snd]. rewrite !length_map.
      destruct (Nat.ltb_spec (i + step) (length chunks)) as [Hmore|Hdone].
      * assert (Hlen : length (firstn step rest) = step).
        { rewrite length_firstn. unfold rest. rewrite length_skipn. lia. }
        rewrite Hlen, <- Hnext. apply IH; [lia | reflexivity].
      * rewrite <- Hnext. rewrite (skipn_all2 chunks) by lia.
        destruct todo as [|todo']; cbn [batch_loop].
        -- reflexivity.
        -- destruct (Nat.ltb_spec (i + step) (length chunks)); [lia | reflexivity].
    + rewrite skipn_all2 by lia. reflexivity.
Qed.

(** X21 (embedding_pipeline.py, [embed_chunks] with [embed_batch]):
    batching does not show in the result.  For every positive [batch_size]
    the two lists returned are those of a single pass over all chunks: each
    chunk is embedded once, in order, and lands in exactly one of the two
    lists.  A [batch_size] of zero raises, and a negative one returns two
    empty lists without embedding anything. *)
Theorem embed_chunks_ignores_batching (self : t) (service : nat -> nat -> Reply)
    (chunks : list ChunkDict) :
  ((0 < batch_size self)%Z ->
   embed_chunks self service chunks
   = Ok (sort_out (combine chunks
                           (embed_batch self service 0 (map cd_chunk_text chunks))) [] []))
  /\ (batch_size self = 0%Z -> exists e, embed_chunks self service chunks = Raise e)
  /\ ((batch_size self < 0)%Z -> embed_chunks self service chunks = Ok ([], [])).
Proof.
  unfold embed_chunks. split; [|split].
  - intros Hb. destruct (Z.eqb_spec (batch_size self) 0); [lia|].
    destruct (Z.ltb_spec (batch_size self) 0); [lia|]. f_equal.
    apply (batch_loop_all self service chunks (Z.to_nat (batch_size self)));
      [lia | simpl; lia | reflexivity].
  - intros ->. eexists. reflexivity.
  - intros Hb. destruct (Z.eqb_spec (batch_size self) 0); [lia|].
    destruct (Z.ltb_spec (batch_size self) 0); [reflexivity | lia].
Qed.

Lemma sort_out_lengths (pairs : list (ChunkDict * EmbeddingResult)) :
  forall successful failed,
    length (fst (sort_out pairs successful failed))
    + length (snd (sort_out pairs successful failed))
    = length successful + length failed + length pairs.
Proof.
  induction pairs as [|[chunk result] pairs IH]; intros successful failed; simpl; [lia|].
  destruct (er_success result); rewrite IH, length_app; simpl; lia.
Qed.

Lemma embed_chunks_ignores_batching_witness :
  (0 < batch_size (mkPipeline 2 3))%Z
  /\ embed_chunks (mkPipeline 2 3) second_call_fails three_chunks
     = Ok (sort_out (combine three_chunks
                             (embed_batch (mkPipeline 2 3) second_call_fails 0
                                          (map cd_chunk_text three_chunks))) [] [])
  /\ embed_chunks (mkPipeline 2 3) second_call_fails three_chunks
     = Ok ([ mkChunkDict (lit "c0") (lit "alpha") (Some [0%Q]) None;
             mkChunkDict (lit "c2") (lit "gamma") (Some [inject_Z 2]) None ],
           [ mkChunkDict (lit "c1") (lit "beta") None
                         (Some (Some (ExceptionText (lit "boom")))) ]).
Proof.
  split; [reflexivity|]. split; [|vm_compute; reflexivity].
  apply (proj1 (embed_chunks_ignores_batching (mkPipeline 2 3) second_call_fails
                  three_chunks)).
  reflexivity.
Defined.

End EmbeddingProps.

(* ===================================================================== *)
(** * The confidence of a classification *)
(* ===================================================================== *)

Module ConfidenceProps.
Import PyStr ClassifierConfidence.

Lemma min_q_le (a b : Q) : (min_q a b <= a)%Q /\ (min_q a b <= b)%Q.
Proof.
  unfold min_q. destruct (Qle_bool a b) eqn:E.
  - apply Qle_bool_iff in E. split; [apply Qle_refl | exact E].
  - assert (~ (a <= b)%Q) by (intros H; apply Qle_bool_iff in H; congruence).
    split; [lra | apply Qle_refl].
Qed.

Lemma min_q_ge (a b c : Q) : (c <= a)%Q -> (c <= b)%Q -> (c <= min_q a b)%Q.
Proof. intros Ha Hb. unfold min_q. destruct (Qle_bool a b); assumption. Qed.

Lemma min_q_mono (a a' b : Q) : (a <= a')%Q -> (min_q a b <= min_q a' b)%Q.
Proof.
  intros H. destruct (min_q_le a b) as [H1 H2]. apply min_q_ge; lra.
Qed.

Lemma sections_boost (n : nat) :
  (0 <= min_q (inject_Z (Z.of_nat n) * (1 # 10)) (3 # 10))%Q.
Proof.
  apply min_q_ge; [|lra].
  assert (0 <= inject_Z (Z.of_nat n))%Q by (unfold Qle; simpl; lia). lra.
Qed.

(** X22 (universal_classifier.py, [_calculate_confidence]): the confidence
    of a classification lies between 0.5 and 1.0.  Knowing the section
    context never lowers it, and neither does a detected note number. *)
Theorem confidence_is_bounded_and_monotone (section_types : list str)
    (note_number statement_type : option str) (has_section_context : bool) :
  (5 # 10 <= _calculate_confidence section_types note_number statement_type
                                   has_section_context <= 1)%Q
  /\ (_calculate_confidence section_types note_number statement_type false
      <= _calculate_confidence section_types note_number statement_type true)%Q
  /\ (_calculate_confidence section_types None statement_type has_section_context
      <= _calculate_confidence section_types note_number statement_type
                               has_section_context)%Q.
Proof.
  unfold _calculate_confidence.
  pose proof (sections_boost (length section_types)) as Hs.
  pose proof (min_q_le (inject_Z (Z.of_nat (length section_types)) * (1 # 10)) (3 # 10))
    as [_ Hs'].
  set (boost := min_q (inject_Z (Z.of_nat (length section_types)) * (1 # 10)) (3 # 10)) in *.
  split; [split|split].
  - apply min_q_ge; [|lra].
    destruct section_types, (truthy note_number), (truthy statement_type),
      has_section_context; lra.
  - apply min_q_le.
  - apply min_q_mono.
    destruct section_types, (truthy note_number), (truthy statement_type); lra.
  - apply min_q_mono. cbn [truthy].
    destruct section_types, (truthy note_number), (truthy statement_type),
      has_section_context; lra.
Qed.

Example confidence_values :
  (_calculate_confidence [] None None false == 5 # 10)%Q
  /\ (_calculate_confidence [lit "fair_value"] (Some (lit "Note 12")) None false
      == 75 # 100)%Q
  /\ (_calculate_confidence [lit "fair_value"; lit "notes"] (Some (lit "Note 12"))
                            (Some (lit "consolidated")) true == 1)%Q.
Proof. vm_compute. repeat split. Qed.

End ConfidenceProps.

(* ===================================================================== *)
(** * What a match is made of *)
(* ===================================================================== *)

Module ReLangFacts.
Import PyStr Re ReSpec ReLangSpec PyStrFacts ReFacts.

Section Sound.

Variables (G : nat -> str -> Prop) (s : str).

Lemma moves_at (L : str -> Prop) (M : nat -> Prop) (c c' : cursor) :
  cursor_at s c -> moves G s L M c c' -> cursor_at s c'.
Proof.
  intros [Hr Hp] (p & new & Hrest & Hpos & _).
  assert (Hlen : length (rest c) = length s - pos c) by (rewrite Hr; apply length_skipn).
  assert (Hl : length (rest c) = length p + length (rest c'))
    by (rewrite Hrest; apply length_app).
  split; [|lia].
  rewrite Hpos.
  replace (skipn (pos c + length p) s) with (skipn (length p) (skipn (pos c) s))
    by (rewrite drop_drop; reflexivity).
  rewrite <- Hr, Hrest, drop_app_length. reflexivity.
Qed.

Lemma moves_slice (L : str -> Prop) (M : nat -> Prop) (c c' : cursor) :
  cursor_at s c -> moves G s L M c c' -> L (slice s (pos c) (pos c')).
Proof.
  intros [Hr _] (p & new & Hrest & Hpos & _ & HL & _).
  unfold slice. rewrite <- Hr, Hrest, Hpos.
  replace (pos c + length p - pos c) with (length p) by lia.
  rewrite take_app_length. exact HL.
Qed.

Lemma moves_refl (L : str -> Prop) (c : cursor) :
  L [] -> moves G s L (fun _ => False) c c.
Proof.
  intros HL. exists [], []. cbn.
  split; [reflexivity|]. split; [lia|]. split; [reflexivity|]. split; [exact HL|].
  split; [constructor | contradiction].
Qed.

Lemma moves_weaken (L L' : str -> Prop) (M M' : nat -> Prop) (c c' : cursor) :
  (forall p, L p -> L' p) -> (forall n, M' n -> M n) ->
  moves G s L M c c' -> moves G s L' M' c c'.
Proof.
  intros HL HM (p & new & H1 & H2 & H3 & H4 & H5 & H6).
  exists p, new. repeat split; auto.
Qed.

Lemma moves_trans (L1 L2 : str -> Prop) (M1 M2 : nat -> Prop) (c1 c2 c3 : cursor) :
  moves G s L1 M1 c1 c2 -> moves G s L2 M2 c2 c3 ->
  moves G s (fun p => exists p1 p2, p = p1 ++ p2 /\ L1 p1 /\ L2 p2)
        (fun n => M1 n \/ M2 n) c1 c3.
Proof.
  intros (p1 & n1 & Hr1 & Hp1 & Hc1 & Hl1 & Hs1 & Hm1)
         (p2 & n2 & Hr2 & Hp2 & Hc2 & Hl2 & Hs2 & Hm2).
  exists (p1 ++ p2), (n2 ++ n1). split; [|split; [|split; [|split; [|split]]]].
  - rewrite Hr1, Hr2, app_assoc. reflexivity.
  - rewrite Hp2, Hp1, length_app. lia.
  - rewrite Hc2, Hc1, app_assoc. reflexivity.
  - exists p1, p2. auto.
  - apply Forall_app. split; assumption.
  - intros n [H|H]; rewrite map_app; apply in_or_app; [right; auto | left; auto].
Qed.

(** The repetition loop of [Star], for any matcher [body] whose moves are
    over texts of [L]. *)
Lemma star_loop_moves (L : str -> Prop)
    (body : cursor -> (cursor -> option cursor) -> option cursor)
    (k : cursor -> option cursor) :
  (forall c k' res, cursor_at s c -> body c k' = Some res ->
     exists c', moves G s L (fun _ => False) c c' /\ k' c' = Some res) ->
  forall (fuel : nat) (c res : cursor),
    cursor_at s c ->
    (fix loop (fuel : nat) (c : cursor) {struct fuel} : option cursor :=
       match fuel with
       | O => k c
       | S fuel' =>
           match body c (fun c' => if pos c <? pos c' then loop fuel' c' else None) with
           | Some res => Some res
           | None => k c
           end
       end) fuel c = Some res ->
    exists c', moves G s (fun p => exists ps, p = concat ps /\ Forall L ps)
                     (fun _ => False) c c'
               /\ k c' = Some res.
Proof.
  intros Hbody.
  assert (Hstop : forall c, moves G s (fun p => exists ps, p = concat ps /\ Forall L ps)
                                  (fun _ => False) c c).
  { intros c. apply moves_refl. exists []. split; [reflexivity | constructor]. }
  induction fuel as [|fuel IHf]; intros c res Hat.
  - intros H. exists c. split; [apply Hstop | exact H].
  - match goal with
    | |- context [body c ?k'] => destruct (body c k') eqn:E
    end.
    + intros [= <-]. apply Hbody in E as (c1 & M1 & E); [|exact Hat].
      destruct (pos c <? pos c1); [|discriminate].
      apply IHf in E as (c2 & M2 & E); [|eapply moves_at; eauto].
      exists c2. split; [|exact E].
      eapply moves_weaken; [| |exact (moves_trans _ _ _ _ _ _ _ M1 M2)].
      * intros p (p1 & p2 & -> & H1 & ps & -> & Hps).
        exists (p1 :: ps). split; [reflexivity | constructor; assumption].
      * intros n [].
    + intros H. exists c. split; [apply Hstop | exact H].
Qed.

(** A successful run moves over a text of the pattern's language and
    captures groups that satisfy [G]. *)
Lemma run_moves (r : regex) :
  groups_sound G r ->
  forall (c : cursor) (k : cursor -> option cursor) (res : cursor),
    cursor_at s c -> run r c k = Some res ->
    exists c', moves G s (lang r) (fun n => mandatory n r) c c' /\ k c' = Some res.
Proof.
  induction r as [ | q | a IHa b IHb | a IHa b IHb | a IHa | n a IHa | ml | ml | a IHa | q | ];
    intros Hg c k res Hat; cbn [run].
  - intros H. exists c. split; [apply moves_refl; reflexivity | exact H].
  - destruct (rest c) as [|x xs] eqn:Hr; [discriminate|].
    destruct (q x) eqn:Hq; [|discriminate]. intros H.
    eexists. split; [|exact H].
    exists [x], []. cbn.
    split; [exact Hr|]. split; [lia|]. split; [reflexivity|]. split; [eauto|].
    split; [constructor | contradiction].
  - destruct Hg as [Hga Hgb].
    intros H. apply (IHa Hga) in H as (c1 & M1 & H); [|exact Hat].
    apply (IHb Hgb) in H as (c2 & M2 & H); [|eapply moves_at; eauto].
    exists c2. split; [|exact H]. exact (moves_trans _ _ _ _ _ _ _ M1 M2).
  - destruct Hg as [Hga Hgb]. destruct (run a c k) eqn:E.
    + intros [= <-]. apply (IHa Hga) in E as (c1 & M1 & E); [|exact Hat].
      exists c1. split; [|exact E].
      eapply moves_weaken; [| |exact M1]; cbn; [auto | intros n' [H _]; exact H].
    + intros H. apply (IHb Hgb) in H as (c1 & M1 & H); [|exact Hat].
      exists c1. split; [|exact H].
      eapply moves_weaken; [| |exact M1]; cbn; [auto | intros n' [_ H']; exact H'].
  - intros H.
    assert (Hbody : forall c0 k' res0, cursor_at s c0 -> run a c0 k' = Some res0 ->
              exists c', moves G s (lang a) (fun _ => False) c0 c' /\ k' c' = Some res0).
    { intros c0 k' res0 Hat0 H0.
      apply (IHa Hg) in H0 as (c1 & M1 & H0); [|exact Hat0].
      exists c1. split; [|exact H0].
      eapply moves_weaken; [| |exact M1]; [auto | intros n' []]. }
    destruct (star_loop_moves (lang a) (run a) k Hbody (S (length (rest c))) c res Hat H)
      as (c1 & M1 & H1).
    exists c1. split; [exact M1 | exact H1].
  - destruct Hg as [Hgn Hga].
    intros H. apply (IHa Hga) in H as (c1 & M1 & H); [|exact Hat].
    eexists. split; [|exact H].
    pose proof (moves_slice _ _ _ _ Hat M1) as Hslice.
    destruct M1 as (p & new & Hr & Hp & Hc & Hl & Hs & Hm).
    exists p, ((n, (pos c, pos c1)) :: new). cbn.
    split; [exact Hr|]. split; [exact Hp|]. split; [rewrite Hc; reflexivity|].
    split; [exact Hl|]. split.
    + constructor; [|exact Hs]. cbn. apply Hgn, Hslice.
    + intros n' [->|H']; [left; reflexivity | right; apply Hm, H'].
  - destruct (at_bol ml c); [|discriminate].
    intros H. exists c. split; [apply moves_refl; reflexivity | exact H].
  - destruct (at_eol ml c); [|discriminate].
    intros H. exists c. split; [apply moves_refl; reflexivity | exact H].
  - destruct (run a c Some); [|discriminate].
    intros H. exists c. split; [apply moves_refl; reflexivity | exact H].
  - destruct (prev c) as [x|]; [|discriminate]. destruct (q x); [|discriminate].
    intros H. exists c. split; [apply moves_refl; reflexivity | exact H].
  - destruct (xorb _ _); [|discriminate].
    intros H. exists c. split; [apply moves_refl; reflexivity | exact H].
Qed.

Lemma match_at_sound (r : regex) (c : cursor) (m : rmatch) :
  groups_sound G r -> cursor_at s c -> match_at r c = Some m -> match_sound G s r m.
Proof.
  intros Hg Hat Hm.
  destruct (match_at_ok r s c m Hat Hm) as [Hok Hstart].
  unfold match_at in Hm.
  destruct (run r _ Some) as [c'|] eqn:E; [|discriminate]. injection Hm as <-.
  assert (Hat0 : cursor_at s (mkCursor (pos c) (prev c) (rest c) [])) by exact Hat.
  apply (run_moves r Hg) in E as (c1 & M1 & [= ->]); [|exact Hat0].
  pose proof (moves_slice _ _ _ _ Hat0 M1) as Hslice.
  destruct M1 as (p & new & _ & _ & Hc & _ & Hs & Hmand).
  cbn in Hc. rewrite app_nil_r in Hc.
  split; [exact Hok|]. cbn. split; [exact Hslice|]. rewrite Hc. split; assumption.
Qed.

Lemma search_from_sound (r : regex) (fuel : nat) (c : cursor) (m : rmatch) (c0 : cursor) :
  groups_sound G r -> cursor_at s c -> search_from r fuel c = Some (m, c0) ->
  match_sound G s r m.
Proof.
  intros Hg. revert c. induction fuel as [|fuel IH]; intros c Hat; simpl.
  - destruct (match_at r c) eqn:E; [|discriminate].
    intros [= <- <-]. eapply match_at_sound; eauto.
  - destruct (match_at r c) eqn:E.
    + intros [= <- <-]. eapply match_at_sound; eauto.
    + destruct (advance c) as [c'|] eqn:A; [|discriminate].
      apply IH. eapply advance_at; eauto.
Qed.

Lemma finditer_from_sound (r : regex) (fuel : nat) (c : cursor) :
  groups_sound G r -> cursor_at s c ->
  Forall (match_sound G s r) (finditer_from r fuel c).
Proof.
  intros Hg. revert c. induction fuel as [|fuel IH]; intros c Hat; simpl; [constructor|].
  destruct (search_from r (length (rest c)) c) as [[m c0]|] eqn:S; [|constructor].
  pose proof (search_from_sound r _ c m c0 Hg Hat S) as Hm.
  apply (search_from_ok r s) in S as [Hat0 _]; [|exact Hat].
  constructor; [exact Hm|].
  destruct (advance c0) as [c1|] eqn:A; [|constructor].
  apply IH. apply advance_to_at. eapply advance_at; eauto.
Qed.

Lemma finditer_sound (r : regex) :
  groups_sound G r -> Forall (match_sound G s r) (finditer r s).
Proof. intros Hg. apply finditer_from_sound; [exact Hg | apply start_cursor_at]. Qed.

Lemma group_sound (r : regex) (m : rmatch) (n : nat) :
  match_sound G s r m ->
  (forall g, group s m n = Some g -> G n g)
  /\ (mandatory n r -> exists g, group s m n = Some g /\ group_or_empty s m n = g /\ G n g).
Proof.
  intros (_ & _ & Hs & Hm).
  assert (Hfind : forall g, group s m n = Some g -> G n g).
  { unfold group. intros g.
    destruct (find (fun e => fst e =? n) (m_caps m)) as [[n' [a b]]|] eqn:E; [|discriminate].
    intros [= <-]. apply find_some in E as [Hin Hn]. cbn in Hn. apply Nat.eqb_eq in Hn.
    unfold caps_sound in Hs. rewrite List.Forall_forall in Hs.
    specialize (Hs _ Hin). cbn in Hs. rewrite <- Hn. exact Hs. }
  split; [exact Hfind|].
  intros Hmand. apply Hm in Hmand. apply in_map_iff in Hmand as ([n' [a b]] & Hn & Hin).
  cbn in Hn. subst n'.
  unfold group_or_empty. unfold group in *.
  destruct (find (fun e => fst e =? n) (m_caps m)) as [[n' [a' b']]|] eqn:E.
  - exists (slice s a' b'). split; [reflexivity|]. split; [reflexivity|].
    apply Hfind. reflexivity.
  - exfalso. eapply find_none in E; [|exact Hin]. cbn in E.
    rewrite Nat.eqb_refl in E. discriminate.
Qed.

End Sound.

(** ** The languages of the building blocks *)

Lemma lang_star_cls (q : ascii -> bool) (p : str) :
  lang (Star (Cls q)) p -> forallb q p = true.
Proof.
  intros (ps & -> & Hps). induction Hps as [|x ps (y & -> & Hy) _ IH]; [reflexivity|].
  cbn. rewrite Hy. exact IH.
Qed.

Lemma lang_plus_cls (q : ascii -> bool) (p : str) :
  lang (Plus (Cls q)) p -> p <> [] /\ forallb q p = true.
Proof.
  intros (p1 & p2 & -> & (x & -> & Hx) & H2). split; [discriminate|].
  cbn. rewrite Hx. apply lang_star_cls, H2.
Qed.

Lemma lang_seqs_cons (a : regex) (l : list regex) (p : str) :
  lang (Seqs (a :: l)) p -> exists p1 p2, p = p1 ++ p2 /\ lang a p1 /\ lang (Seqs l) p2.
Proof.
  destruct l as [|b l]; cbn [Seqs].
  - intros H. exists p, []. rewrite app_nil_r.
    split; [reflexivity|]. split; [exact H | reflexivity].
  - intros H. exact H.
Qed.

End ReLangFacts.

(* ===================================================================== *)
(** * Patterns made of literal text *)
(* ===================================================================== *)

Module ReLiteralFacts.
Import PyStr Re ReSpec ReLangSpec ReLiteralSpec SectionContext.
Import PyStrFacts ReFacts ReLangFacts.

Lemma run_chars (l : str) :
  forall (c : cursor) (k : cursor -> option cursor),
    run (Seqs (map Chr l)) c k
    = match consume l c with Some c' => k c' | None => None end.
Proof.
  induction l as [|x l IH]; intros c k; [reflexivity|].
  destruct l as [|x' l'].
  - cbn. destruct (rest c) as [|y ys]; [reflexivity|]. destruct (ascii_eqb x y); reflexivity.
  - change (Seqs (map Chr (x :: x' :: l'))) with (Seq (Chr x) (Seqs (map Chr (x' :: l')))).
    cbn [run consume Chr]. destruct (rest c) as [|y ys]; [reflexivity|].
    destruct (ascii_eqb x y); [apply IH | reflexivity].
Qed.

Lemma run_Lit (t0 : string) (c : cursor) (k : cursor -> option cursor) :
  run (Lit t0) c k = match consume (lit t0) c with Some c' => k c' | None => None end.
Proof. apply run_chars. Qed.

Lemma consume_rest (l : str) :
  forall c c', consume l c = Some c' -> rest c = l ++ rest c'.
Proof.
  induction l as [|x l IH]; intros c c'; cbn [consume].
  - intros [= ->]. reflexivity.
  - destruct (rest c) as [|y ys] eqn:E; [discriminate|].
    destruct (ascii_eqb x y) eqn:Exy; [|discriminate].
    intros H. apply IH in H. cbn in H. apply ascii_eqb_eq in Exy as ->. rewrite H. reflexivity.
Qed.

Lemma consume_prefix (l : str) :
  forall c t0, rest c = l ++ t0 -> exists c', consume l c = Some c' /\ rest c' = t0.
Proof.
  induction l as [|x l IH]; intros c t0 H; cbn [consume].
  - exists c. split; [reflexivity | exact H].
  - rewrite H. cbn. assert (E : ascii_eqb x x = true) by (apply ascii_eqb_eq; reflexivity).
    rewrite E. apply IH. reflexivity.
Qed.

(** Where a pattern matches depends on the text ahead only: the search
    finds a match exactly when some position has a matching text ahead. *)
Lemma search_from_iff (r : regex) (P : str -> Prop) :
  (forall c, (exists m, match_at r c = Some m) <-> P (rest c)) ->
  forall (fuel : nat) (c : cursor),
    length (rest c) <= fuel ->
    ((exists x, search_from r fuel c = Some x) <-> exists a t0, rest c = a ++ t0 /\ P t0).
Proof.
  intros HP. induction fuel as [|fuel IH]; intros c Hlen.
  - destruct (rest c) as [|y ys] eqn:E; [|simpl in Hlen; lia].
    cbn [search_from]. split.
    + destruct (match_at r c) as [m|] eqn:Em; [|intros [x H]; discriminate].
      intros _. exists [], []. split; [reflexivity|]. rewrite <- E. apply HP. eauto.
    + intros (a & t0 & Ha & Ht). symmetry in Ha. apply app_eq_nil in Ha as [-> ->].
      rewrite <- E in Ht. apply HP in Ht as (m & ->). eauto.
  - cbn [search_from]. destruct (match_at r c) as [m|] eqn:Em.
    + split; [|eauto]. intros _. exists [], (rest c). split; [reflexivity|].
      apply HP. eauto.
    + unfold advance. destruct (rest c) as [|y ys] eqn:E.
      * split; [intros [x H]; discriminate|].
        intros (a & t0 & Ha & Ht). symmetry in Ha. apply app_eq_nil in Ha as [-> ->].
        rewrite <- E in Ht. apply HP in Ht as (m & Hm). congruence.
      * specialize (IH (mkCursor (S (pos c)) (Some y) ys (caps c))).
        cbn [rest] in IH. rewrite IH by (simpl in Hlen; lia). split.
        -- intros (a & t0 & -> & Ht). exists (y :: a), t0. split; [reflexivity | exact Ht].
        -- intros (a & t0 & Ha & Ht). destruct a as [|y' a].
           ++ cbn in Ha. rewrite <- Ha, <- E in Ht. apply HP in Ht as (m & Hm). congruence.
           ++ injection Ha as -> ->. exists a, t0. split; [reflexivity | exact Ht].
Qed.

Lemma search_iff (r : regex) (P : str -> Prop) (s : str) :
  (forall c, (exists m, match_at r c = Some m) <-> P (rest c)) ->
  (search r s = true <-> exists a t0, s = a ++ t0 /\ P t0).
Proof.
  intros HP. unfold search.
  rewrite <- (search_from_iff r P HP (length s) (start_cursor s)) by (cbn; lia).
  destruct (search_from r (length s) (start_cursor s)); split; eauto; try discriminate.
  intros [x H]. discriminate.
Qed.

Lemma match_at_iff (r : regex) (c : cursor) :
  (exists m, match_at r c = Some m)
  <-> exists c', run r (mkCursor (pos c) (prev c) (rest c) []) Some = Some c'.
Proof.
  unfold match_at. destruct (run r _ Some); split; eauto; intros [x H]; discriminate.
Qed.

Lemma starts_with_substring (t0 s : str) :
  (exists a b, s = a ++ b /\ starts_with t0 b = true) <-> substring_of t0 s.
Proof.
  split.
  - intros (a & b & -> & H). apply starts_with_app in H as (r & ->). exists a, r. reflexivity.
  - intros (a & b & ->). exists a, (t0 ++ b). split; [reflexivity|].
    apply starts_with_app. eauto.
Qed.

(** ** [consolidat(?:ed|ion)] *)

Lemma consolidated_at (c : cursor) :
  (exists m, match_at consolidated_pattern c = Some m)
  <-> (starts_with (lit "consolidated") (rest c) = true
       \/ starts_with (lit "consolidation") (rest c) = true).
Proof.
  rewrite match_at_iff. unfold consolidated_pattern. cbn [run]. rewrite run_Lit.
  set (c0 := mkCursor (pos c) (prev c) (rest c) []).
  change (rest c) with (rest c0). clearbody c0. split.
  - destruct (consume (lit "consolidat") c0) as [c1|] eqn:E1; [|intros [x H]; discriminate].
    apply consume_rest in E1. rewrite !run_Lit.
    destruct (consume (lit "ed") c1) as [c2|] eqn:E2.
    + intros _. left. apply consume_rest in E2. apply starts_with_app.
      exists (rest c2). rewrite E1, E2. reflexivity.
    + destruct (consume (lit "ion") c1) as [c2|] eqn:E3; [|intros [x H]; discriminate].
      intros _. right. apply consume_rest in E3. apply starts_with_app.
      exists (rest c2). rewrite E1, E3. reflexivity.
  - intros [H|H]; apply starts_with_app in H as (r & Hr).
    + destruct (consume_prefix (lit "consolidat") c0 (lit "ed" ++ r) Hr) as (c1 & -> & H1).
      rewrite !run_Lit.
      destruct (consume_prefix (lit "ed") c1 r H1) as (c2 & -> & _). eauto.
    + destruct (consume_prefix (lit "consolidat") c0 (lit "ion" ++ r) Hr) as (c1 & -> & H1).
      rewrite !run_Lit.
      destruct (consume (lit "ed") c1); [eauto|].
      destruct (consume_prefix (lit "ion") c1 r H1) as (c2 & -> & _). eauto.
Qed.

Lemma search_consolidated (s : str) :
  search consolidated_pattern s = true <-> mentions_consolidated s.
Proof.
  rewrite (search_iff consolidated_pattern
             (fun t0 => starts_with (lit "consolidated") t0 = true
                        \/ starts_with (lit "consolidation") t0 = true) s consolidated_at).
  unfold mentions_consolidated. rewrite <- !starts_with_substring. split.
  - intros (a & b & E & [H|H]); [left | right]; eauto.
  - intros [(a & b & E & H)|(a & b & E & H)]; exists a, b; auto.
Qed.

(** ** [standalone|stand\s*alone|separate] *)

Lemma pass_rest (w : str) :
  forall (c : cursor) (t0 : str), rest c = w ++ t0 -> rest (pass (length w) c) = t0.
Proof.
  induction w as [|x w IH]; intros c t0 H; cbn [pass length]; [exact H|].
  rewrite H. cbn. apply IH. reflexivity.
Qed.

(** A greedy repetition of one character class takes a whole run of such
    characters when the continuation succeeds behind the run. *)
Lemma star_cls_greedy (q : ascii -> bool) (k : cursor -> option cursor) (t0 : str)
    (res : cursor) :
  match t0 with x :: _ => q x = false | [] => True end ->
  forall (w : str) (fuel : nat) (c : cursor),
    rest c = w ++ t0 -> forallb q w = true -> length w < fuel ->
    k (pass (length w) c) = Some res ->
    (fix loop (fuel : nat) (c : cursor) {struct fuel} : option cursor :=
       match fuel with
       | O => k c
       | S fuel' =>
           match run (Cls q) c (fun c' => if pos c <? pos c' then loop fuel' c' else None) with
           | Some res => Some res
           | None => k c
           end
       end) fuel c = Some res.
Proof.
  intros Ht.
  set (loop := fix loop (fuel : nat) (c : cursor) {struct fuel} : option cursor :=
       match fuel with
       | O => k c
       | S fuel' =>
           match run (Cls q) c (fun c' => if pos c <? pos c' then loop fuel' c' else None) with
           | Some res => Some res
           | None => k c
           end
       end).
  assert (Hstep : forall fuel c,
             loop (S fuel) c
             = match run (Cls q) c (fun c' => if pos c <? pos c' then loop fuel c' else None) with
               | Some res => Some res
               | None => k c
               end) by reflexivity.
  induction w as [|x w IH]; intros fuel c Hrest Hq Hfuel Hk.
  - destruct fuel as [|fuel]; [cbn in Hfuel; lia|].
    rewrite Hstep. cbn [run]. cbn in Hrest. rewrite Hrest.
    destruct t0 as [|y t1]; [exact Hk|]. rewrite Ht. exact Hk.
  - destruct fuel as [|fuel]; [cbn in Hfuel; lia|].
    rewrite Hstep. cbn [run]. rewrite Hrest. cbn [app]. cbn in Hq.
    apply andb_true_iff in Hq as [Hx Hw].
    rewrite Hx. cbn [pos].
    destruct (Nat.ltb_spec (pos c) (S (pos c))); [|lia].
    cbn [pass length] in Hk. rewrite Hrest in Hk. cbn [app] in Hk.
    rewrite (IH fuel (mkCursor (S (pos c)) (Some x) (w ++ t0) (caps c)) eq_refl Hw
                ltac:(cbn in Hfuel; lia) Hk).
    reflexivity.
Qed.

Lemma cursor_at_exists (c : cursor) : exists s, cursor_at s c.
Proof.
  exists (repeat " "%char (pos c) ++ rest c). split.
  - generalize (pos c) as n. intros n. induction n as [|n IH]; [reflexivity | exact IH].
  - rewrite length_app, repeat_length. lia.
Qed.

Lemma stand_alone_at (c : cursor) :
  (exists c', run (Seqs [Lit "stand"; Star Space; Lit "alone"]) c Some = Some c')
  <-> exists w t0, rest c = lit "stand" ++ w ++ lit "alone" ++ t0
                   /\ forallb is_space w = true.
Proof.
  change (Seqs [Lit "stand"; Star Space; Lit "alone"])
    with (Seq (Lit "stand") (Seq (Star Space) (Lit "alone"))).
  cbn [run]. rewrite run_Lit. split.
  - destruct (consume (lit "stand") c) as [c1|] eqn:E1; [|intros [x H]; discriminate].
    apply consume_rest in E1. intros [c' H].
    destruct (cursor_at_exists c1) as (s & Hat).
    destruct (run_moves (fun _ _ => True) s (Star Space) I c1
                (fun c2 => run (Lit "alone") c2 Some) c' Hat H) as (c2 & M & Hk).
    destruct M as (w & _ & Hr & _ & _ & Hw & _).
    rewrite run_Lit in Hk.
    destruct (consume (lit "alone") c2) as [c3|] eqn:E3; [|discriminate].
    apply consume_rest in E3.
    exists w, (rest c3). split; [|apply lang_star_cls, Hw].
    rewrite E1, Hr, E3. reflexivity.
  - intros (w & t0 & Hr & Hw).
    destruct (consume_prefix (lit "stand") c (w ++ lit "alone" ++ t0) Hr) as (c1 & -> & H1).
    assert (Hk : exists c', run (Lit "alone") (pass (length w) c1) Some = Some c').
    { rewrite run_Lit.
      destruct (consume_prefix (lit "alone") (pass (length w) c1) t0
                  (pass_rest w c1 _ H1)) as (c3 & -> & _). eauto. }
    destruct Hk as [c' Hk]. exists c'.
    apply (star_cls_greedy is_space (fun c2 => run (Lit "alone") c2 Some)
             (lit "alone" ++ t0) c' eq_refl w (S (length (rest c1))) c1 H1 Hw).
    + rewrite H1, length_app. lia.
    + exact Hk.
Qed.

Lemma lit_at (t0 : string) (c : cursor) :
  (exists c', run (Lit t0) c Some = Some c') <-> starts_with (lit t0) (rest c) = true.
Proof.
  rewrite run_Lit. split.
  - destruct (consume (lit t0) c) as [c1|] eqn:E; [|intros [x H]; discriminate].
    intros _. apply starts_with_app. exists (rest c1). apply consume_rest, E.
  - intros H. apply starts_with_app in H as (r & Hr).
    destruct (consume_prefix (lit t0) c r Hr) as (c1 & -> & _). eauto.
Qed.

Lemma alt_at (a b : regex) (c : cursor) :
  (exists c', run (Alt a b) c Some = Some c')
  <-> ((exists c', run a c Some = Some c') \/ (exists c', run b c Some = Some c')).
Proof.
  cbn [run]. destruct (run a c Some) as [c1|]; split; eauto.
  - intros [[x H]|H]; [discriminate | exact H].
Qed.

Lemma standalone_at (c : cursor) :
  (exists m, match_at standalone_pattern c = Some m)
  <-> ((exists w t0, rest c = lit "stand" ++ w ++ lit "alone" ++ t0
                     /\ forallb is_space w = true)
       \/ starts_with (lit "separate") (rest c) = true).
Proof.
  rewrite match_at_iff. unfold standalone_pattern.
  set (c0 := mkCursor (pos c) (prev c) (rest c) []).
  change (rest c) with (rest c0). clearbody c0.
  rewrite !alt_at, !lit_at, stand_alone_at. split.
  - intros [H|[H|H]]; [|left; exact H | right; exact H].
    left. apply starts_with_app in H as (r & Hr). exists [], r.
    split; [exact Hr | reflexivity].
  - intros [H|H]; [right; left; exact H | right; right; exact H].
Qed.

Lemma search_standalone (s : str) :
  search standalone_pattern s = true <-> mentions_standalone s.
Proof.
  rewrite (search_iff standalone_pattern
             (fun t1 => (exists w t0, t1 = lit "stand" ++ w ++ lit "alone" ++ t0
                                      /\ forallb is_space w = true)
                        \/ starts_with (lit "separate") t1 = true) s standalone_at).
  unfold mentions_standalone. split.
  - intros (a & b & -> & [(w & t0 & -> & Hw)|H]).
    + left. exists w. split; [exact Hw|]. exists a, t0. rewrite <- !app_assoc. reflexivity.
    + right. apply starts_with_substring. eauto.
  - intros [(w & Hw & a & b & ->)|H].
    + exists a, (lit "stand" ++ w ++ lit "alone" ++ b).
      split; [rewrite <- !app_assoc; reflexivity|]. left. exists w, b. auto.
    + apply starts_with_substring in H as (a & b & E & H). exists a, b. auto.
Qed.

(** X23 (section_context_detector.py,
    [extract_statement_type_from_query]): the statement type of a query is
    decided by plain containment in the lower-cased query, and
    [consolidated] wins.  The answer is [consolidated] exactly when the
    query contains [consolidated] or [consolidation]; it is [standalone]
    exactly when it does not and the query contains [separate], or [stand]
    and [alone] with at most white space between them; otherwise there is
    no answer. *)
Theorem statement_type_of_a_query (query : str) :
  let query_lower := lower query in
  (extract_statement_type_from_query query = Some (lit "consolidated")
   <-> mentions_consolidated query_lower)
  /\ (extract_statement_type_from_query query = Some (lit "standalone")
      <-> ~ mentions_consolidated query_lower /\ mentions_standalone query_lower)
  /\ (extract_statement_type_from_query query = None
      <-> ~ mentions_consolidated query_lower /\ ~ mentions_standalone query_lower).
Proof.
  cbv zeta. unfold extract_statement_type_from_query.
  pose proof (search_consolidated (lower query)) as Hc.
  pose proof (search_standalone (lower query)) as Hs.
  destruct (search consolidated_pattern (lower query));
    destruct (search standalone_pattern (lower query)).
  - assert (mentions_consolidated (lower query)) by (apply Hc; reflexivity).
    split; [tauto|]. split; (split; [intros H'; vm_compute in H'; discriminate | tauto]).
  - assert (mentions_consolidated (lower query)) by (apply Hc; reflexivity).
    split; [tauto|]. split; (split; [intros H'; vm_compute in H'; discriminate | tauto]).
  - assert (~ mentions_consolidated (lower query)) by (intros H'; apply Hc in H'; discriminate).
    assert (mentions_standalone (lower query)) by (apply Hs; reflexivity).
    split; [split; [intros H'; vm_compute in H'; discriminate | tauto]|].
    split; [tauto|]. split; [discriminate | tauto].
  - assert (~ mentions_consolidated (lower query)) by (intros H'; apply Hc in H'; discriminate).
    assert (~ mentions_standalone (lower query)) by (intros H'; apply Hs in H'; discriminate).
    split; [split; [discriminate | tauto]|].
    split; [split; [discriminate | tauto] | tauto].
Qed.

Example statement_types :
  extract_statement_type_from_query (lit "Consolidation vs Standalone") = Some (lit "consolidated")
  /\ extract_statement_type_from_query (lit "Shown separately?") = Some (lit "standalone")
  /\ extract_statement_type_from_query (lit "STAND  ALONE profit") = Some (lit "standalone")
  /\ extract_statement_type_from_query (lit "Total revenue") = None.
Proof. vm_compute. repeat split. Qed.

End ReLiteralFacts.

(* ===================================================================== *)
(** * The form of note numbers and titles *)
(* ===================================================================== *)

Module NoteFormatProps.
Import PyStr Re ReSpec ReLangSpec NoteParser NoteParserSpec NoteFormatSpec SectionContext.
Import PyStrFacts ReFacts NoteParserProps BudgetProps ReLangFacts.

Lemma alpha_is_no_space (x : ascii) : is_alpha_az x = true -> is_space x = false.
Proof. destruct x as [[] [] [] [] [] [] [] []]; vm_compute; congruence. Qed.

Lemma upper_is_alpha (x : ascii) : is_upper_az x = true -> is_alpha_az x = true.
Proof. unfold is_alpha_az. intros ->. reflexivity. Qed.

Lemma alpha_is_title_char (x : ascii) : is_alpha_az x = true -> title_char x = true.
Proof. unfold title_char. intros ->. reflexivity. Qed.

Lemma lang_title (first : ascii -> bool) (p : str) :
  (forall x, first x = true -> is_alpha_az x = true) ->
  lang (Seq (Cls first) (Star (Cls title_char))) p -> title_text p.
Proof.
  intros Hfirst (p1 & p2 & -> & (x & -> & Hx) & H2).
  exists x, p2. split; [reflexivity|]. split; [apply Hfirst, Hx | apply lang_star_cls, H2].
Qed.

Lemma main_note_pattern_sound : groups_sound main_note_groups main_note_pattern.
Proof.
  cbn. repeat match goal with |- _ /\ _ => split end; try exact I; intros p H.
  - exact (lang_plus_cls is_digit p H).
  - exact (lang_title is_alpha_az p (fun x Hx => Hx) H).
Qed.

Lemma main_note_pattern_mandatory :
  mandatory 1 main_note_pattern /\ mandatory 2 main_note_pattern.
Proof. cbn. intuition auto. Qed.

Lemma sub_note_pattern_sound : groups_sound sub_note_groups sub_note_pattern.
Proof.
  cbn. repeat match goal with |- _ /\ _ => split end; try exact I; intros p H.
  - exact (lang_plus_cls is_digit p H).
  - exact (lang_plus_cls is_digit p H).
  - exact (lang_title is_upper_az p upper_is_alpha H).
Qed.

Lemma sub_note_pattern_mandatory :
  mandatory 1 sub_note_pattern /\ mandatory 2 sub_note_pattern /\ mandatory 3 sub_note_pattern.
Proof. cbn. intuition auto. Qed.

Lemma lang_number (p : str) :
  lang (Seq (Plus Digit) (Opt (Seq (Chr ".") (Plus Digit)))) p -> number_or_sub_number p.
Proof.
  intros (p1 & p2 & -> & H1 & [H2 | ->]).
  - destruct H2 as (dot & d2 & -> & (x & -> & Hx) & H2).
    apply ascii_eqb_eq in Hx as <-.
    right. exists p1, d2. split; [reflexivity|].
    split; [exact (lang_plus_cls is_digit p1 H1) | exact (lang_plus_cls is_digit d2 H2)].
  - left. rewrite app_nil_r. exact (lang_plus_cls is_digit p1 H1).
Qed.

Lemma note_query_pattern_sound : groups_sound note_query_groups note_query_pattern.
Proof.
  cbn. repeat match goal with |- _ /\ _ => split end; try exact I; intros p H.
  exact (lang_number p H).
Qed.

Lemma note_query_pattern_mandatory : mandatory 1 note_query_pattern.
Proof. cbn. intuition auto. Qed.

Lemma lstrip_keeps_last (l : str) (x : ascii) :
  is_space x = false -> exists y, lstrip (l ++ [x]) = y ++ [x].
Proof.
  intros Hx. induction l as [|c l IH]; simpl.
  - rewrite Hx. exists []. reflexivity.
  - destruct (is_space c); [exact IH|]. exists (c :: l). reflexivity.
Qed.

Lemma forallb_substring (q : ascii -> bool) (t0 s0 : str) :
  substring_of t0 s0 -> forallb q s0 = true -> forallb q t0 = true.
Proof.
  intros (a & b & ->). rewrite !forallb_app, !andb_true_iff. tauto.
Qed.

Lemma strip_title (g : str) : title_text g -> clean_title (strip g).
Proof.
  intros (x & q & -> & Hx & Hq).
  pose proof (alpha_is_no_space x Hx) as Hsp. split.
  - unfold strip. cbn [lstrip]. rewrite Hsp. unfold rstrip. cbn [rev].
    destruct (lstrip_keeps_last (rev q) x Hsp) as (y & ->).
    rewrite rev_app_distr. cbn. exists x, (rev y). split; [reflexivity | exact Hx].
  - apply (forallb_substring title_char _ (x :: q)); [apply substring_strip|].
    cbn. rewrite (alpha_is_title_char x Hx). exact Hq.
Qed.

Lemma In_Forall {A : Type} (P : A -> Prop) (l : list A) (x : A) :
  Forall P l -> In x l -> P x.
Proof. intros H Hx. rewrite List.Forall_forall in H. apply H, Hx. Qed.

(** X24 (adaptive_chunker.py, [NoteParser.detect_note_boundaries]): the
    number and the title of a detected note are well formed.  The number is
    [Note] followed by a blank and a non-empty run of digits, so that
    removing [Note ] from it, as [parse_note_hierarchy] does, leaves
    exactly the digits.  The title starts with a letter and holds only
    letters, white space, commas, ampersands and parentheses; a line break
    is white space, so a title is not confined to the header line. *)
Theorem detected_note_headers_are_well_formed (text0 : str) (b : NoteBoundary) :
  In b (detect_note_boundaries text0) ->
  (exists d, nb_note_number b = lit "Note " ++ d
             /\ digits d
             /\ replace (nb_note_number b) (lit "Note ") [] = d)
  /\ clean_title (nb_note_title b).
Proof.
  intros Hb. apply detect_boundary_of_match in Hb as (m & e & Hm & _ & -> & _).
  pose proof (In_Forall _ _ m (finditer_sound main_note_groups text0 main_note_pattern
                                 main_note_pattern_sound) Hm) as Hsound.
  destruct main_note_pattern_mandatory as [M1 M2].
  destruct (proj2 (group_sound _ _ _ _ 1 Hsound) M1) as (g1 & _ & E1 & Hg1).
  destruct (proj2 (group_sound _ _ _ _ 2 Hsound) M2) as (g2 & _ & E2 & Hg2).
  cbn [with_end_pos boundary_of_match nb_note_number nb_note_title]. rewrite E1, E2.
  split.
  - exists g1. split; [reflexivity|]. split; [exact Hg1|].
    apply replace_Note_prefix. exact (proj2 Hg1).
  - apply strip_title. exact Hg2.
Qed.

Lemma detected_note_headers_are_well_formed_witness :
  let b := mkNoteBoundary (lit "Note 13") (lit "PPE" ++ [nl] ++ lit "Land") 124 (Some 147) 124 in
  In b (detect_note_boundaries (fst (AdaptiveChunker.join_pages ChunkerSpec.two_note_pages [] [])))
  /\ (exists d, nb_note_number b = lit "Note " ++ d
                /\ digits d
                /\ replace (nb_note_number b) (lit "Note ") [] = d)
  /\ clean_title (nb_note_title b).
Proof.
  cbv zeta. split; [vm_compute; auto|].
  apply (detected_note_headers_are_well_formed
           (fst (AdaptiveChunker.join_pages ChunkerSpec.two_note_pages [] []))).
  vm_compute. auto.
Defined.

(** X25 (adaptive_chunker.py, [NoteParser.parse_note_hierarchy]): every
    sub-note recorded for a note is labelled with the main number of that
    note, a dot and a non-empty run of digits; the main number, what is left
    of the note number without [Note ], then consists of digits itself.  The
    title of the sub-note starts with a letter and holds title characters
    only. *)
Theorem recorded_sub_notes_are_well_formed (note_text note_number : str)
    (e : NoteBoundary) :
  In e (sub_notes (parse_note_hierarchy note_text note_number)) ->
  let main_num := replace note_number (lit "Note ") [] in
  (exists k, nb_note_number e = main_num ++ lit "." ++ k /\ digits k)
  /\ digits main_num
  /\ clean_title (nb_note_title e).
Proof.
  cbv zeta. unfold parse_note_hierarchy. cbn [sub_notes]. intros He.
  apply set_end_positions_In in He as (r & e0 & Hr & ->).
  apply in_map_iff in Hr as (m & <- & Hm).
  apply filter_In in Hm as [Hm Hbelongs].
  unfold belongs_to in Hbelongs. apply str_eqb_eq in Hbelongs.
  pose proof (In_Forall _ _ m (finditer_sound sub_note_groups note_text sub_note_pattern
                                 sub_note_pattern_sound) Hm) as Hsound.
  destruct sub_note_pattern_mandatory as (M1 & M2 & M3).
  destruct (proj2 (group_sound _ _ _ _ 1 Hsound) M1) as (g1 & _ & E1 & Hg1).
  destruct (proj2 (group_sound _ _ _ _ 2 Hsound) M2) as (g2 & _ & E2 & Hg2).
  destruct (proj2 (group_sound _ _ _ _ 3 Hsound) M3) as (g3 & _ & E3 & Hg3).
  cbn [with_end_pos sub_note_of_match nb_note_number nb_note_title].
  rewrite E1 in Hbelongs. rewrite E1, E2, E3. rewrite <- Hbelongs.
  split; [exists g2; split; [reflexivity | exact Hg2]|].
  split; [exact Hg1 | apply strip_title, Hg3].
Qed.

Lemma recorded_sub_notes_are_well_formed_witness :
  let e := mkNoteBoundary (lit "12.1") (lit "Fair Value") 22 (Some 38) 22 in
  In e (sub_notes (parse_note_hierarchy note_12_text (lit "Note 12")))
  /\ (exists k, nb_note_number e = replace (lit "Note 12") (lit "Note ") [] ++ lit "." ++ k
                /\ digits k)
  /\ digits (replace (lit "Note 12") (lit "Note ") [])
  /\ clean_title (nb_note_title e).
Proof.
  cbv zeta. split; [vm_compute; auto|].
  apply (recorded_sub_notes_are_well_formed note_12_text (lit "Note 12")).
  vm_compute. auto.
Defined.

(** X26 (section_context_detector.py, [extract_note_number_from_query]):
    a note number found in a query is [Note] followed by a blank and a
    number that is written in the query: a non-empty run of digits, or two
    of them joined by a dot. *)
Theorem query_note_number_is_read_off_the_query (query n : str) :
  extract_note_number_from_query query = Some n ->
  exists d, n = lit "Note " ++ d /\ number_or_sub_number d /\ substring_of d query.
Proof.
  unfold extract_note_number_from_query, search_match.
  destruct (search_from note_query_pattern (length query) (start_cursor query))
    as [[m c0]|] eqn:S; [|discriminate].
  intros [= <-].
  pose proof (search_from_sound note_query_groups query note_query_pattern _ _ m c0
                note_query_pattern_sound (start_cursor_at query) S) as Hsound.
  destruct (proj2 (group_sound _ _ _ _ 1 Hsound) note_query_pattern_mandatory)
    as (g & Hg & E & HG).
  exists g. rewrite E. split; [reflexivity|]. split; [exact HG|].
  unfold group in Hg.
  destruct (find (fun e => fst e =? 1) (m_caps m)) as [[n' [a b]]|]; [|discriminate].
  injection Hg as <-. apply substring_slice.
Qed.

Lemma query_note_number_is_read_off_the_query_witness :
  extract_note_number_from_query (lit "What does notes no. 12.1 say?") = Some (lit "Note 12.1")
  /\ exists d, lit "Note 12.1" = lit "Note " ++ d /\ number_or_sub_number d
               /\ substring_of d (lit "What does notes no. 12.1 say?").
Proof.
  split; [vm_compute; reflexivity|].
  apply (query_note_number_is_read_off_the_query (lit "What does notes no. 12.1 say?")).
  vm_compute. reflexivity.
Defined.

End NoteFormatProps.

(* ===================================================================== *)
(** * The query engine *)
(* ===================================================================== *)

Module QueryProps.
Import PyStr PyFloat PySorted RetrievalTypes Dedup HybridRetrieval DedupSpec RetrievalSpec.
Import SectionContext QueryEngine QuerySpec.
Import PyStrFacts SortProps DedupProps RetrievalProps DedupMoreProps RetrievalMoreProps.

Lemma tier_eqb_eq (a b : Tier) : tier_eqb a b = true <-> a = b.
Proof. destruct a, b; cbn; split; congruence. Qed.

Lemma tier_set_In (rs : list RetrievalResult) (tier : Tier) :
  In tier (tier_set rs) <-> In tier (map retrieval_tier rs).
Proof.
  induction rs as [|r rs IH]; [reflexivity|]. cbn [tier_set map].
  destruct (existsb (tier_eqb (retrieval_tier r)) (tier_set rs)) eqn:E.
  - apply existsb_exists in E as (t' & Ht' & Et). apply tier_eqb_eq in Et. subst t'.
    rewrite IH. split; [right; assumption|]. intros [<-|H]; [apply IH, Ht' | exact H].
  - cbn [In]. rewrite IH. reflexivity.
Qed.

Lemma tier_set_distinct (rs : list RetrievalResult) (t1 t2 : Tier) (rest : list Tier) :
  tier_set rs = t1 :: t2 :: rest -> t1 <> t2.
Proof.
  revert t1 t2 rest. induction rs as [|r rs IH]; intros t1 t2 rest; [discriminate|].
  cbn [tier_set].
  destruct (existsb (tier_eqb (retrieval_tier r)) (tier_set rs)) eqn:E; [apply IH|].
  intros [= Ht Hrest] Heq. subst t1.
  assert (Hin : In (retrieval_tier r) (tier_set rs))
    by (rewrite Hrest; left; symmetry; exact Heq).
  assert (existsb (tier_eqb (retrieval_tier r)) (tier_set rs) = true).
  { apply existsb_exists. exists (retrieval_tier r). split; [exact Hin|].
    apply tier_eqb_eq. reflexivity. }
  congruence.
Qed.

Lemma several_tiers (rs : list RetrievalResult) :
  (1 <? length (tier_set rs)) = true
  <-> exists r1 r2, In r1 rs /\ In r2 rs /\ retrieval_tier r1 <> retrieval_tier r2.
Proof.
  split.
  - intros H. apply Nat.ltb_lt in H.
    destruct (tier_set rs) as [|t1 [|t2 rest]] eqn:E; cbn in H; [lia | lia |].
    pose proof (tier_set_distinct rs t1 t2 rest E) as Hne.
    assert (H1 : In t1 (map retrieval_tier rs)) by (apply tier_set_In; rewrite E; cbn; auto).
    assert (H2 : In t2 (map retrieval_tier rs)) by (apply tier_set_In; rewrite E; cbn; auto).
    apply in_map_iff in H1 as (r1 & <- & Hr1). apply in_map_iff in H2 as (r2 & <- & Hr2).
    exists r1, r2. auto.
  - intros (r1 & r2 & Hr1 & Hr2 & Hne). apply Nat.ltb_lt.
    assert (H1 : In (retrieval_tier r1) (tier_set rs)) by (apply tier_set_In, in_map, Hr1).
    assert (H2 : In (retrieval_tier r2) (tier_set rs)) by (apply tier_set_In, in_map, Hr2).
    destruct (tier_set rs) as [|t1 [|t2 rest]]; cbn; [contradiction | | lia].
    destruct H1 as [E1|[]]. destruct H2 as [E2|[]]. congruence.
Qed.

Lemma tier_name_inj (a b : Tier) : tier_name a = tier_name b -> a = b.
Proof. destruct a, b; intros H; try reflexivity; vm_compute in H; discriminate. Qed.

Lemma tier_name_not_hybrid (a : Tier) : tier_name a <> lit "hybrid".
Proof. destruct a; intros H; vm_compute in H; discriminate. Qed.

Lemma sorted_map {A B : Type} (R : A -> A -> Prop) (R' : B -> B -> Prop) (f : A -> B)
    (l : list A) :
  (forall a b, R a b -> R' (f a) (f b)) ->
  StronglySorted R l -> StronglySorted R' (map f l).
Proof.
  intros Hf. induction 1 as [|x l Hs IH Hall]; cbn; constructor; [exact IH|].
  rewrite List.Forall_map. eapply List.Forall_impl; [|exact Hall]. intros b. apply Hf.
Qed.

Section WithOracles.

Variable arrangement : Arrangement.

Variable ratio : str -> str -> Q.
Variable exn_str : PyExn -> str.

(** The exits of [query]: an exception, no results, or results with the
    sources made of them. *)
Lemma query_exits (self : System) (q company_id : str) (top_k : Z)
    (section_filters : option (list str)) :
  let response := query arrangement ratio exn_str self q company_id top_k section_filters in
  (qr_sources response = []
   /\ qr_success response = false
   /\ (qr_retrieval_tier_used response = lit "error"
       \/ qr_retrieval_tier_used response = lit "none"))
  \/ (exists first results llm_response,
        retrieve arrangement ratio (retrieval_engine self) q company_id top_k section_filters
                 (extract_statement_type_from_query q) (extract_note_number_from_query q)
                 true (75 # 100) = Ok (first :: results)
        /\ extract_answer self q (format_chunks_for_llm (first :: results))
                          (extract_statement_type_from_query q) (_detect_query_type q)
           = Ok llm_response
        /\ qr_sources response = _format_sources (first :: results)
        /\ qr_success response = llm_success llm_response
        /\ (qr_success response = true -> qr_error response = None)
        /\ qr_retrieval_tier_used response
           = if 1 <? length (tier_set (first :: results)) then lit "hybrid"
             else tier_name (retrieval_tier first)).
Proof.
  cbv zeta. unfold query, query_body.
  destruct (retrieve arrangement ratio (retrieval_engine self) q company_id top_k section_filters
              (extract_statement_type_from_query q) (extract_note_number_from_query q)
              true (75 # 100)) as [[|first results]|e] eqn:Er; cbn [bind].
  - left. cbn. auto.
  - destruct (extract_answer self q _ _ _) as [llm_response|e] eqn:El; cbn [bind].
    + right. exists first, results, llm_response.
      split; [reflexivity|]. split; [exact El|].
      destruct (llm_success llm_response) eqn:Es; cbn; repeat split; congruence.
    + left. cbn. auto.
  - left. cbn. auto.
Qed.

(** X27 (query_engine.py, [FinancialRAGV2.query] over
    [HybridRetrievalEngine.retrieve]): a failing vector index makes the
    whole query fail.  When the connection is alive and the query is
    embedded but the vector query raises, the response is the error
    response: no sources, tier [error], the text of the exception as error,
    whatever the keyword index and the model could have answered. *)
Theorem vector_index_failure_fails_the_query (self : System) (q company_id : str)
    (top_k : Z) (section_filters : option (list str)) (e : PyExn) :
  _ensure_connection (retrieval_engine self) = Ok tt ->
  er_success (embed_single (retrieval_engine self) q) = true ->
  vector_execute (retrieval_engine self)
    (er_embedding (embed_single (retrieval_engine self) q))
    (sql_query company_id (top_k * 3) section_filters
               (extract_statement_type_from_query q) (extract_note_number_from_query q))
  = Raise e ->
  query arrangement ratio exn_str self q company_id top_k section_filters
  = mkQueryResponse q (lit "Error processing query: " ++ exn_str e) []
                    (lit "error") (lit "none") false (Some (exn_str e)).
Proof.
  intros Hc He Hv. unfold query, query_body.
  rewrite (vector_failure_propagates arrangement ratio (retrieval_engine self) q company_id top_k
             section_filters (extract_statement_type_from_query q)
             (extract_note_number_from_query q) true (75 # 100) e Hc He Hv).
  reflexivity.
Qed.

(** X28 (query_engine.py, [FinancialRAGV2.query] and [_format_sources]):
    what the sources of a response look like, whatever happens.  No chunk is
    cited twice, there are at most [top_k] sources and none for a [top_k]
    of zero or less; a successful response cites at least one source and
    carries no error.  When none of the scores that the two tiers found is
    NaN after the boost of the rerank stage, the sources are ordered by
    descending score. *)
Theorem query_sources_are_ranked (self : System) (q company_id : str) (top_k : Z)
    (section_filters : option (list str)) :
  let response := query arrangement ratio exn_str self q company_id top_k section_filters in
  NoDup (map src_chunk_id (qr_sources response))
  /\ (no_nan (boosted q section_filters
                      (found (retrieval_engine self) q company_id top_k section_filters
                             (extract_statement_type_from_query q)
                             (extract_note_number_from_query q))) ->
      StronglySorted ge_source_score (qr_sources response))
  /\ (Z.of_nat (length (qr_sources response)) <= Z.max 0 top_k)%Z
  /\ (qr_success response = true ->
      qr_sources response <> [] /\ qr_error response = None).
Proof.
  cbv zeta.
  destruct (query_exits self q company_id top_k section_filters)
    as [(-> & -> & _)|(first & results & llm & Hr & _ & -> & Hs & He & _)].
  - cbn. split; [constructor|]. split; [intros _; constructor|]. split; [lia | discriminate].
  - destruct (retrieve_ranked arrangement ratio _ _ _ _ _ _ _ _ _ _ Hr)
      as (Hsorted & Hnd & _ & Hdedup).
    destruct (Hdedup eq_refl) as [Hlen _].
    split; [|split; [|split]].
    + unfold _format_sources. rewrite map_map. exact Hnd.
    + intros Hn. unfold _format_sources. eapply sorted_map; [|exact (Hsorted Hn)].
      intros a b H. exact H.
    + unfold _format_sources. rewrite length_map. exact Hlen.
    + intros H. split; [discriminate | apply He, H].
Qed.

(** X29 (query_engine.py, [FinancialRAGV2.query]): what the tier of a
    response says.  It is [hybrid] exactly when two of the cited sources
    carry different tiers.  As [re-ranked] is a tier of its own, [hybrid]
    does not tell that both the vector and the keyword index contributed. *)
Theorem hybrid_means_sources_of_different_tiers (self : System) (q company_id : str)
    (top_k : Z) (section_filters : option (list str)) :
  let response := query arrangement ratio exn_str self q company_id top_k section_filters in
  qr_retrieval_tier_used response = lit "hybrid"
  <-> exists s1 s2, In s1 (qr_sources response) /\ In s2 (qr_sources response)
                    /\ src_tier s1 <> src_tier s2.
Proof.
  cbv zeta.
  destruct (query_exits self q company_id top_k section_filters)
    as [(-> & _ & Ht)|(first & results & llm & _ & _ & -> & _ & _ & ->)].
  - split; [|intros (s1 & _ & [] & _)].
    destruct Ht as [-> | ->]; intros H; vm_compute in H; discriminate.
  - destruct (1 <? length (tier_set (first :: results))) eqn:E.
    + split; [intros _ | reflexivity].
      apply several_tiers in E as (r1 & r2 & H1 & H2 & Hne).
      eexists _, _. split; [apply in_map, H1|]. split; [apply in_map, H2|].
      cbn. intros H. apply Hne, tier_name_inj, H.
    + split; [intros H; contradiction (tier_name_not_hybrid _ H)|].
      intros (s1 & s2 & H1 & H2 & Hne).
      apply in_map_iff in H1 as (r1 & <- & H1). apply in_map_iff in H2 as (r2 & <- & H2).
      assert ((1 <? length (tier_set (first :: results))) = true).
      { apply several_tiers. exists r1, r2. split; [exact H1|]. split; [exact H2|].
        intros Heq. apply Hne. cbn. rewrite Heq. reflexivity. }
      congruence.
Qed.

End WithOracles.

Lemma vector_index_failure_fails_the_query_witness :
  _ensure_connection (retrieval_engine system_D) = Ok tt
  /\ er_success (embed_single (retrieval_engine system_D) (lit "revenue")) = true
  /\ query as_found (fun _ _ => 0%Q) (fun _ => lit "index down") system_D (lit "revenue")
           (lit "acme") 5 None
     = mkQueryResponse (lit "revenue") (lit "Error processing query: " ++ lit "index down") []
                       (lit "error") (lit "none") false (Some (lit "index down")).
Proof.
  split; [reflexivity|]. split; [reflexivity|].
  apply (vector_index_failure_fails_the_query as_found (fun _ _ => 0%Q) (fun _ => lit "index down")
           system_D (lit "revenue") (lit "acme") 5 None OperationalError);
    reflexivity.
Defined.

Lemma query_sources_are_ranked_witness :
  let response := query as_found (fun _ _ => 0%Q) (fun _ => []) vector_only (lit "equity")
                        (lit "acme") 5 None in
  no_nan (boosted (lit "equity") None
                  (found (retrieval_engine vector_only) (lit "equity") (lit "acme") 5 None
                         (extract_statement_type_from_query (lit "equity"))
                         (extract_note_number_from_query (lit "equity"))))
  /\ map src_chunk_id (qr_sources response) = [lit "v1"; lit "v2"]
  /\ StronglySorted ge_source_score (qr_sources response).
Proof.
  cbv zeta.
  assert (Hn : no_nan (boosted (lit "equity") None
                         (found (retrieval_engine vector_only) (lit "equity") (lit "acme") 5
                                None (extract_statement_type_from_query (lit "equity"))
                                (extract_note_number_from_query (lit "equity")))))
    by (vm_compute; repeat constructor).
  split; [exact Hn|]. split; [vm_compute; reflexivity|].
  exact (proj1 (proj2 (query_sources_are_ranked as_found (fun _ _ => 0%Q) (fun _ => [])
                         vector_only (lit "equity") (lit "acme") 5 None)) Hn).
Defined.

(** Two results of the vector tier, one of them boosted: the response is
    labelled [hybrid] although the keyword tier found nothing. *)
Example hybrid_without_keyword_results :
  let response := query as_found (fun _ _ => 0%Q) (fun _ => []) vector_only (lit "equity")
                        (lit "acme") 5 None in
  map src_tier (qr_sources response) = [lit "re-ranked"; lit "vector"]
  /\ qr_retrieval_tier_used response = lit "hybrid"
  /\ qr_success response = true.
Proof. vm_compute. repeat split. Qed.

End QueryProps.

(* ===================================================================== *)
(** * No chunk is empty *)
(* ===================================================================== *)

Module NonEmptyProps.
Import PyStr Re ReSpec ReLangSpec NoteParser AdaptiveChunker NoteParserSpec ChunkerSpec.
Import ChunkSchemaSpec NoteFormatSpec InkSpec.
Import PyStrFacts ReFacts NoteParserProps NoteChunkProps NoteRangeProps ChunkSchemaProps.
Import BudgetProps ReLangFacts NoteFormatProps.

Lemma ink_strip (p : str) : has_ink p -> strip p <> [].
Proof.
  intros (c & Hc & Hsp) E. eapply in_nil. rewrite <- E. apply strip_keeps; eassumption.
Qed.

Lemma ink_substring (p s : str) : substring_of p s -> has_ink p -> has_ink s.
Proof.
  intros (a & b & ->) (c & Hc & Hsp). exists c. split; [|exact Hsp].
  apply in_or_app. right. apply in_or_app. left. exact Hc.
Qed.

Lemma digit_is_no_space (x : ascii) : is_digit x = true -> is_space x = false.
Proof. destruct x as [[] [] [] [] [] [] [] []]; vm_compute; congruence. Qed.

Lemma digits_ink (p : str) : digits p -> has_ink p.
Proof.
  intros [Hne Hd]. destruct p as [|x p]; [contradiction|].
  cbn in Hd. apply andb_true_iff in Hd as [Hx _].
  exists x. split; [left; reflexivity | apply digit_is_no_space, Hx].
Qed.

Lemma header_ink (number title : str) : has_ink (make_note_header number title).
Proof.
  exists "-"%char. split; [|reflexivity]. unfold make_note_header.
  apply in_or_app. right. cbn. auto.
Qed.

Lemma filter_sublist {A : Type} (f : A -> bool) (l : list A) : sublist (List.filter f l) l.
Proof.
  induction l as [|x l IH]; cbn; [constructor|].
  destruct (f x); [apply sublist_skip | apply sublist_cons]; exact IH.
Qed.

(** An entry ends behind the match it was made of. *)
Lemma set_end_positions_behind (s : str) (f : rmatch -> NoteBoundary) (ms : list rmatch) :
  (forall m, nb_start_pos (f m) = m_start m) ->
  Forall (match_ok s) ms ->
  StronglySorted (fun a b => m_end a <= m_start b) ms ->
  forall e, In e (set_end_positions (map f ms) (length s)) ->
    exists m en, In m ms /\ e = with_end_pos (f m) en /\ m_end m <= en.
Proof.
  intros Hf. induction ms as [|m ms IH]; intros Hok Hs e He; [contradiction|].
  inversion Hok as [|? ? Hm Hok']; subst. inversion Hs as [|? ? Hs' Hall]; subst.
  destruct ms as [|m' ms].
  - cbn in He. destruct He as [<-|[]]. exists m, (length s).
    split; [left; reflexivity|]. split; [reflexivity|]. destruct Hm as (_ & H & _). exact H.
  - cbn [map] in He. rewrite set_end_positions_two in He. destruct He as [<-|He].
    + exists m, (nb_start_pos (f m')). split; [left; reflexivity|]. split; [reflexivity|].
      rewrite Hf. inversion Hall; subst. assumption.
    + destruct (IH Hok' Hs' e He) as (m0 & en & Hin & -> & Hle).
      exists m0, en. split; [right; exact Hin | auto].
Qed.

(** The text between the start of a match and a position behind its end
    holds what group [n] of the match captured. *)
Lemma group_in_range (G : nat -> str -> Prop) (s : str) (r : regex) (m : rmatch)
    (n en : nat) :
  match_sound G s r m -> mandatory n r -> m_end m <= en ->
  exists g, G n g /\ substring_of g (slice s (m_start m) en).
Proof.
  intros Hsound Hmand Hen.
  destruct (proj2 (group_sound G s r m n Hsound) Hmand) as (g & _ & E & HG).
  exists g. split; [exact HG|]. rewrite <- E.
  apply group_within; [exact (proj1 Hsound) | lia | exact Hen].
Qed.

Lemma note_range_ink (text0 : str) (b : NoteBoundary) :
  In b (detect_note_boundaries text0) -> has_ink (slice_of text0 b).
Proof.
  intros Hb. apply detect_boundary_of_match in Hb as (m & e & Hm & _ & -> & Hle).
  pose proof (In_Forall _ _ m (finditer_sound main_note_groups text0 main_note_pattern
                                 main_note_pattern_sound) Hm) as Hsound.
  destruct (group_in_range _ _ _ _ 1 e Hsound (proj1 main_note_pattern_mandatory) Hle)
    as (g & Hg & Hsub).
  unfold slice_of. cbn. eapply ink_substring; [exact Hsub | apply digits_ink, Hg].
Qed.

Lemma sub_note_range_ink (note_text number : str) (e : NoteBoundary) :
  In e (sub_notes (parse_note_hierarchy note_text number)) ->
  has_ink (slice_of note_text e).
Proof.
  unfold parse_note_hierarchy. cbn [sub_notes]. intros He.
  set (ms := List.filter (fun m => belongs_to note_text (replace number (lit "Note ") []) m)
                         (finditer sub_note_pattern note_text)) in *.
  assert (Hsub : sublist ms (finditer sub_note_pattern note_text)) by apply filter_sublist.
  destruct (finditer_ok sub_note_pattern note_text) as [Hok Hsorted].
  assert (Hok' : Forall (match_ok note_text) ms).
  { apply List.Forall_forall. intros m Hm. eapply In_Forall; [exact Hok|].
    eapply RetrievalMoreProps.sublist_In; eassumption. }
  pose proof (SortProps.sorted_sublist _ _ _ Hsub Hsorted) as Hsorted'.
  destruct (set_end_positions_behind note_text (sub_note_of_match note_text) ms
              (fun m => eq_refl) Hok' Hsorted' e He) as (m & en & Hm & -> & Hle).
  assert (Hin : In m (finditer sub_note_pattern note_text))
    by (eapply RetrievalMoreProps.sublist_In; eassumption).
  pose proof (In_Forall _ _ m (finditer_sound sub_note_groups note_text sub_note_pattern
                                 sub_note_pattern_sound) Hin) as Hsound.
  destruct (group_in_range _ _ _ _ 1 en Hsound (proj1 sub_note_pattern_mandatory) Hle)
    as (g & Hg & Hg').
  unfold slice_of. cbn. eapply ink_substring; [exact Hg' | apply digits_ink, Hg].
Qed.

Section NoteChunks.

Variables (self : t) (number title header : str) (pages : list Z).

Lemma headed_nonempty (body : str) : has_ink header -> header ++ body <> [].
Proof.
  intros (c & Hc & _) E. apply app_eq_nil in E as [E _]. rewrite E in Hc. contradiction.
Qed.

Lemma headed_strip_nonempty (body : str) : has_ink header -> strip (header ++ body) <> [].
Proof.
  intros Hh. apply ink_strip. eapply ink_substring; [|exact Hh].
  exists [], body. reflexivity.
Qed.

Lemma pack_fold_nonempty (elements : list Element)
    (st : list Chunk * str * list ElementType) :
  has_ink header ->
  (exists tail, snd (fst st) = header ++ tail) ->
  Forall (fun c => text c <> []) (fst (fst st)) ->
  (exists tail, snd (fst (fold_left (pack_step self header pages number title) elements st))
                = header ++ tail)
  /\ Forall (fun c => text c <> [])
            (fst (fst (fold_left (pack_step self header pages number title) elements st))).
Proof.
  intros Hh. revert st.
  induction elements as [|el elements IH]; intros [[chunks cur] els] Hcur Hc;
    [split; assumption|].
  cbn [fold_left]. apply IH; unfold pack_step; cbn [fst snd] in *.
  - destruct (_ && _); cbn [fst snd].
    + exists ([nl; nl] ++ e_text el). reflexivity.
    + destruct Hcur as (tail & ->). exists (tail ++ [nl; nl] ++ e_text el).
      rewrite <- app_assoc. reflexivity.
  - destruct (_ && _); cbn [fst snd]; [|exact Hc].
    apply Forall_app. split; [exact Hc|]. constructor; [|constructor].
    destruct Hcur as (tail & ->). cbn [text mixed_chunk]. apply headed_strip_nonempty, Hh.
Qed.

Lemma chunk_large_note_nonempty (note_text : str) :
  has_ink header ->
  Forall (fun c => text c <> [])
         (_chunk_large_note_by_elements self note_text header number title pages).
Proof.
  intros Hh. unfold _chunk_large_note_by_elements.
  match goal with
  | |- context [fold_left ?f ?items ?st] =>
      pose proof (pack_fold_nonempty items st Hh) as Hf;
      destruct (fold_left f items st) as [[chunks cur] els]
  end.
  cbn [fst snd] in Hf.
  destruct Hf as [(tail & ->) Hc]; [exists []; rewrite app_nil_r; reflexivity | constructor|].
  assert (Hc' : Forall (fun c => text c <> [])
                  (if negb (str_eqb (strip (header ++ tail)) (strip header))
                   then chunks ++ [mixed_chunk (header ++ tail) pages number title]
                   else chunks)).
  { destruct (negb _); [|exact Hc]. apply Forall_app. split; [exact Hc|].
    constructor; [|constructor]. cbn [text mixed_chunk]. apply headed_strip_nonempty, Hh. }
  destruct (nonempty _); [exact Hc'|].
  constructor; [|constructor]. cbn [text]. apply headed_nonempty, Hh.
Qed.

Lemma chunk_note_subsections_nonempty (text0 sub : str) :
  has_ink header -> text0 <> [] ->
  Forall (fun c => text c <> [])
         (_chunk_note_subsections self text0 header number sub pages).
Proof.
  intros Hh Hne. unfold _chunk_note_subsections.
  destruct (nonempty (sub_section_bounds text0)).
  - apply List.Forall_forall. intros c Hc. apply in_map_iff in Hc as (b & <- & _).
    cbn [text section_chunk]. apply headed_nonempty, Hh.
  - destruct (len (header ++ text0) >? max_chunk_size self * 2)%Z.
    + apply List.Forall_forall. intros c Hc. apply in_map_iff in Hc as (pc & <- & Hpc).
      destruct (chunk_paragraph_element self (first_page_or_1 pages) text0) as [_ Hall].
      destruct (In_Forall _ _ pc Hall Hpc) as (t0 & ty & critical & -> & _ & Ht & _).
      cbn. destruct Ht as [->|Ht]; assumption.
    + constructor; [|constructor]. cbn [text section_chunk]. apply headed_nonempty, Hh.
Qed.

End NoteChunks.

Lemma chunk_note_nonempty (self : t) (note_text number title : str) (pages : list Z) :
  has_ink note_text ->
  Forall (fun c => text c <> []) (_chunk_note self note_text number title pages).
Proof.
  intros Hink. unfold _chunk_note.
  pose proof (header_ink number title) as Hh.
  destruct (Z.of_nat (length (strip note_text)) <=? max_chunk_size self)%Z.
  - constructor; [|constructor]. cbn [text]. apply ink_strip, Hink.
  - destruct (nonempty (sub_notes (parse_note_hierarchy (strip note_text) number))).
    + apply flat_map_Forall. intros b Hb.
      destruct (len (make_note_header number title ++ strip (slice_of (strip note_text) b))
                >? max_chunk_size self)%Z.
      * apply chunk_note_subsections_nonempty; [exact Hh|].
        apply ink_strip. eapply sub_note_range_ink. exact Hb.
      * constructor; [|constructor]. cbn [text section_chunk].
        apply headed_nonempty, Hh.
    + apply chunk_large_note_nonempty, Hh.
Qed.

Lemma note_aware_nonempty (self : t) (pages : list (Z * str)) :
  Forall (fun c => text c <> []) (_chunk_document_note_aware self pages).
Proof.
  pose proof (note_aware_schema self pages) as Hschema.
  unfold _chunk_document_note_aware in *.
  destruct (join_pages pages [] []) as [full_text page_boundaries].
  destruct (negb (nonempty (detect_note_boundaries full_text))).
  - eapply List.Forall_impl; [|apply chunk_pages_schema]. intros c (_ & _ & H). exact H.
  - apply Forall_app. split.
    + unfold note_chunks. apply flat_map_Forall. intros b Hb.
      apply chunk_note_nonempty. apply note_range_ink, Hb.
    + apply Forall_app in Hschema as [_ Hplain].
      apply List.Forall_forall. intros c Hc.
      destruct (In_Forall _ _ c Hplain Hc) as [_ Hne]. apply Hne.
      match type of Hc with
      | In c (flat_map ?f ?l) =>
          assert (Hun : Forall (fun c => note_number c = None) (flat_map f l))
      end.
      { apply flat_map_Forall. intros [start_pos end_pos] _.
        destruct (negb _); [constructor|].
        apply flat_map_Forall. intros el _. apply chunk_element_untagged. }
      exact (In_Forall _ _ c Hun Hc).
Qed.

(** X30 (adaptive_chunker.py, [chunk_document] and everything below it):
    no chunk of a document has an empty text, on either pathway. *)
Theorem no_chunk_is_empty (self : t) (pages : list (Z * str)) :
  Forall (fun c => text c <> []) (chunk_document self pages).
Proof.
  unfold chunk_document. destruct (enable_note_aware self).
  - apply note_aware_nonempty.
  - eapply List.Forall_impl; [|apply chunk_pages_schema]. intros c (_ & _ & H). exact H.
Qed.

End NonEmptyProps.
